(* ===== verification/_CoqProject ===== *)
-Q . S2P
Prelude.v
Admission.v
PyFloat.v
Json.v
PyString.v
Resources.v
Transitions.v
Decision.v
DiskClaims.v
SingleFlight.v
Bytes.v
PyTime.v
ManagedProcess.v
ChunkStore.v
Packs.v
PlacementAccounting.v
PlacementChoice.v
ScaleModels.v
Routes.v
Consolidation.v
RouteStore.v
Programs.v
Demands.v
RoutingSnapshot.v
RouteRecovery.v
RouteMigrations.v
RouteSafety.v
RouteAuthority.v
RouteRefinement.v
WakeAdmission.v
ScalePacking.v
ScaleDown.v
Autoscaler.v
UsageHistory.v
AutoscalerState.v
Reconcile.v
Provider.v
ProviderJournal.v
Reservations.v
ScaleCycle.v
DurableBatch.v
WakePorts.v
WakePlacement.v
CommitPolicy.v
CommitFilter.v
