(* ===== verification/Prelude.v ===== *)
(** * Verification of ucloud-sandboxes

    The repository runs sandboxes for reinforcement-learning jobs on rented virtual
    machines.  A gateway keeps the authoritative routing store: which sandbox exists,
    which incarnation ("generation") of it, and which worker owns it.  Workers run the
    sandboxes, park idle ones on disk and wake them again, and admit work only while
    memory and disk last.  An autoscaler reads the store and the workers' heartbeats,
    decides how many workers to have, and drives the cloud provider through a durable
    journal.  Storage helpers read and write chunked images, and a sandbox can be
    committed into an image layer.  Everything is Python; this library is a shallow
    embedding of the parts whose correctness is a matter of logic.

    ** How code becomes definitions

    - A function that can raise returns [res]: [Ok v] or [Raise e], [e : exn] naming
      the exception class; [let!] sequences (scope [py_scope]).
    - A Python dict is an insertion-ordered association list [dict]; an SQL table is a
      [gmap] keyed by its primary key; a transaction is a function from the tables to a
      result and new tables, and a raise leaves the tables as they were.
    - An int is a [Z] (Python's are unbounded), a float a rational or a special value
      ([PyFloat]), text a [string] of bytes, a datetime a count of microseconds or, in
      rows, its ISO text ([PyTime] proves the two orders agree).
    - Threads: a method is cut into its critical sections, one definition each, and an
      inductive step relation interleaves them in any order.
    - What is outside the repository (SQLite's failures, zstd, SHA-256, tarfile's
      bytes, providers, clocks, random sources, RPC peers) is an argument of the
      definitions that use it; hypotheses on such arguments are named where used and
      instantiated in the witnesses.
    - Where a loop is not structural it takes fuel, and a theorem shows the fuel is
      enough: the packing loop ([ScalePacking]), the admission guard ([Decision]), pack
      and map parsing ([Packs], [ChunkStore]), the copy loop ([CommitFilter.blocks]).

    Every listed property carries its number in the comment above it, and every
    property with hypotheses a witness, a closed instance on concrete data.

    ** Shared files

    - [Prelude]: results, dicts, sorting, sums, the tactics and hint databases.
    - [PyFloat], [Json], [PyString], [PyTime], [Bytes]: floats, decoded JSON, string
      methods, timestamps ([models.parse_iso_datetime] and the part of [datetime] it
      calls: [parse_iso_exact] says which texts are read, and as which instant),
      little-endian records and digests.
    - [Resources]: resource quantities, node observations and resource_admission.py.

    ** Admission on a worker

    - [Admission] (admission.py): [FairCapacity], a FIFO weighted semaphore, and
      [FairRLock].  Capacity is conserved under every interleaving, and no waiter is
      stranded while capacity for the head of the queue is free.
    - [Transitions] (transition_admission.py): the ledger of memory promised to running
      and waiting transitions; running totals equal the sums they stand for.
    - [Decision] (admission_decision.py and the guard of direct_service.py): what is
      granted leaves the ledger within physical memory, and the guard returns.
    - [DiskClaims] (disk_claims.py, hibernation.py, sandbox.py): disk claims and
      hibernation reservations.
    - [SingleFlight] (singleflight_cache.py): a load overtaken by an invalidation never
      publishes.

    ** Storage formats

    - [ChunkStore], [Packs] (chunk_store.py): chunk maps, packs, tail tables; round
      trips, and that the strict parsers accept only what is well formed.
    - [DurableBatch] (durable_batch.py): the batched SQLite journal.  Any number of
      threads, any failures: an acknowledged call is durable and all-or-nothing.  While
      the flusher's closes of its connection succeed no writer waits for ever; a close
      that fails can lose the flusher for good, and strands the writers after it.
    - [CommitPolicy], [CommitFilter] (commit_policy.py): the residue policy, the
      streaming credential scan and [filter_upper].  The scan's verdict does not depend
      on how a body is read; an accepted layer holds nothing the policy drops and no
      live credential, its hard links resolve inside it, and it is the same layer for
      every order of the members.

    ** The routing store (routing.py)

    - [Routes], [RouteStore], [RouteRecovery], [RouteMigrations], [Programs],
      [Demands], [RoutingSnapshot], [ManagedProcess] (managed_process.py): the records
      and one definition per write transaction.
    - [RouteSafety], [RouteAuthority]: every transaction but [upsert_sandbox] is a
      sequence of fenced row steps, and a direct [upsert_sandbox] writes an observation
      back.  Hence the invariant of every reachable store; a generation is not reused
      and a recorded delete stays, except through such a write-back; a late report of
      an older incarnation changes nothing; a migration moves a route atomically.
    - [RouteRefinement]: the store implements a small incarnation registry (simulation),
      with the write-back as a step of its own.
    - [Programs], [Demands], [RoutingSnapshot]: program phases and process records never
      go back; a create takes exactly one reservation; the two readers of demand agree
      on every field, on the CPU totals up to the order of the float sum.

    ** Placement

    - [PlacementAccounting] (placement_accounting.py), [PlacementChoice]
      (placement_choice.py): what a worker is charged for work its heartbeat does not
      show, the in-flight overlay, and the chooser.
    - [Consolidation] (consolidation.py): moves strictly lower a rank, so none bounce.
    - [WakeAdmission] (wake_admission.py): all wakes of a batch on one owner are in one
      chain of admissions, each made with the earlier ones projected.
    - [WakePorts] (gateway/placement.py, worker_receipts.py, lifecycle_commit.py and
      control_plane.py): the occupants of a worker and the decoding of a publication,
      the gateway's own code behind two of wake placement's ports.
    - [WakePlacement] (wake_placement.py, the wake batcher of control_plane.py): the
      placement use case as a program run beside every other writer.  What it places is
      the row its last look at the store showed live for the requested incarnation, and
      the placement lock is never held over a worker call.

    ** The autoscaler

    - [ScaleModels] (models.py), [ScalePacking], [ScaleDown], [Autoscaler] (policy.py):
      one decision, from fleet and demand to creates, stops and soft drains.  Zero extra
      nodes means an assignment of every request; a stop keeps the demand placeable and
      takes no work; creates stay within the limits; at most one worker is soft drained.
    - [UsageHistory] (usage_history.py): remembered peaks.
    - [AutoscalerState] (autoscaler_state.py): the journal of provider operations.
    - [Provider] (providers/base.py), [Reconcile] (reconcile.py), [ProviderJournal],
      [Reservations], [ScaleCycle] (cli.py): submission, recovery and the stopping half
      of a reconcile cycle.  No create is submitted twice across crashes and replays, a
      stop that is journaled strands no sandbox and carries the proof the submission
      demands, and an unsettled create blocks its role.

    ** Not modelled

    - The PostgreSQL form of the store (shared_control/) and of the placement
      reservation ([ports.atomic] of wake_placement.py).
    - Process and host plumbing: dashboard.py, control_plane.py's HTTP handlers,
      node_agent.py, the servers and proxies, vm_init.py, systemd.py, deploy.py,
      bootstrap.py and scripts/.  They call the modelled parts, and what they add is
      HTTP, processes, mounts and files.
    - storage_native_*.py, direct_warden.py, direct_runtime.py, direct_network.py,
      direct_oci.py, environment_*.py, image*.py, chunk_convert.py and
      chunk_store_node.py: drivers of the kernel, gVisor, NBD, EROFS and the
      registries, whose behaviour is that of those systems.
    - providers/ other than base.py, model_relay.py, metrics.py, telemetry.py: adapters
      to outside services and counters.
    - Of the modelled files: SQL schema migrations and read-only queries of routing.py
      that no modelled code uses, the rest of cli.py and direct_service.py, and the
      schema records of commit_policy.py.
    *)
From stdpp Require Export base tactics list strings gmap sets.
From Stdlib Require Export ZArith Lia Sorted.

(** ** Exceptions and fallible results

    Python code that raises is modelled by [res]: [Ok v] is a normal return and
    [Raise e] an exception, [e] naming the class raised and its message. *)

Inductive exn :=
| ValueError (msg : string)
| RuntimeError (msg : string)
| TypeError (msg : string)
| KeyError (msg : string)
| OSError (msg : string)
| AssertionError (msg : string)
| OverflowError (msg : string)
| ZeroDivisionError (msg : string)
| StructError (msg : string)
| LookupError (msg : string)
| AttributeError (msg : string)
| IntegrityError (msg : string)
| SandboxRouteConflictError (msg : string)
| SandboxGroupDeletedError (msg : string)
| AutoscalerStateError (msg : string)
| OperationConflictError (msg : string)
| OperationStateError (msg : string)
| CommitRefused (code msg : string).

Inductive res (A : Type) :=
| Ok (a : A)
| Raise (e : exn).
Arguments Ok {A} _.
Arguments Raise {A} _.

#[export] Instance exn_eq_dec : EqDecision exn.
Proof. solve_decision. Defined.
#[export] Instance res_eq_dec {A} `{EqDecision A} : EqDecision (res A).
Proof. solve_decision. Defined.

Definition res_bind {A B} (c : res A) (k : A → res B) : res B :=
  match c with Ok a => k a | Raise e => Raise e end.

Declare Scope py_scope.
Delimit Scope py_scope with py.
Notation "'let!' x ':=' c 'in' k" := (res_bind c (λ x, k))
  (at level 10, x name, c at level 100, k at level 200,
   format "'[v' 'let!'  x  ':='  c  'in' '/' k ']'") : py_scope.
Notation "'let!' ' p ':=' c 'in' k" := (res_bind c (λ x, match x with p => k end))
  (at level 10, p strict pattern, c at level 100, k at level 200,
   format "'[v' 'let!'  ' p  ':='  c  'in' '/' k ']'") : py_scope.
(** [raise_if b e k]: the guard [if b: raise e] followed by [k]. *)
Definition raise_if {A} (b : bool) (e : exn) (k : res A) : res A :=
  if b then Raise e else k.

Lemma res_bind_Ok {A B} (c : res A) (k : A → res B) b :
  res_bind c k = Ok b ↔ ∃ a, c = Ok a ∧ k a = Ok b.
Proof. destruct c; simpl; naive_solver. Qed.
Lemma raise_if_Ok {A} b e (k : res A) a :
  raise_if b e k = Ok a ↔ b = false ∧ k = Ok a.
Proof. destruct b; simpl; naive_solver. Qed.

(** Monadic left fold, the shape of a [for] loop whose body may raise. *)
Fixpoint res_foldl {A B} (f : A → B → res A) (a : A) (l : list B) : res A :=
  match l with
  | [] => Ok a
  | x :: l => res_bind (f a x) (λ a', res_foldl f a' l)
  end.

(** An invariant of the loop *)
Lemma res_foldl_inv {A B} (f : A → B → res A) (P : A → Prop) l a a' :
  (∀ a x a', x ∈ l → P a → f a x = Ok a' → P a') → P a → res_foldl f a l = Ok a' → P a'.
Proof.
  revert a. induction l as [|x l IH]; intros a Hf Ha; simpl; [by intros [= <-]|].
  destruct (f a x) as [a1|] eqn:E; simpl; [|done]. apply IH.
  - intros a2 y a3 Hy. apply Hf. by right.
  - eapply Hf; [by left|done|done].
Qed.

(** A comprehension whose filter may raise. *)
Fixpoint res_filter {A} (f : A → res bool) (l : list A) : res (list A) :=
  match l with
  | [] => Ok []
  | x :: l => res_bind (f x) (λ b, res_bind (res_filter f l) (λ l', Ok (if b then x :: l' else l')))
  end.
Fixpoint res_map {A B} (f : A → res B) (l : list A) : res (list B) :=
  match l with
  | [] => Ok []
  | x :: l => res_bind (f x) (λ y, res_bind (res_map f l) (λ k, Ok (y :: k)))
  end.

(** ** Proof automation *)

Create HintDb py.

(** Split a chain of boolean connectives and [decide]-style tests in the
    context into propositions. *)
Ltac bools :=
  repeat match goal with
  | H : _ && _ = true |- _ => apply andb_true_iff in H; destruct H
  | H : _ || _ = false |- _ => apply orb_false_iff in H; destruct H
  | H : negb _ = true |- _ => apply negb_true_iff in H
  | H : negb _ = false |- _ => apply negb_false_iff in H
  | H : bool_decide _ = true |- _ => apply bool_decide_eq_true in H
  | H : bool_decide _ = false |- _ => apply bool_decide_eq_false in H
  | H : raise_if _ _ _ = Ok _ |- _ => apply raise_if_Ok in H; destruct H
  | H : res_bind _ _ = Ok _ |- _ => apply res_bind_Ok in H; destruct H as (? & ? & ?)
  | H : (_ <=? _)%Z = true |- _ => apply Z.leb_le in H
  | H : (_ <=? _)%Z = false |- _ => apply Z.leb_gt in H
  | H : (_ <? _)%Z = true |- _ => apply Z.ltb_lt in H
  | H : (_ <? _)%Z = false |- _ => apply Z.ltb_ge in H
  | H : (_ =? _)%Z = true |- _ => apply Z.eqb_eq in H
  | H : (_ =? _)%Z = false |- _ => apply Z.eqb_neq in H
  end.

(** Case on the first test of the goal, then clean up. *)
Ltac cases := repeat (case_match; bools; simplify_eq/=).

(** ** Comprehensions *)

(** The first answer of a search loop *)
Fixpoint res_first {A B} (f : A → res (option B)) (l : list A) : res (option B) :=
  match l with
  | [] => Ok None
  | x :: l => match f x with
              | Ok None => res_first f l
              | r => r
              end
  end.

Lemma res_filter_Ok {A} (f : A → res bool) l k :
  res_filter f l = Ok k ↔ (∀ x, x ∈ l → ∃ b, f x = Ok b) ∧ k = filter (λ x, f x = Ok true) l.
Proof.
  revert k. induction l as [|x l IH]; intros k; simpl.
  - split; [intros [= <-]; by split; [intros x ?%elem_of_nil|]|by intros [_ ->]].
  - rewrite res_bind_Ok. setoid_rewrite res_bind_Ok. setoid_rewrite IH. split.
    + intros (b & Hb & k' & [Hall ->] & [= <-]). split; [intros y [->|?]%elem_of_cons; eauto|].
      destruct b; [by rewrite filter_cons_True|by rewrite filter_cons_False by (rewrite Hb; congruence)].
    + intros [Hall ->]. destruct (Hall x) as [b Hb]; [set_solver|]. exists b. split; [done|]. eexists. split; [split; [set_solver|done]|].
      destruct b; [by rewrite filter_cons_True|by rewrite filter_cons_False by (rewrite Hb; congruence)].
Qed.
Lemma res_map_Ok {A B} (f : A → res B) l k : res_map f l = Ok k ↔ Forall2 (λ x y, f x = Ok y) l k.
Proof.
  revert k. induction l as [|x l IH]; intros k; simpl.
  - split; [intros [= <-]; constructor|by intros ->%Forall2_nil_inv_l].
  - rewrite res_bind_Ok. setoid_rewrite res_bind_Ok. setoid_rewrite IH. split.
    + intros (y & Hy & k' & Hk & [= <-]). by constructor.
    + intros (y & k' & Hy & Hk & ->)%Forall2_cons_inv_l. eauto 10.
Qed.
Lemma filter_bool_length {A} (f : A → bool) (l : list A) :
  length (filter (λ x, f x = true) l) + length (filter (λ x, f x = false) l) = length l.
Proof.
  induction l as [|x l IH]; [done|]. destruct (f x) eqn:E.
  - rewrite filter_cons_True, filter_cons_False by congruence. simpl. lia.
  - rewrite filter_cons_False, filter_cons_True by congruence. simpl. lia.
Qed.

(** ** Integer sums *)

Definition zsum (l : list Z) : Z := foldr Z.add 0%Z l.

Lemma zsum_app l k : zsum (l ++ k) = (zsum l + zsum k)%Z.
Proof. unfold zsum. induction l as [|x l IH]; simpl; [done|]. rewrite IH. lia. Qed.
Lemma zsum_perm l k : l ≡ₚ k → zsum l = zsum k.
Proof. unfold zsum. induction 1; simpl in *; lia. Qed.
#[export] Instance zsum_proper : Proper ((≡ₚ) ==> (=)) zsum.
Proof. intros l k. apply zsum_perm. Qed.
Lemma zsum_nonneg l : Forall (λ x, 0 ≤ x)%Z l → (0 ≤ zsum l)%Z.
Proof. unfold zsum. induction 1 as [|x l Hx _ IH]; simpl in *; lia. Qed.
Lemma zsum_le_pointwise {A} (f g : A → Z) l :
  (∀ x, x ∈ l → f x ≤ g x)%Z → (zsum (f <$> l) ≤ zsum (g <$> l))%Z.
Proof.
  unfold zsum. induction l as [|x l IH]; intros H; csimpl; [lia|].
  specialize (IH ltac:(set_solver)). pose proof (H x ltac:(set_solver)). lia.
Qed.
Lemma zsum_ext {A} (f g : A → Z) l :
  (∀ x, x ∈ l → f x = g x) → zsum (f <$> l) = zsum (g <$> l).
Proof.
  intros H. f_equal. apply list_fmap_ext. intros i x Hi.
  apply H, list_elem_of_lookup. eauto.
Qed.
Lemma zsum_plus {A} (f g : A → Z) l :
  zsum ((λ x, f x + g x)%Z <$> l) = (zsum (f <$> l) + zsum (g <$> l))%Z.
Proof. unfold zsum. induction l as [|x l IH]; csimpl in *; [done|]. rewrite IH. lia. Qed.

(** Summing over more distinct items than carry a value changes nothing. *)
Lemma zsum_superset {A} (f : A → Z) (l k : list A) :
  NoDup l → NoDup k → (∀ x, x ∈ k → x ∈ l) → (∀ x, x ∈ l → x ∉ k → f x = 0%Z) →
  zsum (f <$> l) = zsum (f <$> k).
Proof.
  intros Hl Hk Hsub Hz.
  destruct (submseteq_Permutation k l) as [rest Hperm]; [by apply NoDup_submseteq|].
  rewrite Hperm in Hl. apply NoDup_app in Hl as (_ & Hdis & _).
  rewrite (fmap_Permutation f _ _ Hperm), fmap_app, zsum_app.
  enough (zsum (f <$> rest) = 0%Z) by lia.
  assert (∀ x, x ∈ rest → f x = 0%Z) as Hr.
  { intros x Hx. apply Hz; [rewrite Hperm; set_solver|]. intros ?. by apply (Hdis x). }
  clear -Hr. unfold zsum. induction rest as [|x r IH]; csimpl; [done|].
  rewrite IH, (Hr x); set_solver.
Qed.

(** [tuple(dict.fromkeys(l))] *)
Definition from_keys {A} `{EqDecision A} (l : list A) : list A :=
  foldl (λ acc x, if bool_decide (x ∈ acc) then acc else acc ++ [x]) [] l.

Lemma from_keys_acc {A} `{EqDecision A} (l acc : list A) :
  NoDup acc → let r := foldl (λ acc x, if bool_decide (x ∈ acc) then acc else acc ++ [x]) acc l in
  NoDup r ∧ ∀ y, y ∈ r ↔ y ∈ acc ∨ y ∈ l.
Proof.
  revert acc. induction l as [|x l IH]; intros acc Hacc; simpl; [split; [done|set_solver]|].
  case_bool_decide as Hx.
  - destruct (IH acc Hacc) as [? Hr]. split; [done|]. intros y. rewrite Hr. set_solver.
  - destruct (IH (acc ++ [x])) as [? Hr].
    { apply NoDup_app. split_and!; [done|set_solver|apply NoDup_singleton]. }
    split; [done|]. intros y. rewrite Hr. set_solver.
Qed.
Lemma from_keys_NoDup {A} `{EqDecision A} (l : list A) : NoDup (from_keys l).
Proof. apply (from_keys_acc l []), NoDup_nil_2. Qed.
Lemma elem_of_from_keys {A} `{EqDecision A} (l : list A) x : x ∈ from_keys l ↔ x ∈ l.
Proof. unfold from_keys. destruct (from_keys_acc l [] (NoDup_nil_2)) as [_ ->]. set_solver. Qed.

Lemma filter_keep {A} (P : A → Prop) `{∀ x, Decision (P x)} (l : list A) : (∀ x, x ∈ l → P x) → filter P l = l.
Proof.
  induction l as [|x l IH]; intros Hl; [done|].
  rewrite filter_cons, decide_True by (apply Hl, list_elem_of_here).
  f_equal. apply IH. intros y Hy. by apply Hl, list_elem_of_further.
Qed.
Lemma NoDup_fmap_eq {A B} (f : A → B) (l : list A) x y :
  NoDup (f <$> l) → x ∈ l → y ∈ l → f x = f y → x = y.
Proof.
  induction l as [|z l IH]; csimpl; [set_solver|]. intros [Hz Hd]%NoDup_cons.
  intros [->|Hx]%elem_of_cons [->|Hy]%elem_of_cons Heq; [done| | |by apply IH];
    exfalso; apply Hz; rewrite Heq || rewrite <-Heq; by apply list_elem_of_fmap_2.
Qed.
Lemma Forall_filter {A} (Q P : A → Prop) `{∀ x, Decision (P x)} l :
  Forall Q l → Forall Q (filter P l).
Proof. rewrite !Forall_forall. intros HQ x [_ Hx]%list_elem_of_filter. by apply HQ. Qed.

(** ** Strictly increasing lists *)

Definition increasing (l : list Z) : Prop := StronglySorted Z.lt l.

Lemma increasing_snoc l x : increasing l → Forall (λ y, y < x)%Z l → increasing (l ++ [x]).
Proof.
  unfold increasing. induction 1 as [|y l Hs IH Hy]; simpl; intros Hx; [repeat constructor|].
  apply Forall_cons in Hx as [Hyx Hx]. constructor; [by apply IH|].
  apply Forall_app. split; [done|by constructor].
Qed.
Lemma increasing_filter l (P : Z → Prop) `{∀ x, Decision (P x)} :
  increasing l → increasing (filter P l).
Proof.
  unfold increasing. induction 1 as [|y l Hs IH Hy]; [constructor|].
  rewrite filter_cons. case_decide; [|done]. constructor; [done|by apply Forall_filter].
Qed.
Lemma increasing_NoDup l : increasing l → NoDup l.
Proof.
  unfold increasing. induction 1 as [|y l Hs IH Hy]; constructor; [|done].
  intros Hin. rewrite Forall_forall in Hy. specialize (Hy y Hin). lia.
Qed.
#[export] Hint Resolve increasing_snoc increasing_filter increasing_NoDup : py.

(** ** Insertion-ordered dictionaries

    A Python [dict] iterates in insertion order; assigning to a present key
    keeps its position.  Where the code depends on that order (or on the first
    match of a scan) a dict is a [dict K V], an association list; where it does
    not, the models use stdpp's [gmap]. *)

Abbreviation dict K V := (list (K * V)).

Section dict.
Context {K V : Type} `{EqDecision K}.
Implicit Types (d : dict K V) (k : K) (v : V).

Fixpoint dget d k : option V :=
  match d with
  | [] => None
  | (k', v) :: d => if decide (k = k') then Some v else dget d k
  end.

(** [d[k] = v] *)
Fixpoint dset d k v : dict K V :=
  match d with
  | [] => [(k, v)]
  | (k', v') :: d => if decide (k = k') then (k', v) :: d else (k', v') :: dset d k v
  end.

(** [d.pop(k, None)] *)
Definition dpop d k : dict K V := filter (λ kv, kv.1 ≠ k) d.

(** [d.setdefault(k, v)] (the new dict; the value returned is [dget] of it) *)
Definition dsetdefault d k v : dict K V :=
  match dget d k with Some _ => d | None => dset d k v end.

Definition dkeys d : list K := d.*1.
Definition dvals d : list V := d.*2.

Lemma dget_dset_eq d k v : dget (dset d k v) k = Some v.
Proof.
  induction d as [|[k' v'] d IH]; simpl; [by rewrite decide_True|].
  by destruct (decide (k = k')); simpl; [rewrite decide_True|rewrite decide_False].
Qed.
Lemma dget_dset_ne d k k' v : k ≠ k' → dget (dset d k v) k' = dget d k'.
Proof.
  intros Hne. induction d as [|[k'' v'] d IH]; simpl; [by rewrite decide_False|].
  by destruct (decide (k = k'')); simpl; case_decide; simplify_eq.
Qed.
Lemma dget_dpop_eq d k : dget (dpop d k) k = None.
Proof.
  unfold dpop. induction d as [|[k' v'] d IH]; [done|]. rewrite filter_cons.
  case_decide as Hk; simpl in *; [|done]. by rewrite decide_False.
Qed.
Lemma dget_dpop_ne d k k' : k ≠ k' → dget (dpop d k) k' = dget d k'.
Proof.
  intros Hne. unfold dpop. induction d as [|[k'' v'] d IH]; [done|]. rewrite filter_cons.
  case_decide as Hk; simpl in *; [by case_decide|].
  by rewrite decide_False by naive_solver.
Qed.
Lemma dget_None d k : dget d k = None ↔ k ∉ dkeys d.
Proof.
  unfold dkeys. induction d as [|[k' v'] d IH]; simpl; [set_solver|].
  case_decide; set_solver.
Qed.
Lemma dget_Some_2 d k v : NoDup (dkeys d) → (k, v) ∈ d → dget d k = Some v.
Proof.
  unfold dkeys. induction d as [|[k' v'] d IH]; simpl; [set_solver|].
  intros [Hk Hnd]%NoDup_cons [?|Hin]%elem_of_cons; simplify_eq.
  - by rewrite decide_True.
  - rewrite decide_False; [by apply IH|]. intros ->. apply Hk.
    apply list_elem_of_fmap. by exists (k', v).
Qed.
Lemma dget_Some_1 d k v : dget d k = Some v → (k, v) ∈ d.
Proof. induction d as [|[k' v'] d IH]; simpl; [done|]. case_decide; set_solver. Qed.

Lemma dkeys_dset d k v :
  dkeys (dset d k v) = if decide (k ∈ dkeys d) then dkeys d else dkeys d ++ [k].
Proof.
  unfold dkeys. induction d as [|[k' v'] d IH]; csimpl; [done|].
  destruct (decide (k = k')) as [->|Hne]; csimpl; [by rewrite decide_True by set_solver|].
  rewrite IH. repeat case_decide; set_solver.
Qed.
Lemma dset_fresh d k v : k ∉ dkeys d → dset d k v = d ++ [(k, v)].
Proof.
  unfold dkeys. induction d as [|[k' v'] d IH]; simpl; [done|]. intros Hk.
  rewrite decide_False by set_solver. f_equal. apply IH. set_solver.
Qed.
Lemma elem_of_dkeys_dpop d k k' : k' ∈ dkeys (dpop d k) ↔ k' ≠ k ∧ k' ∈ dkeys d.
Proof.
  unfold dkeys, dpop. rewrite !list_elem_of_fmap. split.
  - intros ([k'' v] & -> & Hin). apply list_elem_of_filter in Hin as [? ?]. simpl in *.
    split; [done|]. by exists (k'', v).
  - intros (? & [k'' v] & -> & Hin). exists (k'', v). by rewrite list_elem_of_filter.
Qed.
Lemma NoDup_dset d k v : NoDup (dkeys d) → NoDup (dkeys (dset d k v)).
Proof.
  rewrite dkeys_dset. case_decide; [done|]. intros. apply NoDup_app. split_and!; [done| |].
  - set_solver.
  - apply NoDup_singleton.
Qed.
Lemma NoDup_dpop d k : NoDup (dkeys d) → NoDup (dkeys (dpop d k)).
Proof.
  unfold dkeys, dpop. induction d as [|[k' v'] d IH]; [done|]. rewrite filter_cons.
  intros [Hk Hnd]%NoDup_cons. case_decide; csimpl; [|by apply IH].
  apply NoDup_cons. split; [|by apply IH]. intros Hin. apply Hk.
  apply list_elem_of_fmap in Hin as ([k'' v''] & -> & Hin).
  apply list_elem_of_filter in Hin as [_ Hin]. by apply (list_elem_of_fmap_2 fst) in Hin.
Qed.
Lemma dpop_absent d k : k ∉ dkeys d → dpop d k = d.
Proof.
  unfold dkeys, dpop. induction d as [|[k' v'] d IH]; [done|].
  intros [Hk Hd]%not_elem_of_cons. rewrite filter_cons, decide_True by (simpl in *; congruence).
  f_equal. by apply IH.
Qed.

(** Sums over the values of a dictionary. *)
Definition dsum (f : V → Z) d : Z := zsum (f <$> dvals d).

Lemma dsum_dset f d k v :
  dsum f (dset d k v) = (dsum f d - from_option f 0 (dget d k) + f v)%Z.
Proof.
  unfold dsum, dvals, zsum. induction d as [|[k' v'] d IH]; csimpl; [lia|].
  case_decide; csimpl in *; lia.
Qed.
Lemma dsum_dpop f d k :
  NoDup (dkeys d) → dsum f (dpop d k) = (dsum f d - from_option f 0 (dget d k))%Z.
Proof.
  induction d as [|[k' v'] d IH]; [done|]. intros [Hk Hnd]%NoDup_cons.
  specialize (IH Hnd). unfold dpop in *. rewrite filter_cons. simpl. case_decide as Hne.
  - rewrite decide_False by done. unfold dsum, dvals, zsum in *. csimpl. lia.
  - assert (k = k') as <- by (by destruct (decide (k' = k))).
    rewrite decide_True by done. fold (dpop d k). rewrite dpop_absent by done.
    unfold dsum, dvals, zsum. csimpl. lia.
Qed.
Lemma dkeys_dpop d k : dkeys (dpop d k) = filter (λ k', k' ≠ k) (dkeys d).
Proof.
  unfold dkeys, dpop. induction d as [|[k' v'] d IH]; [done|]. csimpl. rewrite !filter_cons.
  simpl. repeat case_decide; csimpl; try done. by f_equal.
Qed.
Lemma Forall_dset (P : K * V → Prop) d k v : Forall P d → P (k, v) → Forall P (dset d k v).
Proof.
  intros Hd Hv. induction Hd as [|[k' v'] d Hx Hd IH]; simpl; [by constructor|].
  case_decide; simplify_eq; by constructor.
Qed.
Lemma Forall_dpop (P : K * V → Prop) d k : Forall P d → Forall P (dpop d k).
Proof. intros H. by apply Forall_filter. Qed.
Lemma dget_filter (P : K * V → Prop) `{∀ x, Decision (P x)} d k v :
  dget d k = Some v → P (k, v) → dget (filter P d) k = Some v.
Proof.
  induction d as [|[k' v'] d IH]; simpl; [done|]. rewrite filter_cons. intros Hk HP.
  destruct (decide (k = k')) as [->|Hne].
  - simplify_eq. rewrite decide_True by done. simpl. by rewrite decide_True.
  - case_decide; simpl; [rewrite decide_False by done|]; by apply IH.
Qed.
Lemma dsum_keys f d :
  NoDup (dkeys d) → dsum f d = zsum ((λ k, from_option f 0%Z (dget d k)) <$> dkeys d).
Proof.
  intros Hnd. unfold dsum, dvals, dkeys in *. rewrite <-!list_fmap_compose.
  apply zsum_ext. intros [k v] Hin. simpl. by rewrite (dget_Some_2 d k v).
Qed.
End dict.

#[export] Hint Resolve NoDup_dset NoDup_dpop Forall_dset Forall_dpop : py.
