(* ===== verification/Admission.v ===== *)
(** * FIFO resource admission (ucloud_sandboxes/admission.py)

    [FairCapacity] is a counting semaphore with a FIFO queue of weighted
    waiters; [FairRLock] is a reentrant mutex built on a capacity of one.  Both
    are shared by threads, so each method is cut at the points where it gives
    up the lock: every definition below is one critical section, and the step
    relations interleave them arbitrarily.  A ticket ([_Waiter]) is a shared
    mutable object, hence a heap of tickets indexed by identity. *)
From S2P Require Import Prelude.
Local Open Scope Z_scope.

(** The ticket's fields; [owner] is any object ([None] by default). *)
Record Waiter := mkWaiter {
  weight : Z;
  owner : option string;
  ready : bool;
  granted : bool;
  cancelled : bool
}.

Record FairCapacity := mkFair {
  capacity : Z;
  available : Z;
  waiters : list nat;          (* the deque, as ticket identities *)
  tickets : gmap nat Waiter    (* the ticket objects created so far *)
}.

(** [list.remove] / [deque.remove]: the first occurrence, or [ValueError]. *)
Fixpoint remove_first (t : nat) (l : list nat) : res (list nat) :=
  match l with
  | [] => Raise (ValueError "deque.remove(x): x not in deque")
  | u :: l => if decide (t = u) then Ok l
              else res_bind (remove_first t l) (λ l', Ok (u :: l'))
  end.

Definition fair_init (capacity : Z) : res FairCapacity :=
  raise_if (capacity <? 1) (ValueError "capacity must be positive")
    (Ok (mkFair capacity capacity [] ∅)).

Definition set_granted (w : Waiter) : Waiter :=
  mkWaiter (weight w) (owner w) true true (cancelled w).
Definition set_cancelled (w : Waiter) : Waiter :=
  mkWaiter (weight w) (owner w) true (granted w) true.

(** The [while] loop of [_grant_waiters], by recursion on the deque. *)
Fixpoint grant_loop (ws : list nat) (avail : Z) (tks : gmap nat Waiter)
    : list nat * Z * gmap nat Waiter :=
  match ws with
  | [] => ([], avail, tks)
  | t :: ws' =>
      match tks !! t with
      | Some w =>
          if weight w <=? avail
          then grant_loop ws' (avail - weight w) (<[t := set_granted w]> tks)
          else (ws, avail, tks)
      | None => (ws, avail, tks)
      end
  end.

Definition grant_waiters (s : FairCapacity) : FairCapacity :=
  let '(ws, avail, tks) := grant_loop (waiters s) (available s) (tickets s) in
  mkFair (capacity s) avail ws tks.

(** What the first critical section of [acquire] decides. *)
Inductive entry := Acquired | Refused | Queued (t : nat).

Definition new_ticket (s : FairCapacity) : nat := fresh (dom (tickets s) : gset nat).

(** [acquire] up to its first release of the lock. *)
Definition acquire_enter (blocking : bool) (wt : Z) (own : option string)
    (s : FairCapacity) : res (entry * FairCapacity) :=
  raise_if (negb ((0 <? wt) && (wt <=? capacity s)))
    (ValueError "request weight exceeds capacity")
    (if bool_decide (waiters s = []) && (wt <=? available s) then
       Ok (Acquired, mkFair (capacity s) (available s - wt) (waiters s) (tickets s))
     else if negb blocking then Ok (Refused, s)
     else
       let t := new_ticket s in
       Ok (Queued t,
           mkFair (capacity s) (available s) (waiters s ++ [t])
             (<[t := mkWaiter wt own false false false]> (tickets s)))).

(** [acquire] after its wait ended, by [ready] or by timeout. *)
Definition acquire_finish (t : nat) (s : FairCapacity) : res (bool * FairCapacity) :=
  match tickets s !! t with
  | None => Raise (KeyError "no such ticket")
  | Some w =>
      if granted w then Ok (true, s)
      else if cancelled w then Ok (false, grant_waiters s)
      else res_bind (remove_first t (waiters s)) (λ ws,
             Ok (false, grant_waiters (mkFair (capacity s) (available s) ws (tickets s))))
  end.

(** [acquire]'s [except BaseException] handler. *)
Definition acquire_abort (t : nat) (s : FairCapacity) : res FairCapacity :=
  match tickets s !! t with
  | None => Raise (KeyError "no such ticket")
  | Some w =>
      if granted w then
        Ok (grant_waiters (mkFair (capacity s) (available s + weight w) (waiters s) (tickets s)))
      else if bool_decide (t ∈ waiters s) then
        res_bind (remove_first t (waiters s)) (λ ws,
          Ok (grant_waiters (mkFair (capacity s) (available s) ws (tickets s))))
      else Ok (grant_waiters s)
  end.

Definition release (wt : Z) (s : FairCapacity) : res FairCapacity :=
  raise_if ((wt <=? 0) || (capacity s <? available s + wt))
    (ValueError "capacity released without a reservation")
    (Ok (grant_waiters (mkFair (capacity s) (available s + wt) (waiters s) (tickets s)))).

Definition selects (own : option string) (s : FairCapacity) (t : nat) : bool :=
  match own with
  | None => true
  | Some _ => match tickets s !! t with
              | Some w => bool_decide (owner w = own)
              | None => false
              end
  end.

Definition cancel_one (s : FairCapacity) (t : nat) : res FairCapacity :=
  res_bind (remove_first t (waiters s)) (λ ws,
    Ok (mkFair (capacity s) (available s) ws (alter set_cancelled t (tickets s)))).

Definition cancel_waiters (own : option string) (s : FairCapacity) : res (Z * FairCapacity) :=
  let selected := filter (λ t, selects own s t = true) (waiters s) in
  res_bind (res_foldl cancel_one s selected) (λ s',
    Ok (Z.of_nat (length selected), grant_waiters s')).

Definition waiting (s : FairCapacity) : Z := Z.of_nat (length (waiters s)).

(** ** Threads sharing one [FairCapacity]

    [held] is the multiset of weights whose [acquire] returned [True] and that
    were not released yet; [calls] the tickets of [acquire] calls still
    waiting.  [ready.wait] may end at any time (grant, cancellation or
    timeout), so [sys_return] and [sys_abort] are always enabled. *)
Record system := mkSys { fc : FairCapacity; held : list Z; calls : list nat }.

Definition ticket_weight (s : FairCapacity) (t : nat) : Z :=
  from_option weight 0 (tickets s !! t).

Inductive sys_step : system → system → Prop :=
| sys_acquire_now b wt own s s' h c :
    acquire_enter b wt own s = Ok (Acquired, s') →
    sys_step (mkSys s h c) (mkSys s' (wt :: h) c)
| sys_acquire_refused b wt own s s' h c :
    acquire_enter b wt own s = Ok (Refused, s') →
    sys_step (mkSys s h c) (mkSys s' h c)
| sys_acquire_queued b wt own t s s' h c :
    acquire_enter b wt own s = Ok (Queued t, s') →
    sys_step (mkSys s h c) (mkSys s' h (t :: c))
| sys_return_true t s s' h c1 c2 :
    acquire_finish t s = Ok (true, s') →
    sys_step (mkSys s h (c1 ++ t :: c2)) (mkSys s' (ticket_weight s t :: h) (c1 ++ c2))
| sys_return_false t s s' h c1 c2 :
    acquire_finish t s = Ok (false, s') →
    sys_step (mkSys s h (c1 ++ t :: c2)) (mkSys s' h (c1 ++ c2))
| sys_abort t s s' h c1 c2 :
    acquire_abort t s = Ok s' →
    sys_step (mkSys s h (c1 ++ t :: c2)) (mkSys s' h (c1 ++ c2))
| sys_release wt s s' h1 h2 c :
    release wt s = Ok s' →
    sys_step (mkSys s (h1 ++ wt :: h2) c) (mkSys s' (h1 ++ h2) c)
| sys_cancel own n s s' h c :
    cancel_waiters own s = Ok (n, s') →
    sys_step (mkSys s h c) (mkSys s' h c).

Definition sys_init (c : Z) (σ : system) : Prop :=
  ∃ s, fair_init c = Ok s ∧ σ = mkSys s [] [].

Definition sys_reachable (c : Z) (σ : system) : Prop :=
  ∃ σ0, sys_init c σ0 ∧ rtc sys_step σ0 σ.

(** Capacity reserved for a granted ticket that its caller has not taken. *)
Definition reserved (tks : gmap nat Waiter) (t : nat) : Z :=
  match tks !! t with
  | Some w => if granted w then weight w else 0
  | None => 0
  end.

Definition queued_ok (cap : Z) (w : Waiter) : Prop :=
  0 < weight w ≤ cap ∧ granted w = false ∧ cancelled w = false ∧ ready w = false.

(** The invariant without the head condition, which [grant_waiters] restores. *)
Record core (s : FairCapacity) (h : list Z) (c : list nat) : Prop := {
  core_capacity : 1 ≤ capacity s;
  core_available : 0 ≤ available s;
  core_conserve :
    available s + zsum h + zsum (reserved (tickets s) <$> c) = capacity s;
  core_held : Forall (λ w, 0 < w) h;
  core_waiters : NoDup (waiters s);
  core_calls : NoDup c;
  core_queued t : t ∈ waiters s →
    t ∈ c ∧ ∃ w, tickets s !! t = Some w ∧ queued_ok (capacity s) w;
  core_call t : t ∈ c →
    ∃ w, tickets s !! t = Some w ∧ 0 < weight w ∧
      (t ∈ waiters s ∨ (ready w = true ∧ (granted w = true ∨ cancelled w = true)));
}.

Definition head_blocked (s : FairCapacity) : Prop :=
  ∀ t ws w, waiters s = t :: ws → tickets s !! t = Some w → available s < weight w.

Definition inv (σ : system) : Prop :=
  core (fc σ) (held σ) (calls σ) ∧ head_blocked (fc σ).

(** [t] stands ahead of [u] in [l]. *)
Definition before (l : list nat) (t u : nat) : Prop :=
  ∃ l1 l2, l = l1 ++ t :: l2 ∧ u ∈ l2.

Lemma before_filter (P : nat → Prop) `{∀ x, Decision (P x)} l t u :
  P t → P u → before l t u → before (filter P l) t u.
Proof.
  intros Ht Hu (l1 & l2 & -> & Hin). exists (filter P l1), (filter P l2).
  rewrite filter_app, filter_cons, decide_True by done.
  by rewrite list_elem_of_filter.
Qed.
Lemma before_app_l g k t u : NoDup (g ++ k) → before (g ++ k) t u → u ∈ g → t ∈ g.
Proof.
  intros Hnd (l1 & l2 & E & Hu) Hg. revert l1 E Hnd Hg.
  induction g as [|x g IH]; intros l1 E Hnd Hg; [set_solver|].
  destruct l1 as [|y l1]; injection E as -> E; [set_solver|].
  rewrite <-app_comm_cons in Hnd.
  apply NoDup_cons in Hnd as [Hx Hnd]. apply elem_of_cons in Hg as [->|Hg].
  - destruct Hx. rewrite E. set_solver.
  - right. eapply IH; eauto.
Qed.

Lemma filter_ne_id (t : nat) (l : list nat) : t ∉ l → filter (λ u, u ≠ t) l = l.
Proof.
  induction l as [|x l IH]; [done|]. intros Ht.
  rewrite filter_cons, decide_True by set_solver. f_equal. set_solver.
Qed.
Lemma remove_first_filter t l :
  NoDup l → t ∈ l → remove_first t l = Ok (filter (λ u, u ≠ t) l).
Proof.
  induction l as [|u l IH]; [set_solver|]. intros [Hu Hnd]%NoDup_cons Hin. simpl.
  rewrite filter_cons. case_decide as E.
  - subst u. rewrite decide_False by naive_solver. by rewrite filter_ne_id.
  - rewrite decide_True by naive_solver. rewrite IH; [done|done|set_solver].
Qed.

(** ** [_grant_waiters]: a prefix of the queue is granted *)

Lemma reserved_insert_ne tks t u w : t ≠ u → reserved (<[t:=w]> tks) u = reserved tks u.
Proof. intros. unfold reserved. by rewrite lookup_insert_ne. Qed.

Lemma reserved_sum_insert tks t w c :
  NoDup c → t ∈ c →
  zsum (reserved (<[t:=w]> tks) <$> c) =
  zsum (reserved tks <$> c) - reserved tks t + (if granted w then weight w else 0).
Proof.
  intros Hnd Hin. apply elem_of_Permutation in Hin as [c' Hc].
  rewrite Hc in Hnd |- *. apply NoDup_cons in Hnd as [Ht _].
  assert (zsum (reserved (<[t:=w]> tks) <$> c') = zsum (reserved tks <$> c')) as E.
  { apply zsum_ext. intros x Hx. apply reserved_insert_ne. set_solver. }
  csimpl. rewrite E. unfold reserved at 1. rewrite lookup_insert_eq. lia.
Qed.

Lemma grant_loop_prefix ws avail tks ws' avail' tks' :
  grant_loop ws avail tks = (ws', avail', tks') →
  ∃ g, ws = g ++ ws' ∧
    (∀ u, u ∉ g → tks' !! u = tks !! u) ∧
    (∀ u w, u ∈ g → NoDup ws → tks !! u = Some w → tks' !! u = Some (set_granted w)).
Proof.
  revert avail tks. induction ws as [|t ws IH]; intros avail tks E; simpl in E.
  { simplify_eq. exists []. set_solver. }
  destruct (tks !! t) as [w|] eqn:Ht; [|simplify_eq; exists []; set_solver].
  destruct (weight w <=? avail); [|simplify_eq; exists []; set_solver].
  apply IH in E as (g & -> & Hout & Hin). exists (t :: g). split_and!; [done|..].
  - intros u Hu. rewrite Hout by set_solver. apply lookup_insert_ne. set_solver.
  - intros u w' Hu [Hnt Hnd]%NoDup_cons Hw'.
    destruct (decide (u = t)) as [->|Hne].
    + rewrite Hout by set_solver. rewrite lookup_insert_eq. naive_solver.
    + apply Hin; [set_solver|done|]. by rewrite lookup_insert_ne.
Qed.

Lemma grant_loop_core cap ws avail tks h c :
  core (mkFair cap avail ws tks) h c →
  let '(ws', avail', tks') := grant_loop ws avail tks in
  core (mkFair cap avail' ws' tks') h c ∧ head_blocked (mkFair cap avail' ws' tks').
Proof.
  revert avail tks. induction ws as [|t ws IH]; intros avail tks Hc; simpl.
  { split; [done|]. intros ????. done. }
  destruct (core_queued _ _ _ Hc t) as (Htc & w & Ht & (Hw & Hg & Hca & Hr)); [set_solver|].
  simpl in *. rewrite Ht. destruct (weight w <=? avail) eqn:Hle.
  - apply IH. apply Z.leb_le in Hle. destruct Hc; simpl in *.
    apply NoDup_cons in core_waiters0 as [Hnt ?].
    assert (reserved tks t = 0) as Hr0 by (unfold reserved; by rewrite Ht, Hg).
    split; simpl; auto; try lia.
    + rewrite reserved_sum_insert by done. simpl. lia.
    + intros u Hu. destruct (core_queued0 u) as (? & w' & Hw' & ?); [set_solver|].
      split; [done|]. exists w'. rewrite lookup_insert_ne by set_solver. done.
    + intros u Hu. destruct (decide (u = t)) as [->|Hne].
      * exists (set_granted w). rewrite lookup_insert_eq. simpl. naive_solver lia.
      * destruct (core_call0 u Hu) as (w' & ? & ? & [Hq|?]); exists w';
          rewrite lookup_insert_ne by done; set_solver.
  - split; [done|]. intros t' ws' w' E Hw'. simplify_eq/=. apply Z.leb_gt in Hle. lia.
Qed.

Lemma grant_waiters_inv s h c : core s h c → inv (mkSys (grant_waiters s) h c).
Proof.
  intros Hc. destruct s as [cap avail ws tks]. unfold grant_waiters, inv. simpl.
  pose proof (grant_loop_core cap ws avail tks h c Hc) as H.
  by destruct (grant_loop ws avail tks) as [[ws' avail'] tks'].
Qed.

Lemma grant_waiters_prefix s :
  ∃ g, waiters s = g ++ waiters (grant_waiters s) ∧
    (∀ u, u ∉ g → tickets (grant_waiters s) !! u = tickets s !! u) ∧
    (∀ u w, u ∈ g → NoDup (waiters s) → tickets s !! u = Some w →
       tickets (grant_waiters s) !! u = Some (set_granted w)).
Proof.
  unfold grant_waiters. destruct (grant_loop _ _ _) as [[ws' avail'] tks'] eqn:E.
  by apply grant_loop_prefix in E.
Qed.

(** ** The invariant is preserved by every critical section *)

Lemma call_perm c1 c2 (t : nat) : c1 ++ t :: c2 ≡ₚ t :: c1 ++ c2.
Proof. by rewrite Permutation_middle. Qed.

Lemma remove_first_inv t l l' :
  NoDup l → remove_first t l = Ok l' → l' = filter (λ u, u ≠ t) l.
Proof.
  intros Hnd E. destruct (decide (t ∈ l)) as [Hin|Hni].
  - rewrite remove_first_filter in E by done. by simplify_eq.
  - exfalso. clear Hnd. revert l' E. induction l as [|u l IH]; intros l' E; simpl in E; [done|].
    rewrite decide_False in E by set_solver. bools. eapply IH; [set_solver|done].
Qed.

Lemma core_leave_queue s h c1 c2 t w :
  core s h (c1 ++ t :: c2) → tickets s !! t = Some w → granted w = false →
  core (mkFair (capacity s) (available s) (filter (λ u, u ≠ t) (waiters s)) (tickets s))
    h (c1 ++ c2).
Proof.
  intros [] Ht Hg. rewrite call_perm in *. apply NoDup_cons in core_calls0 as [Hnt ?].
  split; simpl; auto.
  - csimpl in core_conserve0. unfold reserved at 1 in core_conserve0.
    rewrite Ht, Hg in core_conserve0. lia.
  - by apply NoDup_filter.
  - intros u [Hne Hu]%list_elem_of_filter. destruct (core_queued0 u Hu) as (Hin & ?).
    split; [|done]. rewrite call_perm in Hin. set_solver.
  - intros u Hu. destruct (core_call0 u) as (w' & ? & ? & Hor).
    { rewrite call_perm. set_solver. }
    exists w'. split_and!; [done..|]. rewrite list_elem_of_filter. set_solver.
Qed.

Lemma granted_not_queued s h c t w :
  core s h c → tickets s !! t = Some w → granted w = true → t ∉ waiters s.
Proof.
  intros Hc Ht Hg Hin. destruct (core_queued _ _ _ Hc t Hin) as (_ & w' & Hw' & (_ & Hf & _)).
  congruence.
Qed.

Lemma core_take_grant s h c1 c2 t w :
  core s h (c1 ++ t :: c2) → tickets s !! t = Some w → granted w = true →
  core s (weight w :: h) (c1 ++ c2).
Proof.
  intros Hc Ht Hg. pose proof (granted_not_queued _ _ _ _ _ Hc Ht Hg) as Hnq.
  destruct Hc. rewrite call_perm in *. apply NoDup_cons in core_calls0 as [Hnt ?].
  destruct (core_call0 t) as (w0 & Hw0 & Hpos & _); [rewrite call_perm; set_solver|].
  simplify_eq. split; auto.
  - csimpl in core_conserve0. unfold reserved at 1 in core_conserve0.
    rewrite Ht, Hg in core_conserve0. unfold zsum in *. simpl. lia.
  - intros u Hu. destruct (core_queued0 u Hu) as (Hin & ?). split; [|done].
    rewrite call_perm in Hin. set_solver.
  - intros u Hu. apply core_call0. rewrite call_perm. set_solver.
Qed.

Lemma core_give_back s h1 h2 c wt :
  core s (h1 ++ wt :: h2) c →
  core (mkFair (capacity s) (available s + wt) (waiters s) (tickets s)) (h1 ++ h2) c.
Proof.
  intros []. apply Forall_app in core_held0 as [? [? ?]%Forall_cons].
  rewrite zsum_app in *. change (zsum (wt :: h2)) with (wt + zsum h2) in *.
  split; simpl; auto; [lia| |by apply Forall_app]. rewrite zsum_app. lia.
Qed.

Definition cancel_all (sel : list nat) (tks : gmap nat Waiter) : gmap nat Waiter :=
  foldl (λ m t, alter set_cancelled t m) tks sel.

Lemma cancel_all_lookup sel tks t :
  NoDup sel →
  cancel_all sel tks !! t = if decide (t ∈ sel) then set_cancelled <$> tks !! t else tks !! t.
Proof.
  revert tks. induction sel as [|u sel IH]; intros tks Hnd; simpl; [done|].
  apply NoDup_cons in Hnd as [Hu Hnd]. rewrite IH by done.
  destruct (decide (t = u)) as [->|Hne].
  - rewrite decide_False, decide_True by set_solver. by rewrite lookup_alter_eq.
  - rewrite lookup_alter_ne by done. repeat case_decide; set_solver.
Qed.

Lemma cancel_fold sel s :
  NoDup (waiters s) → NoDup sel → (∀ t, t ∈ sel → t ∈ waiters s) →
  res_foldl cancel_one s sel =
  Ok (mkFair (capacity s) (available s) (filter (λ t, t ∉ sel) (waiters s))
        (cancel_all sel (tickets s))).
Proof.
  revert s. induction sel as [|t sel IH]; intros s Hw Hnd Hsub; simpl.
  { destruct s; simpl. do 2 f_equal. symmetry. clear. induction waiters0 as [|x l IH]; [done|].
    rewrite filter_cons, decide_True by set_solver. by f_equal. }
  apply NoDup_cons in Hnd as [Ht Hnd]. unfold cancel_one at 1.
  rewrite remove_first_filter by set_solver. simpl. rewrite IH; simpl.
  - do 2 f_equal. rewrite list_filter_filter. apply list_filter_iff. set_solver.
  - by apply NoDup_filter.
  - done.
  - intros u Hu. rewrite list_elem_of_filter. split; [|set_solver]. intros ->. done.
Qed.

Lemma core_cancel sel s h c :
  core s h c → NoDup sel → (∀ t, t ∈ sel → t ∈ waiters s) →
  core (mkFair (capacity s) (available s) (filter (λ t, t ∉ sel) (waiters s))
          (cancel_all sel (tickets s))) h c.
Proof.
  intros [] Hnd Hsub. split; simpl; auto.
  - rewrite <-core_conserve0. f_equal. apply zsum_ext. intros t _.
    unfold reserved. rewrite cancel_all_lookup by done. case_decide as Hin; [|done].
    destruct (core_queued0 t (Hsub t Hin)) as (_ & w & -> & (_ & Hg & _)). simpl. by rewrite Hg.
  - by apply NoDup_filter.
  - intros t [Hns Hin]%list_elem_of_filter. destruct (core_queued0 t Hin) as (? & w & ? & ?).
    split; [done|]. exists w. rewrite cancel_all_lookup, decide_False by done. done.
  - intros t Hin. destruct (core_call0 t Hin) as (w & Hw & Hpos & Hor).
    destruct (decide (t ∈ sel)) as [Hs|Hs].
    + exists (set_cancelled w). rewrite cancel_all_lookup, decide_True, Hw by done.
      simpl. naive_solver.
    + exists w. rewrite cancel_all_lookup, decide_False, list_elem_of_filter by done.
      naive_solver.
Qed.

Lemma acquire_enter_inv b wt own s h c e s' :
  inv (mkSys s h c) → acquire_enter b wt own s = Ok (e, s') →
  match e with
  | Acquired => inv (mkSys s' (wt :: h) c)
  | Refused => inv (mkSys s' h c)
  | Queued t => inv (mkSys s' h (t :: c))
  end.
Proof.
  intros [Hc Hh] E. simpl in Hc, Hh. unfold acquire_enter in E. bools.
  match goal with H : (if ?b then _ else _) = _ |- _ => destruct b eqn:Hb end; bools; simplify_eq.
  { destruct Hc. split; [split; simpl; auto; lia|].
    intros t ws w Hw. simpl in Hw. congruence. }
  destruct (negb b); simplify_eq; [done|].
  set (t := new_ticket s). assert (tickets s !! t = None) as Hfresh.
  { apply (not_elem_of_dom (D:=gset nat)), (is_fresh (dom (tickets s) : gset nat)). }
  assert (t ∉ waiters s) as Htw.
  { intros Hin. destruct (core_queued _ _ _ Hc t Hin) as (_ & ? & ? & _). congruence. }
  assert (t ∉ c) as Htc.
  { intros Hin. destruct (core_call _ _ _ Hc t Hin) as (? & ? & _). congruence. }
  destruct Hc. split; [split; simpl; auto|].
  - csimpl. unfold reserved at 1. rewrite lookup_insert_eq. simpl.
    rewrite (zsum_ext _ (reserved (tickets s))); [lia|].
    intros x Hx. apply reserved_insert_ne. naive_solver.
  - apply NoDup_app. split_and!; [done|set_solver|apply NoDup_singleton].
  - by apply NoDup_cons.
  - intros u [Hu| ->%list_elem_of_singleton]%elem_of_app.
    + destruct (core_queued0 u Hu) as (? & w & ? & ?). split; [set_solver|]. exists w.
      rewrite lookup_insert_ne by set_solver. done.
    + split; [set_solver|]. eexists. rewrite lookup_insert_eq. split; [done|].
      unfold queued_ok. simpl. naive_solver lia.
  - intros u [->|Hu]%elem_of_cons.
    + eexists. rewrite lookup_insert_eq. split; [done|]. simpl. set_solver by lia.
    + destruct (core_call0 u Hu) as (w & ? & ? & ?). exists w.
      rewrite lookup_insert_ne by set_solver. set_solver.
  - intros u ws w Hu Hw. simpl in Hu, Hw. destruct (waiters s) as [|v vs] eqn:Ev; simplify_eq/=.
    + rewrite lookup_insert_eq in Hw. simplify_eq/=. lia.
    + rewrite lookup_insert_ne in Hw by set_solver. by eapply Hh.
Qed.

Lemma acquire_finish_spec s h c1 c2 t :
  inv (mkSys s h (c1 ++ t :: c2)) →
  ∃ b s', acquire_finish t s = Ok (b, s') ∧
    inv (mkSys s' (if b then ticket_weight s t :: h else h) (c1 ++ c2)).
Proof.
  intros [Hc Hh]. simpl in Hc, Hh. unfold acquire_finish, ticket_weight.
  destruct (core_call _ _ _ Hc t) as (w & Hw & _ & Hor); [set_solver|]. rewrite Hw.
  destruct (granted w) eqn:Hg.
  { exists true, s. split; [done|]. split; [by eapply core_take_grant|done]. }
  destruct (cancelled w) eqn:Hca.
  - exists false. eexists. split; [done|]. apply grant_waiters_inv.
    assert (t ∉ waiters s) as Hn.
    { intros Hin. destruct (core_queued _ _ _ Hc t Hin) as (_ & ? & ? & (_ & _ & ? & _)). congruence. }
    pose proof (core_leave_queue _ _ _ _ _ _ Hc Hw Hg) as Hc'.
    rewrite filter_ne_id in Hc' by done. by destruct s.
  - destruct Hor as [Hin|[_ [?|?]]]; [|congruence..].
    rewrite remove_first_filter by (eauto using core_waiters). simpl.
    exists false. eexists. split; [done|]. apply grant_waiters_inv. by eapply core_leave_queue.
Qed.

Lemma acquire_abort_spec s h c1 c2 t :
  inv (mkSys s h (c1 ++ t :: c2)) →
  ∃ s', acquire_abort t s = Ok s' ∧ inv (mkSys s' h (c1 ++ c2)).
Proof.
  intros [Hc Hh]. simpl in Hc, Hh. unfold acquire_abort.
  destruct (core_call _ _ _ Hc t) as (w & Hw & _ & Hor); [set_solver|]. rewrite Hw.
  destruct (granted w) eqn:Hg.
  { eexists. split; [done|]. apply grant_waiters_inv.
    eapply (core_give_back _ [] h), core_take_grant; eauto. }
  pose proof (core_leave_queue _ _ _ _ _ _ Hc Hw Hg) as Hc'. case_bool_decide as Hin.
  - rewrite remove_first_filter by (eauto using core_waiters). simpl.
    eexists. split; [done|]. by apply grant_waiters_inv.
  - eexists. split; [done|]. apply grant_waiters_inv.
    rewrite filter_ne_id in Hc' by done. by destruct s.
Qed.

Lemma release_spec s h1 h2 c wt :
  inv (mkSys s (h1 ++ wt :: h2) c) →
  ∃ s', release wt s = Ok s' ∧ inv (mkSys s' (h1 ++ h2) c).
Proof.
  intros [Hc Hh]. simpl in Hc, Hh. pose proof (core_give_back _ _ _ _ _ Hc) as Hc'.
  assert (0 < wt) as Hpos.
  { pose proof (core_held _ _ _ Hc) as HF. by apply Forall_app in HF as [_ [? _]%Forall_cons]. }
  assert (available s + wt ≤ capacity s) as Hle.
  { destruct Hc'. simpl in *.
    assert (0 ≤ zsum (h1 ++ h2)).
    { apply zsum_nonneg. eapply Forall_impl; [done|]. simpl. lia. }
    assert (0 ≤ zsum (reserved (tickets s) <$> c)); [|lia].
    apply zsum_nonneg, Forall_forall. intros x (t & -> & Ht)%list_elem_of_fmap.
    unfold reserved. destruct (core_call0 t Ht) as (w & -> & ? & _). case_match; lia. }
  unfold release, raise_if. rewrite (proj2 (orb_false_iff _ _)) by lia.
  eexists. split; [done|]. by apply grant_waiters_inv.
Qed.

Lemma cancel_waiters_eq own s h c :
  core s h c →
  let sel := filter (λ t, selects own s t = true) (waiters s) in
  cancel_waiters own s =
  Ok (Z.of_nat (length sel),
      grant_waiters (mkFair (capacity s) (available s)
        (filter (λ t, t ∉ sel) (waiters s)) (cancel_all sel (tickets s)))).
Proof.
  intros Hc. simpl. unfold cancel_waiters. rewrite cancel_fold; [done|..].
  - eapply core_waiters, Hc.
  - eapply NoDup_filter, core_waiters, Hc.
  - intros t [_ ?]%list_elem_of_filter. done.
Qed.

Lemma cancel_waiters_spec own s h c :
  inv (mkSys s h c) → ∃ n s', cancel_waiters own s = Ok (n, s') ∧ inv (mkSys s' h c).
Proof.
  intros [Hc Hh]. simpl in *. rewrite (cancel_waiters_eq own s h c) by done.
  do 2 eexists. split; [done|]. apply grant_waiters_inv, core_cancel; [done| |].
  - eapply NoDup_filter, core_waiters, Hc.
  - intros t [_ ?]%list_elem_of_filter. done.
Qed.

Lemma sys_step_inv σ σ' : sys_step σ σ' → inv σ → inv σ'.
Proof.
  destruct 1 as [b wt own s s' h c E|b wt own s s' h c E|b wt own t s s' h c E
    |t s s' h c1 c2 E|t s s' h c1 c2 E|t s s' h c1 c2 E|wt s s' h1 h2 c E|own n s s' h c E];
    intros Hinv.
  - exact (acquire_enter_inv _ _ _ _ _ _ _ _ Hinv E).
  - exact (acquire_enter_inv _ _ _ _ _ _ _ _ Hinv E).
  - exact (acquire_enter_inv _ _ _ _ _ _ _ _ Hinv E).
  - destruct (acquire_finish_spec _ _ _ _ _ Hinv) as (b & s'' & E' & ?).
    rewrite E in E'. by simplify_eq.
  - destruct (acquire_finish_spec _ _ _ _ _ Hinv) as (b & s'' & E' & ?).
    rewrite E in E'. by simplify_eq.
  - destruct (acquire_abort_spec _ _ _ _ _ Hinv) as (s'' & E' & ?).
    rewrite E in E'. by simplify_eq.
  - destruct (release_spec _ _ _ _ _ Hinv) as (s'' & E' & ?). rewrite E in E'. by simplify_eq.
  - destruct (cancel_waiters_spec own _ _ _ Hinv) as (n' & s'' & E' & ?).
    rewrite E in E'. by simplify_eq.
Qed.

Lemma sys_init_inv c σ : sys_init c σ → inv σ.
Proof.
  intros (s & E & ->). unfold fair_init in E. bools. simplify_eq.
  split; [|by intros ????]. split; simpl; try lia; try constructor; set_solver.
Qed.

Lemma reachable_inv c σ : sys_reachable c σ → inv σ.
Proof.
  intros (σ0 & Hinit & Hsteps). apply sys_init_inv in Hinit.
  induction Hsteps; eauto using sys_step_inv.
Qed.

Lemma grant_waiters_capacity s : capacity (grant_waiters s) = capacity s.
Proof. unfold grant_waiters. by destruct (grant_loop _ _ _) as [[??]?]. Qed.

Lemma sys_step_capacity σ σ' :
  sys_step σ σ' → inv σ → capacity (fc σ') = capacity (fc σ).
Proof.
  destruct 1 as [b wt own s s' h c E|b wt own s s' h c E|b wt own t s s' h c E
    |t s s' h c1 c2 E|t s s' h c1 c2 E|t s s' h c1 c2 E|wt s s' h1 h2 c E|own n s s' h c E];
    intros Hinv; simpl.
  1-3: unfold acquire_enter, raise_if in E; cases; done.
  1-3: unfold acquire_finish, acquire_abort, res_bind in E; cases;
    rewrite ?grant_waiters_capacity; done.
  - unfold release in E. bools. simplify_eq. by rewrite grant_waiters_capacity.
  - rewrite (cancel_waiters_eq own s h c) in E by apply Hinv. simplify_eq.
    by rewrite grant_waiters_capacity.
Qed.

Lemma reachable_capacity c σ : sys_reachable c σ → capacity (fc σ) = c.
Proof.
  intros (σ0 & Hinit & Hsteps). pose proof (sys_init_inv _ _ Hinit) as Hinv.
  assert (capacity (fc σ0) = c) as <-.
  { destruct Hinit as (s & E & ->). unfold fair_init in E. bools. by simplify_eq. }
  clear Hinit. induction Hsteps as [|σ σ1 σ2 Hstep _ IH]; [done|].
  rewrite IH by eauto using sys_step_inv. by eapply sys_step_capacity.
Qed.

(** Granting never overtakes: a granted ticket leaves nobody queued ahead. *)
Lemma grant_waiters_fifo s t u w :
  NoDup (waiters s) →
  (t ∈ waiters s → u ∈ waiters s → before (waiters s) t u) →
  (∀ w0, tickets s !! u = Some w0 → granted w0 = false) →
  tickets (grant_waiters s) !! u = Some w → granted w = true →
  t ∉ waiters (grant_waiters s).
Proof.
  intros Hnd Hbefore Hu Hw Hg Ht.
  destruct (grant_waiters_prefix s) as (g & Hws & Hout & _).
  destruct (decide (u ∈ g)) as [Hin|Hni].
  - rewrite Hws in Hbefore, Hnd. apply (NoDup_app g) in Hnd as Hdis.
    destruct Hdis as (_ & Hdis & _). apply (Hdis t); [|done].
    eapply before_app_l; [done|apply Hbefore|done]; set_solver.
  - rewrite Hout in Hw by done. apply Hu in Hw. congruence.
Qed.

Lemma queued_not_granted σ u w :
  inv σ → u ∈ waiters (fc σ) → tickets (fc σ) !! u = Some w → granted w = false.
Proof.
  intros [Hc _] Hu Hw. destruct (core_queued _ _ _ Hc u Hu) as (_ & w' & Hw' & (_ & Hf & _)).
  congruence.
Qed.

Lemma before_elem l t u : before l t u → u ∈ l.
Proof. intros (l1 & l2 & -> & ?). set_solver. Qed.

Lemma fifo_step σ σ' t u w :
  inv σ → sys_step σ σ' → before (waiters (fc σ)) t u →
  tickets (fc σ') !! u = Some w → granted w = true → t ∉ waiters (fc σ').
Proof.
  intros Hinv Hstep Hb Hw Hg. pose proof (before_elem _ _ _ Hb) as Hu.
  pose proof (queued_not_granted σ u) as Hq. specialize (λ w, Hq w Hinv Hu).
  assert (NoDup (waiters (fc σ))) as Hnd by apply Hinv.
  assert (∀ v, before (filter (λ x, x ≠ v) (waiters (fc σ))) t u ∨ t = v ∨ u = v) as Hbv.
  { intros v. destruct (decide (t = v)), (decide (u = v)); auto. left. by apply before_filter. }
  destruct Hstep as [b wt own s s' h c E|b wt own s s' h c E|b wt own v s s' h c E
    |v s s' h c1 c2 E|v s s' h c1 c2 E|v s s' h c1 c2 E|wt s s' h1 h2 c E|own n s s' h c E];
    simpl in *.
  - unfold acquire_enter, raise_if in E; cases.
    match goal with H : waiters s = [] |- _ => rewrite H in Hu end. set_solver.
  - unfold acquire_enter, raise_if in E; cases. apply Hq in Hw. congruence.
  - unfold acquire_enter, raise_if in E; cases.
    assert (new_ticket s ≠ u) as Hne.
    { intros <-. destruct Hinv as [Hc _].
      destruct (core_queued _ _ _ Hc _ Hu) as (_ & w' & Hw' & _). simpl in Hw'.
      apply (is_fresh (dom (tickets s) : gset nat)). by apply elem_of_dom_2 in Hw'. }
    rewrite lookup_insert_ne in Hw by done. apply Hq in Hw. congruence.
  - unfold acquire_finish, res_bind in E; cases. apply Hq in Hw. congruence.
  - unfold acquire_finish in E. cases; bools; simplify_eq; [by eapply grant_waiters_fifo|].
    match goal with H : remove_first _ _ = Ok _ |- _ => apply remove_first_inv in H as ->; [|done] end.
    eapply grant_waiters_fifo; [..|done|done]; simpl; [by apply NoDup_filter| |done].
    destruct (Hbv v) as [?|[->| ->]]; [done|..]; rewrite !list_elem_of_filter; naive_solver.
  - unfold acquire_abort in E. cases; bools; simplify_eq; [by eapply grant_waiters_fifo| |by eapply grant_waiters_fifo].
    match goal with H : remove_first _ _ = Ok _ |- _ => apply remove_first_inv in H as ->; [|done] end.
    eapply grant_waiters_fifo; [..|done|done]; simpl; [by apply NoDup_filter| |done].
    destruct (Hbv v) as [?|[->| ->]]; [done|..]; rewrite !list_elem_of_filter; naive_solver.
  - unfold release in E. bools. simplify_eq. by eapply grant_waiters_fifo.
  - rewrite (cancel_waiters_eq own s h c) in E by apply Hinv. simplify_eq.
    eapply grant_waiters_fifo; [..|done|done]; simpl.
    + by apply NoDup_filter.
    + intros [? _]%list_elem_of_filter [? _]%list_elem_of_filter. by apply before_filter.
    + intros w0. rewrite cancel_all_lookup by (by apply NoDup_filter).
      case_decide; [|by apply Hq]. intros (w1 & Hw1 & ->)%fmap_Some. by apply Hq in Hw1.
Qed.

(** ** Claims about [FairCapacity] *)

(** C6.  Capacity is conserved by every interleaving of acquires, timeouts,
    interrupts, releases and cancellations: what is free, what callers hold and
    what is reserved for granted tickets add up to the configured capacity, and
    the free part is never negative (no leak, no double grant). *)
Theorem fair_capacity_conserved c σ :
  sys_reachable c σ →
  capacity (fc σ) = c ∧ 0 ≤ available (fc σ) ∧
  available (fc σ) + zsum (held σ) + zsum (reserved (tickets (fc σ)) <$> calls σ) = c.
Proof.
  intros Hr. pose proof (reachable_capacity _ _ Hr) as Hcap.
  destruct (reachable_inv _ _ Hr) as [[] _]. lia.
Qed.

(** C36.  No lost wake-up: in every reachable state the head of the queue does
    not fit, and once nothing is held or reserved the queue is empty, so no
    waiter is ever stranded behind free capacity. *)
Theorem fair_capacity_no_stranded_waiter c σ :
  sys_reachable c σ →
  head_blocked (fc σ) ∧
  (held σ = [] → zsum (reserved (tickets (fc σ)) <$> calls σ) = 0 → waiters (fc σ) = []).
Proof.
  intros Hr. destruct (reachable_inv _ _ Hr) as [Hc Hh]. split; [done|]. intros Hheld Hres.
  destruct (waiters (fc σ)) as [|t ws] eqn:E; [done|]. exfalso.
  destruct (core_queued _ _ _ Hc t) as (_ & w & Hw & (Hle & _)); [rewrite E; set_solver|].
  pose proof (Hh _ _ _ E Hw). destruct Hc. rewrite Hheld, Hres in core_conserve0.
  simpl in core_conserve0. lia.
Qed.

(**  FIFO: when a step grants a queued ticket, no ticket that stood ahead
    of it is still queued afterwards. *)
Theorem fair_capacity_fifo c σ σ' t u w :
  sys_reachable c σ → sys_step σ σ' → before (waiters (fc σ)) t u →
  tickets (fc σ') !! u = Some w → granted w = true → t ∉ waiters (fc σ').
Proof. intros Hr. apply fifo_step. by eapply reachable_inv. Qed.

(**  Callers that follow the protocol never see an internal error: a
    waiting call can always return or unwind, a held weight can always be
    released, and cancellation always succeeds. *)
Theorem fair_capacity_total c σ :
  sys_reachable c σ →
  (∀ t, t ∈ calls σ → (∃ b s', acquire_finish t (fc σ) = Ok (b, s')) ∧
                       (∃ s', acquire_abort t (fc σ) = Ok s')) ∧
  (∀ wt, wt ∈ held σ → ∃ s', release wt (fc σ) = Ok s') ∧
  (∀ own, ∃ n s', cancel_waiters own (fc σ) = Ok (n, s')).
Proof.
  intros Hr. apply reachable_inv in Hr. destruct σ as [s h c0]. simpl. split_and!.
  - intros t (c1 & c2 & ->)%list_elem_of_split. split.
    + destruct (acquire_finish_spec _ _ _ _ _ Hr) as (b & s' & ? & _). eauto.
    + destruct (acquire_abort_spec _ _ _ _ _ Hr) as (s' & ? & _). eauto.
  - intros wt (h1 & h2 & ->)%list_elem_of_split.
    destruct (release_spec _ _ _ _ _ Hr) as (s' & ? & _). eauto.
  - intros own. destruct (cancel_waiters_spec own _ _ _ Hr) as (n & s' & ? & _). eauto.
Qed.

(** A run used by the witnesses: capacity 3, one caller holds 2, tickets of
    weight 2 and 1 wait in that order. *)
Definition demo_sys : system :=
  mkSys (mkFair 3 1 [0; 1]%nat
           {[0%nat := mkWaiter 2 (Some "a") false false false;
             1%nat := mkWaiter 1 None false false false]})
        [2] [1; 0]%nat.

Lemma demo_reachable : sys_reachable 3 demo_sys.
Proof.
  eexists. split; [eexists; split; reflexivity|].
  eapply rtc_l; [eapply (sys_acquire_now true 2 None); reflexivity|].
  eapply rtc_l; [eapply (sys_acquire_queued true 2 (Some "a")); vm_compute; reflexivity|].
  eapply rtc_l; [eapply (sys_acquire_queued true 1 None); vm_compute; reflexivity|].
  apply rtc_refl.
Defined.

Lemma fair_capacity_conserved_witness :
  available (fc demo_sys) + zsum (held demo_sys) +
    zsum (reserved (tickets (fc demo_sys)) <$> calls demo_sys) = 3.
Proof. apply (fair_capacity_conserved 3 demo_sys demo_reachable). Defined.

Lemma fair_capacity_no_stranded_waiter_witness : head_blocked (fc demo_sys).
Proof. apply (fair_capacity_no_stranded_waiter 3 demo_sys demo_reachable). Defined.

(** Releasing the held 2 grants both tickets. *)
Definition demo_released : system :=
  mkSys (mkFair 3 0 []
           {[0%nat := mkWaiter 2 (Some "a") true true false;
             1%nat := mkWaiter 1 None true true false]})
        [] [1; 0]%nat.

Lemma fair_capacity_fifo_witness : 0%nat ∉ waiters (fc demo_released).
Proof.
  apply (fair_capacity_fifo 3 demo_sys demo_released 0 1 (mkWaiter 1 None true true false)).
  - exact demo_reachable.
  - apply (sys_release 2 _ _ [] []). vm_compute. reflexivity.
  - exists [], [1%nat]. split; [reflexivity|]. constructor.
  - vm_compute. reflexivity.
  - reflexivity.
Defined.

Lemma fair_capacity_total_witness :
  ∃ b s', acquire_finish 0 (fc demo_sys) = Ok (b, s').
Proof.
  apply (fair_capacity_total 3 demo_sys demo_reachable). repeat constructor.
Defined.

(** ** [FairRLock]

    A thread's place inside a critical call: [Got] between taking the capacity
    and recording itself, [Holding] while it owns the lock, [Dropping] between
    clearing [_owner] and returning the capacity. *)
Inductive rpc := Got | Holding | Dropping.
#[export] Instance rpc_eq_dec : EqDecision rpc.
Proof. solve_decision. Defined.

Record FairRLock := mkRLock {
  rl_capacity : FairCapacity;
  rl_owner : option nat;
  rl_depth : Z
}.

Definition rlock_init : res FairRLock :=
  res_bind (fair_init 1) (λ s, Ok (mkRLock s None 0)).

Inductive racquire := Reentered | Entered (e : entry).

(** [FairRLock.acquire] up to the wait of the inner [FairCapacity.acquire]. *)
Definition rlock_acquire (i : nat) (blocking : bool) (l : FairRLock)
    : res (racquire * FairRLock) :=
  if bool_decide (rl_owner l = Some i) then
    Ok (Reentered, mkRLock (rl_capacity l) (rl_owner l) (rl_depth l + 1))
  else
    res_bind (acquire_enter blocking 1 None (rl_capacity l)) (λ '(e, s),
      Ok (Entered e, mkRLock s (rl_owner l) (rl_depth l))).

(** The two assignments after the capacity was obtained. *)
Definition rlock_record (i : nat) (l : FairRLock) : FairRLock :=
  mkRLock (rl_capacity l) (Some i) 1.

(** [FairRLock.release] up to, and without, returning the capacity; the
    boolean says that the capacity is to be returned next. *)
Definition rlock_release (i : nat) (l : FairRLock) : res (bool * FairRLock) :=
  raise_if (negb (bool_decide (rl_owner l = Some i)))
    (RuntimeError "cannot release an unowned reservation lock")
    (let d := rl_depth l - 1 in
     if d =? 0 then Ok (true, mkRLock (rl_capacity l) None d)
     else Ok (false, mkRLock (rl_capacity l) (rl_owner l) d)).

(** [self._capacity.release()] *)
Definition rlock_return (l : FairRLock) : res FairRLock :=
  res_bind (release 1 (rl_capacity l)) (λ s, Ok (mkRLock s (rl_owner l) (rl_depth l))).

(** Threads sharing one lock.  [rl_waits] are threads inside [acquire] waiting
    on a ticket, [rl_crit] the threads at a critical place; a thread outside
    any call may call [acquire] or [release]. *)
Record rsystem := mkRSys {
  rl : FairRLock;
  rl_waits : list (nat * nat);
  rl_crit : dict nat rpc
}.

Definition callable (σ : rsystem) (i : nat) : Prop :=
  (i ∉ (rl_waits σ).*1) ∧ (dget (rl_crit σ) i = None ∨ dget (rl_crit σ) i = Some Holding).

Inductive rsys_step : rsystem → rsystem → Prop :=
| rs_reenter i b l l' w c :
    callable (mkRSys l w c) i → rlock_acquire i b l = Ok (Reentered, l') →
    rsys_step (mkRSys l w c) (mkRSys l' w c)
| rs_acquire_now i b l l' w c :
    callable (mkRSys l w c) i → rlock_acquire i b l = Ok (Entered Acquired, l') →
    rsys_step (mkRSys l w c) (mkRSys l' w (dset c i Got))
| rs_acquire_refused i b l l' w c :
    callable (mkRSys l w c) i → rlock_acquire i b l = Ok (Entered Refused, l') →
    rsys_step (mkRSys l w c) (mkRSys l' w c)
| rs_acquire_queued i b t l l' w c :
    callable (mkRSys l w c) i → rlock_acquire i b l = Ok (Entered (Queued t), l') →
    rsys_step (mkRSys l w c) (mkRSys l' ((i, t) :: w) c)
| rs_wait_true i t l s w1 w2 c :
    acquire_finish t (rl_capacity l) = Ok (true, s) →
    rsys_step (mkRSys l (w1 ++ (i, t) :: w2) c)
      (mkRSys (mkRLock s (rl_owner l) (rl_depth l)) (w1 ++ w2) (dset c i Got))
| rs_wait_false i t l s w1 w2 c :
    acquire_finish t (rl_capacity l) = Ok (false, s) →
    rsys_step (mkRSys l (w1 ++ (i, t) :: w2) c)
      (mkRSys (mkRLock s (rl_owner l) (rl_depth l)) (w1 ++ w2) c)
| rs_wait_abort i t l s w1 w2 c :
    acquire_abort t (rl_capacity l) = Ok s →
    rsys_step (mkRSys l (w1 ++ (i, t) :: w2) c)
      (mkRSys (mkRLock s (rl_owner l) (rl_depth l)) (w1 ++ w2) c)
| rs_record i l w c :
    dget c i = Some Got →
    rsys_step (mkRSys l w c) (mkRSys (rlock_record i l) w (dset c i Holding))
| rs_release_inner i l l' w c :
    callable (mkRSys l w c) i → rlock_release i l = Ok (false, l') →
    rsys_step (mkRSys l w c) (mkRSys l' w c)
| rs_release_outer i l l' w c :
    callable (mkRSys l w c) i → rlock_release i l = Ok (true, l') →
    rsys_step (mkRSys l w c) (mkRSys l' w (dset c i Dropping))
| rs_return i l l' w c :
    dget c i = Some Dropping → rlock_return l = Ok l' →
    rsys_step (mkRSys l w c) (mkRSys l' w (dpop c i)).

Definition rsys_reachable (σ : rsystem) : Prop :=
  ∃ l, rlock_init = Ok l ∧ rtc rsys_step (mkRSys l [] []) σ.

(** The simulation: a lock state is a [FairCapacity] system in which every
    critical thread holds one unit and every waiting thread one ticket. *)
Record rinv (σ : rsystem) : Prop := {
  rinv_fair : inv (mkSys (rl_capacity (rl σ)) (replicate (length (rl_crit σ)) 1) ((rl_waits σ).*2));
  rinv_one : capacity (rl_capacity (rl σ)) = 1;
  rinv_threads : NoDup ((rl_waits σ).*1 ++ dkeys (rl_crit σ));
  rinv_owner i : rl_owner (rl σ) = Some i ↔ dget (rl_crit σ) i = Some Holding;
  rinv_depth : rl_owner (rl σ) ≠ None → 1 ≤ rl_depth (rl σ)
}.

Lemma zsum_replicate n : zsum (replicate n 1) = Z.of_nat n.
Proof. unfold zsum. induction n; simpl; lia. Qed.

Lemma reserved_nonneg s h c : core s h c → 0 ≤ zsum (reserved (tickets s) <$> c).
Proof.
  intros Hc. apply zsum_nonneg, Forall_forall. intros x (t & -> & Ht)%list_elem_of_fmap.
  unfold reserved. destruct (core_call _ _ _ Hc t Ht) as (w & -> & ? & _). case_match; lia.
Qed.

Lemma rinv_crit σ : rinv σ → (length (rl_crit σ) ≤ 1)%nat.
Proof.
  intros [[Hc _] H1 _ _ _]. simpl in Hc. pose proof (reserved_nonneg _ _ _ Hc).
  destruct Hc. rewrite zsum_replicate in *. lia.
Qed.

(** Two critical threads are the same thread. *)
Lemma rinv_exclusive σ i j : rinv σ → i ∈ dkeys (rl_crit σ) → j ∈ dkeys (rl_crit σ) → i = j.
Proof.
  intros Hinv%rinv_crit. unfold dkeys. destruct (rl_crit σ) as [|[k p] [|??]]; simpl in *;
    [set_solver|set_solver|lia].
Qed.

Lemma dset_length_fresh {V} (c : dict nat V) i v :
  i ∉ dkeys c → length (dset c i v) = S (length c).
Proof. intros. rewrite dset_fresh by done. rewrite length_app. simpl. lia. Qed.
Lemma dset_length_present {V} (c : dict nat V) i v :
  i ∈ dkeys c → length (dset c i v) = length c.
Proof.
  intros. rewrite <-(length_fmap fst), <-(length_fmap fst c). fold (dkeys (dset c i v)) (dkeys c).
  by rewrite dkeys_dset, decide_True.
Qed.

Lemma waits_perm {A B} (w1 w2 : list (A * B)) i t :
  (w1 ++ (i, t) :: w2).*1 ≡ₚ i :: (w1 ++ w2).*1.
Proof. rewrite !fmap_app. csimpl. by rewrite Permutation_middle. Qed.

(** A step of the inner capacity that keeps the owner and the depth. *)
Lemma rinv_wait σ i t l w1 w2 c :
  σ = mkRSys l (w1 ++ (i, t) :: w2) c → rinv σ →
  ∃ b s, acquire_finish t (rl_capacity l) = Ok (b, s) ∧
    rinv (mkRSys (mkRLock s (rl_owner l) (rl_depth l)) (w1 ++ w2)
            (if b then dset c i Got else c)).
Proof.
  intros -> [Hf H1 Hnd Ho Hd]. simpl in *. rewrite fmap_app in Hf. csimpl in Hf.
  destruct (acquire_finish_spec _ _ _ _ _ Hf) as (b & s & E & Hf'). exists b, s. split; [done|].
  rewrite waits_perm in Hnd. csimpl in Hnd. apply NoDup_cons in Hnd as [Hi Hnd].
  assert (i ∉ dkeys c) as Hic by set_solver.
  assert (capacity s = 1) as Hs.
  { rewrite <-H1. destruct b; [apply (sys_step_capacity _ _ (sys_return_true _ _ _ _ _ _ E) Hf)
      |apply (sys_step_capacity _ _ (sys_return_false _ _ _ _ _ _ E) Hf)]. }
  destruct b; split; simpl; try done.
  - rewrite fmap_app, dset_length_fresh by done. simpl.
    assert (ticket_weight (rl_capacity l) t = 1) as Hw; [|by rewrite Hw in Hf'].
    destruct Hf' as [Hc _]. simpl in Hc. pose proof (reserved_nonneg _ _ _ Hc). destruct Hc.
    apply Forall_cons in core_held0 as [Hpos _].
    pose proof (zsum_replicate (length c)). unfold zsum in *. simpl in core_conserve0. lia.
  - rewrite dkeys_dset, decide_False, app_assoc by done. apply NoDup_app.
    split_and!; [done|set_solver|apply NoDup_singleton].
  - intros j. rewrite Ho. destruct (decide (i = j)) as [->|Hne].
    + rewrite dget_dset_eq. apply dget_None in Hic. rewrite Hic. naive_solver.
    + by rewrite dget_dset_ne.
  - by rewrite fmap_app.
Qed.

Lemma rinv_abort i t l s w1 w2 c :
  rinv (mkRSys l (w1 ++ (i, t) :: w2) c) → acquire_abort t (rl_capacity l) = Ok s →
  rinv (mkRSys (mkRLock s (rl_owner l) (rl_depth l)) (w1 ++ w2) c).
Proof.
  intros [Hf H1 Hnd Ho Hd] E. simpl in *. rewrite fmap_app in Hf. csimpl in Hf.
  destruct (acquire_abort_spec _ _ _ _ _ Hf) as (s' & E' & Hf'). rewrite E in E'. simplify_eq.
  rewrite waits_perm in Hnd. csimpl in Hnd. apply NoDup_cons in Hnd as [Hi Hnd].
  split; simpl; try done; [by rewrite fmap_app|].
  rewrite <-H1. apply (sys_step_capacity _ _ (sys_abort _ _ _ _ _ _ E) Hf).
Qed.

Lemma rinv_acquire i b l e l' w c :
  rinv (mkRSys l w c) → callable (mkRSys l w c) i → rlock_acquire i b l = Ok (e, l') →
  match e with
  | Reentered | Entered Refused => rinv (mkRSys l' w c)
  | Entered Acquired => rinv (mkRSys l' w (dset c i Got))
  | Entered (Queued t) => rinv (mkRSys l' ((i, t) :: w) c)
  end.
Proof.
  intros [Hf H1 Hnd Ho Hd] [Hw Hcall] E. simpl in *. unfold rlock_acquire in E.
  case_bool_decide as Hown; simplify_eq.
  { split; simpl; try done. intros Hn. specialize (Hd Hn). lia. }
  bools. destruct x as [e0 s]. simplify_eq.
  assert (dget c i = None) as Hi.
  { destruct Hcall as [?|Hh]; [done|]. by apply Ho in Hh. }
  apply dget_None in Hi as Hic.
  pose proof (acquire_enter_inv _ _ _ _ _ _ _ _ Hf H) as Hf'.
  destruct e0 as [| |t]; split; simpl; try done.
  - by rewrite dset_length_fresh.
  - rewrite <-H1. apply (sys_step_capacity _ _ (sys_acquire_now _ _ _ _ _ _ _ H) Hf).
  - rewrite dkeys_dset, decide_False, app_assoc by done. apply NoDup_app.
    split_and!; [done|set_solver|apply NoDup_singleton].
  - intros j. rewrite Ho. destruct (decide (i = j)) as [->|Hne].
    + rewrite dget_dset_eq, Hi. naive_solver.
    + by rewrite dget_dset_ne.
  - rewrite <-H1. apply (sys_step_capacity _ _ (sys_acquire_refused _ _ _ _ _ _ _ H) Hf).
  - rewrite <-H1. apply (sys_step_capacity _ _ (sys_acquire_queued _ _ _ _ _ _ _ _ H) Hf).
  - apply NoDup_cons. set_solver.
Qed.

(** A thread that is already critical moves to another critical place. *)
Lemma rinv_move σ l i p q :
  rinv σ → dget (rl_crit σ) i = Some p → rl_capacity l = rl_capacity (rl σ) →
  rl_owner l = (if decide (q = Holding) then Some i else None) →
  (q = Holding → 1 ≤ rl_depth l) →
  rinv (mkRSys l (rl_waits σ) (dset (rl_crit σ) i q)).
Proof.
  intros Hinv Hp Hcap Hown Hdep.
  assert (i ∈ dkeys (rl_crit σ)) as Hi.
  { destruct (decide (i ∈ dkeys (rl_crit σ))) as [|Hn]; [done|]. apply dget_None in Hn. congruence. }
  pose proof (λ j, rinv_exclusive σ i j Hinv Hi) as Hex. destruct Hinv as [Hf H1 Hnd Ho Hd].
  split; simpl; rewrite ?Hcap; try done.
  - by rewrite dset_length_present.
  - by rewrite dkeys_dset, decide_True.
  - intros j. rewrite Hown. destruct (decide (i = j)) as [->|Hne].
    + rewrite dget_dset_eq. case_decide; naive_solver.
    + rewrite dget_dset_ne by done. split.
      * case_decide; naive_solver.
      * intros Hj. destruct Hne. apply Hex.
        destruct (decide (j ∈ dkeys (rl_crit σ))) as [|Hn]; [done|]. apply dget_None in Hn. congruence.
  - rewrite Hown. case_decide; naive_solver.
Qed.

Lemma rinv_release i l b l' w c :
  rinv (mkRSys l w c) → rlock_release i l = Ok (b, l') →
  rinv (mkRSys l' w (if b then dset c i Dropping else c)).
Proof.
  intros Hinv E. unfold rlock_release in E. bools.
  pose proof (proj1 (rinv_owner _ Hinv i) H) as Hi. simpl in Hi.
  case_match; bools; simplify_eq.
  - by apply (rinv_move _ _ i Holding Dropping Hinv).
  - destruct Hinv as [? ? ? ? Hd]. split; simpl in *; try done.
    intros Hn. specialize (Hd Hn). lia.
Qed.

Lemma rinv_return i l l' w c :
  rinv (mkRSys l w c) → dget c i = Some Dropping → rlock_return l = Ok l' →
  rinv (mkRSys l' w (dpop c i)).
Proof.
  intros Hinv Hi E. pose proof (rinv_crit _ Hinv) as Hlen. destruct Hinv as [Hf H1 Hnd Ho Hd].
  simpl in *. unfold rlock_return in E. bools. simplify_eq.
  destruct c as [|[k p] [|??]]; simpl in *; [done| |lia].
  case_decide; simplify_eq. change [1] with ([] ++ 1 :: @nil Z) in Hf.
  destruct (release_spec _ _ _ _ _ Hf) as (s' & E' & Hf'). rewrite H in E'. simplify_eq.
  unfold dpop. rewrite filter_cons_False by naive_solver. split; simpl; try done.
  - rewrite <-H1. apply (sys_step_capacity _ _ (sys_release _ _ _ _ _ _ H) Hf).
  - rewrite app_nil_r. apply NoDup_app in Hnd as [? _]. done.
  - intros j. rewrite Ho. case_decide; naive_solver.
Qed.

Lemma rsys_step_inv σ σ' : rsys_step σ σ' → rinv σ → rinv σ'.
Proof.
  destruct 1 as [i b l l' w c Hc E|i b l l' w c Hc E|i b l l' w c Hc E|i b t l l' w c Hc E
    |i t l s w1 w2 c E|i t l s w1 w2 c E|i t l s w1 w2 c E|i l w c Hg|i l l' w c Hc E
    |i l l' w c Hc E|i l l' w c Hg E]; intros Hinv.
  1-4: exact (rinv_acquire _ _ _ _ _ _ _ Hinv Hc E).
  1-2: destruct (rinv_wait _ _ _ _ _ _ _ eq_refl Hinv) as (b & s' & E' & Hinv');
    rewrite E in E'; by simplify_eq.
  - by eapply rinv_abort.
  - by apply (rinv_move _ _ i Got Holding Hinv).
  - exact (rinv_release _ _ _ _ _ _ Hinv E).
  - exact (rinv_release _ _ _ _ _ _ Hinv E).
  - by eapply rinv_return.
Qed.

Lemma rsys_reachable_inv σ : rsys_reachable σ → rinv σ.
Proof.
  intros (l & E & Hsteps). assert (rinv (mkRSys l [] [])) as Hinit.
  { unfold rlock_init in E. bools. simplify_eq.
    pose proof (sys_init_inv 1 (mkSys x [] []) ltac:(by exists x)) as Hx.
    unfold fair_init in H. bools. simplify_eq.
    split; simpl; try done. constructor. }
  induction Hsteps; eauto using rsys_step_inv.
Qed.

(**  [FairRLock] is a reentrant mutex: over every interleaving of threads
    at most one is inside, [_owner] names exactly the thread that holds the
    lock with a depth of at least one, and a release by any other thread
    raises. *)
Theorem fair_rlock_mutex σ i :
  rsys_reachable σ →
  (dget (rl_crit σ) i = Some Holding ↔ rl_owner (rl σ) = Some i) ∧
  (∀ j, i ∈ dkeys (rl_crit σ) → j ∈ dkeys (rl_crit σ) → i = j) ∧
  (rl_owner (rl σ) = Some i → 1 ≤ rl_depth (rl σ)) ∧
  (rl_owner (rl σ) ≠ Some i →
   rlock_release i (rl σ) = Raise (RuntimeError "cannot release an unowned reservation lock")).
Proof.
  intros Hr%rsys_reachable_inv. split_and!.
  - by rewrite rinv_owner.
  - intros j. by apply rinv_exclusive.
  - intros Ho. apply Hr. congruence.
  - intros Ho. unfold rlock_release. by rewrite bool_decide_false.
Qed.

Definition demo_rlock : rsystem :=
  mkRSys (mkRLock (mkFair 1 0 [] ∅) (Some 7%nat) 2) [] [(7%nat, Holding)].

Lemma fair_rlock_mutex_witness :
  rlock_release 8 (rl demo_rlock) =
  Raise (RuntimeError "cannot release an unowned reservation lock").
Proof.
  apply (fair_rlock_mutex demo_rlock 8); [|done].
  eexists. split; [reflexivity|].
  eapply rtc_l; [eapply (rs_acquire_now 7 true); [split; [apply not_elem_of_nil|by left]|reflexivity]|].
  eapply rtc_l; [eapply (rs_record 7); reflexivity|].
  eapply rtc_l; [eapply (rs_reenter 7 true); [split; [apply not_elem_of_nil|by right]|reflexivity]|].
  apply rtc_refl.
Defined.
