(* ===== verification/PyFloat.v ===== *)
(** * Python floats

    A float is an exact rational or one of the special values; comparison and
    arithmetic follow IEEE 754 on the special values (every comparison with NaN
    is false) and are exact on finite ones.  Rounding is the one thing left out:
    the code modelled here compares floats against thresholds and adds a few of
    them, and no theorem depends on a sum being rounded. *)
From S2P Require Import Prelude.
From Stdlib Require Import QArith Qround Qminmax Lqa.
Local Close Scope Q_scope.

Inductive float := Fin (q : Q) | PosInf | NegInf | NaN.

#[export] Instance Q_eq_dec : EqDecision Q.
Proof. intros [] []. solve_decision. Defined.
#[export] Instance float_eq_dec : EqDecision float.
Proof. solve_decision. Defined.

(** Conversion of an int operand in mixed arithmetic and comparisons. *)
Definition of_int (z : Z) : float := Fin (inject_Z z).

Definition isfinite (x : float) : bool :=
  match x with Fin _ => true | _ => false end.

Definition fleb (x y : float) : bool :=
  match x, y with
  | NaN, _ | _, NaN => false
  | NegInf, _ | _, PosInf => true
  | _, NegInf | PosInf, _ => false
  | Fin a, Fin b => Qle_bool a b
  end.

Definition fltb (x y : float) : bool :=
  match x, y with
  | NaN, _ | _, NaN => false
  | _, _ => negb (fleb y x)
  end.

Definition fneg (x : float) : float :=
  match x with Fin a => Fin (- a)%Q | PosInf => NegInf | NegInf => PosInf | NaN => NaN end.

Definition fadd (x y : float) : float :=
  match x, y with
  | NaN, _ | _, NaN => NaN
  | Fin a, Fin b => Fin (a + b)%Q
  | PosInf, NegInf | NegInf, PosInf => NaN
  | PosInf, _ | _, PosInf => PosInf
  | NegInf, _ | _, NegInf => NegInf
  end.

Definition fsub (x y : float) : float := fadd x (fneg y).

(** Scaling by a finite positive constant, and division by one. *)
Definition fscale (x : float) (q : Q) : float :=
  match x with Fin a => Fin (a * q)%Q | PosInf => PosInf | NegInf => NegInf | NaN => NaN end.

(** [x * y] *)
Definition fmul (x y : float) : float :=
  match x, y with
  | NaN, _ | _, NaN => NaN
  | Fin a, Fin b => Fin (a * b)%Q
  | Fin a, i | i, Fin a =>
      match Qcompare a 0 with
      | Eq => NaN
      | Gt => i
      | Lt => fneg i
      end
  | PosInf, PosInf | NegInf, NegInf => PosInf
  | PosInf, NegInf | NegInf, PosInf => NegInf
  end.

(** [x / y] of floats, [y] not zero *)
Definition fdiv (x y : float) : float :=
  match x, y with
  | NaN, _ | _, NaN => NaN
  | Fin a, Fin b => Fin (a / b)%Q
  | Fin _, _ => of_int 0
  | PosInf, Fin b => if Qle_bool 0 b then PosInf else NegInf
  | NegInf, Fin b => if Qle_bool 0 b then NegInf else PosInf
  | _, _ => NaN
  end.

(** [math.ceil(x)] *)
Definition fceil (x : float) : res Z :=
  match x with
  | Fin q => Ok (Qceiling q)
  | NaN => Raise (ValueError "cannot convert float NaN to integer")
  | _ => Raise (OverflowError "cannot convert float infinity to integer")
  end.

(** [math.ceil(z / t)] of an int and a float *)
Definition ceil_ratio (z : Z) (t : float) : res Z :=
  raise_if (match t with Fin q => Qeq_bool q 0 | _ => false end)
    (ZeroDivisionError "float division by zero")
    (fceil (fdiv (of_int z) t)).

(** [max(x, y)] keeps its first argument unless the second compares greater,
    [min(x, y)] unless the second compares smaller. *)
Definition fmax (x y : float) : float := if fltb x y then y else x.
Definition fmin (x y : float) : float := if fltb y x then y else x.

Declare Scope float_scope.
Delimit Scope float_scope with F.
Infix "<=?" := fleb : float_scope.
Infix "<?" := fltb : float_scope.
Infix "+" := fadd : float_scope.
Infix "-" := fsub : float_scope.

Lemma fleb_refl x : x ≠ NaN → fleb x x = true.
Proof. destruct x; simpl; try done. intros _. apply Qle_bool_iff, Qle_refl. Qed.
Lemma fleb_trans x y z : fleb x y = true → fleb y z = true → fleb x z = true.
Proof.
  destruct x, y, z; simpl; try done. rewrite !Qle_bool_iff. apply Qle_trans.
Qed.
Lemma fltb_Fin a b : fltb (Fin a) (Fin b) = true ↔ (a < b)%Q.
Proof.
  simpl. rewrite negb_true_iff, <-not_true_iff_false, Qle_bool_iff. split; [apply Qnot_le_lt|apply Qlt_not_le].
Qed.
Lemma fleb_Fin a b : fleb (Fin a) (Fin b) = true ↔ (a <= b)%Q.
Proof. apply Qle_bool_iff. Qed.
Lemma fltb_fleb x y : fltb x y = true → fleb x y = true.
Proof.
  destruct x as [a| | |], y as [b| | |]; simpl; try done.
  intros H. apply Qle_bool_iff. apply (fltb_Fin a b) in H. lra.
Qed.
Lemma fltb_false_fleb x y : x ≠ NaN → y ≠ NaN → fltb x y = false → fleb y x = true.
Proof.
  destruct x as [a| | |], y as [b| | |]; simpl; try done.
  intros _ _ H%negb_false_iff. done.
Qed.
Lemma fleb_fltb_false x y : fleb x y = true → fltb y x = false.
Proof. destruct x, y; simpl; try done. intros ->. done. Qed.

(** Clamping into [[lo, hi]] stays inside it, whatever the value. *)
Lemma fclamp_bounds lo hi x :
  isfinite lo = true → isfinite hi = true → fleb lo hi = true →
  fleb lo (fmax lo (fmin hi x)) = true ∧ fleb (fmax lo (fmin hi x)) hi = true.
Proof.
  intros Hlo Hhi Hle. unfold fmax.
  assert (lo ≠ NaN) by (by destruct lo). assert (hi ≠ NaN) by (by destruct hi).
  destruct (fltb lo (fmin hi x)) eqn:E.
  - split; [by apply fltb_fleb|]. unfold fmin in *. destruct (fltb x hi) eqn:E'.
    + by apply fltb_fleb.
    + by apply fleb_refl.
  - split; [by apply fleb_refl|done].
Qed.

Lemma fleb_of_int a b : fleb (of_int a) (of_int b) = (a <=? b)%Z.
Proof.
  simpl. apply eq_bool_prop_intro. rewrite !Is_true_true, Qle_bool_iff, Z.leb_le.
  unfold Qle. simpl. lia.
Qed.
Lemma fltb_of_int a b : fltb (of_int a) (of_int b) = (a <? b)%Z.
Proof.
  change (fltb (of_int a) (of_int b)) with (negb (fleb (of_int b) (of_int a))).
  rewrite fleb_of_int. lia.
Qed.

#[export] Hint Resolve fleb_refl fltb_fleb : py.
