(* ===== verification/Json.v ===== *)
(** * Decoded JSON values

    The values [json.loads] produces and the isinstance tests the schema checks
    of the code make on them.  In Python a bool is an int; the checks exclude it
    explicitly, so the two are separate constructors here. *)
From S2P Require Import Prelude PyFloat.
Local Open Scope Z_scope.

#[local] Set Warnings "-register-all".
Inductive json :=
| JNull
| JBool (b : bool)
| JInt (z : Z)
| JFloat (x : float)
| JStr (s : string)
| JList (l : list json)
| JObj (d : list (string * json)).

(** [raw.get(k)] of an object; [JNull] for an absent key. *)
Definition jget (d : dict string json) (k : string) : json := default JNull (dget d k).

(** [set(raw) == {k1, ..., kn}] *)
Definition has_exact_keys (d : dict string json) (ks : list string) : bool :=
  forallb (λ k, bool_decide (k ∈ ks)) (dkeys d) && forallb (λ k, bool_decide (k ∈ dkeys d)) ks.

(** [float(z)] of an int: an int that rounds to 2^1024 or beyond raises. *)
Definition float_of_pyint (z : Z) : res float :=
  raise_if (2 ^ 1024 - 2 ^ 970 <=? Z.abs z)
    (OverflowError "int too large to convert to float") (Ok (of_int z)).

Lemma has_exact_keys_spec d ks :
  has_exact_keys d ks = true ↔ ∀ k, k ∈ dkeys d ↔ k ∈ ks.
Proof.
  unfold has_exact_keys. rewrite andb_true_iff, !forallb_forall. split.
  - intros [H1 H2] k. split; intros Hk.
    + eapply bool_decide_eq_true, H1. by apply list_elem_of_In.
    + eapply bool_decide_eq_true, H2. by apply list_elem_of_In.
  - intros H. split; intros k Hk%list_elem_of_In; apply bool_decide_eq_true; by apply H.
Qed.

(** [a == b] on decoded values: ints, floats and bools compare as numbers, objects
    regardless of key order. *)
Definition json_number (j : json) : option float :=
  match j with
  | JBool b => Some (of_int (Z.b2z b))
  | JInt z => Some (of_int z)
  | JFloat x => Some x
  | _ => None
  end.
Definition feqb (x y : float) : bool := fleb x y && fleb y x.

Fixpoint json_eqb (a b : json) {struct a} : bool :=
  match a, b with
  | JNull, JNull => true
  | JStr s, JStr t => bool_decide (s = t)
  | JList l, JList m =>
      (fix go l m := match l, m with
                     | [], [] => true
                     | x :: l, y :: m => json_eqb x y && go l m
                     | _, _ => false
                     end) l m
  | JObj d, JObj e =>
      bool_decide (length d = length e) &&
      (fix go d := match d with
                   | [] => true
                   | (k, x) :: d =>
                       match dget e k with Some y => json_eqb x y | None => false end && go d
                   end) d
  | _, _ => match json_number a, json_number b with
            | Some x, Some y => feqb x y
            | _, _ => false
            end
  end.

(** [str(x or "")]; [py_str] is [str] of a value that is not a string *)
Definition text_or_empty (py_str : json → string) (x : json) : string :=
  match x with
  | JStr s => s
  | JNull | JBool false | JInt 0 | JList [] | JObj [] => EmptyString
  | JFloat x => if feqb x (of_int 0) then EmptyString else py_str (JFloat x)
  | _ => py_str x
  end.
