(* ===== verification/PyString.v ===== *)
(** * Python strings

    The string methods the routing and placement code uses, on ASCII text: case
    folding, stripping, and the pattern of operation identifiers. *)
From S2P Require Import Prelude.
From stdpp Require Import strings pretty.
From Stdlib Require Import Ascii.

Definition lower_char (c : ascii) : ascii :=
  let n := nat_of_ascii c in
  if ((65 <=? n) && (n <=? 90))%nat then ascii_of_nat (n + 32) else c.

(** [s.lower()] *)
Fixpoint lower (s : string) : string :=
  match s with
  | EmptyString => EmptyString
  | String c s => String (lower_char c) (lower s)
  end.

(** [str.upper], on ASCII *)
Definition upper_char (c : ascii) : ascii :=
  let n := nat_of_ascii c in if (97 <=? n)%nat && (n <=? 122)%nat then ascii_of_nat (n - 32) else c.
Fixpoint upper (s : string) : string :=
  match s with EmptyString => EmptyString | String c s => String (upper_char c) (upper s) end.

(** [s.rstrip(c)], for one character *)
Fixpoint rstrip_char (c : ascii) (s : string) : string :=
  match s with
  | EmptyString => EmptyString
  | String a s =>
      match rstrip_char c s with
      | EmptyString => if bool_decide (a = c) then EmptyString else String a EmptyString
      | s' => String a s'
      end
  end.

(** [s.rstrip("/")] *)
Fixpoint rstrip_slash (s : string) : string :=
  match s with
  | EmptyString => EmptyString
  | String c s' =>
      let r := rstrip_slash s' in
      if bool_decide (r = EmptyString) && bool_decide (c = "/"%char) then EmptyString else String c r
  end.

Definition nonempty (s : string) : bool := negb (bool_decide (s = EmptyString)).

(** Whitespace as [str.isspace] has it on ASCII. *)
Definition is_space (c : ascii) : bool :=
  let n := nat_of_ascii c in ((9 <=? n) && (n <=? 13) || (28 <=? n) && (n <=? 32))%nat.
Fixpoint lstrip (s : string) : string :=
  match s with
  | String c s' => if is_space c then lstrip s' else s
  | EmptyString => EmptyString
  end.
Fixpoint rstrip (s : string) : string :=
  match s with
  | EmptyString => EmptyString
  | String c s' =>
      let r := rstrip s' in
      if bool_decide (r = EmptyString) && is_space c then EmptyString else String c r
  end.
Definition strip (s : string) : string := lstrip (rstrip s).

(** [x or default] on strings *)
Definition str_or (s default : string) : string := if nonempty s then s else default.

Definition is_alnum (c : ascii) : bool :=
  let n := nat_of_ascii c in
  ((48 <=? n) && (n <=? 57) || (65 <=? n) && (n <=? 90) || (97 <=? n) && (n <=? 122))%nat.
Definition is_id_char (c : ascii) : bool :=
  is_alnum c || bool_decide (c ∈ ["_"; "."; ":"; "-"]%char).
Fixpoint all_chars (f : ascii → bool) (s : string) : bool :=
  match s with EmptyString => true | String c s => f c && all_chars f s end.

(** [OPERATION_ID_RE.fullmatch(s)]: an alphanumeric, then at most 127 identifier
    characters. *)
Definition operation_id_ok (s : string) : bool :=
  match s with
  | EmptyString => false
  | String c s' => is_alnum c && all_chars is_id_char s' && (String.length s' <=? 127)%nat
  end.

(** [c in s] *)
Fixpoint has_char (c : ascii) (s : string) : bool :=
  match s with EmptyString => false | String a s => bool_decide (a = c) || has_char c s end.
(** [s[n:]] and [s[:n]] *)
Fixpoint sdrop (n : nat) (s : string) : string :=
  match n, s with S n, String _ s => sdrop n s | _, _ => s end.
Fixpoint stake (n : nat) (s : string) : string :=
  match n, s with S n, String c s => String c (stake n s) | _, _ => EmptyString end.
(** [s.endswith(t)] *)
Definition ends_with (t s : string) : bool :=
  (String.length t <=? String.length s)%nat && bool_decide (sdrop (String.length s - String.length t) s = t).
(** [s.split(c)] *)
Fixpoint split_char (c : ascii) (s : string) : list string :=
  match s with
  | EmptyString => [EmptyString]
  | String a s =>
      if bool_decide (a = c) then EmptyString :: split_char c s
      else match split_char c s with
           | part :: rest => String a part :: rest
           | [] => [String a EmptyString]
           end
  end.

(** [s.split(c, 1)[0]] *)
Fixpoint before_first (c : ascii) (s : string) : string :=
  match s with
  | EmptyString => EmptyString
  | String d s' => if bool_decide (d = c) then EmptyString else String d (before_first c s')
  end.
(** [s.rpartition(c)], [None] when [c] does not occur *)
Fixpoint rpartition (c : ascii) (s : string) : option (string * string) :=
  match s with
  | EmptyString => None
  | String d s' => match rpartition c s' with
                   | Some (a, b) => Some (String d a, b)
                   | None => if bool_decide (d = c) then Some (EmptyString, s') else None
                   end
  end.

(** [int(s)] of decimal digits, [None] where [s.isdigit()] is false *)
Definition digit_of (c : ascii) : option N :=
  let n := N_of_ascii c in if ((48 <=? n) && (n <=? 57))%N then Some (n - 48)%N else None.
Fixpoint digits_from (acc : N) (s : string) : option N :=
  match s with
  | EmptyString => Some acc
  | String c s' => match digit_of c with Some v => digits_from (acc * 10 + v) s' | None => None end
  end.
Definition decimal (s : string) : option N := if nonempty s then digits_from 0 s else None.

Lemma digits_pretty_go x s : digits_from 0 (pretty.pretty_N_go x s) = digits_from x s.
Proof.
  revert s. induction (N.lt_wf_0 x) as [x _ IH]; intros s.
  destruct (decide (x = 0)%N) as [->|Hx]; [by rewrite pretty.pretty_N_go_0|].
  rewrite pretty.pretty_N_go_step by lia. rewrite IH by (apply N.div_lt; lia). simpl.
  assert (digit_of (pretty.pretty_N_char (x mod 10)) = Some (x mod 10)%N) as ->.
  { assert (x mod 10 < 10)%N as Hm by (apply N.mod_lt; lia).
    destruct (decide ((x mod 10 ∈ [0;1;2;3;4;5;6;7;8;9])%N)) as [Hi|Hi].
    - repeat (apply elem_of_cons in Hi as [->|Hi]; [done|]). by apply elem_of_nil in Hi.
    - exfalso. apply Hi. set (m := (x mod 10)%N) in *. clearbody m. clear -Hm.
      destruct m as [|p]; [set_solver|]. do 4 (destruct p as [p|p|]; try (set_solver || lia)). }
  f_equal. symmetry. rewrite N.mul_comm. apply N.div_mod. lia.
Qed.
Lemma pretty_N_nonempty (n : N) : nonempty (pretty n) = true.
Proof.
  unfold nonempty. rewrite negb_true_iff, bool_decide_eq_false. intros E.
  assert (pretty n ≠ pretty (n + 1)%N) as Hn by (intros H%(inj pretty); lia).
  destruct (decide (n = 0)%N) as [->|Hz]; [discriminate|].
  apply (f_equal (digits_from 0)) in E. unfold pretty, pretty.pretty_N in E.
  rewrite decide_False in E by done. rewrite digits_pretty_go in E. simpl in E. congruence.
Qed.
Lemma decimal_pretty (n : N) : decimal (pretty n) = Some n.
Proof.
  unfold decimal. rewrite pretty_N_nonempty. unfold pretty, pretty.pretty_N.
  destruct (decide (n = 0)%N) as [->|]; [done|]. by rewrite digits_pretty_go.
Qed.
Lemma digits_no_char (c : ascii) acc s n :
  digit_of c = None → digits_from acc s = Some n → rpartition c s = None.
Proof.
  intros Hc. revert acc. induction s as [|d s IH]; intros acc; simpl; [done|].
  destruct (digit_of d) eqn:Ed; [|done]. intros Hs. rewrite (IH _ Hs).
  rewrite bool_decide_eq_false_2; [done|congruence].
Qed.
Lemma rpartition_at c a b : rpartition c b = None → rpartition c (a +:+ String c b) = Some (a, b).
Proof.
  intros Hb. induction a as [|d a IH]; simpl.
  - by rewrite Hb, bool_decide_eq_true_2.
  - by rewrite IH.
Qed.
Lemma rpartition_app_None c a b : rpartition c a = None → rpartition c b = None → rpartition c (a +:+ b) = None.
Proof.
  intros Ha Hb. induction a as [|d a IH]; simpl in *; [done|].
  destruct (rpartition c a) as [[]|] eqn:E; [done|]. rewrite IH by done. by case_bool_decide.
Qed.

Lemma rpartition_Some c s a b : rpartition c s = Some (a, b) → s = a +:+ String c b ∧ rpartition c b = None.
Proof.
  revert a. induction s as [|d s IH]; intros a; simpl; [done|]. destruct (rpartition c s) as [[a' b']|] eqn:E.
  - intros [= <- <-]. destruct (IH _ eq_refl) as [-> ?]. done.
  - case_bool_decide as Hd; [|done]. intros [= <- <-]. subst. done.
Qed.

(** Stripping leaves a stripped string alone. *)
Lemma lstrip_idem s : lstrip (lstrip s) = lstrip s.
Proof. induction s as [|c s IH]; simpl; [done|]. destruct (is_space c) eqn:E; [done|]. simpl. by rewrite E. Qed.
Lemma rstrip_idem s : rstrip (rstrip s) = rstrip s.
Proof.
  induction s as [|c s IH]; simpl; [done|]. destruct (bool_decide (rstrip s = EmptyString) && is_space c) eqn:E; [done|].
  simpl. by rewrite IH, E.
Qed.
Lemma rstrip_tail c s : rstrip (String c s) = String c s → rstrip s = s.
Proof. simpl. destruct (_ && _); [done|]. by intros [=]. Qed.
Lemma rstrip_lstrip s : rstrip s = s → rstrip (lstrip s) = lstrip s.
Proof.
  induction s as [|c s IH]; [done|]. intros Hs. cbn [lstrip]. destruct (is_space c); [|done].
  apply IH. by apply (rstrip_tail c).
Qed.
Lemma strip_idem s : strip (strip s) = strip s.
Proof. unfold strip. rewrite rstrip_lstrip by apply rstrip_idem. apply lstrip_idem. Qed.
Lemma rstrip_app a b : rstrip b = b → b ≠ EmptyString → rstrip (a +:+ b) = a +:+ b.
Proof.
  intros Hb Hn. induction a as [|c a IH]; simpl; [done|]. rewrite IH.
  rewrite bool_decide_eq_false_2; [done|]. by destruct a.
Qed.
Lemma lstrip_app a b : lstrip a = a → a ≠ EmptyString → lstrip (a +:+ b) = a +:+ b.
Proof.
  destruct a as [|c a]; [done|]. simpl. destruct (is_space c) eqn:E; [|done]. intros Ha. exfalso.
  assert (∀ t, String.length (lstrip t) ≤ String.length t)%nat as Hl.
  { induction t as [|d t IH]; simpl; [lia|]. destruct (is_space d); simpl; lia. }
  specialize (Hl a). rewrite Ha in Hl. simpl in Hl. lia.
Qed.
Lemma rstrip_digits acc s n : digits_from acc s = Some n → rstrip s = s.
Proof.
  revert acc. induction s as [|c s IH]; intros acc; simpl; [done|]. destruct (digit_of c) eqn:E; [|done].
  intros Hs. rewrite (IH _ Hs). assert (is_space c = false) as ->; [|by rewrite andb_false_r].
  revert E. unfold digit_of, is_space. destruct c as [[] [] [] [] [] [] [] []]; vm_compute; done.
Qed.
Lemma rpartition_strip c s : rpartition c s = None → rpartition c (strip s) = None.
Proof.
  intros Hs. unfold strip.
  assert (rpartition c (rstrip s) = None) as Hr.
  { induction s as [|d s IH]; simpl in *; [done|]. destruct (rpartition c s) as [[]|]; [done|].
    destruct (_ && _); [done|]. simpl. rewrite IH by done. by case_bool_decide. }
  revert Hr. generalize (rstrip s). clear. induction s as [|d s IH]; simpl; [done|].
  destruct (is_space d); [|done]. destruct (rpartition c s) as [[]|]; [done|]. intros _. by apply IH.
Qed.
