(* ===== verification/Resources.v ===== *)
(** * Resource quantities, node observations and the resource admission contract
    (ucloud_sandboxes/models.py, capabilities.py, resource_admission.py)

    The records keep the fields that the modelled code reads; a datetime is a
    count of microseconds.  [dynamic_request_fits] and the pressure checks are
    the shared contract of create, wake and exec admission. *)
From S2P Require Import Prelude PyFloat Json.
From Stdlib Require Import QArith Lqa.
Local Close Scope Q_scope.
Local Open Scope Z_scope.

(** ** models.py *)

Record ResourceQuantity := mkRQ { vcpu : float; memory_mb : Z; disk_mb : Z }.

Definition rq_zero : ResourceQuantity := mkRQ (of_int 0) 0 0.

Definition is_valid (r : ResourceQuantity) : bool :=
  isfinite (vcpu r) && fleb (of_int 0) (vcpu r) && (0 <=? memory_mb r) && (0 <=? disk_mb r).

Definition rq_add (a b : ResourceQuantity) : ResourceQuantity :=
  mkRQ (fadd (vcpu a) (vcpu b)) (memory_mb a + memory_mb b) (disk_mb a + disk_mb b).

Definition fits_within (a capacity : ResourceQuantity) : bool :=
  fleb (vcpu a) (vcpu capacity) && (memory_mb a <=? memory_mb capacity)
  && (disk_mb a <=? disk_mb capacity).

Record SandboxMemoryObservation := mkObservation {
  mo_memory_bytes : Z;
  mo_sampled_at : string
}.

Record SandboxInventoryEntry := mkInv {
  inv_sandbox_id : string;
  inv_generation : Z;
  inv_operation_id : string;
  inv_spec_hash : string;
  inv_state : string;
  inv_resources : ResourceQuantity;
  inv_storage_schema : string;
  inv_snapshot_manifest_digest : string;
  inv_snapshot_repository : string;
  inv_snapshot_tag : string;
  inv_storage_snapshot : dict string json;
  inv_storage_dependency : option (dict string json);
  inv_memory_observation : option SandboxMemoryObservation;
  inv_managed_process : option (dict string json)
}.

Record MemoryBackingCapacity := mkBacking {
  total_bytes : option Z;
  available_bytes : option Z;
  backing_identity : option string
}.

Record NodeRuntimeMetrics := mkMetrics {
  collected_at : Z;
  cpu_percent : option float;
  cpu_count : Z;
  memory_total_mb : Z;
  memory_used_mb : Z;
  memory_available_mb : Z;
  memory_percent : option float;
  memory_working_set_mb : Z;
  swap_total_mb : Z;
  swap_free_mb : Z;
  memory_psi_some_avg10 : option float;
  memory_psi_full_avg10 : option float;
  io_psi_some_avg10 : option float;
  io_psi_full_avg10 : option float;
  load_average_1m : option float;
  storage_hard_capacity_mb : Z;
  storage_hard_reserved_mb : Z;
  storage_active_operations : Z;
  storage_waiting_operations : Z;
  storage_max_concurrent_operations : Z;
  storage_error_volumes : Z;
  storage_ublk_active_devices : Z;
  storage_ublk_max_devices : Z;
  storage_workspace_grant_mb : Z;
  storage_memory_idle_claim_mb : Z;
  memory_backing : option MemoryBackingCapacity;
  cpu_check_ms : Z
}.

Record NodeHeartbeat := mkHeartbeat {
  node_id : string;
  job_id : string;
  updated_at : Z;
  active_sandboxes : Z;
  active_image_builds : Z;
  active_sandbox_creates : Z;
  idle_since : option Z;
  draining : bool;
  node_url : option string;
  agent_version : string;
  capabilities : list string;
  total_resources : ResourceQuantity;
  resources_known : bool;
  used_resources : ResourceQuantity;
  labels : dict string string;
  runtime_metrics : option NodeRuntimeMetrics;
  received_at : option Z;
  node_epoch : string;
  retired_node_epochs : list string;
  inventory : list SandboxInventoryEntry;
  inventory_complete : bool;
  reserved_resources : ResourceQuantity;
  build_reserved_resources : ResourceQuantity;
  admission_open : bool;
  hb_activity_epoch : Z;
  drain_token : string;
  drain_activity_epoch : Z
}.

(** capabilities.py *)
Definition DISK_QUOTA_CAPABILITY : string := "disk-quota".
Definition STORAGE_NATIVE_CAPABILITY : string := "storage-native-v1".

Definition has_capability (caps : list string) (capability : string) : bool :=
  bool_decide (capability ∈ caps).

Definition freshness_at (h : NodeHeartbeat) : Z := default (updated_at h) (received_at h).

Definition is_fresh (h : NodeHeartbeat) (now ttl_seconds : Z) : bool :=
  let age := now - freshness_at h in
  (0 <=? ttl_seconds) && (0 <=? age) && (age <=? ttl_seconds * 1000000).

Definition free_resources (h : NodeHeartbeat) : ResourceQuantity :=
  let unavailable :=
    rq_add (rq_add (used_resources h) (reserved_resources h)) (build_reserved_resources h) in
  let nominal := Z.max 0 (disk_mb (total_resources h) - disk_mb unavailable) in
  let disk :=
    match runtime_metrics h with
    | Some m =>
        if has_capability (capabilities h) "storage-native-v1" && (0 <? storage_hard_capacity_mb m)
        then
          let d := Z.min nominal
            (Z.max 0 (storage_hard_capacity_mb m - storage_hard_reserved_mb m)) in
          if (0 <? storage_ublk_max_devices m)
             && (storage_ublk_max_devices m <=? storage_ublk_active_devices m)
          then 0 else d
        else nominal
    | None => nominal
    end in
  mkRQ (fmax (of_int 0) (fsub (vcpu (total_resources h)) (vcpu unavailable)))
       (Z.max 0 (memory_mb (total_resources h) - memory_mb unavailable)) disk.

Definition SOFT_DRAIN_LABEL : string := "ucloud-sandboxes/soft-drain".
Definition is_soft_drained (heartbeat : option NodeHeartbeat) : bool :=
  match heartbeat with
  | Some h =>
      match dget (labels h) SOFT_DRAIN_LABEL with
      | Some v => negb (bool_decide (v = EmptyString))
      | None => false
      end
  | None => false
  end.

(** [int(x * q)] on an int and a finite factor truncates towards zero. *)
Definition int_scaled (z : Z) (q : Q) : Z := Z.quot (z * Qnum q) (Zpos (Qden q)).

Definition scaled (r : ResourceQuantity) (cpu memory disk : Q) : ResourceQuantity :=
  mkRQ (fscale (vcpu r) cpu) (int_scaled (memory_mb r) memory) (int_scaled (disk_mb r) disk).

Definition rq_to_dict (r : ResourceQuantity) : json :=
  JObj [("vcpu", JFloat (vcpu r)); ("memory_mb", JInt (memory_mb r)); ("disk_mb", JInt (disk_mb r))].

Definition nonneg_int (v : json) (msg : string) : res Z :=
  match v with
  | JInt z => raise_if (z <? 0) (ValueError msg) (Ok z)
  | _ => Raise (ValueError msg)
  end.

Definition nonneg_finite (v : json) (msg : string) : res float :=
  let check x := raise_if (negb (isfinite x) || fltb x (of_int 0)) (ValueError msg) (Ok x) in
  match v with
  | JInt z => res_bind (float_of_pyint z) check
  | JFloat x => check x
  | _ => Raise (ValueError msg)
  end.

Definition rq_from_dict (raw : json) : res ResourceQuantity :=
  match raw with
  | JObj d =>
      raise_if (negb (has_exact_keys d ["vcpu"; "memory_mb"; "disk_mb"]))
        (ValueError "resource quantity has an invalid schema")
      (let! c := nonneg_finite (jget d "vcpu") "resource vcpu must be non-negative and finite" in
       let! m := nonneg_int (jget d "memory_mb")
                   "resource memory_mb must be a non-negative integer" in
       let! k := nonneg_int (jget d "disk_mb")
                   "resource disk_mb must be a non-negative integer" in
       Ok (mkRQ c m k))%py
  | _ => Raise (ValueError "resource quantity has an invalid schema")
  end.

(** resource_evidence.py, [MemoryBackingCapacity.from_dict]. *)
Definition backing_from_dict (raw : json) : option MemoryBackingCapacity :=
  match raw with
  | JObj d =>
      if negb (has_exact_keys d ["total_bytes"; "available_bytes"; "identity"]) then None else
      match jget d "total_bytes", jget d "available_bytes", jget d "identity" with
      | JNull, JNull, JNull => Some (mkBacking None None None)
      | JInt total, JInt available, JStr ident =>
          if (0 <=? available) && (available <=? total) && (total <=? 2 ^ 63 - 1)
             && negb (total =? 0) && (0 <? Z.of_nat (String.length ident))
             && (Z.of_nat (String.length ident) <=? 256)
          then Some (mkBacking (Some total) (Some available) (Some ident)) else None
      | _, _, _ => None
      end
  | _ => None
  end.

Definition active_workloads (h : NodeHeartbeat) : Z :=
  let reserved := rq_add (reserved_resources h) (build_reserved_resources h) in
  let reserved_work :=
    Z.b2z (fltb (of_int 0) (vcpu reserved) || (0 <? memory_mb reserved) || (0 <? disk_mb reserved)) in
  Z.max 0 (active_sandboxes h) + Z.max 0 (active_image_builds h)
  + Z.max 0 (active_sandbox_creates h) + reserved_work.

Inductive InstancePhase := PROVISIONING | RUNNING | UNAVAILABLE | LOST | TERMINAL.
#[export] Instance InstancePhase_eq_dec : EqDecision InstancePhase.
Proof. solve_decision. Defined.

(** The provider's instance, by the fields scheduling reads. *)
Record ProviderInstance := mkInstance {
  instance_id : string;
  phase : InstancePhase;
  pi_created_at : option Z;
  pi_started_at : option Z;
  pi_cpu : option Z;
  pi_memory_gb : option Z;
  pi_disk_gb : option Z;
  pi_labels : dict string string
}.

Record SandboxNode := mkNode {
  job : ProviderInstance;
  heartbeat : option NodeHeartbeat;
  sn_active_sandboxes : Z;
  heartbeat_fresh : bool;
  agent_version_compatible : bool;
  permanently_lost : bool
}.

Definition is_running (i : ProviderInstance) : bool := bool_decide (phase i = RUNNING).
Definition is_final (i : ProviderInstance) : bool := bool_decide (phase i = TERMINAL).
Definition is_lost (i : ProviderInstance) : bool := bool_decide (phase i = LOST).
Definition is_unavailable (i : ProviderInstance) : bool := bool_decide (phase i = UNAVAILABLE).

Definition is_ready (n : SandboxNode) : bool :=
  negb (permanently_lost n) && is_running (job n) && heartbeat_fresh n.

Definition is_schedulable (n : SandboxNode) : bool :=
  is_ready n && agent_version_compatible n &&
  match heartbeat n with
  | Some h => negb (draining h) && admission_open h
  | None => false
  end.

Definition is_none {A} (o : option A) : bool := match o with None => true | Some _ => false end.

Definition is_provisioning (n : SandboxNode) : bool :=
  negb (permanently_lost n) &&
  (bool_decide (phase (job n) = PROVISIONING)
   || (is_running (job n) && is_none (heartbeat n) && negb (heartbeat_fresh n))).

Definition is_unreachable (n : SandboxNode) : bool :=
  negb (permanently_lost n) && is_running (job n) && negb (is_none (heartbeat n))
  && negb (heartbeat_fresh n).

Definition is_idle (n : SandboxNode) : bool :=
  let heartbeat_workloads := match heartbeat n with Some h => active_workloads h | None => 0 end in
  is_ready n && (sn_active_sandboxes n =? 0) && (heartbeat_workloads =? 0).

(** ** resource_admission.py *)

Definition PHYSICAL_MEMORY_FLOOR_MB : Z := 2048.

Definition dynamic_request_fits (requested available total : ResourceQuantity) : bool :=
  if negb (is_valid requested)
     || negb (fltb (of_int 0) (vcpu requested) || (0 <? memory_mb requested)
              || (0 <? disk_mb requested))
  then false
  else fleb (vcpu requested) (vcpu total) && (memory_mb requested <=? memory_mb total)
       && (disk_mb requested <=? disk_mb available).

Definition reserve_dynamic_resources (available requested : ResourceQuantity) : ResourceQuantity :=
  mkRQ (vcpu available) (memory_mb available) (Z.max 0 (disk_mb available - disk_mb requested)).

Definition reusable_dynamic_resources (available total : ResourceQuantity) : ResourceQuantity :=
  mkRQ (vcpu total) (memory_mb total) (disk_mb available).

(** [x is not None and x >= bound] *)
Definition at_least (x : option float) (bound : Q) : bool :=
  match x with Some v => fleb (Fin bound) v | None => false end.

Definition cpu_pressure_error (m : NodeRuntimeMetrics) : option string :=
  if at_least (cpu_percent m) 90 then Some "direct node CPU pressure blocks active admission"
  else if (0 <? cpu_count m)
          && at_least (load_average_1m m) (inject_Z (cpu_count m) * (5 # 4))
          && (is_none (cpu_percent m) || at_least (cpu_percent m) 80)
       then Some "direct node CPU load blocks active admission"
       else None.

Definition memory_pressure_error (m : NodeRuntimeMetrics) (requested : ResourceQuantity)
    (check_psi : bool) : option string :=
  if check_psi && at_least (memory_psi_full_avg10 m) 10
  then Some "direct node memory pressure blocks active admission"
  else if (0 <? memory_total_mb m) && (memory_available_mb m <? PHYSICAL_MEMORY_FLOOR_MB)
  then Some "direct node has insufficient physical live memory headroom"
  else
    let minimum_headroom_mb := Z.max PHYSICAL_MEMORY_FLOOR_MB (memory_mb requested) in
    let '(available_memory_mb, memory_is_known) :=
      if 0 <? swap_total_mb m then (memory_available_mb m + swap_free_mb m, true)
      else (memory_available_mb m, 0 <? memory_total_mb m) in
    if memory_is_known && (available_memory_mb <? minimum_headroom_mb)
    then Some "direct node has insufficient live memory headroom"
    else None.

Definition dynamic_pressure_error (metrics : option NodeRuntimeMetrics)
    (requested : ResourceQuantity) (check_cpu check_memory_pressure : bool) : option string :=
  match metrics with
  | None => Some "direct node has no fresh runtime metrics for dynamic admission"
  | Some m =>
      match (if check_cpu then cpu_pressure_error m else None) with
      | Some e => Some e
      | None => memory_pressure_error m requested check_memory_pressure
      end
  end.

Definition node_storage_pressure_allows (h : NodeHeartbeat) (requested : ResourceQuantity) : bool :=
  if negb (has_capability (capabilities h) STORAGE_NATIVE_CAPABILITY) then true else
  match runtime_metrics h with
  | None => false
  | Some m =>
      if storage_hard_capacity_mb m <=? 0 then false else
      if 0 <? storage_error_volumes m then false else
      if (0 <? storage_ublk_max_devices m)
         && (storage_ublk_max_devices m <=? storage_ublk_active_devices m) then false else
      let maximum := storage_max_concurrent_operations m in
      if (0 <? maximum) && (maximum <=? storage_waiting_operations m) then false else
      disk_mb requested <=? Z.max 0 (storage_hard_capacity_mb m - storage_hard_reserved_mb m)
  end.

Definition node_accepts_dynamic_request (h : NodeHeartbeat) (requested available : ResourceQuantity)
    (total : option ResourceQuantity) (check_cpu : bool) : bool :=
  if negb (dynamic_request_fits requested available (default (total_resources h) total)) then false
  else if (0 <? disk_mb requested) && negb (has_capability (capabilities h) DISK_QUOTA_CAPABILITY)
  then false
  else is_none (dynamic_pressure_error (runtime_metrics h) requested check_cpu true)
       && node_storage_pressure_allows h requested.

(** [max(0.0, min(1.0, x))] *)
Definition clamp01 (x : float) : float := fmax (of_int 0) (fmin (of_int 1) x).
(** [float(value or 0.0) / 100.0] *)
Definition percent (value : option float) : float :=
  fscale (default (of_int 0) value) (1 # 100).
(** [a / b] of two ints, [b] positive *)
Definition int_div (a b : Z) : float := Fin (inject_Z a * / inject_Z b)%Q.

Definition node_pressure_score (h : NodeHeartbeat) : float :=
  match runtime_metrics h with
  | None => of_int 0
  | Some m =>
      let values :=
        [clamp01 (percent (memory_percent m));
         fmin (of_int 1) (int_div (memory_working_set_mb m) (Z.max 1 (memory_total_mb m)));
         clamp01 (percent (memory_psi_full_avg10 m))]
        ++ ((λ v, clamp01 (percent v)) <$>
             [memory_psi_some_avg10 m; io_psi_some_avg10 m; io_psi_full_avg10 m])
        ++ (if 0 <? storage_max_concurrent_operations m
            then [clamp01 (int_div (storage_active_operations m + storage_waiting_operations m)
                                   (storage_max_concurrent_operations m))]
            else []) in
      foldl fmax (clamp01 (percent (cpu_percent m))) values
  end.

(** ** Properties *)

Definition in_unit (x : float) : Prop := fleb (of_int 0) x = true ∧ fleb x (of_int 1) = true.

Lemma clamp01_unit x : in_unit (clamp01 x).
Proof. by apply fclamp_bounds. Qed.

Lemma fmax_unit_l x y : in_unit x → fleb y (of_int 1) = true → in_unit (fmax x y).
Proof.
  intros [H0 H1] Hy. unfold fmax. destruct (fltb x y) eqn:E; split; try done.
  eapply fleb_trans; [exact H0|]. by apply fltb_fleb.
Qed.

Lemma foldl_fmax_unit l x :
  in_unit x → Forall (λ y, fleb y (of_int 1) = true) l → in_unit (foldl fmax x l).
Proof.
  intros Hx Hl. revert x Hx. induction Hl as [|y l Hy _ IH]; intros x Hx; simpl; [done|].
  apply IH. by apply fmax_unit_l.
Qed.

Lemma fmin_one_le x : fleb (fmin (of_int 1) x) (of_int 1) = true.
Proof. unfold fmin. destruct (fltb x (of_int 1)) eqn:E; [by apply fltb_fleb|done]. Qed.

Lemma node_pressure_score_unit h : in_unit (node_pressure_score h).
Proof.
  unfold node_pressure_score. destruct (runtime_metrics h) as [m|]; [|done].
  apply foldl_fmax_unit; [apply clamp01_unit|].
  repeat (apply Forall_app; split); repeat constructor;
    try apply clamp01_unit; try apply fmin_one_le.
  case_match; repeat constructor. apply clamp01_unit.
Qed.

(** The placement ranking score is a number between 0 and 1 for every
    heartbeat: out-of-range, infinite and NaN samples are all clamped. *)
Theorem node_pressure_score_bounded h :
  fleb (of_int 0) (node_pressure_score h) = true ∧
  fleb (node_pressure_score h) (of_int 1) = true.
Proof. apply node_pressure_score_unit. Qed.

Lemma has_exact_rq_keys c m k :
  has_exact_keys [("vcpu", c); ("memory_mb", m); ("disk_mb", k)] ["vcpu"; "memory_mb"; "disk_mb"] = true.
Proof. done. Qed.

Lemma fltb_zero_fleb x : isfinite x = true → fltb x (of_int 0) = false ↔ fleb (of_int 0) x = true.
Proof.
  intros Hx. split; intros H.
  - apply fltb_false_fleb; [by destruct x|done|done].
  - by apply fleb_fltb_false.
Qed.

Lemma nonneg_int_Ok z msg z' : nonneg_int (JInt z) msg = Ok z' ↔ z' = z ∧ (0 <=? z) = true.
Proof. simpl. unfold raise_if. case_match; bools; split; intros; destruct_and?; simplify_eq; bools; try lia; split; lia. Qed.

Lemma nonneg_finite_Ok x msg x' :
  nonneg_finite (JFloat x) msg = Ok x' ↔ x' = x ∧ isfinite x = true ∧ fleb (of_int 0) x = true.
Proof.
  simpl. rewrite raise_if_Ok, orb_false_iff, negb_false_iff. split.
  - intros [[Hf Hz] [= <-]]. split_and!; [done|done|by apply fltb_zero_fleb].
  - intros (-> & Hf & Hz). split_and!; [done|by apply fltb_zero_fleb|done].
Qed.

(** Serialising a quantity and parsing it back returns the same quantity
    exactly when it is valid (a finite non-negative vcpu count, non-negative
    memory and disk); an invalid one is refused by the parser. *)
Lemma rq_reread r r' : rq_from_dict (rq_to_dict r) = Ok r' ↔ is_valid r = true ∧ r' = r.
Proof.
  destruct r as [c m k]. unfold rq_to_dict, rq_from_dict, is_valid. simpl vcpu. simpl memory_mb.
  simpl disk_mb. rewrite has_exact_rq_keys. cbn [negb raise_if jget dget decide].
  unfold jget. simpl dget. cbn [default from_option]. rewrite !andb_true_iff.
  rewrite res_bind_Ok. setoid_rewrite res_bind_Ok. setoid_rewrite res_bind_Ok.
  setoid_rewrite nonneg_finite_Ok. setoid_rewrite nonneg_int_Ok. naive_solver.
Qed.

(** The promise of the acceptance test, stated without the code's order of
    checks: shape, disk, quota support, live memory and the storage daemon's
    own account. *)
Record accepts_spec (h : NodeHeartbeat) (r a t : ResourceQuantity) (m : NodeRuntimeMetrics) : Prop := {
  acc_valid : is_valid r = true;
  acc_shape_cpu : fleb (vcpu r) (vcpu t) = true;
  acc_shape_memory : memory_mb r ≤ memory_mb t;
  acc_disk : 0 ≤ disk_mb r ≤ disk_mb a;
  acc_quota : 0 < disk_mb r → DISK_QUOTA_CAPABILITY ∈ capabilities h;
  acc_floor : 0 < memory_total_mb m → PHYSICAL_MEMORY_FLOOR_MB ≤ memory_available_mb m;
  acc_headroom : 0 < swap_total_mb m →
    memory_mb r ≤ memory_available_mb m + swap_free_mb m;
  acc_storage : STORAGE_NATIVE_CAPABILITY ∈ capabilities h →
    storage_error_volumes m ≤ 0 ∧
    disk_mb r ≤ Z.max 0 (storage_hard_capacity_mb m - storage_hard_reserved_mb m)
}.

Lemma fits_inv r a t :
  dynamic_request_fits r a t = true →
  is_valid r = true ∧ fleb (vcpu r) (vcpu t) = true ∧ memory_mb r ≤ memory_mb t ∧
  0 ≤ disk_mb r ≤ disk_mb a.
Proof.
  unfold dynamic_request_fits, is_valid. intros H. case_match; [done|]. bools.
  split_and!; try done; try lia. by repeat (apply andb_true_iff; split; [|try lia]).
Qed.

Lemma pressure_none_memory m r cpu :
  dynamic_pressure_error (Some m) r cpu true = None → memory_pressure_error m r true = None.
Proof. unfold dynamic_pressure_error. by cases. Qed.

Lemma memory_pressure_inv m r psi :
  memory_pressure_error m r psi = None →
  (0 < memory_total_mb m → PHYSICAL_MEMORY_FLOOR_MB ≤ memory_available_mb m) ∧
  (0 < swap_total_mb m → memory_mb r ≤ memory_available_mb m + swap_free_mb m).
Proof.
  unfold memory_pressure_error. intros H.
  repeat (case_match; simplify_eq/=);
    repeat match goal with H : _ && _ = false |- _ => apply andb_false_iff in H end;
    split; intros; destruct_or?; bools; simplify_eq/=; lia.
Qed.

Lemma storage_allows_inv h r m :
  runtime_metrics h = Some m → node_storage_pressure_allows h r = true →
  STORAGE_NATIVE_CAPABILITY ∈ capabilities h →
  storage_error_volumes m ≤ 0 ∧
  disk_mb r ≤ Z.max 0 (storage_hard_capacity_mb m - storage_hard_reserved_mb m).
Proof.
  unfold node_storage_pressure_allows, has_capability. intros -> H Hc.
  rewrite bool_decide_true in H by done. simpl in H. repeat (case_match; try done). bools. lia.
Qed.

Lemma node_accepts_inv h r a t cpu :
  node_accepts_dynamic_request h r a t cpu = true →
  ∃ m, runtime_metrics h = Some m ∧ accepts_spec h r a (default (total_resources h) t) m.
Proof.
  unfold node_accepts_dynamic_request. intros H.
  destruct (dynamic_request_fits _ _ _) eqn:Hf; [|done]. cbn [negb] in H.
  destruct (_ && _) eqn:Hq in H; [done|]. apply andb_true_iff in H as [Hp Hs].
  destruct (runtime_metrics h) as [m|] eqn:Hm; [|done]. exists m. split; [done|].
  destruct (dynamic_pressure_error (Some m) r cpu true) eqn:He; [done|].
  apply pressure_none_memory, memory_pressure_inv in He as [H1 H2].
  apply fits_inv in Hf as (?&?&?&?). constructor; try done.
  - intros Hd. apply andb_false_iff in Hq as [Hq|Hq]; bools; [lia|].
    by apply bool_decide_eq_true in Hq.
  - by apply storage_allows_inv.
Qed.

(** A run of admissions on one node: each request was accepted against what the
    previous reservations left. *)
Inductive admitted (h : NodeHeartbeat) (t : option ResourceQuantity) (cpu : bool) :
    ResourceQuantity → list ResourceQuantity → ResourceQuantity → Prop :=
| admitted_nil a : admitted h t cpu a [] a
| admitted_cons a r rs a' :
    node_accepts_dynamic_request h r a t cpu = true →
    admitted h t cpu (reserve_dynamic_resources a r) rs a' →
    admitted h t cpu a (r :: rs) a'.

Lemma admitted_disk h t cpu a rs a' :
  admitted h t cpu a rs a' →
  disk_mb a' = disk_mb a - zsum (disk_mb <$> rs) ∧ (rs ≠ [] → 0 ≤ disk_mb a') ∧
  vcpu a' = vcpu a ∧ memory_mb a' = memory_mb a.
Proof.
  induction 1 as [a|a r rs a' Hacc Hrun IH]; [split_and!; [by rewrite Z.sub_0_r|done..]|].
  apply node_accepts_inv in Hacc as (m & _ & Hspec). pose proof (acc_disk _ _ _ _ _ Hspec).
  destruct IH as (Hd & Hn & Hc & Hm). simpl in Hd, Hc, Hm. csimpl.
  rewrite Z.max_r in Hd by lia. split_and!; [cbn; lia| |done|done].
  intros _. destruct rs as [|r' rs]; [cbn in Hd; lia|by apply Hn].
Qed.

(** Successive admissions on a node never promise more disk than it had:
    what is left is the initial disk minus every accepted request, never
    negative, while CPU and memory stay reusable; and each accepted request met
    the whole contract, the physical memory floor included. *)
Theorem dynamic_admission_never_overcommits_disk h t cpu a rs a' :
  admitted h t cpu a rs a' →
  disk_mb a' = disk_mb a - zsum (disk_mb <$> rs) ∧
  (rs ≠ [] → zsum (disk_mb <$> rs) ≤ disk_mb a) ∧
  vcpu a' = vcpu a ∧ memory_mb a' = memory_mb a ∧
  Forall (λ r, ∃ m a0, runtime_metrics h = Some m ∧
                       accepts_spec h r a0 (default (total_resources h) t) m) rs.
Proof.
  intros Hrun. destruct (admitted_disk _ _ _ _ _ _ Hrun) as (Hd & Hn & Hc & Hm).
  split_and!; try done; [intros Hrs; specialize (Hn Hrs); lia|].
  clear -Hrun. induction Hrun as [|a r rs a' Hacc _ IH]; constructor; [|done].
  apply node_accepts_inv in Hacc as (m & ? & ?). by exists m, a.
Qed.

Definition demo_metrics : NodeRuntimeMetrics :=
  mkMetrics 0 (Some (of_int 10)) 4 16000 4000 12000 None 3000 0 0 None None None None None
    2000 500 0 0 8 0 0 0 0 0 None 0.
Definition demo_heartbeat : NodeHeartbeat :=
  mkHeartbeat "n" "j" 0 0 0 0 None false None "v" ["disk-quota"; "storage-native-v1"]
    (mkRQ (of_int 4) 16000 2000) true rq_zero [] (Some demo_metrics) None "e" [] [] true
    rq_zero rq_zero true 0 EmptyString 0.

Lemma dynamic_admission_never_overcommits_disk_witness :
  300 + 400 ≤ disk_mb (total_resources demo_heartbeat).
Proof.
  refine (proj1 (proj2 (dynamic_admission_never_overcommits_disk demo_heartbeat None true
    (total_resources demo_heartbeat) [mkRQ (of_int 1) 512 300; mkRQ (of_int 2) 1024 400]
    (mkRQ (of_int 4) 16000 1300) _)) _); [|done].
  econstructor; [by vm_compute|]. econstructor; [by vm_compute|]. constructor.
Defined.

(** A node the provider runs and that is not permanently lost is in exactly
    one of the states ready, provisioning and unreachable; a schedulable node is
    always a ready one. *)
Theorem node_state_partition n :
  (is_schedulable n = true → is_ready n = true) ∧
  (Nat.b2n (is_ready n) + Nat.b2n (is_provisioning n) + Nat.b2n (is_unreachable n)
   = Nat.b2n (negb (permanently_lost n)
              && (is_running (job n) || bool_decide (phase (job n) = PROVISIONING))))%nat.
Proof.
  unfold is_schedulable, is_ready, is_provisioning, is_unreachable, is_running.
  destruct n as [[i ph] h k f v []]; simpl; [done|].
  destruct ph, h, f, v; simpl; split; done || intros; bools; done.
Qed.
