(* ===== verification/Transitions.v ===== *)
(** * The in-flight transition ledger (ucloud_sandboxes/transition_admission.py)

    [TransitionLedger] is accounting under the service's capacity guard: claims
    of running transitions, the queue of waiting ones, and growth forecasts with
    running totals.  Python's insertion-ordered dicts are [dict]s, because the
    queue's order is the order of waiting. *)
From S2P Require Import Prelude PyFloat Resources.
Local Open Scope Z_scope.

Inductive TransitionKind := STARTUP | RESTORE | CAPTURE | PUBLICATION.
#[export] Instance TransitionKind_eq_dec : EqDecision TransitionKind.
Proof. solve_decision. Defined.

Abbreviation owner_id := (string * Z)%type.

Record TransitionCost := mkCost {
  kind : TransitionKind;
  memory_bytes : option Z;
  read_bytes : option Z;
  write_bytes : option Z;
  provenance : string;
  ram_backing_bytes : option Z
}.

(** [_RESOURCES] and [getattr(cost, resource)] *)
Inductive resource := MemoryBytes | RamBackingBytes.
Definition get_resource (r : resource) (c : TransitionCost) : option Z :=
  match r with MemoryBytes => memory_bytes c | RamBackingBytes => ram_backing_bytes c end.
(** [getattr(cost, resource) or 0] *)
Definition resource_or_0 (r : resource) (c : TransitionCost) : Z := default 0 (get_resource r c).

Definition opt_nonneg (v : option Z) : bool := match v with Some z => 0 <=? z | None => true end.

(** The byte checks of [TransitionCost.__post_init__]. *)
Definition cost_ok (c : TransitionCost) : bool :=
  opt_nonneg (memory_bytes c) && opt_nonneg (read_bytes c) && opt_nonneg (write_bytes c)
  && opt_nonneg (ram_backing_bytes c).

Record TransitionClaim := mkClaim {
  token : Z;
  owner : owner_id;
  cost : TransitionCost;
  requested : option ResourceQuantity
}.

#[export] Instance rq_eq_dec : EqDecision ResourceQuantity.
Proof. solve_decision. Defined.
#[export] Instance TransitionCost_eq_dec : EqDecision TransitionCost.
Proof. solve_decision. Defined.
#[export] Instance TransitionClaim_eq_dec : EqDecision TransitionClaim.
Proof. solve_decision. Defined.

Record TransitionLedger := mkLedger {
  next : Z;
  claims : dict Z TransitionClaim;
  waiting_claims : dict Z TransitionClaim;
  growth : dict owner_id TransitionCost;
  growth_memory : Z;
  growth_ram : Z;
  growth_unknown : Z
}.

Definition ledger_init : TransitionLedger := mkLedger 0 [] [] [] 0 0 0.

(** [self._growth_totals[resource]] *)
Definition growth_total (l : TransitionLedger) (r : resource) : Z :=
  match r with MemoryBytes => growth_memory l | RamBackingBytes => growth_ram l end.

Definition ledger_wait (l : TransitionLedger) (o : owner_id) (c : TransitionCost) :
    Z * TransitionLedger :=
  let n := next l + 1 in
  (n, mkLedger n (claims l) (dset (waiting_claims l) n (mkClaim n o c None)) (growth l)
        (growth_memory l) (growth_ram l) (growth_unknown l)).

Definition ledger_unwait (l : TransitionLedger) (t : Z) : TransitionLedger :=
  mkLedger (next l) (claims l) (dpop (waiting_claims l) t) (growth l)
    (growth_memory l) (growth_ram l) (growth_unknown l).

Definition same_wait (o : owner_id) (c : TransitionCost) (item : TransitionClaim) : bool :=
  bool_decide (owner item = o) && bool_decide (kind (cost item) = kind c).

Definition refresh_wait_cost (l : TransitionLedger) (o : owner_id) (c : TransitionCost) :
    TransitionLedger :=
  let refresh (ti : Z * TransitionClaim) :=
    if same_wait o c ti.2 then (ti.1, mkClaim (token ti.2) (owner ti.2) c (requested ti.2)) else ti in
  mkLedger (next l) (claims l) (refresh <$> waiting_claims l) (growth l)
    (growth_memory l) (growth_ram l) (growth_unknown l).

Definition ledger_claim (l : TransitionLedger) (o : owner_id) (c : TransitionCost)
    (req : option ResourceQuantity) : TransitionClaim * TransitionLedger :=
  let n := next l + 1 in
  let result := mkClaim n o c req in
  (result, mkLedger n (dset (claims l) n result) (waiting_claims l) (growth l)
             (growth_memory l) (growth_ram l) (growth_unknown l)).

Definition active_count (l : TransitionLedger) (k : TransitionKind) : Z :=
  dsum (λ item, Z.b2z (bool_decide (kind (cost item) = k))) (claims l).

Definition ledger_release (l : TransitionLedger) (c : TransitionClaim) : res TransitionLedger :=
  raise_if (bool_decide (dget (claims l) (token c) ≠ Some c))
    (ValueError "transition claim was not owned")
    (Ok (mkLedger (next l) (dpop (claims l) (token c)) (waiting_claims l) (growth l)
           (growth_memory l) (growth_ram l) (growth_unknown l))).

(** A dict comprehension: a later claim of the same owner replaces the value. *)
Definition resource_reservations (l : TransitionLedger) : dict owner_id ResourceQuantity :=
  foldl (λ d item, match requested item with Some q => dset d (owner item) q | None => d end)
    [] (dvals (claims l)).

Definition unknown_memory (c : TransitionCost) : Z := Z.b2z (is_none (memory_bytes c)).

(** One round of the [for sign, item in ...] loop. *)
Definition adjust_growth (sign : Z) (item : option TransitionCost) (l : TransitionLedger) :
    TransitionLedger :=
  match item with
  | None => l
  | Some c =>
      mkLedger (next l) (claims l) (waiting_claims l) (growth l)
        (growth_memory l + sign * resource_or_0 MemoryBytes c)
        (growth_ram l + sign * resource_or_0 RamBackingBytes c)
        (growth_unknown l + sign * unknown_memory c)
  end.

Definition with_growth (g : dict owner_id TransitionCost) (l : TransitionLedger) : TransitionLedger :=
  mkLedger (next l) (claims l) (waiting_claims l) g (growth_memory l) (growth_ram l)
    (growth_unknown l).

Definition set_growth_forecast (l : TransitionLedger) (o : owner_id) (c : option TransitionCost) :
    TransitionLedger :=
  let previous := dget (growth l) o in
  let l := with_growth (dpop (growth l) o) l in
  let l := adjust_growth 1 c (adjust_growth (-1) previous l) in
  match c with
  | Some c => with_growth (dset (growth l) o c) l
  | None => l
  end.

Definition set_growth_forecasts (l : TransitionLedger) (forecasts : dict owner_id TransitionCost) :
    TransitionLedger :=
  let l := foldl (λ l o, set_growth_forecast l o None) l (dkeys (growth l)) in
  foldl (λ l oc, set_growth_forecast l oc.1 (Some oc.2)) l forecasts.

(** The loop body over [peaks]. *)
Definition record_peak (peaks : dict owner_id Z) (ov : owner_id * option Z) : dict owner_id Z :=
  match ov.2 with
  | Some v => if default 0 (dget peaks ov.1) <? v then dset peaks ov.1 v else peaks
  | None => peaks
  end.

Definition forecast_of (l : TransitionLedger) (r : resource) (o : owner_id) : Z :=
  match dget (growth l) o with Some f => resource_or_0 r f | None => 0 end.

Definition claimed (l : TransitionLedger) (r : resource) : list (owner_id * option Z) :=
  (λ item, (owner item, get_resource r (cost item))) <$> dvals (claims l).

Definition total (l : TransitionLedger) (r : resource) (extra : list (owner_id * option Z)) : Z :=
  let peaks := foldl record_peak [] (claimed l r ++ extra) in
  foldl (λ t ov, t + Z.max 0 (ov.2 - forecast_of l r ov.1)) (growth_total l r) peaks.

Definition known_memory_bytes (l : TransitionLedger) : Z := total l MemoryBytes [].

Definition pending (l : TransitionLedger) (k : TransitionKind) : list TransitionClaim :=
  let active := owner <$> filter (λ item, kind (cost item) = k) (dvals (claims l)) in
  let owners :=
    foldl (λ (d : dict owner_id TransitionClaim) item,
             if bool_decide (kind (cost item) = k) && negb (bool_decide (owner item ∈ active))
             then dsetdefault d (owner item) item else d)
      [] (dvals (waiting_claims l)) in
  dvals owners.

Definition projected_memory_bytes (l : TransitionLedger) (o : owner_id) (c : TransitionCost)
    (r : resource) : Z :=
  let extra := [(o, get_resource r c)] in
  let extra :=
    if bool_decide (kind c = STARTUP)
    then extra ++ ((λ item, (owner item, get_resource r (cost item))) <$> pending l RESTORE)
    else extra in
  total l r extra.

Definition foreground_waiting (l : TransitionLedger) : bool :=
  existsb (λ k, negb (bool_decide (pending l k = []))) [STARTUP; RESTORE].

Definition next_pending (l : TransitionLedger) (k : TransitionKind) (capacity : Z) :
    option TransitionClaim :=
  if capacity <=? active_count l k then None else head (pending l k).

(** The [for kind in ...] loop returns at the first kind with a next owner. *)
Fixpoint first_demand (l : TransitionLedger) (limits : dict TransitionKind Z) (r : resource)
    (kinds : list TransitionKind) : Z :=
  match kinds with
  | [] => total l r []
  | k :: ks =>
      match next_pending l k (default 0 (dget limits k)) with
      | Some item => total l r [(owner item, get_resource r (cost item))]
      | None => first_demand l limits r ks
      end
  end.

Definition next_memory_demands (l : TransitionLedger) (limits : dict TransitionKind Z)
    (r : resource) : Z := first_demand l limits r [RESTORE; STARTUP].

Record DemandSnapshot := mkDemandSnapshot {
  admitted_demand_bytes : Z;
  pending_demand_bytes : Z;
  unknown_transition_memory_costs : Z;
  admitted_ram_backing_bytes : Z;
  pending_ram_backing_bytes : Z
}.

Definition demand_snapshot (l : TransitionLedger) (limits : dict TransitionKind Z) : DemandSnapshot :=
  let admitted := known_memory_bytes l in
  let unknown := dsum (λ item, unknown_memory (cost item)) (claims l) + growth_unknown l
    + zsum ((λ k, zsum ((λ item, unknown_memory (cost item)) <$> pending l k)) <$> dkeys limits) in
  mkDemandSnapshot admitted
    (Z.max 0 (next_memory_demands l limits MemoryBytes - admitted)) unknown
    (total l RamBackingBytes [])
    (Z.max 0 (next_memory_demands l limits RamBackingBytes - total l RamBackingBytes [])).

Record KindSnapshot := mkKindSnapshot {
  ks_active : Z; ks_waiting : Z;
  ks_memory_bytes : option Z; ks_read_bytes : option Z; ks_write_bytes : option Z
}.

(** [None if any(v is None ...) else sum(...)] *)
Definition sum_known (vs : list (option Z)) : option Z :=
  if existsb is_none vs then None else Some (zsum (default 0 <$> vs)).

Definition snapshot (l : TransitionLedger) : dict TransitionKind KindSnapshot :=
  (λ k,
     let costs := filter (λ c, kind c = k) (cost <$> dvals (claims l)) in
     (k, mkKindSnapshot (Z.of_nat (length costs)) (Z.of_nat (length (pending l k)))
           (sum_known (memory_bytes <$> costs)) (sum_known (read_bytes <$> costs))
           (sum_known (write_bytes <$> costs))))
  <$> [STARTUP; RESTORE; CAPTURE; PUBLICATION].

(** ** The ledger as a state machine *)

Inductive ledger_op :=
| OWait (o : owner_id) (c : TransitionCost)
| OUnwait (t : Z)
| ORefresh (o : owner_id) (c : TransitionCost)
| OClaim (o : owner_id) (c : TransitionCost) (q : option ResourceQuantity)
| ORelease (c : TransitionClaim)
| OForecast (o : owner_id) (c : option TransitionCost)
| OForecasts (d : dict owner_id TransitionCost).

(** The costs an operation brings in were constructed, so they passed
    [__post_init__]; a forecast table is a dict, so its keys are distinct. *)
Definition op_ok (op : ledger_op) : Prop :=
  match op with
  | OWait _ c | ORefresh _ c | OClaim _ c _ => cost_ok c = true
  | OForecast _ (Some c) => cost_ok c = true
  | OForecasts d => Forall (λ oc, cost_ok oc.2 = true) d
  | _ => True
  end.

(** A release that raises leaves the ledger as it was. *)
Definition ledger_step (l : TransitionLedger) (op : ledger_op) : TransitionLedger :=
  match op with
  | OWait o c => (ledger_wait l o c).2
  | OUnwait t => ledger_unwait l t
  | ORefresh o c => refresh_wait_cost l o c
  | OClaim o c q => (ledger_claim l o c q).2
  | ORelease c => match ledger_release l c with Ok l' => l' | Raise _ => l end
  | OForecast o c => set_growth_forecast l o c
  | OForecasts d => set_growth_forecasts l d
  end.

Definition ledger_reachable (l : TransitionLedger) : Prop :=
  ∃ ops, Forall op_ok ops ∧ l = foldl ledger_step ledger_init ops.

Definition table_ok (n : Z) (d : dict Z TransitionClaim) : Prop :=
  increasing (dkeys d) ∧
  Forall (λ ti, token ti.2 = ti.1 ∧ 0 < ti.1 ≤ n ∧ cost_ok (cost ti.2) = true) d.

(** Fresh, distinct tokens; valid costs; running totals equal to the sums they
    stand for. *)
Record ledger_inv (l : TransitionLedger) : Prop := {
  li_next : 0 ≤ next l;
  li_claims : table_ok (next l) (claims l);
  li_waiting : table_ok (next l) (waiting_claims l);
  li_disjoint : ∀ t, t ∈ dkeys (claims l) → t ∉ dkeys (waiting_claims l);
  li_growth_keys : NoDup (dkeys (growth l));
  li_growth_ok : Forall (λ oc, cost_ok oc.2 = true) (growth l);
  li_totals : ∀ r, growth_total l r = dsum (resource_or_0 r) (growth l);
  li_unknown : growth_unknown l = dsum unknown_memory (growth l)
}.

(** ** The invariant is preserved *)

Lemma table_ok_le n m d : table_ok n d → n ≤ m → table_ok m d.
Proof. intros [Hs Hd] ?. split; [done|]. eapply Forall_impl; [exact Hd|]. simpl. intuition lia. Qed.

Lemma table_ok_keys n d : table_ok n d → Forall (λ t, 0 < t ≤ n) (dkeys d).
Proof.
  intros [_ Hd]. unfold dkeys. apply Forall_fmap. eapply Forall_impl; [exact Hd|]. simpl. naive_solver.
Qed.

Lemma table_ok_fresh n d t : table_ok n d → n < t → t ∉ dkeys d.
Proof. intros Hd%table_ok_keys ? Hin. rewrite Forall_forall in Hd. specialize (Hd t Hin). simpl in Hd. lia. Qed.

Lemma table_ok_add n d o c q :
  0 ≤ n → table_ok n d → cost_ok c = true →
  table_ok (n + 1) (dset d (n + 1) (mkClaim (n + 1) o c q)).
Proof.
  intros Hn Hd Hc. pose proof (table_ok_fresh n d (n + 1) Hd ltac:(lia)) as Hf.
  pose proof (table_ok_keys n d Hd) as Hk. destruct (table_ok_le n (n + 1) d Hd) as [Hs Hall]; [lia|].
  split.
  - rewrite dkeys_dset, decide_False by done. apply increasing_snoc; [done|].
    eapply Forall_impl; [exact Hk|]. simpl. lia.
  - apply Forall_dset; [done|]. simpl. split_and!; [done|lia|lia|done].
Qed.

Lemma table_ok_pop n d t : table_ok n d → table_ok n (dpop d t).
Proof.
  intros [Hs Hd]. split; [|by apply Forall_dpop]. rewrite dkeys_dpop. by apply increasing_filter.
Qed.

Lemma ledger_inv_init : ledger_inv ledger_init.
Proof.
  constructor; simpl; try done; try constructor; try constructor; try set_solver.
  intros []; done.
Qed.

Lemma inv_growth_field l n cl w :
  ledger_inv l → 0 ≤ n → table_ok n cl → table_ok n w →
  (∀ t, t ∈ dkeys cl → t ∉ dkeys w) →
  ledger_inv (mkLedger n cl w (growth l) (growth_memory l) (growth_ram l) (growth_unknown l)).
Proof. intros [] ????. constructor; simpl; try done. Qed.

Lemma inv_wait l o c : ledger_inv l → cost_ok c = true → ledger_inv (ledger_wait l o c).2.
Proof.
  intros Hinv Hc. pose proof (li_next _ Hinv). pose proof (li_claims _ Hinv) as Hcl.
  apply inv_growth_field; try done; [lia| | |].
  - eapply table_ok_le; [done|lia].
  - apply table_ok_add; [done|apply Hinv|done].
  - intros t Ht. rewrite dkeys_dset. pose proof (li_disjoint _ Hinv t Ht).
    pose proof (table_ok_fresh _ _ (next l + 1) Hcl ltac:(lia)). case_decide; set_solver.
Qed.

Lemma inv_claim l o c q : ledger_inv l → cost_ok c = true → ledger_inv (ledger_claim l o c q).2.
Proof.
  intros Hinv Hc. pose proof (li_next _ Hinv). pose proof (li_waiting _ Hinv) as Hw.
  apply inv_growth_field; try done; [lia| | |].
  - apply table_ok_add; [done|apply Hinv|done].
  - eapply table_ok_le; [done|lia].
  - intros t. rewrite dkeys_dset. pose proof (li_disjoint _ Hinv t).
    pose proof (table_ok_fresh _ _ (next l + 1) Hw ltac:(lia)). case_decide; set_solver.
Qed.

Lemma inv_unwait l t : ledger_inv l → ledger_inv (ledger_unwait l t).
Proof.
  intros Hinv. apply inv_growth_field; try apply Hinv; [apply table_ok_pop, Hinv|].
  intros t' Ht. rewrite elem_of_dkeys_dpop. pose proof (li_disjoint _ Hinv t' Ht). tauto.
Qed.

Lemma inv_release l c l' : ledger_inv l → ledger_release l c = Ok l' → ledger_inv l'.
Proof.
  intros Hinv E. unfold ledger_release in E. bools. simplify_eq.
  apply inv_growth_field; try apply Hinv; [apply table_ok_pop, Hinv|].
  intros t'. rewrite elem_of_dkeys_dpop. intros [_ Ht]. by apply (li_disjoint _ Hinv).
Qed.

Lemma inv_refresh l o c : ledger_inv l → cost_ok c = true → ledger_inv (refresh_wait_cost l o c).
Proof.
  intros Hinv Hc. unfold refresh_wait_cost.
  set (f := λ ti : Z * TransitionClaim, if same_wait o c ti.2 then _ else ti).
  assert (dkeys (f <$> waiting_claims l) = dkeys (waiting_claims l)) as Hk.
  { unfold dkeys. rewrite <-list_fmap_compose. apply list_fmap_ext. intros _ ti _. simpl.
    unfold f. by case_match. }
  apply inv_growth_field; try apply Hinv.
  - destruct (li_waiting _ Hinv) as [Hs Hd]. split; [by rewrite Hk|].
    apply Forall_fmap. eapply Forall_impl; [exact Hd|]. intros ti. simpl. unfold f.
    case_match; simpl; intuition.
  - rewrite Hk. apply Hinv.
Qed.

Lemma growth_total_adjust s item l r :
  growth_total (adjust_growth s item l) r
  = growth_total l r + s * from_option (resource_or_0 r) 0 item.
Proof. destruct item, r; simpl; lia. Qed.
Lemma growth_unknown_adjust s item l :
  growth_unknown (adjust_growth s item l)
  = growth_unknown l + s * from_option unknown_memory 0 item.
Proof. destruct item; simpl; lia. Qed.
Lemma growth_adjust s item l : growth (adjust_growth s item l) = growth l.
Proof. by destruct item. Qed.

(** What a forecast update leaves alone, and the table it produces. *)
Lemma set_growth_forecast_frame l o c :
  let l' := set_growth_forecast l o c in
  next l' = next l ∧ claims l' = claims l ∧ waiting_claims l' = waiting_claims l ∧
  growth l' = match c with Some c => dset (dpop (growth l) o) o c | None => dpop (growth l) o end.
Proof. unfold set_growth_forecast. by destruct c, (dget (growth l) o). Qed.

Lemma set_growth_forecast_totals l o c r :
  growth_total (set_growth_forecast l o c) r
  = growth_total l r - from_option (resource_or_0 r) 0 (dget (growth l) o)
    + from_option (resource_or_0 r) 0 c.
Proof.
  unfold set_growth_forecast.
  assert (∀ g l, growth_total (with_growth g l) r = growth_total l r) as Hg by (by destruct r).
  destruct c as [c|]; rewrite ?Hg, !growth_total_adjust, Hg; simpl; lia.
Qed.
Lemma set_growth_forecast_unknown l o c :
  growth_unknown (set_growth_forecast l o c)
  = growth_unknown l - from_option unknown_memory 0 (dget (growth l) o)
    + from_option unknown_memory 0 c.
Proof.
  unfold set_growth_forecast.
  assert (∀ g l, growth_unknown (with_growth g l) = growth_unknown l) as Hg by done.
  destruct c as [c|]; rewrite ?Hg, !growth_unknown_adjust, Hg; simpl; lia.
Qed.

Lemma dsum_forecast (f : TransitionCost → Z) (d : dict owner_id TransitionCost) o c :
  NoDup (dkeys d) →
  dsum f (match c with Some c => dset (dpop d o) o c | None => dpop d o end)
  = dsum f d - from_option f 0 (dget d o) + from_option f 0 c.
Proof.
  intros Hnd. destruct c as [c|]; rewrite ?dsum_dset, ?dget_dpop_eq, dsum_dpop by done; simpl; lia.
Qed.

Lemma inv_forecast l o c :
  ledger_inv l → op_ok (OForecast o c) → ledger_inv (set_growth_forecast l o c).
Proof.
  intros Hinv Hc. destruct (set_growth_forecast_frame l o c) as (En & Ec & Ew & Eg).
  pose proof (li_growth_keys _ Hinv) as Hnd. pose proof (li_growth_ok _ Hinv) as Hok.
  constructor; rewrite ?En, ?Ec, ?Ew; try apply Hinv.
  - rewrite Eg. destruct c; auto with py.
  - rewrite Eg. destruct c; auto with py.
  - intros r. rewrite Eg, dsum_forecast, set_growth_forecast_totals by done.
    by rewrite (li_totals _ Hinv).
  - rewrite Eg, dsum_forecast, set_growth_forecast_unknown by done.
    by rewrite (li_unknown _ Hinv).
Qed.

Lemma inv_forecasts l d :
  ledger_inv l → op_ok (OForecasts d) → ledger_inv (set_growth_forecasts l d).
Proof.
  intros Hinv Hd. unfold set_growth_forecasts.
  assert (ledger_inv (foldl (λ l o, set_growth_forecast l o None) l (dkeys (growth l)))) as H0.
  { generalize (dkeys (growth l)). intros os. revert l Hinv.
    induction os as [|o os IH]; intros l Hinv; cbn [foldl]; [done|]. by apply IH, inv_forecast. }
  revert H0. generalize (foldl (λ l o, set_growth_forecast l o None) l (dkeys (growth l))).
  simpl in Hd. induction Hd as [|[o c] d Hc _ IH]; intros l0 H0; cbn [foldl]; [done|].
  by apply IH, inv_forecast.
Qed.

Lemma ledger_step_inv l op : ledger_inv l → op_ok op → ledger_inv (ledger_step l op).
Proof.
  intros Hinv Hop. destruct op as [o c|t|o c|o c q|c|o c|d]; simpl.
  - by apply inv_wait.
  - by apply inv_unwait.
  - by apply inv_refresh.
  - by apply inv_claim.
  - destruct (ledger_release l c) eqn:E; [by eapply inv_release|done].
  - by apply inv_forecast.
  - by apply inv_forecasts.
Qed.

Lemma ledger_reachable_inv l : ledger_reachable l → ledger_inv l.
Proof.
  intros (ops & Hops & ->). assert (ledger_inv ledger_init) as H0 by apply ledger_inv_init.
  revert H0. generalize ledger_init. induction Hops as [|op ops Hop _ IH]; intros l H0; simpl; [done|].
  by apply IH, ledger_step_inv.
Qed.

(** ** The total is the sum of per-owner peaks *)

Definition value_for (o : owner_id) (ov : owner_id * option Z) : Z :=
  if decide (ov.1 = o) then default 0 ov.2 else 0.

(** The largest value [vs] attributes to [o], at least 0. *)
Definition peak (vs : list (owner_id * option Z)) (o : owner_id) : Z :=
  foldr (λ ov m, Z.max (value_for o ov) m) 0 vs.

(** The documented meaning of [_total]: each owner that has a forecast, a claim
    or an extra demand pays the largest of them, once. *)
Definition total_spec (l : TransitionLedger) (r : resource) (extra : list (owner_id * option Z)) : Z :=
  let vs := claimed l r ++ extra in
  let owners := remove_dups (dkeys (growth l) ++ vs.*1) in
  zsum ((λ o, Z.max (forecast_of l r o) (peak vs o)) <$> owners).

Lemma peak_nonneg vs o : 0 ≤ peak vs o.
Proof. induction vs as [|ov vs IH]; simpl; lia. Qed.

Lemma record_peak_get peaks ov o :
  default 0 (dget (record_peak peaks ov) o) = Z.max (default 0 (dget peaks o)) (value_for o ov)
  ∨ default 0 (dget peaks o) < 0.
Proof.
  destruct ov as [o' [v|]]; unfold record_peak, value_for; simpl.
  - destruct (decide (o' = o)) as [->|Hne].
    + destruct (Z.ltb_spec (default 0 (dget peaks o)) v); rewrite ?dget_dset_eq; simpl; lia.
    + destruct (_ <? _); rewrite ?dget_dset_ne by done; lia.
  - case_decide; simpl; lia.
Qed.

Lemma foldl_peaks vs peaks o :
  0 ≤ default 0 (dget peaks o) →
  default 0 (dget (foldl record_peak peaks vs) o) = Z.max (default 0 (dget peaks o)) (peak vs o).
Proof.
  revert peaks. induction vs as [|ov vs IH]; intros peaks H; simpl; [lia|].
  destruct (record_peak_get peaks ov o) as [E|E]; [|lia]. rewrite IH; rewrite E; lia.
Qed.

Lemma record_peak_keys peaks ov o : o ∈ dkeys (record_peak peaks ov) → o ∈ dkeys peaks ∨ o = ov.1.
Proof.
  unfold record_peak. repeat case_match; [|by left|by left]. rewrite dkeys_dset.
  case_decide; set_solver.
Qed.

Lemma foldl_peaks_keys vs peaks :
  NoDup (dkeys peaks) →
  NoDup (dkeys (foldl record_peak peaks vs)) ∧
  ∀ o, o ∈ dkeys (foldl record_peak peaks vs) → o ∈ dkeys peaks ∨ o ∈ vs.*1.
Proof.
  revert peaks. induction vs as [|ov vs IH]; intros peaks Hnd; simpl; [auto|].
  destruct (IH (record_peak peaks ov)) as [H1 H2].
  - unfold record_peak. repeat case_match; auto with py.
  - split; [done|]. intros o [Ho|Ho]%H2; [|set_solver].
    apply record_peak_keys in Ho as [?| ->]; set_solver.
Qed.

Lemma foldl_add_zsum {A} (f : A → Z) (xs : list A) t :
  foldl (λ t x, t + f x) t xs = t + zsum (f <$> xs).
Proof. revert t. unfold zsum. induction xs as [|x xs IH]; intros t; csimpl; [lia|]. rewrite IH. lia. Qed.

Lemma zsum_pairs (g : owner_id → Z → Z) (d : dict owner_id Z) :
  NoDup (dkeys d) →
  zsum ((λ ov, g ov.1 ov.2) <$> d) = zsum ((λ o, g o (default 0 (dget d o))) <$> dkeys d).
Proof.
  intros Hnd. unfold dkeys. rewrite <-list_fmap_compose. apply zsum_ext.
  intros [o v] Hin. simpl. by rewrite (dget_Some_2 d o v).
Qed.

Lemma resource_or_0_nonneg r c : cost_ok c = true → 0 ≤ resource_or_0 r c.
Proof.
  unfold cost_ok, resource_or_0, opt_nonneg. intros H.
  destruct r; simpl; [destruct (memory_bytes c)|destruct (ram_backing_bytes c)]; simpl; bools; lia.
Qed.

Lemma forecast_nonneg l r o : ledger_inv l → 0 ≤ forecast_of l r o.
Proof.
  intros Hinv. unfold forecast_of. destruct (dget (growth l) o) as [c|] eqn:E; [|lia].
  apply dget_Some_1 in E. pose proof (li_growth_ok _ Hinv) as Hok. rewrite Forall_forall in Hok.
  apply resource_or_0_nonneg, (Hok _ E).
Qed.

Lemma growth_total_owners l r owners :
  ledger_inv l → NoDup owners → (∀ o, o ∈ dkeys (growth l) → o ∈ owners) →
  growth_total l r = zsum (forecast_of l r <$> owners).
Proof.
  intros Hinv Hnd Hsub. rewrite (li_totals _ Hinv), dsum_keys by apply Hinv.
  symmetry. etrans; [apply (zsum_superset _ _ (dkeys (growth l))); try done; [apply Hinv|]|].
  - intros o _ Ho. unfold forecast_of. apply dget_None in Ho. by rewrite Ho.
  - apply zsum_ext. intros o _. unfold forecast_of. by destruct (dget _ _).
Qed.

(** The optimised [_total] computes the documented per-owner sum. *)
Lemma total_refines l r extra : ledger_inv l → total l r extra = total_spec l r extra.
Proof.
  intros Hinv. unfold total, total_spec. set (vs := claimed l r ++ extra).
  set (owners := remove_dups (dkeys (growth l) ++ vs.*1)).
  destruct (foldl_peaks_keys vs []) as [Hnd Hk]; [constructor|].
  assert (NoDup owners) as Ho by apply NoDup_remove_dups.
  rewrite foldl_add_zsum, (growth_total_owners l r owners); [|done|done|].
  2:{ intros o Hin. apply elem_of_remove_dups, elem_of_app. by left. }
  rewrite (zsum_pairs (λ o v, Z.max 0 (v - forecast_of l r o))) by done.
  set (peaks := foldl record_peak [] vs) in *.
  rewrite <-(zsum_superset (λ o, Z.max 0 (default 0 (dget peaks o) - forecast_of l r o))
    owners (dkeys peaks)); [|done|done| |].
  - rewrite <-zsum_plus. apply zsum_ext. intros o _. unfold peaks. rewrite foldl_peaks by (simpl; lia). simpl.
    pose proof (peak_nonneg vs o). pose proof (forecast_nonneg l r o Hinv). lia.
  - intros o [Hin|Hin]%Hk; [by apply elem_of_nil in Hin|].
    apply elem_of_remove_dups, elem_of_app. by right.
  - intros o _ Hn%dget_None. rewrite Hn. simpl. pose proof (forecast_nonneg l r o Hinv). lia.
Qed.

(** Peaks depend only on the largest value each owner is given. *)
Lemma peak_app vs ws o : peak (vs ++ ws) o = Z.max (peak vs o) (peak ws o).
Proof.
  induction vs as [|ov vs IH]; simpl; [pose proof (peak_nonneg ws o); lia|]. rewrite IH. lia.
Qed.

Lemma total_spec_owners l r extra owners :
  ledger_inv l → NoDup owners →
  (∀ o, o ∈ dkeys (growth l) ++ (claimed l r ++ extra).*1 → o ∈ owners) →
  total_spec l r extra
  = zsum ((λ o, Z.max (forecast_of l r o) (peak (claimed l r ++ extra) o)) <$> owners).
Proof.
  intros Hinv Hnd Hsub. unfold total_spec. symmetry. apply zsum_superset; try done.
  - apply NoDup_remove_dups.
  - intros o Ho. rewrite elem_of_remove_dups in Ho. by apply Hsub.
  - intros o _ Ho. rewrite elem_of_remove_dups, elem_of_app in Ho.
    assert (forecast_of l r o = 0) as ->.
    { unfold forecast_of. by rewrite (proj2 (dget_None (growth l) o)) by tauto. }
    assert (o ∉ (claimed l r ++ extra).*1) as Hn by tauto. revert Hn.
    generalize (claimed l r ++ extra). intros vs. clear. induction vs as [|[o' v] vs IH]; [done|].
    csimpl. intros [Ho Hn]%not_elem_of_cons. unfold value_for. simpl.
    rewrite decide_False by congruence. specialize (IH Hn). lia.
Qed.

(** More demand never lowers the total. *)
Lemma total_mono l r e1 e2 :
  ledger_inv l → (∀ o, peak e1 o ≤ peak e2 o) → total l r e1 ≤ total l r e2.
Proof.
  intros Hinv Hle. rewrite !total_refines by done.
  set (owners := remove_dups (dkeys (growth l) ++ (claimed l r ++ e1 ++ e2).*1)).
  rewrite (total_spec_owners l r e1 owners), (total_spec_owners l r e2 owners); try done;
    try apply NoDup_remove_dups.
  2-3: intros o; unfold owners; rewrite elem_of_remove_dups, !fmap_app, !elem_of_app; tauto.
  apply zsum_le_pointwise. intros o _. rewrite !peak_app. specialize (Hle o). lia.
Qed.

(** ** Properties *)

(** The running-sum implementation of [_total] equals its specification in
    every reachable ledger: the sum over owners of the largest of the owner's
    growth forecast, active claims and extra demands. *)
Theorem ledger_total_is_peak_sum l r extra :
  ledger_reachable l → total l r extra = total_spec l r extra.
Proof. intros Hl. by apply total_refines, ledger_reachable_inv. Qed.

Definition demo_cost (k : TransitionKind) (b : Z) : TransitionCost :=
  mkCost k (Some b) None None "demo" (Some 7).
Definition demo_ops : list ledger_op :=
  [OForecast ("a", 1) (Some (demo_cost RESTORE 50)); OWait ("b", 1) (demo_cost RESTORE 30);
   OClaim ("a", 1) (demo_cost RESTORE 80) None; OWait ("c", 1) (demo_cost STARTUP 20);
   OForecast ("a", 1) (Some (demo_cost RESTORE 60))].
Definition demo_ledger : TransitionLedger := foldl ledger_step ledger_init demo_ops.

Lemma demo_ledger_reachable : ledger_reachable demo_ledger.
Proof. exists demo_ops. split; [repeat constructor|done]. Qed.

Lemma ledger_total_is_peak_sum_witness :
  total_spec demo_ledger MemoryBytes [(("b", 1), Some 30)] = 110.
Proof.
  rewrite <-(ledger_total_is_peak_sum demo_ledger MemoryBytes [(("b", 1), Some 30)] demo_ledger_reachable).
  by vm_compute.
Defined.

Lemma claimed_claim l o c q r :
  ledger_inv l → claimed (ledger_claim l o c q).2 r = claimed l r ++ [(o, get_resource r c)].
Proof.
  intros Hinv. unfold claimed, ledger_claim, dvals. simpl.
  rewrite dset_fresh; [by rewrite !fmap_app|].
  eapply table_ok_fresh; [apply Hinv|lia].
Qed.

Lemma total_claim l o c q r :
  ledger_inv l → total (ledger_claim l o c q).2 r [] = total l r [(o, get_resource r c)].
Proof. intros Hinv. unfold total. by rewrite claimed_claim, app_nil_r by done. Qed.

Lemma projected_covers l o c r :
  ledger_inv l → total l r [(o, get_resource r c)] ≤ projected_memory_bytes l o c r.
Proof.
  intros Hinv. unfold projected_memory_bytes. case_match; [|done].
  apply total_mono; [done|]. intros o'. rewrite peak_app. lia.
Qed.

(** Publishing a claim charges at most what was projected for it before the
    grant: the total after the claim is the total with the demand as an extra,
    exactly the projection for a transition that is not a new launch, and a
    launch's projection covers it together with every queued restore. *)
Theorem ledger_claim_charges_projection l o c q r :
  ledger_reachable l →
  total (ledger_claim l o c q).2 r [] ≤ projected_memory_bytes l o c r ∧
  (kind c ≠ STARTUP → total (ledger_claim l o c q).2 r [] = projected_memory_bytes l o c r) ∧
  (∀ item, kind c = STARTUP → item ∈ pending l RESTORE →
     total l r [(o, get_resource r c); (owner item, get_resource r (cost item))]
     ≤ projected_memory_bytes l o c r).
Proof.
  intros Hinv%ledger_reachable_inv. rewrite total_claim by done. split_and!.
  - by apply projected_covers.
  - intros Hk. unfold projected_memory_bytes. by rewrite bool_decide_false.
  - intros item Hk Hin. unfold projected_memory_bytes. rewrite bool_decide_true by done.
    apply total_mono; [done|]. intros o'. simpl.
    assert (∀ vs v, v ∈ vs → value_for o' v ≤ peak vs o') as Hle.
    { clear. intros vs v Hv. induction Hv as [v vs|v w vs Hv IH]; simpl; lia. }
    pose proof (Hle ((λ item, (owner item, get_resource r (cost item))) <$> pending l RESTORE)
      (owner item, get_resource r (cost item)) ltac:(by apply list_elem_of_fmap; eexists)).
    pose proof (peak_nonneg ((λ item, (owner item, get_resource r (cost item))) <$> pending l RESTORE) o').
    lia.
Qed.

Lemma ledger_claim_charges_projection_witness :
  total (ledger_claim demo_ledger ("c", 1) (demo_cost STARTUP 20) None).2 MemoryBytes []
  ≤ projected_memory_bytes demo_ledger ("c", 1) (demo_cost STARTUP 20) MemoryBytes.
Proof. apply ledger_claim_charges_projection, demo_ledger_reachable. Defined.

(** A token that was issued and is not claimed is never claimed again. *)
Definition spent (t : Z) (l : TransitionLedger) : Prop := t ≤ next l ∧ t ∉ dkeys (claims l).

Lemma forecast_frame_next l o c :
  next (set_growth_forecast l o c) = next l ∧ claims (set_growth_forecast l o c) = claims l.
Proof. destruct (set_growth_forecast_frame l o c) as (?&?&_). done. Qed.

Lemma forecasts_frame l d :
  next (set_growth_forecasts l d) = next l ∧ claims (set_growth_forecasts l d) = claims l.
Proof.
  unfold set_growth_forecasts. set (l0 := foldl _ l (dkeys (growth l))).
  assert (next l0 = next l ∧ claims l0 = claims l) as [<- <-].
  { unfold l0. generalize (dkeys (growth l)). intros os. revert l l0.
    induction os as [|o os IH]; intros l l0; cbn [foldl]; [done|].
    destruct (IH (set_growth_forecast l o None)) as [-> ->]. apply forecast_frame_next. }
  generalize l0. induction d as [|[o c] d IH]; intros l1; cbn [foldl fst snd]; [done|].
  destruct (IH (set_growth_forecast l1 o (Some c))) as [-> ->]. apply forecast_frame_next.
Qed.

Lemma spent_step t l op : spent t l → spent t (ledger_step l op).
Proof.
  intros [Hn Ht]. destruct op as [o c|t'|o c|o c q|c|o c|d]; unfold spent; simpl; try done.
  - split; [lia|done].
  - split; [lia|]. rewrite dkeys_dset. case_decide; [done|].
    rewrite elem_of_app, list_elem_of_singleton. intros [?| ->]; [done|lia].
  - unfold ledger_release, raise_if. destruct (bool_decide _); simpl; [done|].
    rewrite elem_of_dkeys_dpop. tauto.
  - by destruct (forecast_frame_next l o c) as [-> ->].
  - by destruct (forecasts_frame l d) as [-> ->].
Qed.

Lemma spent_steps t l ops : spent t l → spent t (foldl ledger_step l ops).
Proof. revert l. induction ops; intros l Hl; simpl; eauto using spent_step. Qed.

(** A release takes out exactly its own claim, once: every other claim, the
    queue and the forecasts stay, the charged total does not grow, and whatever
    operations follow the same claim can never be released again, since no token
    is issued twice. *)
Theorem ledger_release_exactly_once l c l' ops :
  ledger_reachable l → ledger_release l c = Ok l' →
  dget (claims l) (token c) = Some c ∧
  (∀ t, t ≠ token c → dget (claims l') t = dget (claims l) t) ∧
  waiting_claims l' = waiting_claims l ∧ growth l' = growth l ∧
  ledger_release (foldl ledger_step l' ops) c
  = Raise (ValueError "transition claim was not owned").
Proof.
  intros Hinv%ledger_reachable_inv E. unfold ledger_release in E. bools. simplify_eq. simpl.
  assert (dget (claims l) (token c) = Some c) as Hc by (by apply dec_stable).
  split_and!; try done.
  - intros t Ht. by rewrite dget_dpop_ne.
  - set (l0 := mkLedger _ _ _ _ _ _ _). assert (spent (token c) l0) as Hs.
    { split; simpl; [|by rewrite <-dget_None, dget_dpop_eq].
      apply dget_Some_1, (list_elem_of_fmap_2 fst) in Hc. pose proof (table_ok_keys _ _ (li_claims _ Hinv)) as Hk.
      rewrite Forall_forall in Hk. apply Hk in Hc. simpl in Hc. lia. }
    apply (spent_steps _ _ ops) in Hs as [_ Hs%dget_None]. unfold ledger_release.
    by rewrite bool_decide_true by (by rewrite Hs).
Qed.

Lemma ledger_release_exactly_once_witness :
  ledger_release
    (foldl ledger_step (ledger_step demo_ledger (ORelease (mkClaim 2 ("a", 1) (demo_cost RESTORE 80) None)))
       [OClaim ("a", 1) (demo_cost RESTORE 80) None])
    (mkClaim 2 ("a", 1) (demo_cost RESTORE 80) None)
  = Raise (ValueError "transition claim was not owned").
Proof.
  apply (ledger_release_exactly_once demo_ledger); [exact demo_ledger_reachable|by vm_compute].
Defined.

(** ** The pending queue *)

(** What [_pending] collects, for a selection [sel] and the waiting items in
    token order. *)
Definition first_waits (sel : TransitionClaim → bool) (ws : list TransitionClaim) :
    dict owner_id TransitionClaim :=
  foldl (λ d item, if sel item then dsetdefault d (owner item) item else d) [] ws.

Record firsts (sel : TransitionClaim → bool) (ws : list TransitionClaim)
    (d : dict owner_id TransitionClaim) : Prop := {
  fw_keys : Forall (λ kv, kv.1 = owner kv.2) d;
  fw_nodup : NoDup (dkeys d);
  fw_sub : sublist (dvals d) ws;
  fw_sel : Forall (λ x, sel x = true) (dvals d);
  fw_first : ∀ x, x ∈ ws → sel x = true →
    ∃ y, y ∈ dvals d ∧ owner y = owner x ∧ token y ≤ token x
}.

Lemma first_waits_snoc sel ws x :
  first_waits sel (ws ++ [x])
  = if sel x then dsetdefault (first_waits sel ws) (owner x) x else first_waits sel ws.
Proof. unfold first_waits. by rewrite foldl_app. Qed.

Lemma firsts_skip sel ws x d :
  (sel x = true → ∃ y, y ∈ dvals d ∧ owner y = owner x ∧ token y ≤ token x) →
  firsts sel ws d → firsts sel (ws ++ [x]) d.
Proof.
  intros Hx [Hk Hnd Hsub Hsel Hf]. constructor; try done.
  - by apply sublist_inserts_r.
  - intros z [Hz| ->%list_elem_of_singleton]%elem_of_app Hs; auto.
Qed.

Lemma firsts_add sel ws x d :
  sel x = true → owner x ∉ dkeys d → firsts sel ws d →
  firsts sel (ws ++ [x]) (d ++ [(owner x, x)]).
Proof.
  intros Hs Ho [Hk Hnd Hsub Hsel Hf]. unfold dkeys, dvals in *.
  constructor; unfold dkeys, dvals; rewrite ?fmap_app; simpl.
  - apply Forall_app. split; [done|by constructor].
  - apply NoDup_app. split_and!; [done| |apply NoDup_singleton].
    intros z Hz ->%list_elem_of_singleton. done.
  - by apply sublist_app.
  - apply Forall_app. split; [done|by constructor].
  - intros z [Hz| ->%list_elem_of_singleton]%elem_of_app Hz'.
    + destruct (Hf z Hz Hz') as (y & ? & ? & ?). exists y. rewrite elem_of_app. auto.
    + exists x. rewrite elem_of_app, list_elem_of_singleton. auto with lia.
Qed.

Lemma firsts_waits sel ws :
  increasing (token <$> ws) → firsts sel ws (first_waits sel ws).
Proof.
  induction ws as [|x ws IH] using rev_ind; intros Hinc.
  { constructor; simpl; try done; try constructor. set_solver. }
  rewrite fmap_app in Hinc. assert (increasing (token <$> ws) ∧ ∀ y, y ∈ ws → token y ≤ token x) as [Hi Hle].
  { clear IH. induction ws as [|y ws IH]; csimpl in *; [split; [constructor|set_solver]|].
    apply StronglySorted_inv in Hinc as [Hinc Hy]. destruct (IH Hinc) as [H1 H2].
    apply Forall_app in Hy as [Hy1 Hy2]. apply Forall_cons in Hy2 as [Hy2 _].
    split; [by constructor|]. intros z [->|Hz]%elem_of_cons; [lia|by apply H2]. }
  specialize (IH Hi). rewrite first_waits_snoc. destruct (sel x) eqn:Hs; [|apply firsts_skip; [congruence|done]].
  unfold dsetdefault. destruct (dget _ (owner x)) as [y|] eqn:Ey.
  - apply firsts_skip; [|done]. intros _. apply dget_Some_1 in Ey.
    assert (y ∈ dvals (first_waits sel ws)) as Hy by (by apply (list_elem_of_fmap_2 snd) in Ey).
    pose proof (fw_keys _ _ _ IH) as Hk. rewrite Forall_forall in Hk. apply Hk in Ey. simpl in Ey.
    exists y. split_and!; [done|done|]. apply Hle. eapply elem_of_sublist; [done|apply IH].
  - apply dget_None in Ey. rewrite dset_fresh by done. by apply firsts_add.
Qed.

Definition pending_sel (l : TransitionLedger) (k : TransitionKind) (item : TransitionClaim) : bool :=
  bool_decide (kind (cost item) = k)
  && negb (bool_decide
       (owner item ∈ (owner <$> filter (λ item, kind (cost item) = k) (dvals (claims l))))).

Lemma table_ok_tokens n d : table_ok n d → increasing (token <$> dvals d).
Proof.
  intros [Hs Hd]. replace (token <$> dvals d) with (dkeys d); [done|].
  unfold dkeys, dvals. rewrite <-list_fmap_compose. clear Hs.
  induction Hd as [|ti d [H _] _ IH]; csimpl; [done|]. by rewrite IH, <-H.
Qed.

Lemma sublist_increasing (xs ys : list TransitionClaim) :
  sublist xs ys → increasing (token <$> ys) → increasing (token <$> xs).
Proof.
  unfold increasing. induction 1 as [|x l1 l2 Hs IH|x l1 l2 Hs IH]; csimpl; [done| |].
  - intros [H1 H2]%StronglySorted_inv. constructor; [by apply IH|].
    rewrite Forall_fmap, Forall_forall in *. intros y Hy. apply H2.
    by eapply elem_of_sublist.
  - intros [H1 _]%StronglySorted_inv. by apply IH.
Qed.

Lemma pending_firsts l k :
  ledger_inv l →
  ∃ d, pending l k = dvals d ∧ firsts (pending_sel l k) (dvals (waiting_claims l)) d.
Proof.
  intros Hinv. exists (first_waits (pending_sel l k) (dvals (waiting_claims l))). split; [done|].
  eapply firsts_waits, table_ok_tokens, Hinv.
Qed.

Lemma head_least xs first y :
  increasing (token <$> xs) → head xs = Some first → y ∈ xs → token first ≤ token y.
Proof.
  destruct xs as [|f xs]; [done|]. csimpl. intros [_ Hf]%StronglySorted_inv [= <-] [->|Hy]%elem_of_cons; [lia|].
  rewrite Forall_fmap, Forall_forall in Hf. specialize (Hf y Hy). simpl in Hf. lia.
Qed.

(** The pending queue is first come, first served: it lists one waiting
    item per owner of the kind that has no active claim of that kind, in the
    order of their tokens, and no eligible waiting item is older than its
    owner's entry.  So the item [_next_pending] picks is the oldest eligible
    waiter. *)
Theorem ledger_pending_fifo l k :
  ledger_reachable l →
  increasing (token <$> pending l k) ∧ NoDup (owner <$> pending l k) ∧
  (∀ item, item ∈ pending l k → item ∈ dvals (waiting_claims l) ∧ pending_sel l k item = true) ∧
  (∀ item, item ∈ dvals (waiting_claims l) → pending_sel l k item = true →
     ∃ first, first ∈ pending l k ∧ owner first = owner item ∧ token first ≤ token item) ∧
  (∀ capacity first item, next_pending l k capacity = Some first →
     item ∈ dvals (waiting_claims l) → pending_sel l k item = true → token first ≤ token item).
Proof.
  intros Hinv%ledger_reachable_inv. destruct (pending_firsts l k Hinv) as (d & Ep & [Hk Hnd Hsub Hsel Hf]).
  unfold next_pending. rewrite Ep. assert (increasing (token <$> dvals d)) as Hinc.
  { eapply sublist_increasing; [done|]. eapply table_ok_tokens, Hinv. }
  split_and!; try done.
  - replace (owner <$> dvals d) with (dkeys d); [done|]. unfold dkeys, dvals.
    rewrite <-list_fmap_compose. clear -Hk. induction Hk as [|kv d H _ IH]; csimpl; [done|]. by rewrite IH, H.
  - intros item Hin. split; [by eapply elem_of_sublist|]. rewrite Forall_forall in Hsel. by apply Hsel.
  - intros capacity first item Hn Hw Hs. case_match; [done|].
    destruct (Hf item Hw Hs) as (y & Hy & _ & Hle). etrans; [by eapply head_least|done].
Qed.

Lemma ledger_pending_fifo_witness :
  increasing (token <$> pending demo_ledger RESTORE) ∧ token <$> pending demo_ledger RESTORE = [1].
Proof.
  split; [apply (ledger_pending_fifo demo_ledger RESTORE), demo_ledger_reachable|by vm_compute].
Defined.

Lemma next_demand_covers l limits r : ledger_inv l → total l r [] ≤ next_memory_demands l limits r.
Proof.
  intros Hinv. unfold next_memory_demands. generalize [RESTORE; STARTUP]. intros ks.
  induction ks as [|k ks IH]; simpl; [done|]. case_match; [|done].
  apply total_mono; [done|]. intros o. simpl. lia.
Qed.

(** The demand reported for reclaim always contains everything already
    admitted, for memory and for RAM backing alike: the admitted and pending
    figures of the snapshot add up to the next demand, and neither clamp at zero
    ever hides a negative difference. *)
Theorem ledger_snapshot_adds_up l limits :
  ledger_reachable l →
  let s := demand_snapshot l limits in
  admitted_demand_bytes s + pending_demand_bytes s = next_memory_demands l limits MemoryBytes ∧
  admitted_ram_backing_bytes s + pending_ram_backing_bytes s
  = next_memory_demands l limits RamBackingBytes.
Proof.
  intros Hinv%ledger_reachable_inv. simpl. unfold known_memory_bytes.
  pose proof (next_demand_covers l limits MemoryBytes Hinv).
  pose proof (next_demand_covers l limits RamBackingBytes Hinv). lia.
Qed.

Lemma ledger_snapshot_adds_up_witness :
  admitted_demand_bytes (demand_snapshot demo_ledger [(RESTORE, 2)]) = 80 ∧
  admitted_demand_bytes (demand_snapshot demo_ledger [(RESTORE, 2)])
  + pending_demand_bytes (demand_snapshot demo_ledger [(RESTORE, 2)])
  = next_memory_demands demo_ledger [(RESTORE, 2)] MemoryBytes.
Proof.
  split; [by vm_compute|]. apply (ledger_snapshot_adds_up demo_ledger), demo_ledger_reachable.
Defined.
