(* ===== verification/Decision.v ===== *)
(** * The node admission decision and its driver
    (ucloud_sandboxes/admission_decision.py and the guard, reservation and growth
    accounting of direct_service.py)

    [gate] and [decide] are the pure decision; [guard_pass] is one round of
    [_active_admission_guard] and [guard_loop] the loop.  A round reads the
    clock, the node and a metrics sample, all of which another thread can change
    between rounds, so each round's readings are an input.  Monotonic clock
    readings are finite: rationals. *)
From S2P Require Import Prelude PyFloat Resources Transitions.
From Stdlib Require Import QArith Qminmax Lqa.
Local Close Scope Q_scope.
Local Open Scope Z_scope.

Definition RETRY_SECONDS : Q := 21 # 100.
Definition CLOSED : string := "direct node admission is closed".
Definition SHAPE : string := "sandbox CPU or memory request exceeds the physical node shape".
Definition PROJECTED : string := "node memory headroom is reserved by in-flight transitions".
Definition PROJECTED_RAM : string :=
  "node RAM backing headroom is reserved by in-flight transitions".
Definition MIB : Z := 1024 ^ 2.

Record AdmissionNode := mkANode {
  an_admission_open : bool;
  an_capacity : option ResourceQuantity;
  ram_backing_configured : bool
}.

(** A request without a cost has no owner in the code; it is never read then. *)
Record AdmissionRequest := mkARequest {
  ar_node : AdmissionNode;
  ar_owner : owner_id;
  ar_requested : ResourceQuantity;
  ar_cost : option TransitionCost;
  check_shape : bool;
  check_memory_pressure : bool;
  deadline : Q;
  now : Q;
  previous_error : option string
}.

Inductive Decision :=
| Grant
| Wait (reason : string) (seconds : Q)
| Refuse (reason : string) (closed : bool).

(** The payload of a [Refuse]: the fences return one or [None]. *)
Abbreviation refusal := (string * bool)%type.

Definition fences (q : AdmissionRequest) : option refusal :=
  if negb (an_admission_open (ar_node q)) then Some (CLOSED, true)
  else match an_capacity (ar_node q) with
       | Some capacity =>
           if check_shape q && negb (dynamic_request_fits (ar_requested q) rq_zero capacity)
           then Some (SHAPE, false) else None
       | None => None
       end.

Definition late (q : AdmissionRequest) : option refusal :=
  match previous_error q with
  | Some e => if Qle_bool (deadline q) (now q) then Some (e, false) else None
  | None => None
  end.

Definition gate (q : AdmissionRequest) : option refusal :=
  match fences q with Some d => Some d | None => late q end.

(** Pressure is judged against the transition's own footprint when known. *)
Definition pressure_request (q : AdmissionRequest) : ResourceQuantity :=
  match ar_cost q with
  | Some c =>
      match memory_bytes c with
      | Some b => mkRQ (vcpu (ar_requested q)) ((b + MIB - 1) / MIB) 0
      | None => ar_requested q
      end
  | None => ar_requested q
  end.

Definition headroom (m : NodeRuntimeMetrics) : Z :=
  if 0 <? memory_total_mb m
  then Z.max 0 (memory_available_mb m - PHYSICAL_MEMORY_FLOOR_MB) * MIB else 0.

(** [None]: no RAM backing is configured, so nothing bounds it. *)
Definition ram_available (m : NodeRuntimeMetrics) (configured : bool) : option Z :=
  match memory_backing m with
  | Some b => Some (default 0 (available_bytes b))
  | None => if configured then Some 0 else None
  end.

(** The projection block: the error it leaves, and whether it set one. *)
Definition project (m : NodeRuntimeMetrics) (l : TransitionLedger) (q : AdmissionRequest)
    (c : TransitionCost) (error : option string) : option string * bool :=
  let '(error, projected_error) :=
    if (memory_total_mb m <=? 0)
       || (headroom m <? projected_memory_bytes l (ar_owner q) c MemoryBytes)
    then (Some PROJECTED, true) else (error, false) in
  match ram_available m (ram_backing_configured (ar_node q)) with
  | Some available =>
      if available <? projected_memory_bytes l (ar_owner q) c RamBackingBytes
      then (Some PROJECTED_RAM, true) else (error, projected_error)
  | None => (error, projected_error)
  end.

Definition memory_wait (metrics : option NodeRuntimeMetrics) (q : AdmissionRequest) : bool :=
  match ar_cost q, metrics with
  | Some c, Some m =>
      bool_decide (kind c = STARTUP ∨ kind c = RESTORE) && (0 <? memory_total_mb m)
      && negb (is_none (dynamic_pressure_error metrics (pressure_request q) false
                          (check_memory_pressure q)))
  | _, _ => false
  end.

(** The pressure and projection part of [decide], after the fences. *)
Definition admission_pressure (metrics : option NodeRuntimeMetrics) (l : TransitionLedger)
    (q : AdmissionRequest) : option string * bool :=
  let capacity := an_capacity (ar_node q) in
  let pressure_error :=
    if is_none capacity then None
    else dynamic_pressure_error metrics (pressure_request q) false (check_memory_pressure q) in
  match ar_cost q, capacity, metrics with
  | Some c, Some _, Some m => project m l q c pressure_error
  | _, _, _ => (pressure_error, false)
  end.

Definition decide_admission (metrics : option NodeRuntimeMetrics) (l : TransitionLedger)
    (q : AdmissionRequest) : Decision :=
  match fences q with
  | Some (reason, closed) => Refuse reason closed
  | None =>
      let '(pressure_error, projected_error) := admission_pressure metrics l q in
      match late q with
      | Some (reason, closed) => Refuse reason closed
      | None =>
          match pressure_error with
          | None => Grant
          | Some e =>
              if negb (projected_error || memory_wait metrics q)
                 || Qle_bool (deadline q) (now q + RETRY_SECONDS)%Q
              then Refuse e false
              else Wait e (Qmin RETRY_SECONDS (deadline q - now q)%Q)
          end
      end
  end.

(** ** The driver: direct_service.py *)

(** [Refuse.error], and what [validate_owner] raises. *)
Inductive admission_exn :=
| AdmissionClosedError (msg : string)
| CapacityUnavailableError (msg : string)
| OwnerError (msg : string).

Definition refuse_error (reason : string) (closed : bool) : admission_exn :=
  if closed then AdmissionClosedError reason else CapacityUnavailableError reason.

(** What one round observes: the clock and the node under the lock, the sample
    and the owner's validation outside it, the requoted cost (read only when the
    caller has a [transition_cost_provider]), then the node and clock again.  [p_refresh] is
    the recomputed forecasts when the credit had expired. *)
Record pass := mkPass {
  p_now : Q;
  p_open : bool;
  p_capacity : option ResourceQuantity;
  p_metrics : option NodeRuntimeMetrics;
  p_owner_error : option string;
  p_cost : TransitionCost;
  p_open2 : bool;
  p_capacity2 : option ResourceQuantity;
  p_provider_changed : bool;
  p_refresh : option (list (owner_id * option TransitionCost));
  p_ram_configured : bool;
  p_now2 : Q
}.

Definition set_node (q : AdmissionRequest) (n : AdmissionNode) : AdmissionRequest :=
  mkARequest n (ar_owner q) (ar_requested q) (ar_cost q) (check_shape q)
    (check_memory_pressure q) (deadline q) (now q) (previous_error q).
Definition set_now (q : AdmissionRequest) (t : Q) : AdmissionRequest :=
  mkARequest (ar_node q) (ar_owner q) (ar_requested q) (ar_cost q) (check_shape q)
    (check_memory_pressure q) (deadline q) t (previous_error q).
Definition set_cost (q : AdmissionRequest) (c : option TransitionCost) : AdmissionRequest :=
  mkARequest (ar_node q) (ar_owner q) (ar_requested q) c (check_shape q)
    (check_memory_pressure q) (deadline q) (now q) (previous_error q).
Definition set_previous (q : AdmissionRequest) (e : string) : AdmissionRequest :=
  mkARequest (ar_node q) (ar_owner q) (ar_requested q) (ar_cost q) (check_shape q)
    (check_memory_pressure q) (deadline q) (now q) (Some e).

(** [_refresh_growth_forecasts_locked]: forget every forecast, then set each. *)
Definition refresh_forecasts (l : TransitionLedger)
    (costs : list (owner_id * option TransitionCost)) : TransitionLedger :=
  foldl (λ l oc, set_growth_forecast l oc.1 oc.2) (set_growth_forecasts l []) costs.

Inductive pass_result :=
| Granted (m : option NodeRuntimeMetrics) (q : AdmissionRequest) (l : TransitionLedger)
| Raised (e : admission_exn)
| Waiting (q : AdmissionRequest) (l : TransitionLedger).

(** Before deciding: current forecasts, this owner's requoted demand, and
    whether RAM backing is configured. *)
Definition charge_forecasts (provider : bool) (l : TransitionLedger) (q : AdmissionRequest)
    (metrics : option NodeRuntimeMetrics) (p : pass) : AdmissionRequest * TransitionLedger :=
  match ar_cost q, p_capacity2 p, metrics with
  | Some c, Some _, Some _ =>
      let l := match p_refresh p with Some costs => refresh_forecasts l costs | None => l end in
      let l := if provider then refresh_wait_cost l (ar_owner q) c else l in
      (set_node q (mkANode (p_open2 p) (p_capacity2 p) (p_ram_configured p)), l)
  | _, _, _ => (q, l)
  end.

(** The second lock section. *)
Definition guard_second (provider : bool) (l : TransitionLedger) (q : AdmissionRequest)
    (metrics : option NodeRuntimeMetrics) (p : pass) : pass_result :=
  let q := set_node q (mkANode (p_open2 p) (p_capacity2 p) false) in
  match fences q with
  | Some (reason, closed) => Raised (refuse_error reason closed)
  | None =>
      if negb (is_none (p_capacity2 p)) && p_provider_changed p
      then Raised (CapacityUnavailableError
             "direct node runtime metrics provider changed during admission")
      else
        let '(q, l) := charge_forecasts provider l q metrics p in
        match decide_admission metrics l (set_now q (p_now2 p)) with
        | Grant => Granted metrics q l
        | Refuse reason closed => Raised (refuse_error reason closed)
        | Wait reason _ => Waiting (set_previous q reason) l
        end
  end.

Definition guard_pass (provider : bool) (l : TransitionLedger) (q : AdmissionRequest)
    (p : pass) : pass_result :=
  let q := set_now (set_node q (mkANode (p_open p) (p_capacity p) false)) (p_now p) in
  match gate q with
  | Some (reason, closed) => Raised (refuse_error reason closed)
  | None =>
      let metrics := if is_none (p_capacity p) then None else p_metrics p in
      match p_owner_error p with
      | Some e => Raised (OwnerError e)
      | None =>
          let q := if provider then set_cost q (Some (p_cost p)) else q in
          guard_second provider l q metrics p
      end
  end.

(** The request the guard starts from: without a deadline, its deadline is the
    time it was entered. *)
Definition guard_request (o : owner_id) (r : ResourceQuantity) (c : option TransitionCost)
    (shape psi : bool) (dl : option Q) (t : Q) : AdmissionRequest :=
  mkARequest (mkANode false None false) o r c shape psi (default t dl) t None.

(** [between] are the ledger operations other threads make while this caller
    samples or waits. *)
Fixpoint guard_loop (provider : bool) (l : TransitionLedger) (q : AdmissionRequest)
    (ps : list (list ledger_op * pass)) : pass_result :=
  match ps with
  | [] => Waiting q l
  | (between, p) :: ps =>
      match guard_pass provider (foldl ledger_step l between) q p with
      | Waiting q l => guard_loop provider l q ps
      | result => result
      end
  end.

(** [_reserve_active_capacity] up to its [yield]: the claim is published before
    the lock is released. *)
Definition reserve_active_capacity (l : TransitionLedger) (o : owner_id) (r : ResourceQuantity)
    (c : TransitionCost) (dl t : Q) (ps : list (list ledger_op * pass)) :
    admission_exn + option (TransitionClaim * TransitionLedger * option NodeRuntimeMetrics) :=
  let active_requested := mkRQ (vcpu r) (memory_mb r) 0 in
  match guard_loop false l (guard_request o active_requested (Some c) true true (Some dl) t) ps with
  | Granted m _ l => let '(claim, l) := ledger_claim l o c (Some r) in inr (Some (claim, l, m))
  | Raised e => inl e
  | Waiting _ _ => inr None
  end.

(** ** Growth accounting: direct_service.py *)

Definition GROWTH_OBSERVATION_MAX_AGE_SECONDS : Q := 30.
Definition PREFETCH_MAX_BYTES : Z := 1024 ^ 3.

(** [ResidentMemorySample], the fields the growth accounting reads. *)
Record ResidentMemorySample := mkSample {
  current_bytes : Z;
  shared_memory_bytes : Z;
  peak_bytes : Z;
  swap_bytes : Z;
  sampled_at : Q
}.

Definition growth_sample (t : Q) (sample : option ResidentMemorySample) :
    option ResidentMemorySample :=
  match sample with
  | Some s => if Qle_bool (t - sampled_at s)%Q GROWTH_OBSERVATION_MAX_AGE_SECONDS then Some s else None
  | None => None
  end.

(** [mode] is the warden's [application_memory_mode] of the owner. *)
Definition growth_remaining (t : Q) (mode : string) (bound : Z)
    (sample : option ResidentMemorySample) : Z :=
  let observed :=
    match growth_sample t sample with
    | None => 0
    | Some s => if bool_decide (mode = "ram") then Z.min (current_bytes s) (shared_memory_bytes s)
                else current_bytes s
    end in
  Z.max 0 (bound - observed).

Definition continuation_growth (t : Q) (mode : string) (bound : Z)
    (sample : option ResidentMemorySample) : Z * Z :=
  let sample := growth_sample t sample in
  let remaining := growth_remaining t mode bound sample in
  match sample with
  | None => (remaining, remaining)
  | Some s =>
      if peak_bytes s =? 0 then (remaining, remaining)
      else
        let ceiling := Z.min bound (peak_bytes s) in
        let shared := Z.min (current_bytes s) (shared_memory_bytes s) in
        let swapped := Z.min (swap_bytes s) (Z.max 0 (ceiling - current_bytes s)) in
        let physical := Z.max 0 (ceiling - current_bytes s - swapped)
                        + Z.min swapped PREFETCH_MAX_BYTES in
        (physical, Z.max 0 (ceiling - shared - swapped))
  end.

Definition transition_memory_cost (k : TransitionKind) (mode : string) (mem ram : option Z)
    (prov : string) : TransitionCost :=
  mkCost k mem None None prov
    (if bool_decide (mode = "ram") then (match ram with None => mem | Some r => Some r end)
     else Some 0).

Definition growth_cost (t : Q) (mode : string) (bound : Z) (k : TransitionKind)
    (request_id : string) (sample : option ResidentMemorySample) : TransitionCost :=
  if bool_decide (mode = "file") && negb (bool_decide (request_id = EmptyString))
  then transition_memory_cost k mode None None "reclaimable-file-growth"
  else if bool_decide (request_id = EmptyString)
  then transition_memory_cost k mode (Some (growth_remaining t mode bound sample)) None
         "primary-process-growth-forecast"
  else let '(physical, ram_backing) := continuation_growth t mode bound sample in
       transition_memory_cost k mode (Some physical) (Some ram_backing)
         "primary-process-growth-forecast".

(** ** Properties of the decision *)

Record grant_safe (m : NodeRuntimeMetrics) (l : TransitionLedger) (q : AdmissionRequest) : Prop := {
  gs_pressure :
    dynamic_pressure_error (Some m) (pressure_request q) false (check_memory_pressure q) = None;
  gs_memory : ∀ c, ar_cost q = Some c →
    0 < memory_total_mb m ∧ projected_memory_bytes l (ar_owner q) c MemoryBytes ≤ headroom m;
  gs_ram : ∀ c a, ar_cost q = Some c →
    ram_available m (ram_backing_configured (ar_node q)) = Some a →
    projected_memory_bytes l (ar_owner q) c RamBackingBytes ≤ a
}.

Lemma project_None m l q c e b :
  project m l q c e = (None, b) →
  e = None ∧ 0 < memory_total_mb m ∧
  projected_memory_bytes l (ar_owner q) c MemoryBytes ≤ headroom m ∧
  ∀ a, ram_available m (ram_backing_configured (ar_node q)) = Some a →
    projected_memory_bytes l (ar_owner q) c RamBackingBytes ≤ a.
Proof.
  unfold project. intros H.
  destruct (_ || _) eqn:E in H; [by repeat case_match; simplify_eq|].
  destruct (ram_available _ _) as [a|]; [destruct (a <? _) eqn:E' in H|]; simplify_eq; bools;
    split_and!; try done; intros; simplify_eq; lia.
Qed.

Lemma decide_grant_inv metrics l q :
  decide_admission metrics l q = Grant →
  fences q = None ∧ late q = None ∧
  (∀ cap, an_capacity (ar_node q) = Some cap → ∃ m, metrics = Some m ∧ grant_safe m l q).
Proof.
  unfold decide_admission. intros H.
  destruct (fences q) as [[]|]; [done|]. split; [done|].
  destruct (admission_pressure metrics l q) as [e b] eqn:E.
  destruct (late q) as [[]|]; [done|]. split; [done|].
  destruct e; [by case_match|]. intros cap Hcap.
  unfold admission_pressure in E. rewrite Hcap in E. cbn [is_none] in E.
  destruct metrics as [m|]; [|by destruct (ar_cost q)].
  exists m. split; [done|]. destruct (ar_cost q) as [c|] eqn:Ec.
  - apply project_None in E as (Ep & ? & ? & ?).
    constructor; [done|..]; intros; simplify_eq; eauto.
  - constructor; [congruence|..]; intros; congruence.
Qed.

Lemma decide_wait_inv metrics l q r s :
  decide_admission metrics l q = Wait r s →
  (now q + RETRY_SECONDS < deadline q)%Q ∧ (s == RETRY_SECONDS)%Q.
Proof.
  unfold decide_admission. intros H.
  destruct (fences q) as [[]|]; [done|]. destruct (admission_pressure metrics l q) as [e b].
  destruct (late q) as [[]|]; [done|]. destruct e; [|done].
  destruct (_ || _) eqn:E in H; [done|]. injection H as <- <-. apply orb_false_iff in E as [_ E].
  assert (now q + RETRY_SECONDS < deadline q)%Q as Hlt.
  { apply Qnot_le_lt. intros Hle%Qle_bool_iff. congruence. }
  split; [done|]. apply Q.min_l. lra.
Qed.

Lemma ledger_reachable_ops l ops :
  ledger_reachable l → Forall op_ok ops → ledger_reachable (foldl ledger_step l ops).
Proof.
  intros (ops0 & H0 & ->) H. exists (ops0 ++ ops). rewrite foldl_app. split; [by apply Forall_app|done].
Qed.

Definition opt_cost_ok (c : option TransitionCost) : Prop :=
  match c with Some c => cost_ok c = true | None => True end.

(** The costs a round brings in were constructed, so they passed validation. *)
Definition pass_ok (bp : list ledger_op * pass) : Prop :=
  Forall op_ok bp.1 ∧ cost_ok (p_cost bp.2) = true ∧
  match p_refresh bp.2 with Some cs => Forall (λ oc, opt_cost_ok oc.2) cs | None => True end.

Lemma refresh_reachable l cs :
  ledger_reachable l → Forall (λ oc, opt_cost_ok oc.2) cs → ledger_reachable (refresh_forecasts l cs).
Proof.
  intros Hl Hcs.
  assert (refresh_forecasts l cs
          = foldl ledger_step l (OForecasts [] :: ((λ oc, OForecast oc.1 oc.2) <$> cs))) as ->.
  { unfold refresh_forecasts. cbn [foldl ledger_step]. generalize (set_growth_forecasts l []).
    clear. induction cs as [|[o c] cs IH]; intros l; [done|]. cbn. apply IH. }
  apply ledger_reachable_ops; [done|]. constructor; [constructor|]. apply Forall_fmap.
  eapply Forall_impl; [exact Hcs|]. intros [o [c|]]; done.
Qed.

(** What a granting round established, and the ledger it granted against. *)
Record pass_grants (provider : bool) (q : AdmissionRequest) (p : pass)
    (m : option NodeRuntimeMetrics) (q' : AdmissionRequest) (l' : TransitionLedger) : Prop := {
  pg_decision : decide_admission m l' (set_now q' (p_now2 p)) = Grant;
  pg_reachable : ledger_reachable l';
  pg_owner : ar_owner q' = ar_owner q;
  pg_cost : ar_cost q' = if provider then Some (p_cost p) else ar_cost q;
  pg_open : an_admission_open (ar_node q') = p_open2 p;
  pg_capacity : an_capacity (ar_node q') = p_capacity2 p;
  pg_ram : ar_cost q' ≠ None → p_capacity2 p ≠ None → m ≠ None →
    ram_backing_configured (ar_node q') = p_ram_configured p
}.

Lemma charge_inv (provider : bool) l q m p q' l' :
  ledger_reachable l → pass_ok ([], p) →
  (∀ c, ar_cost q = Some c → provider = true → cost_ok c = true) →
  charge_forecasts provider l q m p = (q', l') →
  ledger_reachable l' ∧
  ((q' = q ∧ (ar_cost q = None ∨ p_capacity2 p = None ∨ m = None)) ∨
   q' = set_node q (mkANode (p_open2 p) (p_capacity2 p) (p_ram_configured p))).
Proof.
  intros Hl (_ & _ & Hpr) Hok E. unfold charge_forecasts in E.
  destruct (ar_cost q) as [c|] eqn:Ec; [|naive_solver].
  destruct (p_capacity2 p) as [cap|] eqn:Ecap; [|naive_solver].
  destruct m as [m|]; [|naive_solver]. injection E as <- <-. split; [|by right].
  set (l1 := match p_refresh p with Some _ => _ | None => l end).
  assert (ledger_reachable l1) as H1.
  { unfold l1. simpl in Hpr. destruct (p_refresh p); [by apply refresh_reachable|done]. }
  destruct provider; [|done].
  apply (ledger_reachable_ops l1 [ORefresh (ar_owner q) c]); [done|]. repeat constructor. simpl. auto.
Qed.

Lemma guard_second_grants (provider : bool) l q m p m' q' l' :
  ledger_reachable l → pass_ok ([], p) →
  ar_cost q = (if provider then Some (p_cost p) else ar_cost q) →
  guard_second provider l q m p = Granted m' q' l' → pass_grants provider q p m' q' l'.
Proof.
  intros Hl Hp Hcost. unfold guard_second. destruct (fences _) as [[]|]; [done|].
  destruct (_ && _); [done|].
  destruct (charge_forecasts _ _ _ _ _) as [q1 l1] eqn:E.
  destruct (decide_admission m l1 _) eqn:Ed; [|done|done]. intros [= <- <- <-].
  apply charge_inv in E as [Hl1 Hq]; [|done|done|].
  2:{ simpl. intros c Hc ->. rewrite Hcost in Hc. simplify_eq. apply Hp. }
  destruct Hq as [[-> Hnone]| ->]; constructor; try done.
  simpl. destruct_or!; done.
Qed.

Lemma guard_pass_grants (provider : bool) l q p m q' l' :
  ledger_reachable l → pass_ok ([], p) →
  guard_pass provider l q p = Granted m q' l' → pass_grants provider q p m q' l'.
Proof.
  intros Hl Hp. unfold guard_pass. destruct (gate _) as [[]|]; [done|].
  destruct (p_owner_error p); [done|]. intros E.
  apply guard_second_grants in E as []; [|done|done|by destruct provider].
  destruct provider; constructor; done.
Qed.

(** A round that waits keeps the request's owner, cost and deadline, and leaves
    a reachable ledger. *)
Lemma guard_pass_waits (provider : bool) l q p q' l' :
  ledger_reachable l → pass_ok ([], p) →
  guard_pass provider l q p = Waiting q' l' →
  ledger_reachable l' ∧ ar_owner q' = ar_owner q ∧ (provider = false → ar_cost q' = ar_cost q) ∧
  deadline q' = deadline q ∧ previous_error q' ≠ None ∧
  (p_now2 p + RETRY_SECONDS < deadline q)%Q.
Proof.
  intros Hl Hp. unfold guard_pass. destruct (gate _) as [[]|]; [done|].
  destruct (p_owner_error p); [done|]. unfold guard_second. destruct (fences _) as [[]|]; [done|].
  destruct (_ && _); [done|].
  destruct (charge_forecasts _ _ _ _ _) as [q1 l1] eqn:E.
  destruct (decide_admission _ l1 _) eqn:Ed; [done| |done]. intros [= <- <-].
  apply decide_wait_inv in Ed as [Hlt _]. simpl in Hlt.
  apply charge_inv in E as [Hl1 Hq]; [|done|done|].
  2:{ intros c Hc ->. simplify_eq/=. apply Hp. }
  split; [done|]. destruct Hq as [[-> _]| ->], provider; simpl in *; done.
Qed.

(** The loop grants only through one granting round. *)
Lemma guard_loop_grants (provider : bool) l q ps m q' l' :
  ledger_reachable l → Forall pass_ok ps → guard_loop provider l q ps = Granted m q' l' →
  ∃ q0 bp, bp ∈ ps ∧ ar_owner q0 = ar_owner q ∧ (provider = false → ar_cost q0 = ar_cost q) ∧
    pass_grants provider q0 bp.2 m q' l'.
Proof.
  intros Hl Hps. revert l q Hl. induction Hps as [|[b p] ps (Hb & Hp) Hps IH]; intros l q Hl; simpl; [done|].
  assert (ledger_reachable (foldl ledger_step l b)) as Hl' by (by apply ledger_reachable_ops).
  assert (pass_ok ([], p)) as Hp' by (split; [constructor|done]).
  destruct (guard_pass _ _ _ _) as [m0 q0 l0|e|q0 l0] eqn:E; [|done|].
  - intros [= <- <- <-]. exists q, (b, p). split_and!; try done; [left|].
    by eapply guard_pass_grants.
  - intros E'. destruct (guard_pass_waits _ _ _ _ _ _ Hl' Hp' E) as (H1 & H2 & H3 & _).
    destruct (IH l0 q0 H1 E') as (q1 & bp & Hin & Ho & Hc & Hg). exists q1, bp.
    split_and!; [by right|congruence| |done]. intros ->. rewrite Hc, H3; done.
Qed.

Lemma pressure_floor m r cm :
  dynamic_pressure_error (Some m) r false cm = None → 0 < memory_total_mb m →
  PHYSICAL_MEMORY_FLOOR_MB ≤ memory_available_mb m.
Proof. simpl. intros H%memory_pressure_inv. apply H. Qed.

(** C5. A reservation that is granted on a node with a capacity shape never
    overcommits it: whatever other threads did to the ledger and however often
    the caller waited, once its claim is published the whole ledger fits the
    physical headroom above the 2 GiB floor of the sample it was granted on, and
    the RAM backing that sample showed; admission was open; and the claim is in
    the ledger. *)
Theorem admission_grant_never_overcommits l o r c dl t ps claim l' m :
  ledger_reachable l → cost_ok c = true → Forall pass_ok ps →
  Forall (λ bp, p_capacity2 bp.2 ≠ None) ps →
  reserve_active_capacity l o r c dl t ps = inr (Some (claim, l', m)) →
  ∃ m' bp, m = Some m' ∧ bp ∈ ps ∧ p_open2 bp.2 = true ∧
    PHYSICAL_MEMORY_FLOOR_MB ≤ memory_available_mb m' ∧
    total l' MemoryBytes [] ≤ (memory_available_mb m' - PHYSICAL_MEMORY_FLOOR_MB) * MIB ∧
    (∀ a, ram_available m' (p_ram_configured bp.2) = Some a → total l' RamBackingBytes [] ≤ a) ∧
    dget (claims l') (token claim) = Some claim.
Proof.
  intros Hl Hc Hps Hcap. unfold reserve_active_capacity. set (q := guard_request _ _ _ _ _ _ _).
  destruct (guard_loop false l q ps) as [m0 q' l0|e|q' l0] eqn:E; [|done|done].
  intros [= <- <- <-]. apply guard_loop_grants in E as (q0 & bp & Hin & Ho & Hco & [Hd Hr Ho' Hc' Hop Hcp Hram]); [|done|done].
  rewrite Hco in Hc' by done. apply decide_grant_inv in Hd as (Hf & _ & Hg).
  rewrite Forall_forall in Hcap. pose proof (Hcap bp Hin) as Hne. destruct (p_capacity2 bp.2) as [cap|] eqn:Ecap; [|done].
  destruct (Hg cap) as (m' & -> & [Hp Hmem Hr']); [by simpl|]. simpl in Hmem, Hr'.
  destruct (Hmem c) as [Ht Hm]; [by rewrite Hc'|]. rewrite Ho', Ho in *. simpl in Hm, Hr'.
  pose proof (ledger_reachable_inv _ Hr) as Hinv.
  pose proof (pressure_floor _ _ _ Hp Ht) as Hfl.
  exists m', bp. split_and!; try done.
  - unfold fences in Hf. simpl in Hf. rewrite Hop in Hf. by destruct (p_open2 bp.2).
  - etrans; [apply Z.eq_le_incl, (total_claim l0 o c (Some r)), Hinv|].
    etrans; [by apply projected_covers|]. unfold headroom in Hm.
    rewrite Z.max_r in Hm by lia. by rewrite (proj2 (Z.ltb_lt _ _) Ht) in Hm.
  - intros a Ha. etrans; [apply Z.eq_le_incl, (total_claim l0 o c (Some r)), Hinv|].
    etrans; [by apply projected_covers|]. apply (Hr' c a); [by rewrite Hc'|].
    rewrite Hram; [done|by rewrite Hc'|done|done].
  - apply dget_dset_eq.
Qed.

Definition demo_capacity : ResourceQuantity := mkRQ (of_int 8) 16384 0.
Definition demo_backing_metrics : NodeRuntimeMetrics :=
  mkMetrics 0 None 4 16000 4000 2148 None 3000 0 0 None None None None None
    0 0 0 0 0 0 0 0 0 0 (Some (mkBacking (Some 1000) (Some 500) (Some "m"))) 0.
Definition demo_pass (t : Q) (m : NodeRuntimeMetrics) : pass :=
  mkPass t true (Some demo_capacity) (Some m) None (demo_cost STARTUP 0) true (Some demo_capacity)
    false None true t.
Definition tight_metrics : NodeRuntimeMetrics :=
  mkMetrics 0 None 4 16000 4000 2048 None 3000 0 0 None None None None None
    0 0 0 0 0 0 0 0 0 0 None 0.

Lemma admission_grant_never_overcommits_witness :
  match reserve_active_capacity demo_ledger ("c", 1) (mkRQ (of_int 1) 512 0) (demo_cost STARTUP 20) 5 0
          [([], demo_pass 0 tight_metrics); ([], demo_pass 1 demo_backing_metrics)] with
  | inr (Some (claim, l', Some m')) =>
      total l' MemoryBytes [] ≤ (memory_available_mb m' - PHYSICAL_MEMORY_FLOOR_MB) * MIB
  | _ => False
  end.
Proof.
  set (l' := (ledger_claim demo_ledger ("c", 1) (demo_cost STARTUP 20)
               (Some (mkRQ (of_int 1) 512 0))).2).
  destruct (admission_grant_never_overcommits demo_ledger ("c", 1) (mkRQ (of_int 1) 512 0)
    (demo_cost STARTUP 20) 5 0
    [([], demo_pass 0 tight_metrics); ([], demo_pass 1 demo_backing_metrics)]
    (mkClaim 4 ("c", 1) (demo_cost STARTUP 20) (Some (mkRQ (of_int 1) 512 0))) l'
    (Some demo_backing_metrics))
    as (m' & bp & Hm & _ & _ & _ & H & _); [exact demo_ledger_reachable|done|repeat constructor|
    repeat constructor; done|by vm_compute|].
  injection Hm as <-. vm_compute in H |- *. exact H.
Defined.

Lemma late_refuses q : previous_error q ≠ None → (deadline q <= now q)%Q → late q ≠ None.
Proof.
  unfold late. destruct (previous_error q); [|done]. intros _ H%Qle_bool_iff. by rewrite H.
Qed.

Lemma guard_pass_late (provider : bool) l q p q' l' :
  previous_error q ≠ None → (deadline q <= p_now p)%Q → guard_pass provider l q p ≠ Waiting q' l'.
Proof.
  intros Hprev Hle. unfold guard_pass, gate. destruct (fences _) as [[]|]; [done|].
  set (q0 := set_now _ _). pose proof (late_refuses q0 Hprev Hle). by destruct (late q0) as [[]|].
Qed.

Lemma guard_loop_late (provider : bool) l q ps bp q' l' :
  ledger_reachable l → Forall pass_ok (ps ++ [bp]) → (ps = [] → previous_error q ≠ None) →
  (deadline q <= p_now bp.2)%Q → guard_loop provider l q (ps ++ [bp]) ≠ Waiting q' l'.
Proof.
  revert l q. induction ps as [|[b p] ps IH]; intros l q Hl Hok Hprev Hle; simpl in *.
  - destruct bp as [b p]. destruct (guard_pass _ _ _ _) eqn:E; [done|done|].
    exfalso. eapply guard_pass_late; [by apply Hprev|exact Hle|exact E].
  - apply Forall_cons in Hok as [(Hb & Hp) Hok].
    destruct (guard_pass _ _ _ _) as [| |q0 l0] eqn:E; [done|done|].
    apply guard_pass_waits in E as (H1 & _ & _ & Hd & Hpe & _);
      [|by apply ledger_reachable_ops|split; [constructor|done]].
    apply IH; [done|done|done|]. by rewrite Hd.
Qed.

(** C37. The guard returns by its deadline: after at least one round, a round
    whose clock has reached the deadline ends the loop with a grant or an error,
    never another wait; and a guard entered without a deadline never waits at
    all, given only that the clock does not run backwards. *)
Theorem admission_guard_returns (provider : bool) l q ps bp :
  ledger_reachable l → Forall pass_ok (ps ++ [bp]) →
  (ps ≠ [] → (deadline q <= p_now bp.2)%Q →
     ∀ q' l', guard_loop provider l q (ps ++ [bp]) ≠ Waiting q' l') ∧
  (∀ o r c shape psi t q' l', (t <= p_now2 bp.2)%Q →
     guard_loop provider l (guard_request o r c shape psi None t) [bp] ≠ Waiting q' l').
Proof.
  intros Hl Hok. split.
  - intros Hps Hle q' l'. by apply guard_loop_late.
  - intros o r c shape psi t q' l' Ht. apply Forall_app in Hok as [_ [(Hb & Hp) _]%Forall_cons].
    destruct bp as [b p]. simpl in *. destruct (guard_pass _ _ _ _) eqn:E; [done|done|].
    apply guard_pass_waits in E as (_ & _ & _ & _ & _ & Hlt);
      [|by apply ledger_reachable_ops|split; [constructor|done]].
    simpl in Hlt. unfold RETRY_SECONDS in Hlt. lra.
Qed.

Lemma admission_guard_returns_witness :
  match guard_loop false demo_ledger
    (guard_request ("c", 1) demo_capacity (Some (demo_cost STARTUP 20)) false true (Some 5%Q) 0)
    [([], demo_pass 0 tight_metrics); ([], demo_pass 6 tight_metrics)] with
  | Waiting _ _ => False
  | _ => True
  end.
Proof.
  destruct (guard_loop _ _ _ _) eqn:E; [exact I|exact I|]. revert E.
  refine (proj1 (admission_guard_returns false demo_ledger _ [([], demo_pass 0 tight_metrics)]
    ([], demo_pass 6 tight_metrics) demo_ledger_reachable _) _ _ _ _);
    [repeat constructor|done|by apply Qle_bool_iff].
Defined.

(** A wait never sleeps past the deadline: it is only asked for while more
    than the retry interval remains, and it lasts exactly that interval. *)
Theorem admission_wait_within_deadline metrics l q reason seconds :
  decide_admission metrics l q = Wait reason seconds →
  (0 < seconds)%Q ∧ (seconds == RETRY_SECONDS)%Q ∧ (now q + seconds < deadline q)%Q.
Proof.
  intros [Hlt Hs]%decide_wait_inv. rewrite Hs. split_and!; [|done|done].
  unfold RETRY_SECONDS. lra.
Qed.

Lemma admission_wait_within_deadline_witness : (0 < RETRY_SECONDS)%Q.
Proof.
  exact (proj1 (admission_wait_within_deadline (Some tight_metrics) demo_ledger
    (set_node (guard_request ("c", 1) demo_capacity (Some (demo_cost STARTUP 20)) false true (Some 5%Q) 0)
       (mkANode true (Some demo_capacity) true)) PROJECTED_RAM RETRY_SECONDS eq_refl)).
Defined.

(** The same sample with a different amount of available memory. *)
Definition with_available (m : NodeRuntimeMetrics) (a : Z) : NodeRuntimeMetrics :=
  mkMetrics (collected_at m) (cpu_percent m) (cpu_count m) (memory_total_mb m) (memory_used_mb m) a
    (memory_percent m) (memory_working_set_mb m) (swap_total_mb m) (swap_free_mb m)
    (memory_psi_some_avg10 m) (memory_psi_full_avg10 m) (io_psi_some_avg10 m) (io_psi_full_avg10 m)
    (load_average_1m m) (storage_hard_capacity_mb m) (storage_hard_reserved_mb m)
    (storage_active_operations m) (storage_waiting_operations m)
    (storage_max_concurrent_operations m) (storage_error_volumes m) (storage_ublk_active_devices m)
    (storage_ublk_max_devices m) (storage_workspace_grant_mb m) (storage_memory_idle_claim_mb m)
    (memory_backing m) (cpu_check_ms m).

Lemma memory_pressure_mono m r psi a :
  memory_available_mb m ≤ a → memory_pressure_error m r psi = None →
  memory_pressure_error (with_available m a) r psi = None.
Proof.
  unfold memory_pressure_error. simpl. intros Ha H. destruct (psi && _); [done|].
  destruct (0 <? memory_total_mb m) eqn:Et, (0 <? swap_total_mb m) eqn:Es; simpl in *;
    repeat case_match; bools; try done; lia.
Qed.

(** The decision is monotone in memory: a request that is granted on a
    sample is still granted on the same sample with more memory available. *)
Theorem admission_monotone_in_memory m l q a :
  memory_available_mb m ≤ a → decide_admission (Some m) l q = Grant →
  decide_admission (Some (with_available m a)) l q = Grant.
Proof.
  intros Ha H. pose proof (decide_grant_inv _ _ _ H) as (Hf & Hlate & Hg).
  unfold decide_admission. rewrite Hf, Hlate.
  enough (admission_pressure (Some (with_available m a)) l q = (None, false)) as -> by done.
  unfold admission_pressure. destruct (an_capacity (ar_node q)) as [cap|] eqn:Ec.
  2:{ by destruct (ar_cost q). }
  destruct (Hg cap eq_refl) as (m' & [= <-] & [Hp Hm Hr]).
  assert (dynamic_pressure_error (Some (with_available m a)) (pressure_request q) false
            (check_memory_pressure q) = None) as Hp'.
  { simpl in *. by apply memory_pressure_mono. }
  cbn [is_none]. rewrite Hp'. destruct (ar_cost q) as [c|]; [|done]. unfold project.
  destruct (Hm c eq_refl) as [Ht Hle].
  assert (headroom m ≤ headroom (with_available m a)) as Hh.
  { unfold headroom. simpl. case_match; [|done]. unfold MIB. nia. }
  destruct (_ || _) eqn:E.
  { apply orb_true_iff in E as [E|E]; simpl in E; bools; lia. }
  destruct (ram_available _ _) as [av|] eqn:Ea; [|done].
  specialize (Hr c av eq_refl eq_refl). rewrite (proj2 (Z.ltb_ge _ _)) by lia. done.
Qed.

Lemma admission_monotone_in_memory_witness :
  decide_admission (Some (with_available demo_backing_metrics 9000)) ledger_init
    (set_node (guard_request ("c", 1) demo_capacity (Some (demo_cost STARTUP 20)) false true None 0)
       (mkANode true (Some demo_capacity) true)) = Grant.
Proof. apply admission_monotone_in_memory; [by vm_compute|by vm_compute]. Defined.

(** A sampler reading: byte counts are never negative. *)
Definition sample_ok (s : ResidentMemorySample) : Prop :=
  0 ≤ current_bytes s ∧ 0 ≤ shared_memory_bytes s ∧ 0 ≤ peak_bytes s ∧ 0 ≤ swap_bytes s.

Definition opt_sample_ok (s : option ResidentMemorySample) : Prop :=
  match s with Some s => sample_ok s | None => True end.

Lemma growth_sample_ok t s : opt_sample_ok s → opt_sample_ok (growth_sample t s).
Proof. destruct s as [s|]; simpl; [|done]. by case_match. Qed.

Lemma growth_remaining_bounds t mode bound s :
  0 ≤ bound → opt_sample_ok s → 0 ≤ growth_remaining t mode bound s ≤ bound.
Proof.
  intros Hb Hs%(growth_sample_ok t). unfold growth_remaining.
  destruct (growth_sample t s) as [s'|]; [destruct Hs as (?&?&?&?)|]; [case_match|]; lia.
Qed.

Lemma continuation_growth_bounds t mode bound s p r :
  0 ≤ bound → opt_sample_ok s → continuation_growth t mode bound s = (p, r) →
  0 ≤ p ≤ bound ∧ 0 ≤ r ≤ bound.
Proof.
  intros Hb Hs%(growth_sample_ok t) E. unfold continuation_growth in E.
  pose proof (growth_remaining_bounds t mode bound _ Hb Hs).
  destruct (growth_sample t s) as [s'|]; [|by simplify_eq].
  destruct (_ =? _) eqn:Ep; simplify_eq; [done|].
  destruct Hs as (?&?&?&?). unfold PREFETCH_MAX_BYTES. bools. lia.
Qed.

(** A growth forecast is always a valid cost between zero and the owner's
    memory bound, on both resources, whatever the sample and its age: crediting
    observed pages, the peak and swapped pages never charges more than the bound
    and never yields a negative charge.  Without a usable sample a launch or
    continuation is charged the whole bound. *)
Theorem growth_cost_within_bound t mode bound k request_id s :
  0 ≤ bound → opt_sample_ok s →
  cost_ok (growth_cost t mode bound k request_id s) = true ∧
  (∀ r, 0 ≤ resource_or_0 r (growth_cost t mode bound k request_id s) ≤ bound) ∧
  (growth_sample t s = None → (mode ≠ "file" ∨ request_id = EmptyString) →
   memory_bytes (growth_cost t mode bound k request_id s) = Some bound).
Proof.
  intros Hb Hs. unfold growth_cost.
  pose proof (growth_remaining_bounds t mode bound s Hb Hs) as Hr.
  destruct (continuation_growth t mode bound s) as [p q] eqn:Ec.
  pose proof (continuation_growth_bounds _ _ _ _ _ _ Hb Hs Ec) as [Hp Hq].
  destruct (bool_decide (mode = "file") && _) eqn:E1; [|destruct (bool_decide (request_id = _)) eqn:E2];
    unfold transition_memory_cost, cost_ok, resource_or_0; simpl;
    (split_and!; [|intros []|]); simpl; bools; repeat case_match; simpl; try lia.
  all: try (intros Hg Hor; exfalso; naive_solver).
  all: try (intros Hg _; f_equal; unfold growth_remaining; rewrite Hg; lia).
  all: intros Hg _; unfold continuation_growth, growth_remaining in Ec; rewrite Hg in Ec; simpl in Ec;
    simplify_eq; f_equal; lia.
Qed.

Lemma growth_cost_within_bound_witness :
  cost_ok (growth_cost 0 "ram" 100 RESTORE "r" (Some (mkSample 30 20 90 40 0))) = true.
Proof. apply growth_cost_within_bound; [lia|repeat split; by vm_compute]. Defined.
