(* ===== verification/DiskClaims.v ===== *)
(** * Physical disk claims and hibernation reservations
    (ucloud_sandboxes/disk_claims.py, the reservation arithmetic of hibernation.py
    and requested_resources of sandbox.py)

    Sizes are in bytes or MiB as in the code; Python's [//] and [%] with a
    positive divisor are [Z.div] and [Z.modulo]. *)
From S2P Require Import Prelude PyFloat Resources.
Local Open Scope Z_scope.

Definition DC_MIB : Z := 1024 ^ 2.
Definition IDLE_MEMORY_CLAIM_MB : Z := 64.
Definition CAPTURE_OVERHEAD_MB : Z := 64.
Definition CAPTURE_SETTLE_SLACK_MB : Z := 1.
Definition MIN_WORKSPACE_GRANT_MB : Z := 512.
Definition GROWTH_MIN_FREE_MB : Z := 256.
Definition GROWTH_MIN_STEP_MB : Z := 512.
Definition HIBERNATION_ALLOCATOR_CHUNK_MB : Z := 1024.
Definition HIBERNATION_FIXED_OVERHEAD_MB : Z := 64.

(** [-(-a // b)], the ceiling of a quotient. *)
Definition neg_floor_div (a b : Z) : Z := - (- a / b).

Definition validate_nonnegative_int (label : string) (value : Z) : res Z :=
  raise_if (value <? 0) (ValueError (label +:+ " must be a non-negative integer")) (Ok value).

Definition validate_positive_int (label : string) (value : Z) : res Z :=
  (let! v := validate_nonnegative_int label value in
   raise_if (v =? 0) (ValueError (label +:+ " must be positive")) (Ok v))%py.

Definition hibernation_memory_backing_reservation_mb (memory_mb allocator_chunk_mb : Z) : res Z :=
  (let! memory_mb := validate_positive_int "memory_mb" memory_mb in
   let! chunk := validate_positive_int "allocator_chunk_mb" allocator_chunk_mb in
   Ok ((memory_mb / chunk + 1) * chunk))%py.

Record HibernationDiskReservation := mkReservation {
  hr_workspace_mb : Z;
  hr_memory_backing_mb : Z;
  hr_private_checkpoint_mb : Z;
  hr_overhead_mb : Z
}.

(** [__post_init__] *)
Definition reservation_init (w m p o : Z) : res HibernationDiskReservation :=
  (let! w := validate_positive_int "workspace_mb" w in
   let! m := validate_positive_int "memory_backing_mb" m in
   let! p := validate_nonnegative_int "private_checkpoint_mb" p in
   let! o := validate_nonnegative_int "overhead_mb" o in
   Ok (mkReservation w m p o))%py.

Definition reservation_total_mb (r : HibernationDiskReservation) : Z :=
  hr_workspace_mb r + hr_memory_backing_mb r + hr_private_checkpoint_mb r + hr_overhead_mb r.

Definition for_sandbox (memory_mb writable_disk_mb allocator_chunk_mb : Z)
    (private_pages_mb : option Z) (fixed_overhead_mb : Z) : res HibernationDiskReservation :=
  (let! memory_mb := validate_positive_int "memory_mb" memory_mb in
   let! writable_disk_mb := validate_positive_int "writable_disk_mb" writable_disk_mb in
   let! private_pages_mb :=
     validate_nonnegative_int "private_pages_mb" (default memory_mb private_pages_mb) in
   let! fixed_overhead_mb := validate_nonnegative_int "fixed_overhead_mb" fixed_overhead_mb in
   let! backing := hibernation_memory_backing_reservation_mb memory_mb allocator_chunk_mb in
   reservation_init writable_disk_mb backing private_pages_mb fixed_overhead_mb)%py.

Definition hibernation_disk_reservation_mb (memory_mb writable_disk_mb allocator_chunk_mb : Z)
    (private_pages_mb : option Z) (fixed_overhead_mb : Z) : res Z :=
  (let! r := for_sandbox memory_mb writable_disk_mb allocator_chunk_mb private_pages_mb
               fixed_overhead_mb in
   Ok (reservation_total_mb r))%py.

(** The fields of [SandboxSpec] the resource accounting reads. *)
Record SandboxSpec := mkSpec {
  spec_cpus : option float;
  spec_memory_mb : option Z;
  spec_disk_mb : option Z;
  parkable : bool
}.

Definition requested_resources (s : SandboxSpec) : res ResourceQuantity :=
  (let! disk :=
     if parkable s then
       match spec_memory_mb s, spec_disk_mb s with
       | Some m, Some d =>
           hibernation_disk_reservation_mb m d HIBERNATION_ALLOCATOR_CHUNK_MB None
             HIBERNATION_FIXED_OVERHEAD_MB
       | _, _ => Raise (ValueError "parkable sandbox resources require memory_mb and disk_mb")
       end
     else Ok (default 0 (spec_disk_mb s)) in
   Ok (mkRQ (default (of_int 0) (spec_cpus s)) (default 0 (spec_memory_mb s)) disk))%py.

(** direct_registry.py *)
Record DiskClaim := mkDiskClaim { dc_workspace_mb : Z; dc_memory_mb : Z }.

Definition disk_claim_init (w m : Z) : res DiskClaim :=
  raise_if ((w <? 0) || (m <? 0))
    (ValueError "disk claim components must be non-negative integers") (Ok (mkDiskClaim w m)).

Definition claim_total_mb (c : DiskClaim) : Z := dc_workspace_mb c + dc_memory_mb c.

Record DiskClaimPolicy := mkPolicy { workspace_grant_mb : Z; demonstrated_memory : bool }.

(** [__post_init__] *)
Definition policy_init (g : Z) (demonstrated : bool) : res DiskClaimPolicy :=
  raise_if (negb (g =? 0) && (g <? MIN_WORKSPACE_GRANT_MB))
    (ValueError "workspace grant must be 0 or at least 512 MiB") (Ok (mkPolicy g demonstrated)).

Definition enabled (p : DiskClaimPolicy) : bool :=
  negb (workspace_grant_mb p =? 0) || demonstrated_memory p.

Definition workspace_grant (p : DiskClaimPolicy) (s : SandboxSpec) : res Z :=
  match spec_disk_mb s with
  | None => Raise (AssertionError "spec.disk_mb is not None")
  | Some d => Ok ((if workspace_grant_mb p =? 0 then d else Z.min d (workspace_grant_mb p)) * DC_MIB)
  end.

Definition initial_claim (p : DiskClaimPolicy) (s : SandboxSpec) : res (option DiskClaim) :=
  if negb (enabled p) || negb (parkable s) then Ok None else
  match spec_disk_mb s with
  | None => Raise (AssertionError "spec.disk_mb is not None")
  | Some d =>
      (let! requested := requested_resources s in
       let! grant := workspace_grant p s in
       let! claim := disk_claim_init (grant / DC_MIB)
         (if demonstrated_memory p then IDLE_MEMORY_CLAIM_MB else disk_mb requested - d) in
       Ok (Some claim))%py
  end.

(** The two figures of [advertised]. *)
Definition advertised (p : DiskClaimPolicy) : Z * Z :=
  (workspace_grant_mb p, if demonstrated_memory p then IDLE_MEMORY_CLAIM_MB else 0).

Definition capture_claim_mb (base_bytes filestore_bytes : Z) : Z :=
  neg_floor_div (base_bytes + filestore_bytes) DC_MIB + CAPTURE_OVERHEAD_MB.

Definition settled_claim_mb (allocated_bytes : Z) : Z :=
  neg_floor_div allocated_bytes DC_MIB + CAPTURE_SETTLE_SLACK_MB.

Definition next_grant (granted free ceiling : Z) : option Z :=
  if ceiling <=? granted then None
  else if Z.max (GROWTH_MIN_FREE_MB * DC_MIB) (granted / 4) <=? free then None
  else
    let step := Z.max (GROWTH_MIN_STEP_MB * DC_MIB) (granted / 2) in
    let target := Z.min ceiling (granted + step) in
    Some (target - target mod DC_MIB).

(** ** Properties *)

Lemma next_grant_step granted free ceiling g :
  (DC_MIB | granted) → (DC_MIB | ceiling) → 0 ≤ granted →
  next_grant granted free ceiling = Some g →
  (DC_MIB | g) ∧ granted < g ≤ ceiling ∧ (g < ceiling → granted + GROWTH_MIN_STEP_MB * DC_MIB ≤ g).
Proof.
  intros [a ->] [b ->] Hpos. unfold next_grant, GROWTH_MIN_STEP_MB, GROWTH_MIN_FREE_MB.
  destruct (b * DC_MIB <=? a * DC_MIB) eqn:Ec; [done|]. destruct (_ <=? free); [done|].
  intros [= <-]. bools.
  set (half := a * DC_MIB / 2). assert (0 ≤ half) by (apply Z.div_pos; lia).
  set (target := Z.min _ _). pose proof (Z.mod_pos_bound target DC_MIB ltac:(done)) as Hm.
  assert (DC_MIB | target - target mod DC_MIB) as Hd.
  { exists (target / DC_MIB). rewrite (Z.mod_eq target DC_MIB) by done. lia. }
  split; [done|]. destruct Hd as [k Hk]. unfold target in *. unfold DC_MIB in *. lia.
Qed.

(** A run of growths toward a fixed ceiling, at whatever free space each probe
    saw. *)
Inductive growth_run (ceiling : Z) : Z → list Z → Prop :=
| growth_done g : growth_run ceiling g []
| growth_more g free g' gs :
    next_grant g free ceiling = Some g' → growth_run ceiling g' gs → growth_run ceiling g (g' :: gs).

(** Workspace growth makes progress and stops: from a MiB-aligned grant and
    ceiling every growth is aligned, strictly larger, within the ceiling, and at
    least 512 MiB unless it reaches the ceiling; so a workspace grows only
    boundedly often.  A full filesystem below its ceiling always grows. *)
Theorem workspace_growth_converges ceiling g gs :
  (DC_MIB | g) → (DC_MIB | ceiling) → 0 ≤ g → growth_run ceiling g gs →
  StronglySorted Z.lt (g :: gs) ∧ Forall (λ g', (DC_MIB | g') ∧ g' ≤ ceiling) gs ∧
  (g ≤ ceiling → (Z.of_nat (length gs) - 1) * (GROWTH_MIN_STEP_MB * DC_MIB) ≤ ceiling - g) ∧
  (g < ceiling → next_grant g 0 ceiling ≠ None).
Proof.
  intros Hg Hc Hpos Hrun. split_and!.
  4:{ intros Hlt. unfold next_grant. rewrite (proj2 (Z.leb_gt _ _)) by lia.
      by rewrite (proj2 (Z.leb_gt _ _)) by (unfold GROWTH_MIN_FREE_MB, DC_MIB; lia). }
  all: induction Hrun as [g|g free g' gs E Hrun IH]; [repeat constructor; unfold GROWTH_MIN_STEP_MB, DC_MIB; simpl; lia|].
  all: destruct (next_grant_step _ _ _ _ Hg Hc Hpos E) as (Ha & Hb & Hs); specialize (IH Ha ltac:(lia)).
  - constructor; [done|]. constructor; [lia|]. apply StronglySorted_inv in IH as [_ IH].
    eapply Forall_impl; [exact IH|]. simpl. lia.
  - constructor; [split; [done|lia]|done].
  - intros _. specialize (IH ltac:(lia)). destruct gs as [|g'' gs]; [simpl; lia|].
    inversion Hrun as [|? free' ? ? E' ?]; subst.
    assert (g' < ceiling).
    { unfold next_grant in E'. destruct (ceiling <=? g') eqn:El; [done|]. bools. lia. }
    specialize (Hs ltac:(lia)). unfold GROWTH_MIN_STEP_MB, DC_MIB in *. cbn [length] in *. lia.
Qed.

Lemma workspace_growth_converges_witness :
  StronglySorted Z.lt [512 * DC_MIB; 1024 * DC_MIB; 1500 * DC_MIB].
Proof.
  apply (workspace_growth_converges (1500 * DC_MIB)); [by exists 512|by exists 1500|done|].
  repeat (eapply (growth_more _ _ 0); [reflexivity|]). constructor.
Defined.

Lemma neg_floor_div_bounds a : a ≤ neg_floor_div a DC_MIB * DC_MIB < a + DC_MIB.
Proof.
  unfold neg_floor_div. pose proof (Z.div_mod (- a) DC_MIB ltac:(done)).
  pose proof (Z.mod_pos_bound (- a) DC_MIB ltac:(done)). unfold DC_MIB in *. lia.
Qed.

(** The capture reservation is an upper bound, never an estimate: the space
    claimed at park admission covers the memory image, the filestore and the
    whole fixed overhead, wastes less than one MiB beyond that, and also covers
    settling any checkpoint that stays 1 MiB inside the overhead. *)
Theorem capture_claim_covers base filestore allocated :
  base + filestore + CAPTURE_OVERHEAD_MB * DC_MIB ≤ capture_claim_mb base filestore * DC_MIB
  < base + filestore + CAPTURE_OVERHEAD_MB * DC_MIB + DC_MIB ∧
  (allocated ≤ base + filestore + (CAPTURE_OVERHEAD_MB - CAPTURE_SETTLE_SLACK_MB) * DC_MIB →
   settled_claim_mb allocated ≤ capture_claim_mb base filestore).
Proof.
  unfold capture_claim_mb, settled_claim_mb, CAPTURE_OVERHEAD_MB, CAPTURE_SETTLE_SLACK_MB.
  pose proof (neg_floor_div_bounds (base + filestore)). pose proof (neg_floor_div_bounds allocated).
  unfold DC_MIB in *. lia.
Qed.

Lemma validate_positive_Ok label v : 0 < v → validate_positive_int label v = Ok v.
Proof.
  intros Hv. unfold validate_positive_int, validate_nonnegative_int.
  rewrite (proj2 (Z.ltb_ge _ _)) by lia. simpl. by rewrite (proj2 (Z.eqb_neq _ _)) by lia.
Qed.
Lemma validate_nonnegative_Ok label v : 0 ≤ v → validate_nonnegative_int label v = Ok v.
Proof. intros Hv. unfold validate_nonnegative_int. by rewrite (proj2 (Z.ltb_ge _ _)) by lia. Qed.

Lemma backing_covers m : 0 < m → m < (m / 1024 + 1) * 1024 ≤ m + 1024.
Proof.
  intros Hm. pose proof (Z.div_mod m 1024 ltac:(done)). pose proof (Z.mod_pos_bound m 1024 ltac:(done)). lia.
Qed.

Lemma requested_resources_parkable s m d :
  parkable s = true → spec_memory_mb s = Some m → spec_disk_mb s = Some d → 0 < m → 0 < d →
  ∃ r, requested_resources s = Ok r ∧ memory_mb r = m ∧
    disk_mb r = d + (m / 1024 + 1) * 1024 + m + HIBERNATION_FIXED_OVERHEAD_MB.
Proof.
  intros Hp Hm Hd Hm0 Hd0. pose proof (backing_covers m Hm0).
  unfold requested_resources, hibernation_disk_reservation_mb, for_sandbox,
    hibernation_memory_backing_reservation_mb, reservation_init,
    HIBERNATION_ALLOCATOR_CHUNK_MB, HIBERNATION_FIXED_OVERHEAD_MB.
  rewrite Hp, Hm, Hd. cbn [default from_option].
  repeat first [rewrite validate_positive_Ok by lia|rewrite validate_nonnegative_Ok by lia|cbn [res_bind]].
  eexists. done.
Qed.

(** A dynamic claim never starts above the reservation it replaces: under
    any valid policy that is enabled, every parkable sandbox gets a claim whose
    workspace is positive and within its disk limit and whose total is at most
    the disk the gateway reserved for it. *)
Theorem initial_claim_within_reservation g dem p s m d :
  policy_init g dem = Ok p → enabled p = true → parkable s = true →
  spec_memory_mb s = Some m → spec_disk_mb s = Some d → 0 < m → 0 < d →
  ∃ c r, initial_claim p s = Ok (Some c) ∧ requested_resources s = Ok r ∧
    0 < dc_workspace_mb c ≤ d ∧ 0 < dc_memory_mb c ∧ claim_total_mb c ≤ disk_mb r ∧
    workspace_grant p s = Ok (dc_workspace_mb c * DC_MIB).
Proof.
  intros Hp He Hpk Hm Hd Hm0 Hd0. unfold policy_init in Hp. bools. simplify_eq.
  destruct (requested_resources_parkable s m d) as (r & Hr & _ & Hrd); try done.
  pose proof (backing_covers m Hm0). unfold initial_claim. rewrite He, Hpk, Hd, Hr. simpl.
  unfold workspace_grant. rewrite Hd. simpl. set (w := if g =? 0 then d else Z.min d g).
  assert (0 < w ≤ d) as Hw.
  { unfold w. apply andb_false_iff in H. unfold MIN_WORKSPACE_GRANT_MB in H.
    destruct (g =? 0) eqn:Eg; [lia|]. destruct H; bools; simpl in *; [done|lia]. }
  rewrite Z.div_mul by done. set (mm := if dem then _ else _).
  assert (0 < mm ∧ w + mm ≤ disk_mb r) as [Hmm Ht].
  { unfold mm, IDLE_MEMORY_CLAIM_MB. unfold HIBERNATION_FIXED_OVERHEAD_MB in Hrd. destruct dem; lia. }
  unfold disk_claim_init. rewrite !(proj2 (Z.ltb_ge _ _)) by lia. simpl.
  eexists _, r. split_and!; try done; simpl; try lia.
Qed.

Lemma initial_claim_within_reservation_witness :
  ∃ c r, initial_claim (mkPolicy 512 true) (mkSpec (Some (of_int 1)) (Some 2048) (Some 4096) true)
         = Ok (Some c) ∧
    requested_resources (mkSpec (Some (of_int 1)) (Some 2048) (Some 4096) true) = Ok r ∧
    0 < dc_workspace_mb c ≤ 4096 ∧ 0 < dc_memory_mb c ∧ claim_total_mb c ≤ disk_mb r ∧
    workspace_grant (mkPolicy 512 true) (mkSpec (Some (of_int 1)) (Some 2048) (Some 4096) true)
    = Ok (dc_workspace_mb c * DC_MIB).
Proof.
  by apply (initial_claim_within_reservation 512 true (mkPolicy 512 true)
    (mkSpec (Some (of_int 1)) (Some 2048) (Some 4096) true) 2048 4096).
Defined.
