(* ===== verification/SingleFlight.v ===== *)
(** * The generation-fenced single-flight cache
    (ucloud_sandboxes/singleflight_cache.py)

    One definition per critical section of [GenerationFencedSingleFlightCache];
    [sf_step] interleaves any number of threads running [get_or_load] and
    [invalidate].  An [Event] is a number; the events set so far are a set. *)
From S2P Require Import Prelude PyFloat.
Local Open Scope Z_scope.

Section cache.
Context {V : Type}.

Record cache := mkCache {
  ttl_seconds : float;
  cached : bool;
  value : option V;
  loaded_at : float;
  loaded_ttl_seconds : float;
  generation : Z;
  loading : option nat
}.

Definition valid_ttl_seconds (v : float) : res float :=
  raise_if (negb (isfinite v) || fltb v (of_int 0))
    (ValueError "cache TTL must be non-negative and finite") (Ok v).

Definition cache_init (ttl : float) : res cache :=
  (let! ttl := valid_ttl_seconds ttl in
   Ok (mkCache ttl false None (of_int 0) ttl 0 None))%py.

(** [clock] is the reading of the cache's clock. *)
Definition is_fresh_locked (clock : float) (c : cache) : bool :=
  if negb (cached c) then false
  else let age := fsub clock (loaded_at c) in
       fleb (of_int 0) age && fleb age (loaded_ttl_seconds c).

Inductive lookup :=
| Hit (v : option V)
| Lead (ev : nat) (gen : Z)
| Join (ev : nat).

(** The lock section of one round of [get_or_load]; [ev] is the [Event] created
    if this caller becomes the loader. *)
Definition get_enter (clock : float) (ev : nat) (c : cache) : lookup * cache :=
  if is_fresh_locked clock c then (Hit (value c), c)
  else match loading c with
       | None =>
           (Lead ev (generation c),
            mkCache (ttl_seconds c) (cached c) (value c) (loaded_at c) (loaded_ttl_seconds c)
              (generation c) (Some ev))
       | Some ev' => (Join ev', c)
       end.

(** [_complete_loading_locked], the state part; the caller also sets [ev]. *)
Definition complete_loading_locked (ev : nat) (c : cache) : cache :=
  mkCache (ttl_seconds c) (cached c) (value c) (loaded_at c) (loaded_ttl_seconds c) (generation c)
    (if bool_decide (loading c = Some ev) then None else loading c).

(** The TTL of a loaded value. *)
Definition loaded_ttl (ttl_for : option (V → float)) (c : cache) (v : V) : res float :=
  match ttl_for with None => Ok (ttl_seconds c) | Some f => valid_ttl_seconds (f v) end.

(** The lock section after a successful load. *)
Definition publish (ev : nat) (gen : Z) (v : V) (at_ ttl : float) (c : cache) : cache :=
  let c :=
    if generation c =? gen
    then mkCache (ttl_seconds c) true (Some v) at_ ttl (generation c) (loading c)
    else c in
  complete_loading_locked ev c.

Definition finish_load (ev : nat) (c : cache) : cache := complete_loading_locked ev c.

(** The lock section of [invalidate], with the event to set after it. *)
Definition invalidate (c : cache) : cache * option nat :=
  (mkCache (ttl_seconds c) false None (of_int 0) (ttl_seconds c) (generation c + 1) None, loading c).

(** ** Interleavings *)

(** Where a thread is: loading with its event and captured generation, waiting
    for an event, or about to set the event [invalidate] took. *)
Inductive sf_pc :=
| Leading (ev : nat) (gen : Z)
| Joining (ev : nat)
| Signalling (ev : nat).

(** [sf_source] records, for the published value, the generation its load
    captured when it began. *)
Record sf_sys := mkSF {
  sf_cache : cache;
  sf_threads : gmap nat sf_pc;
  sf_used : gset nat;
  sf_set : gset nat;
  sf_source : option Z
}.

Inductive sf_step : sf_sys → sf_sys → Prop :=
| sf_hit clock ev i c ts us st src v :
    ts !! i = None → get_enter clock ev c = (Hit v, c) →
    sf_step (mkSF c ts us st src) (mkSF c ts us st src)
| sf_lead clock ev gen i c c' ts us st src :
    ts !! i = None → ev ∉ us → get_enter clock ev c = (Lead ev gen, c') →
    sf_step (mkSF c ts us st src) (mkSF c' (<[i:=Leading ev gen]> ts) ({[ev]} ∪ us) st src)
| sf_join clock ev ev' i c ts us st src :
    ts !! i = None → get_enter clock ev c = (Join ev', c) →
    sf_step (mkSF c ts us st src) (mkSF c (<[i:=Joining ev']> ts) us st src)
| sf_wake ev i c ts us st src :
    ts !! i = Some (Joining ev) → ev ∈ st →
    sf_step (mkSF c ts us st src) (mkSF c (delete i ts) us st src)
| sf_publish ttl_for ev gen v at_ ttl i c ts us st src :
    ts !! i = Some (Leading ev gen) → loaded_ttl ttl_for c v = Ok ttl →
    sf_step (mkSF c ts us st src)
      (mkSF (publish ev gen v at_ ttl c) (delete i ts) us ({[ev]} ∪ st)
         (if generation c =? gen then Some gen else src))
| sf_fail ev gen i c ts us st src :
    ts !! i = Some (Leading ev gen) →
    sf_step (mkSF c ts us st src) (mkSF (finish_load ev c) (delete i ts) us ({[ev]} ∪ st) src)
| sf_invalidate i c c' ts us st src oev :
    ts !! i = None → invalidate c = (c', oev) →
    sf_step (mkSF c ts us st src)
      (mkSF c' (match oev with Some ev => <[i:=Signalling ev]> ts | None => ts end) us st None)
| sf_signal ev i c ts us st src :
    ts !! i = Some (Signalling ev) →
    sf_step (mkSF c ts us st src) (mkSF c (delete i ts) us ({[ev]} ∪ st) src).

Definition sf_reachable (ttl : float) (σ : sf_sys) : Prop :=
  ∃ c, cache_init ttl = Ok c ∧ rtc sf_step (mkSF c ∅ ∅ ∅ None) σ.

Record sf_inv (σ : sf_sys) : Prop := {
  sfi_loading : ∀ ev, loading (sf_cache σ) = Some ev →
    ∃ i, sf_threads σ !! i = Some (Leading ev (generation (sf_cache σ)));
  sfi_gen : ∀ i ev gen, sf_threads σ !! i = Some (Leading ev gen) →
    gen ≤ generation (sf_cache σ) ∧ ev ∈ sf_used σ ∧
    (gen = generation (sf_cache σ) → loading (sf_cache σ) = Some ev);
  sfi_unique : ∀ i j ev ev' gen gen',
    sf_threads σ !! i = Some (Leading ev gen) → sf_threads σ !! j = Some (Leading ev' gen') →
    ev = ev' ∨ gen = gen' → i = j;
  sfi_joining : ∀ i ev, sf_threads σ !! i = Some (Joining ev) →
    ev ∈ sf_set σ ∨ ∃ j gen, sf_threads σ !! j = Some (Leading ev gen);
  sfi_source : cached (sf_cache σ) = true → sf_source σ = Some (generation (sf_cache σ))
}.

Lemma get_enter_lead clock ev c gen c' :
  get_enter clock ev c = (Lead ev gen, c') →
  loading c = None ∧ gen = generation c ∧ loading c' = Some ev ∧
  generation c' = generation c ∧ cached c' = cached c.
Proof. unfold get_enter. repeat case_match; intros; simplify_eq/=; done. Qed.

Lemma get_enter_join clock ev c ev' : get_enter clock ev c = (Join ev', c) → loading c = Some ev'.
Proof. unfold get_enter. repeat case_match; intros; simplify_eq/=; done. Qed.

Lemma inv_add_lead c c' ts us st src i ev :
  sf_inv (mkSF c ts us st src) → ts !! i = None → ev ∉ us → loading c = None →
  loading c' = Some ev → generation c' = generation c → cached c' = cached c →
  sf_inv (mkSF c' (<[i:=Leading ev (generation c)]> ts) ({[ev]} ∪ us) st src).
Proof.
  intros [Hl Hg Hu Hj Hs] Hi Hev Hn Hl' Hgen Hc. simpl in *. constructor; simpl; rewrite ?Hgen, ?Hc.
  - intros ev0 ?. simplify_eq. exists i. by rewrite lookup_insert_eq.
  - intros j ev0 gen Hj0. destruct (decide (i = j)) as [->|Hne].
    + rewrite lookup_insert_eq in Hj0. simplify_eq. split_and!; [lia|set_solver|done].
    + rewrite lookup_insert_ne in Hj0 by done. apply Hg in Hj0 as (? & ? & Hx).
      split_and!; [done|set_solver|]. intros E. rewrite Hx in Hn; done.
  - intros j k ev1 ev2 g1 g2. rewrite !lookup_insert_Some.
    intros [[<- ?]|[? Hj1]] [[<- ?]|[? Hk1]] Hor; simplify_eq; try done.
    + apply Hg in Hk1 as (? & ? & Hx). destruct Hor as [->| <-]; [done|]. rewrite Hx in Hn; done.
    + apply Hg in Hj1 as (? & ? & Hx). destruct Hor as [->| ->]; [done|]. rewrite Hx in Hn; done.
    + by eapply Hu.
  - intros j ev0 [[_ ?]|[_ Hj0]]%lookup_insert_Some; [done|].
    destruct (Hj _ _ Hj0) as [?|(k & g & Hk)]; [by left|]. right. exists k, g.
    rewrite lookup_insert_ne; [done|congruence].
  - done.
Qed.

(** A thread that is not loading comes, goes or changes without affecting the
    loaders; a joiner must find its event set or being loaded. *)
Lemma inv_other c ts ts' us st st' src :
  sf_inv (mkSF c ts us st src) → st ⊆ st' →
  (∀ j ev gen, ts' !! j = Some (Leading ev gen) ↔ ts !! j = Some (Leading ev gen)) →
  (∀ j ev, ts' !! j = Some (Joining ev) → ts !! j = Some (Joining ev) ∨ loading c = Some ev) →
  sf_inv (mkSF c ts' us st' src).
Proof.
  intros [Hl Hg Hu Hj Hs] Hst Hlead Hjoin. simpl in *. constructor; simpl; try done.
  - intros ev Hev. destruct (Hl ev Hev) as [i Hi]. exists i. by apply Hlead.
  - intros i ev gen Hi%Hlead. by apply (Hg i).
  - intros i j ev ev' g g' Hi%Hlead Hj'%Hlead. by apply (Hu i j ev ev' g g').
  - intros i ev Hi. setoid_rewrite Hlead. apply Hjoin in Hi as [Hi|Hi].
    + destruct (Hj _ _ Hi) as [?|?]; [left; set_solver|by right].
    + destruct (Hl ev Hi) as [k Hk]. right. eauto.
Qed.

(** A loader leaves, clearing the slot it owns and setting its event. *)
Lemma inv_leave c c' ts us st src src' i ev gen :
  sf_inv (mkSF c ts us st src) → ts !! i = Some (Leading ev gen) →
  loading c' = (if bool_decide (loading c = Some ev) then None else loading c) →
  generation c' = generation c → (cached c' = true → src' = Some (generation c)) →
  sf_inv (mkSF c' (delete i ts) us ({[ev]} ∪ st) src').
Proof.
  intros [Hl Hg Hu Hj Hs] Hi Hl' Hgen Hc. simpl in *. constructor; simpl; rewrite ?Hgen, ?Hl'.
  - intros ev0. case_bool_decide as E; [done|]. intros Hev. destruct (Hl ev0 Hev) as [k Hk].
    exists k. rewrite lookup_delete_ne; [done|]. intros <-. congruence.
  - intros j ev0 g [Hne Hj0]%lookup_delete_Some. destruct (Hg _ _ _ Hj0) as (? & ? & Hx).
    split_and!; [done|done|]. intros E. specialize (Hx E). case_bool_decide as Eb; [|done].
    exfalso. apply Hne. eapply (Hu i j); [done|done|]. left. congruence.
  - intros j k ev1 ev2 g1 g2 [_ ?]%lookup_delete_Some [_ ?]%lookup_delete_Some. by eapply Hu.
  - intros j ev0 [_ Hj0]%lookup_delete_Some. destruct (Hj _ _ Hj0) as [?|(k & g & Hk)]; [left; set_solver|].
    destruct (decide (k = i)) as [->|Hne]; [left; rewrite Hi in Hk; simplify_eq; set_solver|].
    right. exists k, g. by rewrite lookup_delete_ne.
  - done.
Qed.

Lemma inv_invalidate c c' ts us st src oev :
  sf_inv (mkSF c ts us st src) → invalidate c = (c', oev) → sf_inv (mkSF c' ts us st None).
Proof.
  intros [Hl Hg Hu Hj Hs] [= <- <-]. simpl in *. constructor; simpl; try done.
  intros i ev gen Hi. destruct (Hg _ _ _ Hi) as (? & ? & _). split_and!; [lia|done|lia].
Qed.

Lemma sf_step_inv σ σ' : sf_step σ σ' → sf_inv σ → sf_inv σ'.
Proof.
  destruct 1 as [clock ev i c ts us st src v Hi E|clock ev gen i c c' ts us st src Hi Hev E
    |clock ev ev' i c ts us st src Hi E|ev i c ts us st src Hi Hev
    |ttl_for ev gen v at_ ttl i c ts us st src Hi E|ev gen i c ts us st src Hi
    |i c c' ts us st src oev Hi E|ev i c ts us st src Hi]; intros Hinv.
  - done.
  - apply get_enter_lead in E as (? & -> & ? & ? & ?). by eapply inv_add_lead.
  - apply get_enter_join in E. eapply inv_other; [done|done|..].
    + intros j ev0 gen. rewrite lookup_insert_Some. split; [naive_solver|]. right. split; [congruence|done].
    + intros j ev0 [[_ ?]|[_ ?]]%lookup_insert_Some; [simplify_eq; by right|by left].
  - eapply inv_other; [done|done|..].
    + intros j ev0 gen. rewrite lookup_delete_Some. naive_solver.
    + intros j ev0 [_ ?]%lookup_delete_Some. by left.
  - eapply inv_leave; [done|done|..]; unfold publish; case_match; simpl; try done; bools.
    + intros _. congruence.
    + intros Hc. by apply (sfi_source _ Hinv).
  - eapply inv_leave; [done|done|done|done|]. apply (sfi_source _ Hinv).
  - pose proof (inv_invalidate _ _ _ _ _ _ _ Hinv E) as Hinv'. destruct oev as [ev|]; [|done].
    eapply inv_other; [done|done|..].
    + intros j ev0 gen. rewrite lookup_insert_Some. split; [naive_solver|]. right. split; [congruence|done].
    + intros j ev0 [[_ ?]|[_ ?]]%lookup_insert_Some; [done|by left].
  - eapply inv_other; [done|set_solver|..].
    + intros j ev0 gen. rewrite lookup_delete_Some. naive_solver.
    + intros j ev0 [_ ?]%lookup_delete_Some. by left.
Qed.

Lemma sf_reachable_inv ttl σ : sf_reachable ttl σ → sf_inv σ.
Proof.
  intros (c & E & Hsteps). unfold cache_init in E. bools. simplify_eq.
  assert (sf_inv (mkSF (mkCache x false None (of_int 0) x 0 None) ∅ ∅ ∅ None)) as H0.
  { constructor; simpl; try done. }
  induction Hsteps; eauto using sf_step_inv.
Qed.

(** C25. The cache is generation-fenced and single-flight over every
    interleaving: a cached value always comes from a load that began after the
    latest invalidation, a load fenced by an invalidation publishes nothing, at
    most one thread loads for a generation, and no waiter is lost: its event is
    set, or a loader that will set it is running. *)
Theorem singleflight_fenced ttl σ :
  sf_reachable ttl σ →
  (cached (sf_cache σ) = true → sf_source σ = Some (generation (sf_cache σ))) ∧
  (∀ ev gen v at_ t, gen ≠ generation (sf_cache σ) →
     let c' := publish ev gen v at_ t (sf_cache σ) in
     cached c' = cached (sf_cache σ) ∧ value c' = value (sf_cache σ)) ∧
  (∀ i j ev ev' gen, sf_threads σ !! i = Some (Leading ev gen) →
     sf_threads σ !! j = Some (Leading ev' gen) → i = j) ∧
  (∀ i ev, sf_threads σ !! i = Some (Joining ev) →
     ev ∈ sf_set σ ∨ ∃ j gen, sf_threads σ !! j = Some (Leading ev gen)).
Proof.
  intros [Hl Hg Hu Hj Hs]%sf_reachable_inv. split_and!; try done.
  - intros ev gen v at_ t Hne. unfold publish. by rewrite (proj2 (Z.eqb_neq _ _)) by congruence.
  - intros i j ev ev' gen Hi Hj'. eapply Hu; [done|done|by right].
Qed.
End cache.
Arguments cache : clear implicits.
Arguments sf_sys : clear implicits.

Definition demo_flight : sf_sys Z :=
  mkSF (mkCache (of_int 5) true (Some 42) (of_int 1) (of_int 5) 1 None) ∅ {[1%nat; 0%nat]}
    {[1%nat; 0%nat]} (Some 1).

Lemma singleflight_fenced_witness : sf_source demo_flight = Some (generation (sf_cache demo_flight)).
Proof.
  refine (proj1 (singleflight_fenced (of_int 5) demo_flight _) eq_refl).
  eexists. split; [reflexivity|].
  eapply rtc_l; [eapply (sf_lead (of_int 0) 0 0 7); [done|set_solver|reflexivity]|].
  eapply rtc_l; [eapply (sf_invalidate 8); [done|reflexivity]|].
  eapply rtc_l; [eapply (sf_signal 0 8); [done]|].
  eapply rtc_l; [eapply (sf_publish None 0 0 41 (of_int 0) (of_int 5) 7); [done|reflexivity]|].
  eapply rtc_l; [eapply (sf_lead (of_int 0) 1 1 7); [done|set_solver|reflexivity]|].
  eapply rtc_l; [eapply (sf_publish None 1 1 42 (of_int 1) (of_int 5) 7); [done|reflexivity]|].
  match goal with |- rtc _ ?a ?b => assert (a = b) as -> by (vm_compute; reflexivity) end.
  apply rtc_refl.
Defined.
