(* ===== verification/Bytes.v ===== *)
(** * Bytes, little-endian struct fields, fixed-size records and hex digests

    The parts of Python's [struct], [bytes] and [sorted] the binary formats use.
    A [bytes] value is a list of [Byte.byte]; a struct field is packed by [pack_uint]
    (which raises outside the field's range, as [struct.pack] does) and read by
    [un_le]. *)
From S2P Require Import Prelude.
From Stdlib Require Import Strings.Byte Ascii NArith.
Local Open Scope Z_scope.

Abbreviation bytes := (list Byte.byte).

#[export] Instance byte_eq_dec : EqDecision Byte.byte := Byte.byte_eq_dec.

Definition b2z (b : Byte.byte) : Z := Z.of_N (Byte.to_N b).
Definition z2b (z : Z) : Byte.byte := default Byte.x00 (Byte.of_N (Z.to_N (z mod 256))).

Lemma b2z_range b : 0 ≤ b2z b < 256.
Proof. unfold b2z. pose proof (Byte.to_N_bounded b). lia. Qed.
Lemma z2b_b2z b : z2b (b2z b) = b.
Proof.
  unfold z2b. rewrite Z.mod_small by apply b2z_range. unfold b2z. rewrite N2Z.id.
  by rewrite Byte.of_to_N.
Qed.
Lemma b2z_z2b z : b2z (z2b z) = z mod 256.
Proof.
  unfold z2b, b2z. pose proof (Z.mod_pos_bound z 256 ltac:(lia)).
  destruct (Byte.of_N (Z.to_N (z mod 256))) as [b|] eqn:E; simpl.
  - apply Byte.to_of_N in E. rewrite E. lia.
  - apply Byte.of_N_None_iff in E. lia.
Qed.

(** ** Little-endian integers *)

Fixpoint le (n : nat) (v : Z) : bytes :=
  match n with O => [] | S n => z2b v :: le n (v / 256) end.

Fixpoint un_le (bs : bytes) : Z :=
  match bs with [] => 0 | b :: bs => b2z b + 256 * un_le bs end.

Lemma le_length n v : length (le n v) = n.
Proof. revert v. induction n; intros; simpl; [done|]. by rewrite IHn. Qed.
Lemma un_le_range bs : 0 ≤ un_le bs < 256 ^ Z.of_nat (length bs).
Proof.
  induction bs as [|b bs IH]; [simpl; lia|]. cbn [un_le length].
  pose proof (b2z_range b). rewrite Nat2Z.inj_succ, Z.pow_succ_r by lia. lia.
Qed.
Lemma un_le_le n v : 0 ≤ v < 256 ^ Z.of_nat n → un_le (le n v) = v.
Proof.
  revert v. induction n as [|n IH]; intros v Hv; [simpl in *; lia|]. cbn [le un_le].
  rewrite Nat2Z.inj_succ, Z.pow_succ_r in Hv by lia. rewrite b2z_z2b, IH.
  - pose proof (Z.div_mod v 256). lia.
  - split; [apply Z.div_pos; lia|]. apply Z.div_lt_upper_bound; lia.
Qed.
Lemma le_un_le bs : le (length bs) (un_le bs) = bs.
Proof.
  induction bs as [|b bs IH]; [done|]. cbn [un_le length le]. pose proof (b2z_range b).
  f_equal.
  - unfold z2b. replace ((b2z b + 256 * un_le bs) mod 256) with (b2z b mod 256).
    + apply z2b_b2z.
    + rewrite Z.mul_comm, Z.mod_add by lia. done.
  - rewrite Z.mul_comm, Z.div_add, Z.div_small by lia. exact IH.
Qed.

(** [struct.pack] of an unsigned field of [n] bytes. *)
Definition pack_uint (n : nat) (v : Z) : res bytes :=
  raise_if (negb ((0 <=? v) && (v <? 256 ^ Z.of_nat n)))
    (StructError "argument out of range") (Ok (le n v)).

Lemma pack_uint_Ok n v bs :
  pack_uint n v = Ok bs → length bs = n ∧ un_le bs = v ∧ 0 ≤ v < 256 ^ Z.of_nat n.
Proof.
  unfold pack_uint. intros H. bools. simplify_eq.
  split_and!; [apply le_length|by apply un_le_le; lia|lia|lia].
Qed.

(** [struct.pack] of an [ns] field: truncated or padded with zero bytes. *)
Definition pack_bytes (n : nat) (bs : bytes) : bytes :=
  take n bs ++ replicate (n - length bs) Byte.x00.

Lemma pack_bytes_exact bs n : length bs = n → pack_bytes n bs = bs.
Proof. intros <-. unfold pack_bytes. by rewrite firstn_all, Nat.sub_diag, app_nil_r. Qed.
Lemma pack_bytes_length bs n : length (pack_bytes n bs) = n.
Proof. unfold pack_bytes. rewrite length_app, length_take, length_replicate. lia. Qed.

(** [data[a:b]] for [0 <= a]; indices past the end are clamped. *)
Definition slice (a b : Z) (bs : bytes) : bytes :=
  take (Z.to_nat (b - a)) (drop (Z.to_nat a) bs).

Definition blen (bs : bytes) : Z := Z.of_nat (length bs).

(** ** Fixed-size records *)

(** [Struct.iter_unpack] of a buffer whose length is a multiple of [size]. *)
Fixpoint iter_unpack {A} (fuel size : nat) (f : bytes → A) (bs : bytes) : list A :=
  match fuel, bs with
  | S fuel, _ :: _ => f (take size bs) :: iter_unpack fuel size f (drop size bs)
  | _, _ => []
  end.

Definition unpack_records {A} (size : nat) (f : bytes → A) (bs : bytes) : list A :=
  iter_unpack (length bs) size f bs.

Lemma iter_unpack_concat {A} size (f : bytes → A) recs fuel :
  (0 < size)%nat → Forall (λ r, length r = size) recs → (length recs ≤ fuel)%nat →
  iter_unpack fuel size f (concat recs) = f <$> recs.
Proof.
  intros Hs Hr. revert fuel. induction Hr as [|r recs Hr _ IH]; intros fuel Hf; csimpl in *.
  { by destruct fuel. }
  destruct fuel as [|fuel]; [lia|].
  destruct (r ++ concat recs) as [|b bs] eqn:E.
  { apply app_eq_nil in E as [-> _]. simpl in Hr. lia. }
  cbn [iter_unpack]. rewrite <-E, <-Hr, take_app_length, drop_app_length.
  f_equal. rewrite Hr. apply IH. lia.
Qed.

Lemma concat_length_fixed size (recs : list bytes) :
  Forall (λ r, length r = size) recs → length (concat recs) = (length recs * size)%nat.
Proof. induction 1 as [|r recs Hr _ IH]; simpl; [done|]. rewrite length_app. lia. Qed.

Lemma unpack_concat {A} size (f : bytes → A) recs :
  (0 < size)%nat → Forall (λ r, length r = size) recs →
  unpack_records size f (concat recs) = f <$> recs.
Proof.
  intros Hs Hr. apply iter_unpack_concat; [done|done|].
  rewrite (concat_length_fixed size) by done. nia.
Qed.

Lemma iter_unpack_length {A} size (f : bytes → A) n fuel bs :
  (0 < size)%nat → (n ≤ fuel)%nat → length bs = (n * size)%nat →
  length (iter_unpack fuel size f bs) = n.
Proof.
  intros Hs. revert fuel bs. induction n as [|n IH]; intros fuel bs Hf Hb.
  - destruct bs; [|done]. by destruct fuel.
  - destruct fuel as [|fuel]; [lia|]. destruct bs as [|b bs]; [simpl in Hb; lia|].
    cbn [iter_unpack length]. rewrite IH; [done|lia|]. rewrite length_drop. lia.
Qed.

(** Packing a list of records, where each may raise. *)
Fixpoint pack_all {A} (f : A → res bytes) (l : list A) : res (list bytes) :=
  match l with
  | [] => Ok []
  | x :: l => (let! b := f x in let! bs := pack_all f l in Ok (b :: bs))%py
  end.

Lemma pack_all_Ok {A} (f : A → res bytes) l bss :
  pack_all f l = Ok bss ↔ Forall2 (λ x b, f x = Ok b) l bss.
Proof.
  revert bss. induction l as [|x l IH]; intros bss; simpl.
  - split; [intros [= <-]; constructor|by inversion 1].
  - rewrite res_bind_Ok. setoid_rewrite res_bind_Ok. setoid_rewrite IH. split.
    + intros (b & Hb & bs & Hbs & [= <-]). by constructor.
    + inversion 1; subst. eauto 10.
Qed.

(** ** Hex digests *)

Definition hex_digits : list ascii := String.list_ascii_of_string "0123456789abcdef".
Definition digit (d : Z) : ascii := nth (Z.to_nat d) hex_digits "0"%char.
Definition nibble (c : ascii) : option Z :=
  Z.of_nat <$> (fst <$> list_find (λ x, x = c) hex_digits).

Definition hex_byte (b : Byte.byte) : list ascii := [digit (b2z b / 16); digit (b2z b mod 16)].

(** [bytes.hex()] *)
Definition hex_of (bs : bytes) : string := String.string_of_list_ascii (concat (hex_byte <$> bs)).

(** [bytes.fromhex] on a string that passed [require_hex]. *)
Fixpoint from_hex_chars (cs : list ascii) : res bytes :=
  match cs with
  | [] => Ok []
  | h :: l :: cs =>
      match nibble h, nibble l with
      | Some a, Some b => (let! bs := from_hex_chars cs in Ok (z2b (a * 16 + b) :: bs))%py
      | _, _ => Raise (ValueError "non-hexadecimal number found in fromhex() arg")
      end
  | _ => Raise (ValueError "non-hexadecimal number found in fromhex() arg")
  end.
Definition from_hex (s : string) : res bytes := from_hex_chars (String.list_ascii_of_string s).

(** [_HEX64.fullmatch] *)
Definition is_hex64 (s : string) : bool :=
  (String.length s =? 64)%nat
  && forallb (λ c, bool_decide (c ∈ hex_digits)) (String.list_ascii_of_string s).

Lemma nibble_digit d : 0 ≤ d < 16 → nibble (digit d) = Some d.
Proof.
  intros Hd. assert (d ∈ [0;1;2;3;4;5;6;7;8;9;10;11;12;13;14;15]) as Hin.
  { rewrite <-(Z2Nat.id d) by lia. assert (Z.to_nat d < 16)%nat as Hn by lia. revert Hn.
    generalize (Z.to_nat d). intros n Hn. do 16 (destruct n as [|n]; [set_solver|]). lia. }
  repeat (apply elem_of_cons in Hin as [->|Hin]; [by vm_compute|]). by apply elem_of_nil in Hin.
Qed.

Lemma digit_hex d : 0 ≤ d < 16 → digit d ∈ hex_digits.
Proof.
  intros Hd. unfold digit. apply list_elem_of_In, nth_In. change (length hex_digits) with 16%nat. lia.
Qed.

Lemma nibble_hex c : c ∈ hex_digits → ∃ d, nibble c = Some d ∧ 0 ≤ d < 16 ∧ digit d = c.
Proof.
  intros Hc. assert (∃ d, 0 ≤ d < 16 ∧ digit d = c) as (d & Hd & <-).
  { apply list_elem_of_In in Hc. eapply In_nth in Hc as (n & Hn & <-).
    change (length hex_digits) with 16%nat in Hn. exists (Z.of_nat n).
    unfold digit. rewrite Nat2Z.id. split; [lia|done]. }
  exists d. by rewrite nibble_digit.
Qed.

Lemma from_hex_concat bs : from_hex_chars (concat (hex_byte <$> bs)) = Ok bs.
Proof.
  induction bs as [|b bs IH]; [done|]. csimpl. pose proof (b2z_range b).
  pose proof (Z.mod_pos_bound (b2z b) 16 ltac:(lia)).
  rewrite !nibble_digit by (split; [try apply Z.div_pos; lia|try apply Z.div_lt_upper_bound; lia]).
  rewrite IH. simpl. do 2 f_equal.
  rewrite <-(z2b_b2z b) at 3. f_equal. pose proof (Z.div_mod (b2z b) 16). lia.
Qed.

Lemma from_hex_of bs : from_hex (hex_of bs) = Ok bs.
Proof. unfold from_hex, hex_of. rewrite String.list_ascii_of_string_of_list_ascii. apply from_hex_concat. Qed.

Lemma from_hex_chars_inv n cs :
  length cs = (2 * n)%nat → Forall (λ c, c ∈ hex_digits) cs →
  ∃ bs, from_hex_chars cs = Ok bs ∧ length bs = n ∧ concat (hex_byte <$> bs) = cs.
Proof.
  revert cs. induction n as [|n IH]; intros cs Hl Hcs.
  { destruct cs; [|done]. by exists []. }
  destruct cs as [|h [|l cs]]; [simpl in Hl; lia|simpl in Hl; lia|].
  apply Forall_cons in Hcs as [Hh [Hlow Hcs]%Forall_cons].
  destruct (nibble_hex h Hh) as (a & Ha & Har & Hda), (nibble_hex l Hlow) as (b & Hb & Hbr & Hdb).
  destruct (IH cs) as (bs & E & Hlen & Hc); [simpl in Hl; lia|done|].
  exists (z2b (a * 16 + b) :: bs). cbn [from_hex_chars]. rewrite Ha, Hb, E. csimpl.
  split_and!; [done|by rewrite Hlen|]. rewrite Hc. unfold hex_byte. rewrite b2z_z2b.
  rewrite (Z.mod_small (a * 16 + b)) by lia.
  replace ((a * 16 + b) / 16) with a by (apply (Z.div_unique _ 16 a b); lia).
  replace ((a * 16 + b) mod 16) with b by (apply (Z.mod_unique _ 16 a b); lia).
  by rewrite Hda, Hdb.
Qed.

Lemma length_list_ascii s : length (String.list_ascii_of_string s) = String.length s.
Proof. induction s as [|c s IH]; simpl; [done|]. by rewrite IH. Qed.

Lemma is_hex64_inv s :
  is_hex64 s = true → ∃ bs, from_hex s = Ok bs ∧ length bs = 32%nat ∧ hex_of bs = s.
Proof.
  unfold is_hex64. intros [Hl%Nat.eqb_eq Hall]%andb_true_iff.
  destruct (from_hex_chars_inv 32 (String.list_ascii_of_string s)) as (bs & E & Hlen & Hc).
  - by rewrite length_list_ascii.
  - rewrite Forall_forall. intros c Hc. rewrite forallb_forall in Hall.
    by eapply bool_decide_eq_true, Hall, list_elem_of_In.
  - exists bs. split_and!; [done|done|]. unfold hex_of. rewrite Hc. apply String.string_of_list_ascii_of_string.
Qed.

Lemma concat_length_fixed_ascii bs : length (concat (hex_byte <$> bs)) = (2 * length bs)%nat.
Proof. induction bs as [|b bs IH]; csimpl; [done|]. rewrite IH. lia. Qed.

Lemma hex_of_hex64 bs : length bs = 32%nat → is_hex64 (hex_of bs) = true.
Proof.
  intros Hlen. unfold is_hex64, hex_of.
  rewrite <-length_list_ascii, String.list_ascii_of_string_of_list_ascii. apply andb_true_iff. split.
  - apply Nat.eqb_eq. rewrite (concat_length_fixed_ascii bs). lia.
  - apply forallb_forall. intros c Hc%list_elem_of_In. apply bool_decide_eq_true.
    apply list_elem_of_In, in_concat in Hc as (w & Hw & Hc). apply list_elem_of_In, list_elem_of_fmap in Hw as (b & -> & _).
    pose proof (b2z_range b). pose proof (Z.mod_pos_bound (b2z b) 16 ltac:(lia)).
    destruct Hc as [<-|[<-|[]]]; apply digit_hex; [|lia].
    split; [apply Z.div_pos; lia|apply Z.div_lt_upper_bound; lia].
Qed.

(** ** Sorting: [sorted] is stable *)

Section sort.
Context {A : Type} (leb : A → A → bool).

Fixpoint insert_sorted (x : A) (l : list A) : list A :=
  match l with
  | [] => [x]
  | y :: l' => if leb x y then x :: l else y :: insert_sorted x l'
  end.
Definition sorted_by (l : list A) : list A := foldr insert_sorted [] l.

Lemma insert_sorted_perm x l : insert_sorted x l ≡ₚ x :: l.
Proof.
  induction l as [|y l IH]; simpl; [done|]. destruct (leb x y); [done|]. rewrite IH. by constructor.
Qed.
Lemma sorted_by_perm l : sorted_by l ≡ₚ l.
Proof. induction l as [|x l IH]; simpl; [done|]. by rewrite insert_sorted_perm, IH. Qed.

Hypothesis leb_total : ∀ x y, leb x y = true ∨ leb y x = true.
Hypothesis leb_trans : ∀ x y z, leb x y = true → leb y z = true → leb x z = true.

Lemma insert_sorted_sorted x l :
  StronglySorted (λ x y, leb x y = true) l → StronglySorted (λ x y, leb x y = true) (insert_sorted x l).
Proof.
  induction 1 as [|y l Hs IH Hy]; simpl; [repeat constructor|]. destruct (leb x y) eqn:E.
  - constructor; [by constructor|]. constructor; [done|].
    eapply Forall_impl; [exact Hy|]. simpl. eauto.
  - constructor; [done|]. rewrite insert_sorted_perm. constructor; [|done].
    destruct (leb_total x y); [congruence|done].
Qed.
Lemma sorted_by_sorted l : StronglySorted (λ x y, leb x y = true) (sorted_by l).
Proof. induction l; simpl; [constructor|by apply insert_sorted_sorted]. Qed.
End sort.

(** A strictly increasing list is determined by its elements. *)
Lemma strict_sorted_unique {A} (key : A → Z) l k :
  StronglySorted (λ x y, key x < key y) l → StronglySorted (λ x y, key x < key y) k →
  l ≡ₚ k → l = k.
Proof.
  intros Hl. revert k. induction Hl as [|x l Hl IH Hx]; intros k Hk Hp.
  { by apply Permutation_nil_l in Hp as <-. }
  destruct Hk as [|y k Hk Hy]; [by apply Permutation_nil_r in Hp|].
  assert (x = y) as <-.
  { assert (x ∈ y :: k) as Hin by (rewrite <-Hp; left). assert (y ∈ x :: l) as Hin' by (rewrite Hp; left).
    apply elem_of_cons in Hin as [?|Hin]; [done|]. apply elem_of_cons in Hin' as [?|Hin']; [done|].
    rewrite Forall_forall in Hx, Hy. specialize (Hx _ Hin'). specialize (Hy _ Hin). simpl in *. lia. }
  f_equal. apply IH; [done|]. by apply Permutation_cons_inv in Hp.
Qed.

(** ** Lexicographic order on bytes *)

Fixpoint bytes_leb (a b : bytes) : bool :=
  match a, b with
  | [], _ => true
  | _ :: _, [] => false
  | x :: a, y :: b => (b2z x <? b2z y) || ((b2z x =? b2z y) && bytes_leb a b)
  end.
Definition bytes_ltb (a b : bytes) : bool := negb (bytes_leb b a).

Lemma b2z_inj x y : b2z x = b2z y → x = y.
Proof. intros H. by rewrite <-(z2b_b2z x), <-(z2b_b2z y), H. Qed.
Lemma bytes_leb_total a b : bytes_leb a b = true ∨ bytes_leb b a = true.
Proof.
  revert b. induction a as [|x a IH]; intros [|y b]; simpl; auto.
  destruct (IH b), (Z.lt_trichotomy (b2z x) (b2z y)) as [?|[?|?]]; rewrite ?orb_true_iff, ?andb_true_iff,
    ?Z.ltb_lt, ?Z.eqb_eq; auto 6 with lia.
Qed.
Lemma bytes_leb_antisym a b : bytes_leb a b = true → bytes_leb b a = true → a = b.
Proof.
  revert b. induction a as [|x a IH]; intros [|y b]; simpl; try done.
  rewrite !orb_true_iff, !andb_true_iff, !Z.ltb_lt, !Z.eqb_eq.
  intros [?|[Hx Ha]] [?|[? Hb]]; try lia. f_equal; [by apply b2z_inj|by apply IH].
Qed.
Lemma bytes_leb_trans a b c : bytes_leb a b = true → bytes_leb b c = true → bytes_leb a c = true.
Proof.
  revert b c. induction a as [|x a IH]; intros [|y b] [|z c]; simpl; try done.
  rewrite !orb_true_iff, !andb_true_iff, !Z.ltb_lt, !Z.eqb_eq.
  intros [?|[? Ha]] [?|[? Hb]]; [left; lia|left; lia|left; lia|right]. split; [lia|by eapply IH].
Qed.

Lemma slice_mid (x y z : bytes) a b :
  blen x = a → b = a + blen y → slice a b (x ++ y ++ z) = y.
Proof.
  unfold slice, blen. intros <- ->. rewrite Nat2Z.id, drop_app_length.
  replace (Z.to_nat _) with (length y) by lia. by rewrite take_app_length.
Qed.
Lemma slice_last (x y : bytes) a b : blen x = a → b = a + blen y → slice a b (x ++ y) = y.
Proof. intros Hx Hy. rewrite <-(app_nil_r y) at 1. by apply slice_mid. Qed.
Lemma slice_length a b bs : 0 ≤ a ≤ b → b ≤ blen bs → blen (slice a b bs) = b - a.
Proof. unfold slice, blen. rewrite length_take, length_drop. lia. Qed.
Lemma blen_app x y : blen (x ++ y) = blen x + blen y.
Proof. unfold blen. rewrite length_app. lia. Qed.
Lemma blen_nonneg x : 0 ≤ blen x.
Proof. unfold blen. lia. Qed.

Lemma Forall2_fmap_inv {A B} (P : A → Prop) (R : A → B → Prop) (g : B → A) l k :
  Forall2 R l k → (∀ x y, R x y → P x → g y = x) → Forall P l → g <$> k = l.
Proof.
  induction 1 as [|x y l k HR _ IH]; intros Hg HP; [done|]. apply Forall_cons in HP as [Hx HP].
  csimpl. rewrite IH by done. f_equal. by apply Hg.
Qed.

(** ** Python's order on strings, character by character *)

Definition string_leb (s t : string) : bool :=
  bytes_leb (String.list_byte_of_string s) (String.list_byte_of_string t).
Definition string_ltb (s t : string) : bool := negb (string_leb t s).

Lemma string_leb_total s t : string_leb s t = true ∨ string_leb t s = true.
Proof. apply bytes_leb_total. Qed.
Lemma string_leb_trans s t u : string_leb s t = true → string_leb t u = true → string_leb s u = true.
Proof. apply bytes_leb_trans. Qed.
Lemma string_leb_antisym s t : string_leb s t = true → string_leb t s = true → s = t.
Proof.
  intros H1 H2. pose proof (bytes_leb_antisym _ _ H1 H2) as E.
  rewrite <- (String.string_of_list_byte_of_string s), <- (String.string_of_list_byte_of_string t).
  by rewrite E.
Qed.
Lemma string_ltb_irrefl s : string_ltb s s = false.
Proof. unfold string_ltb. destruct (string_leb_total s s) as [-> | ->]; done. Qed.
Lemma string_ltb_trans s t u : string_ltb s t = true → string_ltb t u = true → string_ltb s u = true.
Proof.
  unfold string_ltb. rewrite !negb_true_iff. intros H1 H2. apply not_true_iff_false. intros Hus.
  destruct (string_leb_total t u) as [H|H]; [|congruence].
  pose proof (string_leb_trans _ _ _ H Hus). congruence.
Qed.
