(* ===== verification/PyTime.v ===== *)
(** * Timestamps (ucloud_sandboxes/models.py, [parse_iso_datetime], and the part of
    Python's [datetime] it uses)

    Every durable record carries its times as the text [datetime.isoformat] writes,
    and SQL statements compare that text.  [isoformat_leb] shows that the order of
    the text is the order of time, and [parse_iso_fraction] that a timestamp written
    by Go (one to nine fractional digits, trailing zeros dropped) or by
    [isoformat] is read back as the same instant.  An instant is a count of
    microseconds; [fromisoformat] accepts Python 3.10's documented grammar, the
    oldest version the package supports. *)
From S2P Require Import Prelude PyString Bytes.
From Stdlib Require Import Ascii.
Local Open Scope py_scope.
Local Open Scope Z_scope.

Abbreviation chars := (list ascii).

(** ** The calendar *)

Record datetime := mkDatetime {
  dt_year : Z; dt_month : Z; dt_day : Z;
  dt_hour : Z; dt_minute : Z; dt_second : Z; dt_microsecond : Z
}.

Definition is_leap (y : Z) : bool :=
  (y mod 4 =? 0) && (negb (y mod 100 =? 0) || (y mod 400 =? 0)).
Definition days_in_month (y m : Z) : Z :=
  if m =? 2 then (if is_leap y then 29 else 28)
  else if bool_decide (m ∈ [4; 6; 9; 11]) then 30 else 31.
Definition days_before_year (y : Z) : Z :=
  let n := y - 1 in n * 365 + n / 4 - n / 100 + n / 400.
Fixpoint days_before_months (y : Z) (m : nat) : Z :=
  match m with
  | O => 0
  | S k => match k with O => 0 | S _ => days_before_months y k + days_in_month y (Z.of_nat k) end
  end.
Definition days_before_month (y m : Z) : Z := days_before_months y (Z.to_nat m).
Definition ordinal (d : datetime) : Z :=
  days_before_year (dt_year d) + days_before_month (dt_year d) (dt_month d) + dt_day d.
Definition to_us (d : datetime) : Z :=
  (((ordinal d * 24 + dt_hour d) * 60 + dt_minute d) * 60 + dt_second d) * 1000000 + dt_microsecond d.

(** The ranges [datetime(...)] checks *)
Definition datetime_valid (d : datetime) : bool :=
  (1 <=? dt_year d) && (dt_year d <=? 9999) && (1 <=? dt_month d) && (dt_month d <=? 12)
  && (1 <=? dt_day d) && (dt_day d <=? days_in_month (dt_year d) (dt_month d))
  && (0 <=? dt_hour d) && (dt_hour d <=? 23) && (0 <=? dt_minute d) && (dt_minute d <=? 59)
  && (0 <=? dt_second d) && (dt_second d <=? 59) && (0 <=? dt_microsecond d) && (dt_microsecond d <=? 999999).

Definition DAY_US : Z := 24 * 3600 * 1000000.
(** [datetime.min] and [datetime.max] *)
Definition MIN_US : Z := to_us (mkDatetime 1 1 1 0 0 0 0).
Definition MAX_US : Z := to_us (mkDatetime 9999 12 31 23 59 59 999999).

(** ** From an instant back to its fields *)

(** [_ord2ymd]: the date of day [n] of the calendar *)
Definition split_year (n : Z) : Z * Z :=
  let n := n - 1 in
  let '(n400, n) := (n / 146097, n mod 146097) in
  let '(n100, n) := (n / 36524, n mod 36524) in
  let '(n4, n) := (n / 1461, n mod 1461) in
  let '(n1, n) := (n / 365, n mod 365) in
  let year := n400 * 400 + 1 + n100 * 100 + n4 * 4 + n1 in
  if (n1 =? 4) || (n100 =? 4) then (year - 1, 365) else (year, n).
(** Month and day of the [n]th day of a year, from 0 *)
Definition split_month (leap : bool) (n : Z) : Z * Z :=
  let before m := days_before_month (if leap then 4 else 1) m in
  let month := Z.shiftr (n + 50) 5 in
  if n <? before month then (month - 1, n - before (month - 1) + 1) else (month, n - before month + 1).
Definition of_us (t : Z) : datetime :=
  let '(s, us) := (t / 1000000, t mod 1000000) in
  let '(m, s) := (s / 60, s mod 60) in
  let '(h, m) := (m / 60, m mod 60) in
  let '(n, h) := (h / 24, h mod 24) in
  let '(year, k) := split_year n in
  let '(month, day) := split_month (is_leap year) k in
  mkDatetime year month day h m s us.

(** ** Decimal fields *)

Definition digit_char (n : Z) : ascii := ascii_of_N (Z.to_N (48 + n)).
Definition digit_val (c : ascii) : option Z :=
  let n := Z.of_N (N_of_ascii c) in
  if (48 <=? n) && (n <=? 57) then Some (n - 48) else None.
Definition is_digit (c : ascii) : bool := match digit_val c with Some _ => true | None => false end.

(** [f"{n:0{w}d}"] *)
Fixpoint pad (w : nat) (n : Z) : chars :=
  match w with
  | O => []
  | S w => pad w (n / 10) ++ [digit_char (n mod 10)]
  end.

(** Exactly [w] digits *)
Fixpoint read_digits (w : nat) (acc : Z) (s : chars) : option (Z * chars) :=
  match w, s with
  | O, _ => Some (acc, s)
  | S w, c :: s => v ← digit_val c; read_digits w (acc * 10 + v) s
  | S _, [] => None
  end.
Definition expect (c : ascii) (s : chars) : option chars :=
  match s with x :: s => if bool_decide (x = c) then Some s else None | [] => None end.

(** ** [datetime.isoformat] of an aware UTC datetime *)

Definition iso_stamp (d : datetime) : chars :=
  pad 4 (dt_year d) ++ "-"%char :: pad 2 (dt_month d) ++ "-"%char :: pad 2 (dt_day d) ++ "T"%char ::
  pad 2 (dt_hour d) ++ ":"%char :: pad 2 (dt_minute d) ++ ":"%char :: pad 2 (dt_second d).
Definition UTC_SUFFIX : chars := ["+"; "0"; "0"; ":"; "0"; "0"]%char.
Definition isoformat (d : datetime) : string :=
  String.string_of_list_ascii
    (iso_stamp d ++ (if dt_microsecond d =? 0 then [] else "."%char :: pad 6 (dt_microsecond d)) ++ UTC_SUFFIX).
(** The text of an instant *)
Definition iso (t : Z) : string := isoformat (of_us t).

(** ** [datetime.fromisoformat] *)

Definition read_date (s : chars) : option (Z * Z * Z * chars) :=
  '(y, s) ← read_digits 4 0 s; s ← expect "-" s;
  '(m, s) ← read_digits 2 0 s; s ← expect "-" s;
  '(d, s) ← read_digits 2 0 s; Some (y, m, d, s).

(** Three or six fractional digits, nothing after them *)
Definition read_fraction (s : chars) : option Z :=
  match length s with
  | 3%nat => '(v, _) ← read_digits 3 0 s; Some (v * 1000)
  | 6%nat => '(v, _) ← read_digits 6 0 s; Some v
  | _ => None
  end.

(** [HH[:MM[:SS[.fff[fff]]]]] *)
Definition read_clock (s : chars) : option (Z * Z * Z * Z) :=
  '(h, s) ← read_digits 2 0 s;
  match s with
  | [] => Some (h, 0, 0, 0)
  | _ =>
      s ← expect ":" s; '(m, s) ← read_digits 2 0 s;
      match s with
      | [] => Some (h, m, 0, 0)
      | _ =>
          s ← expect ":" s; '(sec, s) ← read_digits 2 0 s;
          match s with
          | [] => Some (h, m, sec, 0)
          | _ => s ← expect "." s; us ← read_fraction s; Some (h, m, sec, us)
          end
      end
  end.

Definition is_sign (c : ascii) : bool := bool_decide (c = "+"%char) || bool_decide (c = "-"%char).
Fixpoint split_zone (s : chars) : chars * chars :=
  match s with
  | [] => ([], [])
  | c :: s' => if is_sign c then ([], s) else let '(a, z) := split_zone s' in (c :: a, z)
  end.

(** The offset of [timezone(...)], under a day in absolute value *)
Definition read_zone (s : chars) : option (option Z) :=
  match s with
  | [] => Some None
  | sign :: z =>
      if bool_decide (length z ∈ [5; 8; 15]%nat) then
        '(h, m, sec, us) ← read_clock z;
        let off := ((h * 60 + m) * 60 + sec) * 1000000 + us in
        if off <? DAY_US then Some (Some (if bool_decide (sign = "-"%char) then - off else off)) else None
      else None
  end.

(** The local datetime and its offset from UTC; [None] for a ValueError *)
Definition fromisoformat (s : chars) : option (datetime * option Z) :=
  '(y, m, d, rest) ← read_date s;
  '(clock, zone) ←
    match rest with
    | [] => Some ((0, 0, 0, 0), None)
    | _ :: t => let '(a, z) := split_zone t in clock ← read_clock a; zone ← read_zone z; Some (clock, zone)
    end;
  let '(h, mi, sec, us) := clock in
  let dt := mkDatetime y m d h mi sec us in
  if datetime_valid dt then Some (dt, zone) else None.

(** ** [parse_iso_datetime] *)

(** [[+-]\d{2}:\d{2}$|$], at the start of [s] *)
Definition at_zone (s : chars) : bool :=
  match s with
  | [] => true
  | [sign; a; b; colon; c; d] =>
      is_sign sign && is_digit a && is_digit b && bool_decide (colon = ":"%char) && is_digit c && is_digit d
  | _ => false
  end.
Fixpoint span_digits (s : chars) : chars * chars :=
  match s with
  | [] => ([], [])
  | c :: s' => if is_digit c then let '(a, z) := span_digits s' in (c :: a, z) else ([], s)
  end.
(** [digits[:6].ljust(6, "0")] *)
Definition six_digits (ds : chars) : chars := take 6 (ds ++ replicate 6 "0"%char).
(** The substitution of [re.sub] *)
Fixpoint normalize_fraction (s : chars) : chars :=
  match s with
  | [] => []
  | c :: s' =>
      if bool_decide (c = "."%char) then
        let '(ds, z) := span_digits s' in
        if (1 <=? length ds)%nat && (length ds <=? 9)%nat && at_zone z
        then c :: six_digits ds ++ z
        else c :: normalize_fraction s'
      else c :: normalize_fraction s'
  end.

(** [raw[:-1] + "+00:00"] for a final Z *)
Fixpoint expand_z (s : chars) : chars :=
  match s with
  | [] => []
  | [c] => if bool_decide (c = "Z"%char) then UTC_SUFFIX else [c]
  | c :: s => c :: expand_z s
  end.

(** The instant, in microseconds; [astimezone] raises when it leaves the range of
    [datetime]. *)
Definition parse_iso_datetime (value : string) : res (option Z) :=
  let raw := String.list_ascii_of_string (strip value) in
  match raw with
  | [] => Ok None
  | _ =>
      match fromisoformat (normalize_fraction (expand_z raw)) with
      | None => Ok None
      | Some (dt, None) => Ok (Some (to_us dt))
      | Some (dt, Some off) =>
          let us := to_us dt - off in
          raise_if ((us <? MIN_US) || (MAX_US <? us)) (OverflowError "date value out of range") (Ok (Some us))
      end
  end.

(** ** Digits *)

Lemma digit_cases n : 0 ≤ n < 10 →
  n = 0 ∨ n = 1 ∨ n = 2 ∨ n = 3 ∨ n = 4 ∨ n = 5 ∨ n = 6 ∨ n = 7 ∨ n = 8 ∨ n = 9.
Proof. lia. Qed.
Ltac digits H := apply digit_cases in H; destruct_or? H; subst; by vm_compute.

(** Characters that no scan of the parser stops at *)
Record plain (c : ascii) : Prop := {
  pl_space : is_space c = false;
  pl_dot : c ≠ "."%char;
  pl_z : c ≠ "Z"%char
}.
Lemma digit_val_char n : 0 ≤ n < 10 → digit_val (digit_char n) = Some n.
Proof. intros H. digits H. Qed.
Lemma digit_is_digit n : 0 ≤ n < 10 → is_digit (digit_char n) = true.
Proof. intros H. unfold is_digit. by rewrite digit_val_char. Qed.
Lemma digit_plain n : 0 ≤ n < 10 → plain (digit_char n).
Proof. intros H. split; digits H. Qed.
Lemma digit_no_sign n : 0 ≤ n < 10 → is_sign (digit_char n) = false.
Proof. intros H. digits H. Qed.
Lemma digit_b2z n : 0 ≤ n < 10 → b2z (byte_of_ascii (digit_char n)) = 48 + n.
Proof. intros H. digits H. Qed.

Abbreviation digit_list := (Forall (λ n, 0 ≤ n < 10)).
Definition digits_value (acc : Z) (ds : list Z) : Z := foldl (λ a n, a * 10 + n) acc ds.

Fixpoint digits_of (w : nat) (n : Z) : list Z :=
  match w with O => [] | S w => digits_of w (n / 10) ++ [n mod 10] end.

Lemma pad_digits w n : pad w n = digit_char <$> digits_of w n.
Proof.
  revert n. induction w as [|w IH]; intros n; [done|]. simpl. by rewrite IH, fmap_app.
Qed.
Lemma digits_of_length w n : length (digits_of w n) = w.
Proof. revert n. induction w as [|w IH]; intros n; [done|]. simpl. rewrite length_app, IH. simpl. lia. Qed.
Lemma digits_of_digits w n : digit_list (digits_of w n).
Proof.
  revert n. induction w as [|w IH]; intros n; [constructor|]. simpl. apply Forall_app. split; [done|].
  constructor; [|constructor]. apply Z.mod_pos_bound. lia.
Qed.
Lemma digits_of_value w n acc : 0 ≤ n < 10 ^ Z.of_nat w →
  digits_value acc (digits_of w n) = acc * 10 ^ Z.of_nat w + n.
Proof.
  revert n acc. induction w as [|w IH]; intros n acc H; [simpl in *; lia|].
  rewrite Nat2Z.inj_succ, Z.pow_succ_r in * by lia. unfold digits_value in *. simpl. rewrite foldl_app. simpl.
  rewrite IH; [pose proof (Z.div_mod n 10); lia|].
  split; [apply Z.div_pos; lia|apply Z.div_lt_upper_bound; lia].
Qed.

Lemma read_digit_list ds acc s : digit_list ds →
  read_digits (length ds) acc ((digit_char <$> ds) ++ s) = Some (digits_value acc ds, s).
Proof.
  intros H. revert acc. induction H as [|n ds Hn _ IH]; intros acc; [done|].
  csimpl. rewrite digit_val_char by done. simpl. apply IH.
Qed.
Lemma read_pad w n s : 0 ≤ n < 10 ^ Z.of_nat w → read_digits w 0 (pad w n ++ s) = Some (n, s).
Proof.
  intros H. rewrite pad_digits. rewrite <-(digits_of_length w n) at 1.
  rewrite read_digit_list by apply digits_of_digits. by rewrite digits_of_value.
Qed.
#[local] Opaque pad read_digits.
Lemma Forall_digits (P : ascii → Prop) ds :
  (∀ n, 0 ≤ n < 10 → P (digit_char n)) → digit_list ds → Forall P (digit_char <$> ds).
Proof. intros HP H. apply Forall_fmap. by eapply Forall_impl. Qed.
Lemma Forall_pad (P : ascii → Prop) w n : (∀ k, 0 ≤ k < 10 → P (digit_char k)) → Forall P (pad w n).
Proof. intros HP. rewrite pad_digits. apply Forall_digits; [done|apply digits_of_digits]. Qed.

(** ** The text of a timestamp *)

(** What follows the seconds: the fraction as its digits, and the zone *)
Definition iso_fraction (ds : list Z) : chars :=
  match ds with [] => [] | _ => "."%char :: (digit_char <$> ds) end.
Definition fraction_us (ds : list Z) : Z := digits_value 0 (take 6 (ds ++ replicate 6 0)).

Inductive zone := NoZone | Zulu | Offset (west : bool) (h m : Z).
Definition zone_chars (z : zone) : chars :=
  match z with
  | NoZone => []
  | Zulu => ["Z"%char]
  | Offset west h m => (if west then "-"%char else "+"%char) :: pad 2 h ++ ":"%char :: pad 2 m
  end.
Definition zone_us (z : zone) : Z :=
  match z with
  | Offset west h m => let off := (h * 60 + m) * 60 * 1000000 in if west then - off else off
  | _ => 0
  end.
Definition zone_ok (z : zone) : Prop :=
  match z with Offset _ h m => 0 ≤ h < 24 ∧ 0 ≤ m < 60 | _ => True end.
Definition with_fraction (d : datetime) (ds : list Z) : datetime :=
  mkDatetime (dt_year d) (dt_month d) (dt_day d) (dt_hour d) (dt_minute d) (dt_second d) (fraction_us ds).
Definition timestamp (d : datetime) (ds : list Z) (z : zone) : string :=
  String.string_of_list_ascii (iso_stamp d ++ iso_fraction ds ++ zone_chars z).

(** The zone after [expand_z] *)
Definition zone_expanded (z : zone) : chars := match z with Zulu => UTC_SUFFIX | _ => zone_chars z end.

Lemma plain_char c : is_space c = false → c ≠ "."%char → c ≠ "Z"%char → plain c.
Proof. by split. Qed.

Ltac each_char tac :=
  repeat first [apply Forall_nil_2 | apply Forall_pad; intros; tac | apply Forall_app_2 | apply Forall_cons_2; [tac|]].

Lemma iso_stamp_plain d : Forall plain (iso_stamp d).
Proof. unfold iso_stamp. each_char ltac:(first [by apply digit_plain | by apply plain_char]). Qed.
Lemma iso_fraction_graph ds : digit_list ds → Forall (λ c, is_space c = false ∧ c ≠ "Z"%char) (iso_fraction ds).
Proof.
  intros H. destruct ds as [|n ds]; [constructor|]. unfold iso_fraction. constructor; [done|].
  apply Forall_digits; [|done]. intros k Hk. by destruct (digit_plain k Hk).
Qed.
Lemma zone_chars_graph z : Forall (λ c, is_space c = false) (zone_chars z).
Proof.
  destruct z as [| |[] h m]; unfold zone_chars; each_char ltac:(first [done | by eapply pl_space, digit_plain]).
Qed.

(** ** Scanning it *)

Lemma rstrip_graph s : Forall (λ c, is_space c = false) s →
  rstrip (String.string_of_list_ascii s) = String.string_of_list_ascii s.
Proof.
  induction 1 as [|c s Hc _ IH]; [done|]. simpl. rewrite IH, Hc. by rewrite andb_false_r.
Qed.
Lemma strip_graph s : Forall (λ c, is_space c = false) s →
  strip (String.string_of_list_ascii s) = String.string_of_list_ascii s.
Proof.
  intros H. unfold strip. rewrite rstrip_graph by done. destruct H as [|c s Hc _]; [done|]. simpl. by rewrite Hc.
Qed.

Lemma expand_z_app s c t : expand_z (s ++ c :: t) = s ++ expand_z (c :: t).
Proof.
  induction s as [|x s IH]; [done|]. rewrite <-app_comm_cons. simpl expand_z at 1.
  rewrite IH. destruct (s ++ c :: t) eqn:E; [by destruct s|done].
Qed.
Lemma expand_z_none s : Forall (λ c, c ≠ "Z"%char) s → expand_z s = s.
Proof.
  induction 1 as [|c s Hc Hs IH]; [done|]. simpl. destruct s; [by rewrite bool_decide_eq_false_2|by rewrite IH].
Qed.

Lemma normalize_app s t : Forall (λ c, c ≠ "."%char) s → normalize_fraction (s ++ t) = s ++ normalize_fraction t.
Proof. induction 1 as [|c s Hc _ IH]; [done|]. simpl. by rewrite bool_decide_eq_false_2, IH. Qed.
Lemma span_digit_list ds s : digit_list ds → (∀ c s', s = c :: s' → is_digit c = false) →
  span_digits ((digit_char <$> ds) ++ s) = (digit_char <$> ds, s).
Proof.
  intros H Hs. induction H as [|n ds Hn _ IH]; csimpl.
  - destruct s as [|c s]; [done|]. simpl. by rewrite (Hs c s).
  - rewrite digit_is_digit by done. by rewrite IH.
Qed.
Lemma split_zone_app s z : Forall (λ c, is_sign c = false) s → (∀ c z', z = c :: z' → is_sign c = true) →
  split_zone (s ++ z) = (s, z).
Proof.
  intros H Hz. induction H as [|c s Hc _ IH].
  - destruct z as [|c z]; [done|]. simpl. by rewrite (Hz c z).
  - simpl. by rewrite Hc, IH.
Qed.
Lemma six_digits_list ds :
  six_digits (digit_char <$> ds) = digit_char <$> take 6 (ds ++ replicate 6 0).
Proof.
  unfold six_digits. rewrite fmap_take, fmap_app. by rewrite fmap_replicate.
Qed.
Lemma take6_digits ds : digit_list ds → digit_list (take 6 (ds ++ replicate 6 0)).
Proof.
  intros H. apply Forall_take, Forall_app_2; [done|]. apply Forall_replicate. lia.
Qed.
Lemma take6_length (ds : list Z) : length (take 6 (ds ++ replicate 6 0)) = 6%nat.
Proof. rewrite length_take, length_app, length_replicate. lia. Qed.
Lemma fraction_us_range ds : digit_list ds → 0 ≤ fraction_us ds ≤ 999999.
Proof.
  intros H%take6_digits. pose proof (take6_length ds) as Hl. unfold fraction_us, digits_value.
  destruct (take 6 _) as [|a [|b [|c [|d [|e [|f [|]]]]]]]; try done.
  repeat (apply Forall_cons in H as [? H]). simpl. lia.
Qed.

(** The same text after [expand_z] and [normalize_fraction] *)
Definition clock_chars (d : datetime) (ds : list Z) : chars :=
  pad 2 (dt_hour d) ++ ":"%char :: pad 2 (dt_minute d) ++ ":"%char :: pad 2 (dt_second d) ++
  match ds with [] => [] | _ => "."%char :: (digit_char <$> take 6 (ds ++ replicate 6 0)) end.

Lemma zone_expanded_at z : zone_ok z → at_zone (zone_expanded z) = true.
Proof.
  destruct z as [| |w h m]; [done|done|]. intros [Hh Hm]. unfold zone_expanded, zone_chars. rewrite !pad_digits.
  simpl. rewrite !digit_is_digit by (apply Z.mod_pos_bound; lia). by destruct w.
Qed.
Lemma zone_expanded_head z c s : zone_expanded z = c :: s → is_sign c = true ∧ is_digit c = false.
Proof. destruct z as [| |[] h m]; [done| | |]; intros [= <- _]; done. Qed.
Lemma zone_expanded_no_dot z : Forall (λ c, c ≠ "."%char) (zone_expanded z).
Proof.
  destruct z as [| |[] h m]; unfold zone_expanded, zone_chars, UTC_SUFFIX;
    each_char ltac:(first [done | by eapply pl_dot, digit_plain]).
Qed.
Lemma expand_timestamp d ds z : digit_list ds →
  expand_z (iso_stamp d ++ iso_fraction ds ++ zone_chars z) = iso_stamp d ++ iso_fraction ds ++ zone_expanded z.
Proof.
  intros H. pose proof (Forall_impl _ _ _ (iso_stamp_plain d) (pl_z)) as H1.
  pose proof (iso_fraction_graph ds H) as H2. eapply Forall_impl in H2; [|intros c [_ Hc]; exact Hc].
  destruct z as [| |w h m].
  - unfold zone_expanded, zone_chars. rewrite !app_nil_r. apply expand_z_none. by apply Forall_app_2.
  - unfold zone_chars. rewrite !app_assoc. by rewrite expand_z_app.
  - apply expand_z_none. do 2 (apply Forall_app_2; [done|]).
    unfold zone_chars. destruct w; each_char ltac:(first [done | by eapply pl_z, digit_plain]).
Qed.

Lemma normalize_dot s ds z : span_digits s = (ds, z) → (1 ≤ length ds ≤ 9)%nat → at_zone z = true →
  normalize_fraction ("."%char :: s) = "."%char :: six_digits ds ++ z.
Proof.
  intros H [H1 H9] Hz. cbn [normalize_fraction]. rewrite H, Hz, (proj2 (Nat.leb_le _ _) H1), (proj2 (Nat.leb_le _ _) H9).
  done.
Qed.

Lemma normalize_timestamp d ds z : digit_list ds → (length ds ≤ 9)%nat → zone_ok z →
  normalize_fraction (iso_stamp d ++ iso_fraction ds ++ zone_expanded z) =
  pad 4 (dt_year d) ++ "-"%char :: pad 2 (dt_month d) ++ "-"%char :: pad 2 (dt_day d) ++ "T"%char ::
  clock_chars d ds ++ zone_expanded z.
Proof.
  intros H Hl Hz. rewrite normalize_app by (eapply Forall_impl; [apply iso_stamp_plain|apply pl_dot]).
  assert (normalize_fraction (iso_fraction ds ++ zone_expanded z) =
    match ds with [] => [] | _ => "."%char :: (digit_char <$> take 6 (ds ++ replicate 6 0)) end ++ zone_expanded z) as ->.
  { destruct ds as [|n ds]; simpl iso_fraction; simpl app.
    - rewrite <-(app_nil_r (zone_expanded z)) at 1. by rewrite normalize_app, app_nil_r by apply zone_expanded_no_dot.
    - erewrite normalize_dot; [|apply (span_digit_list (n :: ds)); [exact H|]| |by apply zone_expanded_at].
      + by rewrite six_digits_list.
      + intros c s Hs. by destruct (zone_expanded_head z c s Hs).
      + rewrite length_fmap. simpl in *. lia. }
  unfold iso_stamp, clock_chars. by repeat first [rewrite <-app_assoc | rewrite <-app_comm_cons].
Qed.

Lemma datetime_valid_inv d : datetime_valid d = true →
  1 ≤ dt_year d ≤ 9999 ∧ 1 ≤ dt_month d ≤ 12 ∧ 1 ≤ dt_day d ≤ days_in_month (dt_year d) (dt_month d) ∧
  0 ≤ dt_hour d ≤ 23 ∧ 0 ≤ dt_minute d ≤ 59 ∧ 0 ≤ dt_second d ≤ 59 ∧ 0 ≤ dt_microsecond d ≤ 999999.
Proof. unfold datetime_valid. intros H. rewrite !andb_true_iff, !Z.leb_le in H. tauto. Qed.
Lemma days_in_month_max y m : 28 ≤ days_in_month y m ≤ 31.
Proof. unfold days_in_month. repeat case_match; lia. Qed.

Lemma expect_cons c s : expect c (c :: s) = Some s.
Proof. simpl. by rewrite bool_decide_eq_true_2. Qed.
#[local] Opaque expect.

Lemma read_fraction_digits ds : digit_list ds →
  read_fraction (digit_char <$> take 6 (ds ++ replicate 6 0)) = Some (fraction_us ds).
Proof.
  intros H%take6_digits. pose proof (take6_length ds) as Hl. unfold fraction_us. revert H Hl.
  generalize (take 6 (ds ++ replicate 6 0)). intros l H Hl. unfold read_fraction. rewrite length_fmap, Hl.
  rewrite <-(app_nil_r (digit_char <$> l)), <-Hl. by rewrite read_digit_list.
Qed.

Lemma read_clock_chars d ds : datetime_valid d = true → digit_list ds →
  read_clock (clock_chars d ds) = Some (dt_hour d, dt_minute d, dt_second d, fraction_us ds).
Proof.
  intros (_ & _ & _ & Hh & Hm & Hs & _)%datetime_valid_inv H. unfold read_clock, clock_chars.
  do 2 (rewrite read_pad by lia; cbn [mbind option_bind]; rewrite expect_cons; cbn [mbind option_bind]).
  rewrite read_pad by lia. destruct ds as [|n ds]; [done|].
  cbn [mbind option_bind]. rewrite expect_cons. cbn [mbind option_bind]. by rewrite (read_fraction_digits (n :: ds)).
Qed.
Lemma clock_chars_no_sign d ds : digit_list ds → Forall (λ c, is_sign c = false) (clock_chars d ds).
Proof.
  intros H. unfold clock_chars. destruct ds as [|n ds];
    each_char ltac:(first [done | by apply digit_no_sign]).
  apply Forall_digits; [apply digit_no_sign|by apply (take6_digits (n :: ds))].
Qed.

Lemma read_zone_offset west h m : 0 ≤ h < 24 → 0 ≤ m < 60 →
  read_zone (zone_chars (Offset west h m)) = Some (Some (zone_us (Offset west h m))).
Proof.
  intros Hh Hm. unfold read_zone, zone_chars.
  assert (length (pad 2 h ++ ":"%char :: pad 2 m) = 5%nat) as -> by (by rewrite !pad_digits).
  rewrite bool_decide_eq_true_2 by set_solver.
  unfold read_clock. rewrite read_pad by lia. cbn [mbind option_bind]. rewrite expect_cons. cbn [mbind option_bind].
  rewrite <-(app_nil_r (pad 2 m)). rewrite read_pad by lia. cbn [mbind option_bind].
  rewrite (proj2 (Z.ltb_lt _ _)) by (unfold DAY_US; lia).
  unfold zone_us. destruct west; [rewrite bool_decide_eq_true_2 by done|rewrite bool_decide_eq_false_2 by done];
    do 2 f_equal; lia.
Qed.
Lemma read_zone_expanded z : zone_ok z →
  read_zone (zone_expanded z) = Some (match z with NoZone => None | _ => Some (zone_us z) end).
Proof. destruct z as [| |w h m]; [done|by vm_compute|]. intros [??]. by apply read_zone_offset. Qed.

Lemma with_fraction_valid d ds : datetime_valid d = true → digit_list ds → datetime_valid (with_fraction d ds) = true.
Proof.
  intros (? & ? & ? & ? & ? & ? & _)%datetime_valid_inv Hf%fraction_us_range. unfold datetime_valid, with_fraction.
  simpl. rewrite !andb_true_iff, !Z.leb_le. tauto.
Qed.

Lemma fromisoformat_timestamp d ds z : datetime_valid d = true → digit_list ds → zone_ok z →
  fromisoformat (pad 4 (dt_year d) ++ "-"%char :: pad 2 (dt_month d) ++ "-"%char :: pad 2 (dt_day d) ++ "T"%char ::
    clock_chars d ds ++ zone_expanded z) =
  Some (with_fraction d ds, match z with NoZone => None | _ => Some (zone_us z) end).
Proof.
  intros Hd H Hz. destruct (datetime_valid_inv d Hd) as (? & ? & ? & _).
  pose proof (days_in_month_max (dt_year d) (dt_month d)).
  unfold fromisoformat, read_date.
  do 2 (rewrite read_pad by lia; cbn [mbind option_bind]; rewrite expect_cons; cbn [mbind option_bind]).
  rewrite read_pad by lia. cbn [mbind option_bind].
  rewrite split_zone_app; [|by apply clock_chars_no_sign|intros c s Hs; by destruct (zone_expanded_head z c s Hs)].
  rewrite read_clock_chars, read_zone_expanded by done. cbn [mbind option_bind].
  change (mkDatetime _ _ _ _ _ _ _) with (with_fraction d ds). by rewrite with_fraction_valid.
Qed.

(** ** Time order *)

Lemma days_before_year_le y y' : 1 ≤ y < y' →
  days_before_year y + (if is_leap y then 366 else 365) ≤ days_before_year y'.
Proof.
  intros H. unfold days_before_year, is_leap.
  destruct (Z.eqb_spec (y mod 4) 0), (Z.eqb_spec (y mod 100) 0), (Z.eqb_spec (y mod 400) 0); simpl;
    Z.to_euclidean_division_equations; lia.
Qed.
Lemma days_before_months_le y m k : (m < k)%nat → (1 ≤ m)%nat →
  days_before_months y m + days_in_month y (Z.of_nat m) ≤ days_before_months y k.
Proof.
  intros H Hm. induction H as [|k H IH].
  - destruct m; [lia|]. simpl. lia.
  - etrans; [exact IH|]. destruct k; [lia|]. change (days_before_months y (S (S k))) with
      (days_before_months y (S k) + days_in_month y (Z.of_nat (S k))). pose proof (days_in_month_max y (Z.of_nat (S k))). lia.
Qed.
Lemma days_before_month_le y m m' : 1 ≤ m < m' →
  days_before_month y m + days_in_month y m ≤ days_before_month y m'.
Proof.
  intros H. unfold days_before_month.
  pose proof (days_before_months_le y (Z.to_nat m) (Z.to_nat m')) as Hd. rewrite Z2Nat.id in Hd by lia. lia.
Qed.
Lemma year_length y m : 1 ≤ m ≤ 12 →
  days_before_month y m + days_in_month y m ≤ if is_leap y then 366 else 365.
Proof.
  intros H. transitivity (days_before_month y 12 + days_in_month y 12).
  - destruct (decide (m = 12)) as [->|]; [done|]. pose proof (days_before_month_le y m 12).
    pose proof (days_in_month_max y 12). lia.
  - unfold days_before_month, days_in_month. simpl. unfold days_in_month. simpl. case_match; simpl; lia.
Qed.
Lemma days_before_month_nonneg y m : 1 ≤ m → 0 ≤ days_before_month y m.
Proof.
  intros H. destruct (decide (m = 1)) as [->|]; [done|]. pose proof (days_before_month_le y 1 m).
  pose proof (days_in_month_max y 1). change (days_before_month y 1) with 0 in *. lia.
Qed.

Lemma ordinal_lt_year a b : datetime_valid a = true → datetime_valid b = true →
  dt_year a < dt_year b → ordinal a < ordinal b.
Proof.
  intros (Hy & Hm & Hd & _)%datetime_valid_inv (Hy' & Hm' & Hd' & _)%datetime_valid_inv H. unfold ordinal.
  pose proof (days_before_year_le (dt_year a) (dt_year b)). pose proof (year_length (dt_year a) (dt_month a) Hm).
  pose proof (days_before_month_nonneg (dt_year b) (dt_month b)). lia.
Qed.
Lemma ordinal_lt_month a b : datetime_valid a = true → datetime_valid b = true →
  dt_year a = dt_year b → dt_month a < dt_month b → ordinal a < ordinal b.
Proof.
  intros (Hy & Hm & Hd & _)%datetime_valid_inv (Hy' & Hm' & Hd' & _)%datetime_valid_inv Hyy H. unfold ordinal.
  rewrite <-Hyy in *. pose proof (days_before_month_le (dt_year a) (dt_month a) (dt_month b)). lia.
Qed.
Lemma to_us_ordinal a b : datetime_valid a = true → datetime_valid b = true →
  ordinal a < ordinal b → to_us a < to_us b.
Proof.
  intros (_ & _ & _ & ?)%datetime_valid_inv (_ & _ & _ & ?)%datetime_valid_inv ?. unfold to_us. lia.
Qed.

(** Field by field, the first difference decides *)
Definition lex (x y : Z) (rest : bool) : bool := (x <? y) || ((x =? y) && rest).
Lemma lex_step x y a b rest : (x < y → a < b) → (y < x → b < a) → (x = y → (a <=? b) = rest) →
  (a <=? b) = lex x y rest.
Proof.
  unfold lex. intros H1 H2 H3. destruct (Z.ltb_spec x y); [apply Z.leb_le; apply H1 in H; lia|].
  destruct (Z.eqb_spec x y); [by apply H3|]. apply Z.leb_gt, H2. lia.
Qed.
Definition fields_leb (a b : datetime) : bool :=
  lex (dt_year a) (dt_year b) (lex (dt_month a) (dt_month b) (lex (dt_day a) (dt_day b)
    (lex (dt_hour a) (dt_hour b) (lex (dt_minute a) (dt_minute b) (lex (dt_second a) (dt_second b)
      (dt_microsecond a <=? dt_microsecond b)))))).
Lemma to_us_fields a b : datetime_valid a = true → datetime_valid b = true →
  (to_us a <=? to_us b) = fields_leb a b.
Proof.
  intros Ha Hb. unfold fields_leb.
  apply lex_step; [intros; by apply to_us_ordinal, ordinal_lt_year|intros; by apply to_us_ordinal, ordinal_lt_year|].
  intros Ey. apply lex_step; [intros; by apply to_us_ordinal, ordinal_lt_month|
    intros; by apply to_us_ordinal, ordinal_lt_month|]. intros Em.
  apply lex_step; [intros; apply to_us_ordinal; [done..|]; unfold ordinal; rewrite Ey, Em; lia|
    intros; apply to_us_ordinal; [done..|]; unfold ordinal; rewrite Ey, Em; lia|]. intros Ed.
  assert (ordinal a = ordinal b) as Eo by (unfold ordinal; by rewrite Ey, Em, Ed).
  destruct (datetime_valid_inv a Ha) as (_ & _ & _ & ?), (datetime_valid_inv b Hb) as (_ & _ & _ & ?).
  unfold to_us. rewrite Eo.
  repeat (apply lex_step; [lia|lia|intros ?]).
  destruct (Z.leb_spec (dt_microsecond a) (dt_microsecond b)); [apply Z.leb_le|apply Z.leb_gt]; lia.
Qed.
Lemma to_us_range d : datetime_valid d = true → MIN_US ≤ to_us d ≤ MAX_US.
Proof.
  intros Hd. destruct (datetime_valid_inv d Hd) as (Hy & Hm & Hdy & ?).
  pose proof (year_length (dt_year d) (dt_month d) Hm). pose proof (days_before_month_nonneg (dt_year d) (dt_month d)).
  assert (0 ≤ days_before_year (dt_year d) ≤ days_before_year 9999) as Hb.
  { unfold days_before_year. Z.to_euclidean_division_equations. lia. }
  assert (ordinal d ≤ 3652059) as Ho.
  { unfold ordinal. destruct (decide (dt_year d = 9999)) as [E|]; [rewrite E in *; change (is_leap 9999) with false in *;
      change (days_before_year 9999) with 3651694 in *; simpl in *; lia|].
    pose proof (days_before_year_le (dt_year d) 9999). change (days_before_year 9999) with 3651694 in *. lia. }
  assert (1 ≤ ordinal d) by (unfold ordinal; lia).
  unfold MIN_US, MAX_US. change (to_us (mkDatetime 1 1 1 0 0 0 0)) with 86400000000.
  change (to_us (mkDatetime 9999 12 31 23 59 59 999999)) with 315537983999999999. unfold to_us. lia.
Qed.

(** ** Text order *)

Definition char_bytes (s : chars) : bytes := byte_of_ascii <$> s.
Lemma string_bytes s : String.list_byte_of_string (String.string_of_list_ascii s) = char_bytes s.
Proof. unfold String.list_byte_of_string. by rewrite String.list_ascii_of_string_of_list_ascii. Qed.

Lemma bytes_leb_cons x y s t : bytes_leb (x :: s) (y :: t) = lex (b2z x) (b2z y) (bytes_leb s t).
Proof. done. Qed.
Lemma bytes_leb_same c s t : bytes_leb (c :: s) (c :: t) = bytes_leb s t.
Proof. simpl. by rewrite Z.ltb_irrefl, Z.eqb_refl. Qed.
Lemma lex_div_mod a b r : lex (a / 10) (b / 10) (lex (a mod 10) (b mod 10) r) = lex a b r.
Proof.
  unfold lex. destruct (Z.ltb_spec (a / 10) (b / 10)), (Z.eqb_spec (a / 10) (b / 10)),
    (Z.ltb_spec (a mod 10) (b mod 10)), (Z.eqb_spec (a mod 10) (b mod 10)), (Z.ltb_spec a b), (Z.eqb_spec a b);
    simpl; try done; exfalso; Z.to_euclidean_division_equations; lia.
Qed.
#[local] Transparent pad.
Lemma pad_leb w a b s t : 0 ≤ a < 10 ^ Z.of_nat w → 0 ≤ b < 10 ^ Z.of_nat w →
  bytes_leb (char_bytes (pad w a) ++ s) (char_bytes (pad w b) ++ t) = lex a b (bytes_leb s t).
Proof.
  revert a b s t. induction w as [|w IH]; intros a b s t Ha Hb.
  - simpl in *. assert (a = 0) as -> by lia. assert (b = 0) as -> by lia. done.
  - rewrite Nat2Z.inj_succ, Z.pow_succ_r in * by lia. simpl pad. unfold char_bytes in *. rewrite !fmap_app, <-!app_assoc.
    rewrite IH by (split; [apply Z.div_pos; lia|apply Z.div_lt_upper_bound; lia]).
    rewrite <-(lex_div_mod a b). f_equal. rewrite !list_fmap_singleton. rewrite <-!app_comm_cons, !app_nil_l, bytes_leb_cons.
    rewrite !digit_b2z by (apply Z.mod_pos_bound; lia). unfold lex.
    f_equal; [|f_equal]; apply eq_true_iff_eq; rewrite ?Z.ltb_lt, ?Z.eqb_eq; lia.
Qed.
#[local] Opaque pad.

Lemma fraction_leb x y : 0 ≤ x ≤ 999999 → 0 ≤ y ≤ 999999 →
  let tail us := (if us =? 0 then [] else "."%char :: pad 6 us) ++ UTC_SUFFIX in
  bytes_leb (char_bytes (tail x)) (char_bytes (tail y)) = (x <=? y).
Proof.
  intros Hx Hy tail. subst tail. simpl.
  destruct (Z.eqb_spec x 0) as [->|Hx0], (Z.eqb_spec y 0) as [->|Hy0]; simpl app.
  - done.
  - simpl. symmetry. apply Z.leb_le. lia.
  - simpl. symmetry. apply Z.leb_gt. lia.
  - unfold char_bytes. rewrite !fmap_cons, !fmap_app, bytes_leb_same. fold (char_bytes (pad 6 x)) (char_bytes (pad 6 y)).
    rewrite pad_leb by lia. unfold lex.
    change (bytes_leb (byte_of_ascii <$> UTC_SUFFIX) (byte_of_ascii <$> UTC_SUFFIX)) with true. rewrite andb_true_r.
    apply eq_true_iff_eq. rewrite orb_true_iff, Z.ltb_lt, Z.eqb_eq, Z.leb_le. lia.
Qed.

Lemma field_leb w x y c s t : 0 ≤ x < 10 ^ Z.of_nat w → 0 ≤ y < 10 ^ Z.of_nat w →
  bytes_leb (char_bytes (pad w x ++ c :: s)) (char_bytes (pad w y ++ c :: t)) =
  lex x y (bytes_leb (char_bytes s) (char_bytes t)).
Proof.
  intros Hx Hy. unfold char_bytes. rewrite !fmap_app, !fmap_cons. rewrite pad_leb by done. by rewrite bytes_leb_same.
Qed.

Lemma isoformat_fields a b : datetime_valid a = true → datetime_valid b = true →
  string_leb (isoformat a) (isoformat b) = fields_leb a b.
Proof.
  intros (? & ? & ? & ? & ? & ? & Hx)%datetime_valid_inv (? & ? & ? & ? & ? & ? & Hy)%datetime_valid_inv.
  pose proof (days_in_month_max (dt_year a) (dt_month a)). pose proof (days_in_month_max (dt_year b) (dt_month b)).
  unfold string_leb, isoformat, iso_stamp, fields_leb. rewrite !string_bytes.
  repeat first [rewrite <-app_assoc | rewrite <-app_comm_cons].
  rewrite !field_leb by lia. do 5 f_equal. rewrite <-(fraction_leb _ _ Hx Hy).
  unfold char_bytes. rewrite (fmap_app _ (pad 2 (dt_second a))), (fmap_app _ (pad 2 (dt_second b))).
  by rewrite pad_leb by lia.
Qed.

(** The text two UTC datetimes are written as compares as the instants do. *)
Lemma isoformat_leb a b : datetime_valid a = true → datetime_valid b = true →
  string_leb (isoformat a) (isoformat b) = (to_us a <=? to_us b).
Proof. intros. by rewrite isoformat_fields, to_us_fields. Qed.

(** ** Reading a timestamp back *)

Lemma parse_timestamp d ds z : datetime_valid d = true → digit_list ds → (length ds ≤ 9)%nat → zone_ok z →
  let us := to_us (with_fraction d ds) - zone_us z in
  parse_iso_datetime (timestamp d ds z) =
  raise_if ((us <? MIN_US) || (MAX_US <? us)) (OverflowError "date value out of range") (Ok (Some us)).
Proof.
  intros Hd H Hl Hz us. unfold parse_iso_datetime, timestamp.
  rewrite strip_graph, String.list_ascii_of_string_of_list_ascii.
  2:{ apply Forall_app_2; [eapply Forall_impl; [apply iso_stamp_plain|apply pl_space]|].
      apply Forall_app_2; [|apply zone_chars_graph]. eapply Forall_impl; [by apply iso_fraction_graph|by intros c [??]]. }
  rewrite expand_timestamp, normalize_timestamp, fromisoformat_timestamp by done.
  destruct (iso_stamp d ++ _) eqn:E.
  { unfold iso_stamp in E. rewrite pad_digits in E. done. }
  destruct z; [|done..]. unfold us, zone_us. rewrite Z.sub_0_r.
  destruct (to_us_range _ (with_fraction_valid d ds Hd H)).
  by rewrite (proj2 (Z.ltb_ge _ _)), (proj2 (Z.ltb_ge _ _)) by done.
Qed.

Lemma isoformat_timestamp d : datetime_valid d = true →
  isoformat d = timestamp d (if dt_microsecond d =? 0 then [] else digits_of 6 (dt_microsecond d)) (Offset false 0 0).
Proof.
  intros _. unfold isoformat, timestamp. do 2 f_equal.
  destruct (Z.eqb_spec (dt_microsecond d) 0); [done|]. by rewrite pad_digits.
Qed.
Lemma isoformat_fraction d : datetime_valid d = true →
  with_fraction d (if dt_microsecond d =? 0 then [] else digits_of 6 (dt_microsecond d)) = d.
Proof.
  intros (_ & _ & _ & _ & _ & _ & H)%datetime_valid_inv. destruct d as [y mo dy h mi s us]. unfold with_fraction.
  cbn [dt_year dt_month dt_day dt_hour dt_minute dt_second dt_microsecond] in *. f_equal. unfold fraction_us. destruct (Z.eqb_spec us 0) as [->|]; [done|].
  rewrite take_app_le by (rewrite digits_of_length; lia). rewrite take_ge by (rewrite digits_of_length; lia).
  rewrite digits_of_value; [done|]. simpl. lia.
Qed.
Lemma parse_isoformat d : datetime_valid d = true → parse_iso_datetime (isoformat d) = Ok (Some (to_us d)).
Proof.
  intros Hd. rewrite isoformat_timestamp by done. destruct (to_us_range d Hd).
  rewrite parse_timestamp; [|done| | |simpl; lia].
  - rewrite isoformat_fraction by done. unfold zone_us. simpl. rewrite Z.sub_0_r.
    by rewrite (proj2 (Z.ltb_ge _ _)), (proj2 (Z.ltb_ge _ _)) by done.
  - case_match; [constructor|apply digits_of_digits].
  - case_match; [simpl; lia|rewrite digits_of_length; lia].
Qed.

(** C33. A timestamp of any writer is read as the instant it names: with one to nine
    fractional digits (Go drops trailing zeros) or none, cut to microseconds, and
    with a [Z], an offset or no zone.  Only an offset that moves the instant out of
    the years 1 to 9999 raises.  What [isoformat] writes is read back exactly. *)
Theorem parse_iso_exact d ds z :
  datetime_valid d = true → digit_list ds → (length ds ≤ 9)%nat → zone_ok z →
  (let us := to_us (with_fraction d ds) - zone_us z in
   parse_iso_datetime (timestamp d ds z) =
   raise_if ((us <? MIN_US) || (MAX_US <? us)) (OverflowError "date value out of range") (Ok (Some us))) ∧
  parse_iso_datetime (isoformat d) = Ok (Some (to_us d)).
Proof. intros. split; [by apply parse_timestamp|by apply parse_isoformat]. Qed.

Lemma parse_iso_exact_witness :
  timestamp (mkDatetime 2024 2 29 23 59 59 7) [1; 2; 5] (Offset true 1 30) = "2024-02-29T23:59:59.125-01:30" ∧
  parse_iso_datetime "2024-02-29T23:59:59.125-01:30" =
    Ok (Some (to_us (mkDatetime 2024 3 1 1 29 59 125000))) ∧
  parse_iso_datetime (isoformat (mkDatetime 2024 2 29 23 59 59 7)) = Ok (Some (to_us (mkDatetime 2024 2 29 23 59 59 7))).
Proof.
  destruct (parse_iso_exact (mkDatetime 2024 2 29 23 59 59 7) [1; 2; 5] (Offset true 1 30)) as [H1 H2];
    [by vm_compute|repeat constructor; lia|simpl; lia|simpl; lia|].
  split; [by vm_compute|]. split; [exact H1|exact H2].
Defined.

(** ** Instants and fields *)

Lemma leap_days y y' m : is_leap y = is_leap y' → days_before_month y m = days_before_month y' m.
Proof.
  intros H. unfold days_before_month. generalize (Z.to_nat m). clear m. induction n as [|n IH]; [done|].
  destruct n as [|n]; [done|]. change (days_before_months y (S n) + days_in_month y (Z.of_nat (S n)) =
    days_before_months y' (S n) + days_in_month y' (Z.of_nat (S n))). rewrite IH. f_equal. unfold days_in_month.
  by rewrite H.
Qed.
Lemma leap_month y y' m : is_leap y = is_leap y' → days_in_month y m = days_in_month y' m.
Proof. intros H. unfold days_in_month. by rewrite H. Qed.

(** Every day of a common and of a leap year *)
Definition month_ok (leap : bool) (n : Z) : bool :=
  let y := if leap then 4 else 1 in
  let '(m, d) := split_month leap n in
  (1 <=? m) && (m <=? 12) && (1 <=? d) && (d <=? days_in_month y m) && (days_before_month y m + d =? n + 1).
Lemma months_ok : forallb (month_ok false) (seqZ 0 365) && forallb (month_ok true) (seqZ 0 366) = true.
Proof. by vm_compute. Qed.
Lemma split_month_spec y n : 0 ≤ n < (if is_leap y then 366 else 365) →
  let '(m, d) := split_month (is_leap y) n in
  1 ≤ m ≤ 12 ∧ 1 ≤ d ≤ days_in_month y m ∧ days_before_month y m + d = n + 1.
Proof.
  intros Hn. assert (month_ok (is_leap y) n = true) as H.
  { pose proof months_ok as H. apply andb_true_iff in H as [H1 H2]. rewrite !forallb_forall in *.
    destruct (is_leap y); [apply H2|apply H1]; apply list_elem_of_In, elem_of_seqZ; lia. }
  unfold month_ok in H. destruct (split_month (is_leap y) n) as [m d].
  rewrite !andb_true_iff, !Z.leb_le, Z.eqb_eq in H.
  rewrite (leap_month y (if is_leap y then 4 else 1)), (leap_days y (if is_leap y then 4 else 1)) by (by destruct (is_leap y)).
  tauto.
Qed.

Lemma days_before_year_parts a b c d : 0 ≤ a → 0 ≤ b ≤ 3 → 0 ≤ c ≤ 24 → 0 ≤ d ≤ 3 →
  days_before_year (a * 400 + 1 + b * 100 + c * 4 + d) = 146097 * a + 36524 * b + 1461 * c + 365 * d.
Proof.
  intros. unfold days_before_year. Z.to_euclidean_division_equations. lia.
Qed.
Lemma split_year_spec n : 1 ≤ n →
  let '(y, k) := split_year n in
  1 ≤ y ∧ 0 ≤ k < (if is_leap y then 366 else 365) ∧ days_before_year y + k + 1 = n.
Proof.
  intros Hn. unfold split_year. set (a := (n - 1) / 146097). set (n1 := (n - 1) mod 146097).
  assert (n - 1 = 146097 * a + n1 ∧ 0 ≤ n1 < 146097 ∧ 0 ≤ a) as (E1 & B1 & Ba) by (unfold a, n1; Z.to_euclidean_division_equations; lia).
  clearbody a n1. set (b := n1 / 36524). set (n2 := n1 mod 36524).
  assert (n1 = 36524 * b + n2 ∧ 0 ≤ n2 < 36524 ∧ 0 ≤ b ≤ 4) as (E2 & B2 & Bb) by (unfold b, n2; Z.to_euclidean_division_equations; lia).
  clearbody b n2. set (c := n2 / 1461). set (n3 := n2 mod 1461).
  assert (n2 = 1461 * c + n3 ∧ 0 ≤ n3 < 1461 ∧ 0 ≤ c ≤ 24) as (E3 & B3 & Bc) by (unfold c, n3; Z.to_euclidean_division_equations; lia).
  clearbody c n3. set (d := n3 / 365). set (n4 := n3 mod 365).
  assert (n3 = 365 * d + n4 ∧ 0 ≤ n4 < 365 ∧ 0 ≤ d ≤ 4) as (E4 & B4 & Bd) by (unfold d, n4; Z.to_euclidean_division_equations; lia).
  clearbody d n4. destruct (Z.eqb_spec d 4), (Z.eqb_spec b 4); simpl.
  1,2,3: assert (is_leap (a * 400 + 1 + b * 100 + c * 4 + d - 1) = true) as -> by
    (unfold is_leap; rewrite andb_true_iff, orb_true_iff, negb_true_iff, !Z.eqb_eq, Z.eqb_neq;
     Z.to_euclidean_division_equations; lia).
  1,2: replace (a * 400 + 1 + b * 100 + c * 4 + d - 1) with (a * 400 + 1 + b * 100 + c * 4 + 3) by lia;
    rewrite days_before_year_parts by lia; lia.
  - replace (a * 400 + 1 + b * 100 + c * 4 + d - 1) with (a * 400 + 1 + 3 * 100 + 24 * 4 + 3) by lia.
    rewrite days_before_year_parts by lia. lia.
  - rewrite days_before_year_parts by lia. split; [lia|]. split; [case_match; lia|lia].
Qed.

Lemma of_us_spec t : MIN_US ≤ t ≤ MAX_US → datetime_valid (of_us t) = true ∧ to_us (of_us t) = t.
Proof.
  change MIN_US with 86400000000. change MAX_US with 315537983999999999. intros Ht. unfold of_us.
  set (n := t / 1000000 / 60 / 60 / 24).
  assert (1 ≤ n ≤ 3652059) as Hn by (unfold n; Z.to_euclidean_division_equations; lia).
  pose proof (split_year_spec n ltac:(lia)) as Hy. destruct (split_year n) as [y k]. destruct Hy as (Hy & Hk & En).
  pose proof (split_month_spec y k Hk) as Hm. destruct (split_month (is_leap y) k) as [m d].
  destruct Hm as (Hm & Hd & Ek).
  assert (y ≤ 9999) as Hmax.
  { apply Z.nlt_ge. intros Hlt. pose proof (days_before_year_le 9999 y ltac:(lia)) as H.
    change (days_before_year 9999) with 3651694 in H. change (is_leap 9999) with false in H. simpl in H. lia. }
  split.
  - unfold datetime_valid. simpl. rewrite !andb_true_iff, !Z.leb_le. unfold n in *.
    split_and!; try lia; Z.to_euclidean_division_equations; lia.
  - unfold to_us, ordinal. simpl. replace (days_before_year y + days_before_month y m + d) with n by lia.
    unfold n. Z.to_euclidean_division_equations. lia.
Qed.

Lemma iso_leb s t : MIN_US ≤ s ≤ MAX_US → MIN_US ≤ t ≤ MAX_US → string_leb (iso s) (iso t) = (s <=? t).
Proof.
  intros [Hs Es]%of_us_spec [Ht Et]%of_us_spec. unfold iso. rewrite isoformat_leb by done. by rewrite Es, Et.
Qed.
Lemma parse_of_iso t : MIN_US ≤ t ≤ MAX_US → parse_iso_datetime (iso t) = Ok (Some t).
Proof. intros [Ht Et]%of_us_spec. unfold iso. rewrite parse_isoformat by done. by rewrite Et. Qed.
