(* ===== verification/ManagedProcess.v ===== *)
(** * Managed process records (ucloud_sandboxes/managed_process.py)

    The state of a sandbox's supervised process as the gateway caches it, and its
    validation.  A record is stored as the JSON of [to_dict]; reading it back with
    [from_dict] clamps the counters and validates again. *)
From S2P Require Import Prelude PyString Bytes PyTime.
From Stdlib Require Import Ascii.
Local Open Scope py_scope.
Local Open Scope Z_scope.

Record ManagedProcessRecord := mkManaged {
  mp_sandbox_id : string;
  mp_sandbox_generation : Z;
  mp_job_id : string;
  mp_spec_sha256 : string;
  mp_state : string;
  mp_pid : Z;
  mp_started_at : string;
  mp_completed_at : string;
  mp_exit_code : option Z;
  mp_signal : Z;
  mp_stdout_bytes : Z;
  mp_stderr_bytes : Z;
  mp_stdout_truncated : bool;
  mp_stderr_truncated : bool;
  mp_sequence : Z;
  mp_updated_at : string
}.
#[export] Instance ManagedProcessRecord_eq_dec : EqDecision ManagedProcessRecord.
Proof. solve_decision. Defined.

(** [re.fullmatch(r"[0-9a-f]{64}", s)] *)
Definition is_hex_char (c : ascii) : bool := bool_decide (c ∈ hex_digits).
Definition sha256_text (s : string) : bool := all_chars is_hex_char s && (String.length s =? 64)%nat.

(** One of the three timestamps *)
Definition timestamp_check (value : string) : res unit :=
  if nonempty value then
    let! at_ := parse_iso_datetime value in
    match at_ with
    | Some _ => Ok tt
    | None => Raise (ValueError "managed process timestamp is invalid")
    end
  else Ok tt.

Definition validate (r : ManagedProcessRecord) : res unit :=
  raise_if (negb (nonempty (mp_sandbox_id r)) || (mp_sandbox_generation r <? 1))
    (ValueError "managed process sandbox identity is invalid")
  (raise_if (negb (operation_id_ok (mp_job_id r))) (ValueError "managed process job identity is invalid")
  (raise_if (negb (sha256_text (mp_spec_sha256 r))) (ValueError "managed process spec digest is invalid")
  (raise_if (negb (bool_decide (mp_state r ∈ ["starting"; "running"; "exited"; "signaled"; "failed"])))
     (ValueError "managed process state is invalid")
  (let! _ := timestamp_check (mp_started_at r) in
   let! _ := timestamp_check (mp_completed_at r) in
   let! _ := timestamp_check (mp_updated_at r) in
   raise_if (mp_sequence r <? 1) (ValueError "managed process sequence is invalid") (Ok tt))))).

Definition terminal (r : ManagedProcessRecord) : bool := bool_decide (mp_state r ∈ ["exited"; "signaled"; "failed"]).

(** [from_dict] of a record's [to_dict] *)
Definition clamp_counters (r : ManagedProcessRecord) : ManagedProcessRecord :=
  mkManaged (mp_sandbox_id r) (mp_sandbox_generation r) (mp_job_id r) (mp_spec_sha256 r) (mp_state r)
    (Z.max 0 (mp_pid r)) (mp_started_at r) (mp_completed_at r) (mp_exit_code r) (Z.max 0 (mp_signal r))
    (Z.max 0 (mp_stdout_bytes r)) (Z.max 0 (mp_stderr_bytes r)) (mp_stdout_truncated r)
    (mp_stderr_truncated r) (Z.max 0 (mp_sequence r)) (mp_updated_at r).
Definition reread (r : ManagedProcessRecord) : res ManagedProcessRecord :=
  let! _ := validate (clamp_counters r) in Ok (clamp_counters r).

(** [replace(r, updated_at=...)] *)
Definition touch_record (r : ManagedProcessRecord) (updated_at : string) : ManagedProcessRecord :=
  mkManaged (mp_sandbox_id r) (mp_sandbox_generation r) (mp_job_id r) (mp_spec_sha256 r) (mp_state r) (mp_pid r)
    (mp_started_at r) (mp_completed_at r) (mp_exit_code r) (mp_signal r) (mp_stdout_bytes r) (mp_stderr_bytes r)
    (mp_stdout_truncated r) (mp_stderr_truncated r) (mp_sequence r) updated_at.

(** ** Reading back *)

Lemma validate_sequence r u : validate r = Ok u → 1 ≤ mp_sequence r.
Proof. unfold validate. intros H. bools. lia. Qed.
(** A valid record is read back with its counters clamped *)
Lemma reread_valid r u : validate r = Ok u → reread r = Ok (clamp_counters r).
Proof.
  intros H. pose proof (validate_sequence r u H) as Hq. unfold reread.
  assert (validate (clamp_counters r) = validate r) as ->; [|by rewrite H].
  unfold validate. simpl. by rewrite (Z.max_r 0 (mp_sequence r)) by lia.
Qed.
Lemma reread_clamped r r' : reread r = Ok r' → r' = clamp_counters r ∧ 1 ≤ mp_sequence r'.
Proof.
  unfold reread. intros (u & Hu & [= <-])%res_bind_Ok. split; [done|]. by eapply validate_sequence.
Qed.
