(* ===== verification/ChunkStore.v ===== *)
(** * Chunk store formats (ucloud_sandboxes/chunk_store.py)

    The chunk map, packs, verified chunk decoding and the blob tail table, as
    byte-level encoders and strict parsers.  SHA-256 and zstd are not under the
    repository: they are parameters of the definitions that use them. *)
From S2P Require Import Prelude Bytes.
Local Open Scope Z_scope.

Definition BLOCK : Z := 4096.
Definition CHUNK_BYTES : Z := 256 * 1024.
Definition MAX_PACK_BYTES : Z := 64 * 1024 ^ 2.
Definition MAX_BOOTSTRAP_BYTES : Z := 128 * 1024 ^ 2.
Definition MAX_MAP_ENTRIES : Z := Z.shiftl 1 20.
Definition MAX_REGIONS : Z := 254.
Definition MAX_CLEN : Z := CHUNK_BYTES + 4096.
Definition RAW : Z := 0.
Definition ZSTD : Z := 1.

Definition round_up (value : Z) : Z := - (- value / BLOCK) * BLOCK.

Definition require_hex (value : string) : res string :=
  raise_if (negb (is_hex64 value))
    (ValueError "chunk store requires a lowercase sha256 hex digest") (Ok value).

(** ** The chunk map *)

(** (blob id hex, mapped_blkaddr, blocks) *)
Abbreviation region := (string * Z * Z)%type.
Definition region_start (r : region) : Z := r.1.2 * BLOCK.
(** [sum(region[1:]) * BLOCK] *)
Definition region_end (r : region) : Z := (r.1.2 + r.2) * BLOCK.

Record ChunkMap := mkMap {
  bootstrap_size : Z;
  device_size : Z;
  regions : list region;
  offsets : list Z;
  sizes : list Z;
  ids : list bytes
}.

(** [for blob_id, mapped, blocks in self.regions], threading [end]. *)
Fixpoint check_regions (end_ : Z) (rs : list region) : res Z :=
  match rs with
  | [] => Ok end_
  | r :: rs =>
      (let! _ := require_hex r.1.1 in
       raise_if ((region_start r <? end_) || (r.2 <=? 0)) (ValueError "chunk map regions overlap")
         (check_regions (region_end r) rs))%py
  end.

(** The inner [while]: drop the regions that end at or before [offset]. *)
Fixpoint skip_regions (offset : Z) (rs : list region) : list region :=
  match rs with
  | r :: rs' => if region_end r <=? offset then skip_regions offset rs' else rs
  | [] => []
  end.

Abbreviation map_entry := (Z * Z * bytes)%type.

(** The loop over the entries; [rs] are the regions from the current index on. *)
Fixpoint check_entries (rs : list region) (previous : Z) (es : list map_entry) : res unit :=
  match es with
  | [] => Ok tt
  | (offset, size, chunk_id) :: es =>
      raise_if (negb (offset mod BLOCK =? 0) || (offset <? previous) || negb ((0 <? size) && (size <=? CHUNK_BYTES))
                || negb (blen chunk_id =? 32))
        (ValueError "chunk map entries are not sorted, aligned and disjoint")
      (let rs := skip_regions offset rs in
       match rs with
       | [] => Raise (ValueError "chunk map entry lies outside every blob region")
       | r :: _ =>
           raise_if ((offset <? region_start r) || (region_end r <? offset + size))
             (ValueError "chunk map entry lies outside every blob region")
             (check_entries rs (offset + size) es)
       end)
  end.

Definition zip3 (m : ChunkMap) : list map_entry := zip (zip (offsets m) (sizes m)) (ids m).

Definition zlen {A} (l : list A) : Z := Z.of_nat (length l).

(** [ChunkMap(...)]: the constructor with its [__post_init__]. *)
Definition chunk_map_init (m : ChunkMap) : res ChunkMap :=
  raise_if (negb ((0 <? bootstrap_size m) && (bootstrap_size m <=? MAX_BOOTSTRAP_BYTES))
            || (MAX_REGIONS <? zlen (regions m)) || (MAX_MAP_ENTRIES <? zlen (offsets m))
            || negb ((zlen (offsets m) =? zlen (sizes m)) && (zlen (sizes m) =? zlen (ids m))))
    (ValueError "invalid chunk map header")
  (let! end_ := check_regions (round_up (bootstrap_size m)) (regions m) in
   raise_if (negb (device_size m =? end_))
     (ValueError "chunk map device size differs from its regions")
   (let! _ := check_entries (regions m) 0 (zip3 m) in Ok m))%py.

(** Struct layouts: "<8sQQII", "<32sII", "<QI32s". *)
Definition MAP_MAGIC : bytes :=
  [Byte.x55; Byte.x43; Byte.x43; Byte.x4d; Byte.x41; Byte.x50; Byte.x00; Byte.x01].
Definition MAP_HEADER_SIZE : Z := 32.
Definition MAP_REGION_SIZE : Z := 40.
Definition MAP_ENTRY_SIZE : Z := 44.

Definition pack_region (r : region) : res bytes :=
  (let! blob := from_hex r.1.1 in
   let! mapped := pack_uint 4 r.1.2 in
   let! blocks := pack_uint 4 r.2 in
   Ok (pack_bytes 32 blob ++ mapped ++ blocks))%py.

Definition pack_map_entry (e : map_entry) : res bytes :=
  (let! o := pack_uint 8 e.1.1 in
   let! s := pack_uint 4 e.1.2 in
   Ok (o ++ s ++ pack_bytes 32 e.2))%py.

Definition map_encode (m : ChunkMap) : res bytes :=
  (let! b := pack_uint 8 (bootstrap_size m) in
   let! d := pack_uint 8 (device_size m) in
   let! nr := pack_uint 4 (zlen (regions m)) in
   let! ne := pack_uint 4 (zlen (ids m)) in
   let! rs := pack_all pack_region (regions m) in
   let! es := pack_all pack_map_entry (zip3 m) in
   Ok ((MAP_MAGIC ++ b ++ d ++ nr ++ ne) ++ concat rs ++ concat es))%py.

Definition unpack_region (bs : bytes) : region :=
  (hex_of (slice 0 32 bs), un_le (slice 32 36 bs), un_le (slice 36 40 bs)).
Definition unpack_map_entry (bs : bytes) : map_entry :=
  (un_le (slice 0 8 bs), un_le (slice 8 12 bs), slice 12 44 bs).

(** [_map_header]: ((bootstrap size, device size, regions), body offset). *)
Definition map_header (payload : bytes) : res (Z * Z * list region * Z) :=
  raise_if (blen payload <? MAP_HEADER_SIZE) (ValueError "chunk map is truncated")
  (let magic := slice 0 8 payload in
   let bsize := un_le (slice 8 16 payload) in
   let dsize := un_le (slice 16 24 payload) in
   let nregions := un_le (slice 24 28 payload) in
   let nentries := un_le (slice 28 32 payload) in
   let body := MAP_HEADER_SIZE + nregions * MAP_REGION_SIZE in
   raise_if (negb (bool_decide (magic = MAP_MAGIC)) || (MAX_REGIONS <? nregions)
             || (MAX_MAP_ENTRIES <? nentries)
             || negb (blen payload =? body + nentries * MAP_ENTRY_SIZE))
     (ValueError "invalid chunk map encoding")
   (Ok (bsize, dsize, unpack_records 40 unpack_region (slice MAP_HEADER_SIZE body payload), body))).

Definition map_decode (payload : bytes) : res ChunkMap :=
  (let! h := map_header payload in
   let '(bsize, dsize, parsed, body) := h in
   let es := unpack_records 44 unpack_map_entry (slice body (blen payload) payload) in
   chunk_map_init (mkMap bsize dsize parsed (es.*1.*1) (es.*1.*2) (es.*2)))%py.

Definition chunk_map_regions (payload : bytes) : res (Z * Z * list region) :=
  (let! h := map_header payload in
   let '(bsize, dsize, rs, _) := h in
   let valid := (0 <? bsize) && (bsize <=? MAX_BOOTSTRAP_BYTES) in
   if valid then
     let! end_ := check_regions (round_up bsize) rs in
     raise_if (negb (dsize =? end_)) (ValueError "chunk map device size differs from its regions")
       (Ok (bsize, dsize, rs))
   else
     match rs with
     | [] => Raise (ValueError "chunk map device size differs from its regions")
     | r :: _ => let! _ := require_hex r.1.1 in Raise (ValueError "chunk map regions overlap")
     end)%py.

(** [bisect.bisect_right] of a sorted list: how many leading items are [<= x]. *)
Fixpoint bisect_right (l : list Z) (x : Z) : nat :=
  match l with y :: l => if y <=? x then S (bisect_right l x) else O | [] => O end.

(** The generator's loop from [index], over the entries from there on. *)
Fixpoint overlap_loop (index : nat) (os ss : list Z) (offset end_ : Z) : list nat :=
  match os, ss with
  | o :: os, s :: ss =>
      if o <? end_ then
        (if offset <? o + s then [index] else []) ++ overlap_loop (S index) os ss offset end_
      else []
  | _, _ => []
  end.

Definition overlapping (m : ChunkMap) (offset end_ : Z) : list nat :=
  let index := (bisect_right (offsets m) offset - 1)%nat in
  overlap_loop index (drop index (offsets m)) (drop index (sizes m)) offset end_.

(** ** Round trip of the chunk map *)

Definition region_ok (r : region) : Prop := is_hex64 r.1.1 = true.
Definition id_ok (e : map_entry) : Prop := length e.2 = 32%nat.

Lemma pack_region_inv r bs :
  pack_region r = Ok bs → region_ok r → length bs = 40%nat ∧ unpack_region bs = r.
Proof.
  destruct r as [[blob mapped] blocks]. unfold pack_region, region_ok. simpl. intros E Hr.
  destruct (is_hex64_inv blob Hr) as (raw & Hraw & Hlen & Hhex). rewrite Hraw in E. cbn [res_bind] in E.
  apply res_bind_Ok in E as (m & Em & E). apply res_bind_Ok in E as (k & Ek & [= <-]).
  apply pack_uint_Ok in Em as (Hm & Hmv & _), Ek as (Hk & Hkv & _).
  rewrite pack_bytes_exact by done. split; [rewrite !length_app; lia|].
  unfold unpack_region. f_equal; [f_equal|].
  - by rewrite (slice_mid [] raw (m ++ k)) by (unfold blen; simpl; lia).
  - by rewrite (slice_mid raw m k) by (unfold blen; lia).
  - rewrite app_assoc, (slice_last (raw ++ m) k); [done|..];
      unfold blen; rewrite ?length_app; lia.
Qed.

Lemma pack_map_entry_inv e bs :
  pack_map_entry e = Ok bs → id_ok e → length bs = 44%nat ∧ unpack_map_entry bs = e.
Proof.
  destruct e as [[o s] i]. unfold pack_map_entry, id_ok. simpl. intros E Hi.
  apply res_bind_Ok in E as (ob & Eo & E). apply res_bind_Ok in E as (sb & Es & [= <-]).
  apply pack_uint_Ok in Eo as (Ho & Hov & _), Es as (Hs & Hsv & _).
  rewrite pack_bytes_exact by done. split; [rewrite !length_app; lia|].
  unfold unpack_map_entry. f_equal; [f_equal|].
  - by rewrite (slice_mid [] ob (sb ++ i)) by (unfold blen; simpl; lia).
  - by rewrite (slice_mid ob sb i) by (unfold blen; lia).
  - rewrite app_assoc, (slice_last (ob ++ sb) i); [done|..];
      unfold blen; rewrite ?length_app; lia.
Qed.

(** Packing then reading a table of fixed-size records is the identity. *)
Lemma records_roundtrip {A} size (f : A → res bytes) (g : bytes → A) (P : A → Prop) l bss :
  (0 < size)%nat → (∀ x b, f x = Ok b → P x → length b = size ∧ g b = x) → Forall P l →
  pack_all f l = Ok bss →
  length (concat bss) = (length l * size)%nat ∧ unpack_records size g (concat bss) = l.
Proof.
  intros Hsize Hf HP Hp%pack_all_Ok.
  assert (Forall (λ b, length b = size) bss) as Hl.
  { clear -Hf HP Hp. induction Hp as [|x b l bss E _ IH]; [constructor|].
    apply Forall_cons in HP as [Hx HP]. constructor; [by eapply Hf|by apply IH]. }
  rewrite (concat_length_fixed size), unpack_concat by done.
  split; [by rewrite (Forall2_length _ _ _ Hp)|].
  eapply Forall2_fmap_inv; [exact Hp| |exact HP]. intros x b E Hx. by eapply Hf.
Qed.

Lemma check_regions_hex e rs d : check_regions e rs = Ok d → Forall region_ok rs.
Proof.
  revert e. induction rs as [|r rs IH]; intros e H; [constructor|]. simpl in H.
  apply res_bind_Ok in H as (h & Hh & H). unfold require_hex in Hh. bools.
  constructor; [done|by eapply IH].
Qed.

Lemma check_entries_ids rs p es u : check_entries rs p es = Ok u → Forall id_ok es.
Proof.
  revert rs p. induction es as [|[[o s] i] es IH]; intros rs p H; [constructor|].
  simpl in H. apply raise_if_Ok in H as [Hg H]. destruct (skip_regions o rs); [done|].
  bools. constructor; [unfold id_ok, blen in *; simpl; lia|by eapply IH].
Qed.

Lemma chunk_map_init_inv m m' :
  chunk_map_init m = Ok m' →
  m' = m ∧ 0 < bootstrap_size m ≤ MAX_BOOTSTRAP_BYTES ∧ zlen (regions m) ≤ MAX_REGIONS ∧
  zlen (offsets m) ≤ MAX_MAP_ENTRIES ∧ length (offsets m) = length (sizes m) ∧
  length (sizes m) = length (ids m) ∧
  check_regions (round_up (bootstrap_size m)) (regions m) = Ok (device_size m) ∧
  check_entries (regions m) 0 (zip3 m) = Ok tt.
Proof.
  unfold chunk_map_init, zlen. intros H. apply raise_if_Ok in H as [Hg H].
  apply res_bind_Ok in H as (e & He & H). apply raise_if_Ok in H as [Hd H].
  apply res_bind_Ok in H as ([] & Hc & [= <-]). bools. subst. split_and!; try done; lia.
Qed.

Lemma zip3_length m :
  length (offsets m) = length (sizes m) → length (sizes m) = length (ids m) →
  length (zip3 m) = length (ids m).
Proof. intros H1 H2. unfold zip3. rewrite !length_zip_with. lia. Qed.

Lemma zip3_split m :
  length (offsets m) = length (sizes m) → length (sizes m) = length (ids m) →
  (zip3 m).*1.*1 = offsets m ∧ (zip3 m).*1.*2 = sizes m ∧ (zip3 m).*2 = ids m.
Proof.
  intros H1 H2. unfold zip3. rewrite fst_zip by (rewrite length_zip_with; lia).
  rewrite fst_zip, snd_zip, snd_zip; [done|rewrite length_zip_with; lia|lia|lia].
Qed.

(** Reading the five header fields back. *)
Lemma map_header_fields b d nr ne rest :
  length b = 8%nat → length d = 8%nat → length nr = 4%nat → length ne = 4%nat →
  let p := (MAP_MAGIC ++ b ++ d ++ nr ++ ne) ++ rest in
  slice 0 8 p = MAP_MAGIC ∧ slice 8 16 p = b ∧ slice 16 24 p = d ∧ slice 24 28 p = nr ∧
  slice 28 32 p = ne ∧ blen p = 32 + blen rest.
Proof.
  intros Hb Hd Hn He p. unfold p. rewrite <-!app_assoc.
  split_and!.
  - by apply (slice_mid []).
  - apply (slice_mid MAP_MAGIC); unfold blen; [done|lia].
  - rewrite app_assoc. apply slice_mid; unfold blen; rewrite ?length_app; simpl; lia.
  - rewrite (app_assoc MAP_MAGIC), (app_assoc (_ ++ b)).
    apply slice_mid; unfold blen; rewrite ?length_app; simpl; lia.
  - rewrite (app_assoc MAP_MAGIC), (app_assoc (_ ++ b)), (app_assoc (_ ++ d)).
    apply slice_mid; unfold blen; rewrite ?length_app; simpl; lia.
  - unfold blen. rewrite !length_app. simpl. lia.
Qed.

Lemma map_encode_inv m bs :
  map_encode m = Ok bs →
  ∃ b d nr ne rs es, bs = (MAP_MAGIC ++ b ++ d ++ nr ++ ne) ++ concat rs ++ concat es ∧
    (length b = 8 ∧ un_le b = bootstrap_size m)%nat ∧ (length d = 8 ∧ un_le d = device_size m)%nat ∧
    (length nr = 4 ∧ un_le nr = zlen (regions m))%nat ∧ (length ne = 4 ∧ un_le ne = zlen (ids m))%nat ∧
    pack_all pack_region (regions m) = Ok rs ∧ pack_all pack_map_entry (zip3 m) = Ok es.
Proof.
  unfold map_encode. intros E.
  apply res_bind_Ok in E as (b & Hb & E). apply res_bind_Ok in E as (d & Hd & E).
  apply res_bind_Ok in E as (nr & Hnr & E). apply res_bind_Ok in E as (ne & Hne & E).
  apply res_bind_Ok in E as (rs & Hrs & E). apply res_bind_Ok in E as (es & Hes & [= <-]).
  apply pack_uint_Ok in Hb as (?&?&_), Hd as (?&?&_), Hnr as (?&?&_), Hne as (?&?&_).
  exists b, d, nr, ne, rs, es. done.
Qed.

(** C34. A chunk map survives its encoding: whenever a valid map encodes (its
    addresses fit their fields), decoding the bytes gives back the same map. *)
Theorem chunk_map_roundtrip m bs :
  chunk_map_init m = Ok m → map_encode m = Ok bs → map_decode bs = Ok m.
Proof.
  intros Hinit E. pose proof (chunk_map_init_inv _ _ Hinit) as (_ & Hb & Hr & He & H1 & H2 & Hcr & Hce).
  apply map_encode_inv in E as (b & d & nr & ne & rs & es & -> & [Lb Vb] & [Ld Vd] & [Lr Vr] & [Le Ve] & Prs & Pes).
  destruct (records_roundtrip 40 pack_region unpack_region region_ok (regions m) rs) as [Lrs Urs];
    [lia|apply pack_region_inv|by eapply check_regions_hex|done|].
  destruct (records_roundtrip 44 pack_map_entry unpack_map_entry id_ok (zip3 m) es) as [Les Ues];
    [lia|apply pack_map_entry_inv|by eapply check_entries_ids|done|].
  rewrite (zip3_length m H1 H2) in Les.
  destruct (map_header_fields b d nr ne (concat rs ++ concat es) Lb Ld Lr Le) as (S1 & S2 & S3 & S4 & S5 & S6).
  unfold map_decode, map_header, MAP_HEADER_SIZE, MAP_REGION_SIZE, MAP_ENTRY_SIZE.
  set (p := (MAP_MAGIC ++ b ++ d ++ nr ++ ne) ++ concat rs ++ concat es) in *.
  rewrite S1, S2, S3, S4, S5, Vb, Vd, Vr, Ve. unfold zlen in *.
  assert (blen p = 32 + Z.of_nat (length (regions m)) * 40 + Z.of_nat (length (ids m)) * 44) as Hlen.
  { rewrite S6, blen_app. unfold blen. rewrite Lrs, Les. lia. }
  rewrite Hlen, (proj2 (Z.ltb_ge _ 32)) by lia. cbn [raise_if].
  rewrite bool_decide_true by done. rewrite !(proj2 (Z.ltb_ge _ _)) by lia.
  rewrite (proj2 (Z.eqb_eq _ _)) by lia. cbn [negb orb raise_if res_bind].
  rewrite <-Hlen.
  assert (slice 32 (32 + Z.of_nat (length (regions m)) * 40) p = concat rs) as ->.
  { apply slice_mid; unfold blen; rewrite ?length_app; simpl; lia. }
  assert (slice (32 + Z.of_nat (length (regions m)) * 40) (blen p) p = concat es) as ->.
  { rewrite Hlen. unfold p. rewrite (app_assoc (_ ++ _)). apply slice_last; unfold blen; rewrite ?length_app; simpl; lia. }
  rewrite Urs, Ues. destruct (zip3_split m H1 H2) as (-> & -> & ->). by destruct m.
Qed.

Definition demo_id (b : Byte.byte) : bytes := replicate 32 b.
Definition demo_map : ChunkMap :=
  mkMap 5000 (4096 * 14) [(hex_of (demo_id Byte.xab), 3, 4); (hex_of (demo_id Byte.x01), 8, 6)]
    [4096 * 3; 4096 * 5; 4096 * 8] [4096; 100; 8192] [demo_id Byte.x05; demo_id Byte.x06; demo_id Byte.x07].

Lemma chunk_map_roundtrip_witness :
  ∃ bs, map_encode demo_map = Ok bs ∧ map_decode bs = Ok demo_map.
Proof.
  destruct (map_encode demo_map) as [bs|e] eqn:E; [|by vm_compute in E].
  exists bs. split; [done|]. apply (chunk_map_roundtrip demo_map bs); [by vm_compute|done].
Defined.

(** ** What a decoded map guarantees *)

Definition entry_end (e : map_entry) : Z := e.1.1 + e.1.2.

Record entry_valid (rs : list region) (e : map_entry) : Prop := {
  ev_aligned : (BLOCK | e.1.1);
  ev_size : 0 < e.1.2 ≤ CHUNK_BYTES;
  ev_id : length e.2 = 32%nat;
  ev_region : ∃ r, r ∈ rs ∧ region_start r ≤ e.1.1 ∧ entry_end e ≤ region_end r
}.

Lemma skip_regions_suffix o rs : ∃ pre, rs = pre ++ skip_regions o rs.
Proof.
  induction rs as [|r rs [pre IH]]; simpl; [by exists []|].
  destruct (_ <=? _); [|by exists []]. exists (r :: pre). simpl. by f_equal.
Qed.

Lemma entry_valid_mono pre rs e : entry_valid rs e → entry_valid (pre ++ rs) e.
Proof.
  intros [? ? ? (r & Hr & ?)]. constructor; try done. exists r. rewrite elem_of_app. auto.
Qed.

Lemma check_entries_sound rs p es u :
  check_entries rs p es = Ok u →
  Forall (entry_valid rs) es ∧ Forall (λ e, p ≤ e.1.1) es ∧
  StronglySorted (λ e e', entry_end e ≤ e'.1.1) es.
Proof.
  revert rs p. induction es as [|[[o s] i] es IH]; intros rs p H; [by repeat constructor|].
  simpl in H. apply raise_if_Ok in H as [Hg H].
  destruct (skip_regions_suffix o rs) as [pre Hpre].
  destruct (skip_regions o rs) as [|r rs'] eqn:Es; [done|].
  apply raise_if_Ok in H as [Hr H]. apply IH in H as (Hv & Hp & Hs). bools.
  assert (entry_valid rs (o, s, i)) as He.
  { constructor; simpl; [by apply Z.mod_divide|lia|unfold blen in *; lia|].
    exists r. unfold entry_end. simpl. split; [rewrite Hpre; set_solver|lia]. }
  split_and!; constructor; simpl; try done.
  - rewrite Hpre. eapply Forall_impl; [exact Hv|]. apply entry_valid_mono.
  - eapply Forall_impl; [exact Hp|]. simpl. lia.
Qed.

Lemma check_regions_sound e rs d :
  check_regions e rs = Ok d →
  e ≤ d ∧ Forall (λ r, e ≤ region_start r ∧ region_start r < region_end r ≤ d) rs ∧
  StronglySorted (λ r r', region_end r ≤ region_start r') rs.
Proof.
  revert e. induction rs as [|r rs IH]; intros e H; simpl in H.
  { simplify_eq. split_and!; [done|constructor|constructor]. }
  apply res_bind_Ok in H as (h & _ & H). apply raise_if_Ok in H as [Hg H]. bools.
  apply IH in H as (Hle & Hrs & Hs). unfold region_start, region_end, BLOCK in *.
  split_and!; [lia|constructor; [lia|]|constructor; [done|]].
  - eapply Forall_impl; [exact Hrs|]. simpl. lia.
  - eapply Forall_impl; [exact Hrs|]. simpl. lia.
Qed.

(** Whatever bytes an untrusted store returns, a chunk map that decodes is
    well formed: its regions are ordered, disjoint, above the bootstrap and
    inside the device; its entries are block aligned, at most one chunk long,
    ordered and pairwise disjoint, and each lies inside one blob region. *)
Theorem chunk_map_decode_valid bs m :
  map_decode bs = Ok m →
  StronglySorted (λ r r', region_end r ≤ region_start r') (regions m) ∧
  Forall (λ r, bootstrap_size m ≤ region_start r ∧ region_end r ≤ device_size m) (regions m) ∧
  StronglySorted (λ e e', entry_end e ≤ e'.1.1) (zip3 m) ∧
  Forall (entry_valid (regions m)) (zip3 m) ∧
  length (offsets m) = length (zip3 m) ∧ zlen (zip3 m) ≤ MAX_MAP_ENTRIES.
Proof.
  unfold map_decode. intros H. apply res_bind_Ok in H as ([[[bsz dsz] rs] body] & _ & H).
  pose proof (chunk_map_init_inv _ _ H) as (-> & Hb & _ & Hn & H1 & H2 & Hcr & Hce).
  apply check_regions_sound in Hcr as (_ & Hr & Hrs). apply check_entries_sound in Hce as (Hv & _ & Hs).
  split_and!; try done.
  - eapply Forall_impl; [exact Hr|]. simpl in *. unfold round_up, BLOCK. intros r.
    pose proof (Z.div_mod (- bsz) 4096 ltac:(done)). pose proof (Z.mod_pos_bound (- bsz) 4096 ltac:(done)). lia.
  - rewrite zip3_length by done. lia.
  - unfold zlen in *. rewrite zip3_length by done. lia.
Qed.

Lemma chunk_map_decode_valid_witness :
  ∃ bs m, map_decode bs = Ok m ∧ Forall (entry_valid (regions m)) (zip3 m) ∧ length (zip3 m) = 3%nat.
Proof.
  destruct (map_encode demo_map) as [bs|e] eqn:E; [|by vm_compute in E].
  assert (map_decode bs = Ok demo_map) as Hd by (injection E as <-; by vm_compute).
  exists bs, demo_map. split; [done|]. split; [by apply (chunk_map_decode_valid bs demo_map)|done].
Defined.

(** ** Reads: the entries that overlap a range *)

Lemma overlap_loop_spec k os ss off end_ i :
  StronglySorted Z.le os →
  i ∈ overlap_loop k os ss off end_ ↔
  ∃ j o s, i = (k + j)%nat ∧ os !! j = Some o ∧ ss !! j = Some s ∧ o < end_ ∧ off < o + s.
Proof.
  intros Hs. revert k ss. induction Hs as [|o os Hs IH Ho]; intros k ss; simpl.
  { split; [intros []%elem_of_nil|intros (j & o & s & _ & ? & _); by destruct j]. }
  destruct ss as [|s ss].
  { split; [intros []%elem_of_nil|intros (j & ? & ? & _ & _ & ? & _); by destruct j]. }
  destruct (Z.ltb_spec o end_) as [Hlt|Hge].
  - rewrite elem_of_app, IH. split.
    + intros [Hin|(j & o' & s' & -> & ?)].
      * destruct (Z.ltb_spec off (o + s)); [|by apply elem_of_nil in Hin].
        apply list_elem_of_singleton in Hin as ->. exists 0%nat, o, s. split_and!; try done; lia.
      * exists (S j), o', s'. split; [lia|done].
    + intros ([|j] & o' & s' & -> & ? & ? & ? & ?); simplify_eq/=.
      * left. rewrite (proj2 (Z.ltb_lt _ _)) by lia. apply list_elem_of_singleton. lia.
      * right. exists j, o', s'. split; [lia|done].
  - split; [intros []%elem_of_nil|]. intros ([|j] & o' & s' & -> & Hl & ? & ? & ?); simplify_eq/=; [lia|].
    rewrite Forall_forall in Ho. apply list_elem_of_lookup_2, Ho in Hl. simpl in Hl. lia.
Qed.

Lemma overlap_loop_sorted k os ss off end_ :
  StronglySorted lt (overlap_loop k os ss off end_) ∧
  Forall (λ i, (k ≤ i)%nat) (overlap_loop k os ss off end_).
Proof.
  revert k ss. induction os as [|o os IH]; intros k [|s ss]; simpl; try by repeat constructor.
  destruct (o <? end_); [|by repeat constructor]. destruct (IH (S k) ss) as [H1 H2].
  destruct (off <? o + s); simpl; split.
  - constructor; [done|]. eapply Forall_impl; [exact H2|]. simpl. lia.
  - constructor; [lia|]. eapply Forall_impl; [exact H2|]. simpl. lia.
  - done.
  - eapply Forall_impl; [exact H2|]. simpl. lia.
Qed.

Lemma bisect_right_le l x : (bisect_right l x ≤ length l)%nat.
Proof. induction l as [|y l IH]; simpl; [lia|]. destruct (_ <=? _); lia. Qed.
Lemma bisect_right_before l x i y : (i < bisect_right l x)%nat → l !! i = Some y → y ≤ x.
Proof.
  revert i. induction l as [|z l IH]; intros i; simpl; [lia|].
  destruct (Z.leb_spec z x); [|lia]. destruct i as [|i]; simpl; [intros; simplify_eq; lia|].
  intros ?. apply IH. lia.
Qed.

Lemma sorted_lookup_lt {A} (R : A → A → Prop) l i j x y :
  StronglySorted R l → l !! i = Some x → l !! j = Some y → (i < j)%nat → R x y.
Proof.
  intros Hs. revert i j. induction Hs as [|z l Hs IH Hz]; intros [|i] [|j] Hi Hj Hlt;
    simplify_eq/=; try lia; try done.
  - rewrite Forall_forall in Hz. by eapply Hz, list_elem_of_lookup_2.
  - eapply (IH i j); [done|done|lia].
Qed.

Lemma entries_ordered m i j o s o' :
  StronglySorted (λ e e', entry_end e ≤ e'.1.1) (zip3 m) →
  length (offsets m) = length (sizes m) → length (sizes m) = length (ids m) →
  offsets m !! i = Some o → sizes m !! i = Some s → offsets m !! j = Some o' → (i < j)%nat → o + s ≤ o'.
Proof.
  intros Hs H1 H2 Hi Hsi Hj Hlt.
  assert (∀ k x, offsets m !! k = Some x → ∃ e, zip3 m !! k = Some e ∧ e.1.1 = x) as Hz.
  { intros k x Hk. destruct (zip3_split m H1 H2) as (Ho & _). rewrite <-Ho in Hk.
    rewrite list_lookup_fmap, fmap_Some in Hk. destruct Hk as (os & Hk & ->).
    rewrite list_lookup_fmap, fmap_Some in Hk. destruct Hk as (e & Hk & ->). by exists e. }
  destruct (Hz i o Hi) as (e & He & <-), (Hz j o' Hj) as (e' & He' & <-).
  assert (e.1.2 = s) as <-.
  { destruct (zip3_split m H1 H2) as (_ & Hss & _). rewrite <-Hss, !list_lookup_fmap, He in Hsi. by simplify_eq/=. }
  by apply (sorted_lookup_lt _ _ _ _ _ _ Hs He He').
Qed.

Lemma offsets_sorted m :
  StronglySorted (λ e e', entry_end e ≤ e'.1.1) (zip3 m) → Forall (λ e, 0 < e.1.2) (zip3 m) →
  StronglySorted Z.le ((zip3 m).*1.*1).
Proof.
  generalize (zip3 m). intros l. rewrite <-list_fmap_compose.
  induction 1 as [|e l Hs IH He]; intros Hp; csimpl; [constructor|].
  apply Forall_cons in Hp as [Hp0 Hp]. constructor; [by apply IH|]. apply Forall_fmap.
  eapply Forall_impl; [exact He|]. unfold entry_end. simpl. lia.
Qed.

Lemma StronglySorted_drop {A} (R : A → A → Prop) n l : StronglySorted R l → StronglySorted R (drop n l).
Proof.
  revert n. induction l as [|x l IH]; intros [|n]; simpl; try done.
  intros [H _]%StronglySorted_inv. by apply IH.
Qed.

(** A read visits exactly the entries it needs: the binary search and
    forward scan yield, in increasing order and without repetition, every entry
    of a valid map that overlaps the range, and no other. *)
Theorem chunk_map_overlapping_exact m off end_ i :
  chunk_map_init m = Ok m →
  StronglySorted lt (overlapping m off end_) ∧
  (i ∈ overlapping m off end_ ↔
   ∃ o s, offsets m !! i = Some o ∧ sizes m !! i = Some s ∧ o < end_ ∧ off < o + s).
Proof.
  intros (_ & _ & _ & _ & H1 & H2 & _ & Hce)%chunk_map_init_inv.
  apply check_entries_sound in Hce as (Hv & _ & Hs). split; [apply overlap_loop_sorted|].
  assert (StronglySorted Z.le (offsets m)) as Ho.
  { destruct (zip3_split m H1 H2) as (<- & _). apply offsets_sorted; [done|].
    eapply Forall_impl; [exact Hv|]. intros e []. lia. }
  unfold overlapping. set (k := (bisect_right (offsets m) off - 1)%nat).
  rewrite overlap_loop_spec by (by apply StronglySorted_drop). setoid_rewrite lookup_drop. split.
  - intros (j & o & s & -> & ?). by exists o, s.
  - intros (o & s & Hi & Hsi & ? & ?). destruct (decide (k ≤ i)%nat) as [Hki|Hki].
    + exists (i - k)%nat, o, s. replace (k + (i - k))%nat with i by lia. done.
    + exfalso. pose proof (bisect_right_le (offsets m) off).
      destruct (lookup_lt_is_Some_2 (offsets m) k) as [o' Hk]; [lia|].
      pose proof (bisect_right_before (offsets m) off k o' ltac:(lia) Hk).
      pose proof (entries_ordered m i k o s o' Hs H1 H2 Hi Hsi Hk ltac:(lia)). lia.
Qed.

Lemma chunk_map_overlapping_exact_witness :
  overlapping demo_map (4096 * 3 + 10) (4096 * 5 + 1) = [0%nat; 1%nat] ∧
  (1%nat ∈ overlapping demo_map (4096 * 3 + 10) (4096 * 5 + 1) ↔
   ∃ o s, offsets demo_map !! 1%nat = Some o ∧ sizes demo_map !! 1%nat = Some s ∧
     o < 4096 * 5 + 1 ∧ 4096 * 3 + 10 < o + s).
Proof.
  split; [by vm_compute|].
  apply (chunk_map_overlapping_exact demo_map (4096 * 3 + 10) (4096 * 5 + 1) 1). by vm_compute.
Defined.
