(* ===== verification/Packs.v ===== *)
(** * Packs, verified chunk decoding and blob tail tables
    (ucloud_sandboxes/chunk_store.py)

    [PackWriter] is a state machine whose stream is the bytes written so far;
    [parse_pack_tail] is the reader of untrusted packs.  SHA-256 and zstd are
    parameters. *)
From S2P Require Import Prelude Bytes ChunkStore.
Local Open Scope Z_scope.

Section packs.
(** [hashlib.sha256(data).digest()] *)
Context (sha256 : bytes → bytes).

(** ** Pack layout: "<4sHH8x", "<32sIIIB4x", "<QI32s4s" *)

Definition PACK_HEADER_SIZE : Z := 16.
Definition PACK_ENTRY_SIZE : Z := 49.
Definition PACK_TRAILER_SIZE : Z := 48.
Definition PACK_MAGIC : bytes := [Byte.x55; Byte.x43; Byte.x50; Byte.x4b].
Definition TRAILER_MAGIC : bytes := [Byte.x55; Byte.x43; Byte.x50; Byte.x54].

Record pack_entry := mkPE {
  pe_id : bytes; pe_offset : Z; pe_clen : Z; pe_ulen : Z; pe_flags : Z
}.

Definition pack_header : bytes := PACK_MAGIC ++ le 2 1 ++ le 2 0 ++ replicate 8 Byte.x00.

Record PackWriter := mkWriter { pw_entries : list pack_entry; pw_data : Z; pw_stream : bytes }.

Definition writer_init : PackWriter := mkWriter [] 0 pack_header.

Definition pack_size (w : PackWriter) : Z := PACK_HEADER_SIZE + pw_data w.

Definition fits (w : PackWriter) (clen : Z) : bool :=
  pack_size w + clen + (zlen (pw_entries w) + 1) * PACK_ENTRY_SIZE + PACK_TRAILER_SIZE
  <=? MAX_PACK_BYTES.

Definition valid_flags (flags : Z) : bool := (flags =? RAW) || (flags =? ZSTD).

Definition pack_add (w : PackWriter) (chunk_id payload : bytes) (ulen flags : Z) : res PackWriter :=
  raise_if (negb (fits w (blen payload)) || negb (valid_flags flags)
            || ((flags =? RAW) && negb (blen payload =? ulen)))
    (ValueError "chunk does not fit this pack")
    (Ok (mkWriter (pw_entries w ++ [mkPE chunk_id (pack_size w) (blen payload) ulen flags])
           (pw_data w + blen payload) (pw_stream w ++ payload))).

Definition pack_pack_entry (e : pack_entry) : res bytes :=
  (let! o := pack_uint 4 (pe_offset e) in
   let! c := pack_uint 4 (pe_clen e) in
   let! u := pack_uint 4 (pe_ulen e) in
   let! f := pack_uint 1 (pe_flags e) in
   Ok (pack_bytes 32 (pe_id e) ++ o ++ c ++ u ++ f ++ replicate 4 Byte.x00))%py.

Definition unpack_pack_entry (bs : bytes) : pack_entry :=
  mkPE (slice 0 32 bs) (un_le (slice 32 36 bs)) (un_le (slice 36 40 bs)) (un_le (slice 40 44 bs))
    (un_le (slice 44 45 bs)).

(** Tuples compare lexicographically. *)
Fixpoint zlist_leb (a b : list Z) : bool :=
  match a, b with
  | [], _ => true
  | _ :: _, [] => false
  | x :: a, y :: b => (x <? y) || ((x =? y) && zlist_leb a b)
  end.
Definition entry_numbers (e : pack_entry) : list Z :=
  [pe_offset e; pe_clen e; pe_ulen e; pe_flags e].
Definition entry_leb (a b : pack_entry) : bool :=
  if bool_decide (pe_id a = pe_id b) then zlist_leb (entry_numbers a) (entry_numbers b)
  else bytes_leb (pe_id a) (pe_id b).

(** The closed pack's bytes, its digest and its size. *)
Definition pack_finish (w : PackWriter) : res (bytes * string * Z) :=
  (let! recs := pack_all pack_pack_entry (sorted_by entry_leb (pw_entries w)) in
   let footer := concat recs in
   let! flen := pack_uint 8 (blen footer) in
   let! count := pack_uint 4 (zlen (pw_entries w)) in
   let trailer := flen ++ count ++ pack_bytes 32 (sha256 footer) ++ TRAILER_MAGIC in
   let stream := pw_stream w ++ footer ++ trailer in
   Ok (stream, hex_of (sha256 stream), pack_size w + blen footer + PACK_TRAILER_SIZE))%py.

(** [any(entries[i][0] >= entries[i + 1][0] ...)] *)
Fixpoint ids_ascend (es : list pack_entry) : bool :=
  match es with
  | e :: ((e' :: _) as es') => bytes_ltb (pe_id e) (pe_id e') && ids_ascend es'
  | _ => true
  end.

(** The validation loop, over the entries by offset. *)
Fixpoint check_pack_entries (end_ data_end : Z) (es : list pack_entry) : res unit :=
  match es with
  | [] => Ok tt
  | e :: es =>
      raise_if ((pe_offset e <? end_) || (data_end <? pe_offset e + pe_clen e)
                || negb (valid_flags (pe_flags e))
                || negb ((0 <? pe_ulen e) && (pe_ulen e <=? CHUNK_BYTES))
                || negb ((0 <? pe_clen e) && (pe_clen e <=? MAX_CLEN))
                || ((pe_flags e =? RAW) && negb (pe_clen e =? pe_ulen e)))
        (ValueError "invalid pack footer entry")
        (check_pack_entries (pe_offset e + pe_clen e) data_end es)
  end.

Definition offset_leb (a b : pack_entry) : bool := pe_offset a <=? pe_offset b.

Definition parse_pack_tail (tail : bytes) (size : Z) : res (option (list pack_entry)) :=
  raise_if ((blen tail <? PACK_TRAILER_SIZE) || negb ((0 <? size) && (size <=? MAX_PACK_BYTES))
            || (size <? blen tail)) (ValueError "invalid pack tail")
  (let at_ := blen tail - PACK_TRAILER_SIZE in
   let footer_len := un_le (slice at_ (at_ + 8) tail) in
   let count := un_le (slice (at_ + 8) (at_ + 12) tail) in
   let footer_sha := slice (at_ + 12) (at_ + 44) tail in
   let magic := slice (at_ + 44) (at_ + 48) tail in
   let data_end := size - footer_len - PACK_TRAILER_SIZE in
   raise_if (negb (bool_decide (magic = TRAILER_MAGIC)) || negb (footer_len =? count * PACK_ENTRY_SIZE)
             || (data_end <? PACK_HEADER_SIZE)) (ValueError "invalid pack trailer")
   (if blen tail <? footer_len + PACK_TRAILER_SIZE then Ok None
    else
      let footer := slice (at_ - footer_len) at_ tail in
      raise_if (negb (bool_decide (sha256 footer = footer_sha)))
        (ValueError "pack footer digest mismatch")
      (let entries := unpack_records 49 unpack_pack_entry footer in
       raise_if (negb (ids_ascend entries)) (ValueError "pack footer is not sorted by chunk id")
       (let! _ := check_pack_entries PACK_HEADER_SIZE data_end (sorted_by offset_leb entries) in
        Ok (Some entries))%py))).

(** ** A parsed pack is well formed *)

Definition pe_end (e : pack_entry) : Z := pe_offset e + pe_clen e.

Record pack_entry_ok (data_end : Z) (e : pack_entry) : Prop := {
  po_region : PACK_HEADER_SIZE ≤ pe_offset e ∧ pe_end e ≤ data_end;
  po_clen : 0 < pe_clen e ≤ MAX_CLEN;
  po_ulen : 0 < pe_ulen e ≤ CHUNK_BYTES;
  po_flags : pe_flags e = ZSTD ∨ (pe_flags e = RAW ∧ pe_clen e = pe_ulen e)
}.

Lemma valid_flags_inv f : valid_flags f = true → f = RAW ∨ f = ZSTD.
Proof. unfold valid_flags. rewrite orb_true_iff, !Z.eqb_eq. done. Qed.

Lemma check_pack_entries_sound e0 d es u :
  PACK_HEADER_SIZE ≤ e0 → check_pack_entries e0 d es = Ok u →
  Forall (pack_entry_ok d) es ∧ Forall (λ e, e0 ≤ pe_offset e) es ∧
  StronglySorted (λ e e', pe_end e ≤ pe_offset e') es.
Proof.
  revert e0. induction es as [|e es IH]; intros e0 He0 H; [by repeat constructor|]. simpl in H.
  apply raise_if_Ok in H as [Hg H]. bools.
  match goal with H : valid_flags _ = true |- _ => apply valid_flags_inv in H end.
  apply IH in H as (Hv & Hp & Hs); [|lia].
  match goal with H : _ && _ = false |- _ => apply andb_false_iff in H end.
  split_and!; constructor; try done.
  - constructor; unfold pe_end, RAW, ZSTD in *; destruct_or!; bools; lia.
  - eapply Forall_impl; [exact Hp|]. simpl. lia.
Qed.

Lemma ids_ascend_sorted es :
  ids_ascend es = true → StronglySorted (λ e e', bytes_ltb (pe_id e) (pe_id e') = true) es.
Proof.
  assert (∀ a b c, bytes_ltb a b = true → bytes_ltb b c = true → bytes_ltb a c = true) as Htr.
  { unfold bytes_ltb. intros a b c Hab%negb_true_iff Hbc%negb_true_iff. apply negb_true_iff.
    apply not_true_iff_false. intros Hca. destruct (bytes_leb_total a b) as [H|H]; [|congruence].
    pose proof (bytes_leb_trans c a b Hca H). congruence. }
  induction es as [|e [|e' es] IH]; [constructor|repeat constructor|].
  cbn [ids_ascend]. intros [He H]%andb_true_iff. specialize (IH H). constructor; [done|].
  constructor; [done|]. apply StronglySorted_inv in IH as [_ IH].
  eapply Forall_impl; [exact IH|]. simpl. eauto.
Qed.

Lemma bytes_ltb_irrefl a : bytes_ltb a a = false.
Proof. unfold bytes_ltb. apply negb_false_iff. by destruct (bytes_leb_total a a). Qed.

Lemma ids_sorted_NoDup es :
  StronglySorted (λ e e', bytes_ltb (pe_id e) (pe_id e') = true) es → NoDup (pe_id <$> es).
Proof.
  induction 1 as [|e es Hs IH He]; csimpl; constructor; [|done].
  intros (e' & Heq & Hin)%list_elem_of_fmap. rewrite Forall_forall in He. specialize (He _ Hin).
  simpl in He. rewrite Heq, bytes_ltb_irrefl in He. done.
Qed.

Lemma sorted_disjoint es :
  StronglySorted (λ e e', pe_end e ≤ pe_offset e') es →
  ∀ e e', e ∈ es → e' ∈ es → e ≠ e' → pe_end e ≤ pe_offset e' ∨ pe_end e' ≤ pe_offset e.
Proof.
  induction 1 as [|x es Hs IH Hx]; intros e e' He He' Hne; [by apply elem_of_nil in He|].
  rewrite Forall_forall in Hx. apply elem_of_cons in He as [->|He], He' as [->|He'].
  - done.
  - left. by apply Hx.
  - right. by apply Hx.
  - by apply IH.
Qed.

(** Whatever bytes an untrusted store serves, the footer of a pack that
    parses is well formed: the chunk ids are strictly ascending, every entry
    lies in the data region between header and footer with bounded sizes and a
    valid encoding, and the entries do not overlap. *)
Theorem pack_tail_sound tail size entries :
  parse_pack_tail tail size = Ok (Some entries) →
  StronglySorted (λ e e', bytes_ltb (pe_id e) (pe_id e') = true) entries ∧
  Forall (pack_entry_ok (size - zlen entries * PACK_ENTRY_SIZE - PACK_TRAILER_SIZE)) entries ∧
  (∀ e e', e ∈ entries → e' ∈ entries → e ≠ e' → pe_end e ≤ pe_offset e' ∨ pe_end e' ≤ pe_offset e) ∧
  size ≤ MAX_PACK_BYTES.
Proof.
  unfold parse_pack_tail. intros H. apply raise_if_Ok in H as [Hg H].
  set (flen := un_le (slice (blen tail - PACK_TRAILER_SIZE) _ tail)) in *.
  pose proof (un_le_range (slice (blen tail - PACK_TRAILER_SIZE + 8) (blen tail - PACK_TRAILER_SIZE + 12) tail)) as [Hcnt _].
  set (cnt := un_le (slice (blen tail - PACK_TRAILER_SIZE + 8) _ tail)) in *.
  apply raise_if_Ok in H as [Ht H]. destruct (_ <? flen + _) eqn:Hl; [done|].
  apply raise_if_Ok in H as [Hsha H]. apply raise_if_Ok in H as [Hid H].
  apply res_bind_Ok in H as (u & Hc & [= <-]). set (es := unpack_records 49 _ _) in *.
  apply check_pack_entries_sound in Hc as (Hv & _ & Hs); [|done]. bools.
  assert (zlen es * PACK_ENTRY_SIZE = flen) as Hflen.
  { unfold es, unpack_records, zlen, PACK_ENTRY_SIZE, PACK_TRAILER_SIZE in *.
    pose proof (blen_nonneg tail).
    assert (blen (slice (blen tail - 48 - flen) (blen tail - 48) tail) = flen) as Hb.
    { rewrite slice_length; lia. }
    unfold blen in Hb at 1. rewrite (iter_unpack_length 49 _ (Z.to_nat cnt)); lia. }
  rewrite Hflen. split_and!; [by apply ids_ascend_sorted| | |lia].
  - by rewrite <-(sorted_by_perm offset_leb es).
  - intros e e' He He'. rewrite <-(sorted_by_perm offset_leb es) in He, He'. by apply (sorted_disjoint _ Hs).
Qed.

(** ** Writing a pack and reading it back *)

Record chunk_in := mkChunkIn { ci_id : bytes; ci_payload : bytes; ci_ulen : Z; ci_flags : Z }.

Definition add_chunk (w : PackWriter) (c : chunk_in) : res PackWriter :=
  pack_add w (ci_id c) (ci_payload c) (ci_ulen c) (ci_flags c).
Definition add_all (cs : list chunk_in) : res PackWriter := res_foldl add_chunk writer_init cs.

(** What every caller of [add] guarantees about the chunk. *)
Record chunk_ok (c : chunk_in) : Prop := {
  co_id : length (ci_id c) = 32%nat;
  co_ulen : 0 < ci_ulen c ≤ CHUNK_BYTES;
  co_clen : 0 < blen (ci_payload c) ≤ MAX_CLEN
}.

(** The entry describes the chunk, and the stream holds its payload there. *)
Record holds (stream : bytes) (c : chunk_in) (e : pack_entry) : Prop := {
  ho_id : pe_id e = ci_id c;
  ho_ulen : pe_ulen e = ci_ulen c;
  ho_flags : pe_flags e = ci_flags c;
  ho_clen : pe_clen e = blen (ci_payload c);
  ho_payload : ∃ before after, stream = before ++ ci_payload c ++ after ∧ blen before = pe_offset e
}.

Record writer_inv (cs : list chunk_in) (w : PackWriter) : Prop := {
  wi_holds : Forall2 (holds (pw_stream w)) cs (pw_entries w);
  wi_sorted : StronglySorted (λ e e', pe_end e ≤ pe_offset e') (pw_entries w);
  wi_ok : Forall (pack_entry_ok (pack_size w)) (pw_entries w);
  wi_data : 0 ≤ pw_data w;
  wi_stream : blen (pw_stream w) = pack_size w;
  wi_fits : pack_size w + zlen (pw_entries w) * PACK_ENTRY_SIZE + PACK_TRAILER_SIZE ≤ MAX_PACK_BYTES
}.

Lemma holds_app s t c e : holds s c e → holds (s ++ t) c e.
Proof.
  intros [? ? ? ? (b & a & -> & Hb)]. constructor; try done. exists b, (a ++ t).
  by rewrite <-!app_assoc.
Qed.

Lemma sorted_snoc {A} (R : A → A → Prop) l x :
  StronglySorted R l → Forall (λ y, R y x) l → StronglySorted R (l ++ [x]).
Proof.
  induction 1 as [|y l Hs IH Hy]; simpl; intros Hx; [repeat constructor|].
  apply Forall_cons in Hx as [Hyx Hx]. constructor; [by apply IH|].
  apply Forall_app. split; [done|by constructor].
Qed.

Lemma pack_entry_ok_mono d d' e : d ≤ d' → pack_entry_ok d e → pack_entry_ok d' e.
Proof. intros ? [[] ? ? ?]. constructor; try done. lia. Qed.

Lemma writer_inv_init : writer_inv [] writer_init.
Proof. constructor; simpl; try by constructor. all: by vm_compute. Qed.

Lemma writer_inv_add cs w c w' :
  writer_inv cs w → chunk_ok c → add_chunk w c = Ok w' → writer_inv (cs ++ [c]) w'.
Proof.
  intros [Hh Hs Ho Hd Hst Hf] [Hid Hu Hc] E. unfold add_chunk, pack_add in E.
  apply raise_if_Ok in E as [Hg [= <-]]. unfold fits in Hg. bools.
  match goal with H : valid_flags _ = true |- _ => apply valid_flags_inv in H as Hfl end.
  match goal with H : _ && _ = false |- _ => apply andb_false_iff in H as Hraw end.
  set (e := mkPE _ _ _ _ _). unfold pack_size in *.
  assert (pe_end e = PACK_HEADER_SIZE + (pw_data w + blen (ci_payload c))) as Hend by (unfold pe_end; simpl; unfold pack_size; lia).
  constructor; simpl; unfold pack_size; simpl.
  - apply Forall2_app.
    + eapply Forall2_impl; [exact Hh|]. intros. by apply holds_app.
    + constructor; [|constructor]. constructor; try done. exists (pw_stream w), []. by rewrite app_nil_r.
  - apply sorted_snoc; [done|]. eapply Forall_impl; [exact Ho|]. intros x [[_ ?] _ _ _]. simpl. unfold pack_size. lia.
  - apply Forall_app. split.
    + eapply Forall_impl; [exact Ho|]. intros x. apply pack_entry_ok_mono. lia.
    + constructor; [|constructor]. constructor; simpl; try lia.
  - lia.
  - rewrite blen_app. lia.
  - unfold zlen in *. rewrite length_app. simpl. unfold zlen, pack_size, PACK_ENTRY_SIZE in *. lia.
Qed.

Lemma add_all_from cs0 cs w0 w :
  writer_inv cs0 w0 → Forall chunk_ok cs → res_foldl add_chunk w0 cs = Ok w → writer_inv (cs0 ++ cs) w.
Proof.
  intros Hw Hcs. revert cs0 w0 Hw. induction Hcs as [|c cs Hc _ IH]; intros cs0 w0 Hw E; simpl in E.
  { simplify_eq. by rewrite app_nil_r. }
  apply res_bind_Ok in E as (w1 & E1 & E). rewrite cons_middle, app_assoc.
  eapply IH; [|done]. by eapply writer_inv_add.
Qed.

Lemma add_all_inv cs w : Forall chunk_ok cs → add_all cs = Ok w → writer_inv cs w.
Proof. intros Hcs E. by apply (add_all_from [] cs writer_init w writer_inv_init Hcs). Qed.

Lemma pack_uint_total n v : 0 ≤ v < 256 ^ Z.of_nat n → pack_uint n v = Ok (le n v).
Proof.
  intros Hv. unfold pack_uint. rewrite (proj2 (Z.leb_le _ _)), (proj2 (Z.ltb_lt _ _)) by lia. done.
Qed.

Lemma pack_entry_roundtrip d e :
  d ≤ MAX_PACK_BYTES → pack_entry_ok d e → length (pe_id e) = 32%nat →
  ∃ bs, pack_pack_entry e = Ok bs ∧ length bs = 49%nat ∧ unpack_pack_entry bs = e.
Proof.
  destruct e as [i o c u f]. intros Hd [[H1 H2] H3 H4 H5] Hi. unfold pe_end in *. simpl in *.
  unfold MAX_PACK_BYTES, MAX_CLEN, CHUNK_BYTES, PACK_HEADER_SIZE, RAW, ZSTD in *.
  unfold pack_pack_entry. simpl. rewrite !pack_uint_total by (simpl; lia). cbn [res_bind].
  eexists. split; [done|]. rewrite pack_bytes_exact by done.
  split; [rewrite !length_app, !le_length; simpl; lia|].
  unfold unpack_pack_entry. f_equal.
  - by apply (slice_mid [] i); unfold blen; simpl; lia.
  - rewrite (slice_mid i); [apply un_le_le; simpl; lia|..]; unfold blen; rewrite ?le_length; lia.
  - rewrite app_assoc, slice_mid; [apply un_le_le; simpl; lia|..];
      unfold blen; rewrite ?length_app, ?le_length; lia.
  - rewrite (app_assoc i), (app_assoc (i ++ _)), slice_mid; [apply un_le_le; simpl; lia|..];
      unfold blen; rewrite ?length_app, ?le_length; lia.
  - rewrite (app_assoc i), (app_assoc (i ++ _)), (app_assoc (_ ++ le 4 c)), slice_mid;
      [apply un_le_le; simpl; lia|..]; unfold blen; rewrite ?length_app, ?le_length; lia.
Qed.

Lemma zlist_leb_total a b : zlist_leb a b = true ∨ zlist_leb b a = true.
Proof.
  revert b. induction a as [|x a IH]; intros [|y b]; simpl; auto.
  destruct (IH b), (Z.lt_trichotomy x y) as [?|[?|?]]; rewrite ?orb_true_iff, ?andb_true_iff,
    ?Z.ltb_lt, ?Z.eqb_eq; auto 6 with lia.
Qed.
Lemma zlist_leb_trans a b c : zlist_leb a b = true → zlist_leb b c = true → zlist_leb a c = true.
Proof.
  revert b c. induction a as [|x a IH]; intros [|y b] [|z c]; simpl; try done.
  rewrite !orb_true_iff, !andb_true_iff, !Z.ltb_lt, !Z.eqb_eq.
  intros [?|[? Ha]] [?|[? Hb]]; [left; lia|left; lia|left; lia|right]. split; [lia|by eapply IH].
Qed.

Lemma entry_leb_total a b : entry_leb a b = true ∨ entry_leb b a = true.
Proof.
  unfold entry_leb. destruct (decide (pe_id a = pe_id b)) as [E|E].
  - rewrite !bool_decide_true by done. apply zlist_leb_total.
  - rewrite !bool_decide_false by done. apply bytes_leb_total.
Qed.
Lemma entry_leb_trans a b c : entry_leb a b = true → entry_leb b c = true → entry_leb a c = true.
Proof.
  unfold entry_leb.
  destruct (decide (pe_id a = pe_id b)) as [E1|E1], (decide (pe_id b = pe_id c)) as [E2|E2].
  - rewrite !bool_decide_true by congruence. apply zlist_leb_trans.
  - rewrite E1, (bool_decide_false _ E2). auto.
  - rewrite <-E2, (bool_decide_false _ E1). auto.
  - rewrite (bool_decide_false _ E1), (bool_decide_false _ E2). intros H1 H2.
    destruct (decide (pe_id a = pe_id c)) as [E3|E3].
    + rewrite <-E3 in H2. destruct E1. by apply bytes_leb_antisym.
    + rewrite bool_decide_false by done. by eapply bytes_leb_trans.
Qed.

Lemma sorted_ids_ascend es :
  StronglySorted (λ a b, entry_leb a b = true) es → NoDup (pe_id <$> es) → ids_ascend es = true.
Proof.
  induction 1 as [|e es Hs IH He]; [done|]. csimpl. intros [Hn Hd]%NoDup_cons.
  destruct es as [|e' es]; [done|]. cbn [ids_ascend]. apply andb_true_iff. split; [|by apply IH].
  apply Forall_cons in He as [Hle _]. unfold entry_leb in Hle.
  assert (pe_id e ≠ pe_id e') as Hne by (csimpl in Hn; set_solver).
  rewrite bool_decide_false in Hle by done. unfold bytes_ltb. apply negb_true_iff, not_true_iff_false.
  intros Hge. by apply Hne, bytes_leb_antisym.
Qed.

Lemma check_pack_entries_complete e0 d es :
  Forall (pack_entry_ok d) es → Forall (λ e, e0 ≤ pe_offset e) es →
  StronglySorted (λ e e', pe_end e ≤ pe_offset e') es → check_pack_entries e0 d es = Ok tt.
Proof.
  intros Ho He Hs. revert e0 He. induction Hs as [|e es Hs IH Hx]; intros e0 He; [done|].
  apply Forall_cons in Ho as [[[H1 H2] H3 H4 H5] Ho], He as [He _]. simpl. apply raise_if_Ok. split; [|by apply IH].
  unfold pe_end, valid_flags, RAW, ZSTD in *. repeat (apply orb_false_iff; split); lia.
Qed.

Lemma strict_offsets d es :
  Forall (pack_entry_ok d) es → StronglySorted (λ e e', pe_end e ≤ pe_offset e') es →
  StronglySorted (λ e e', pe_offset e < pe_offset e') es.
Proof.
  intros Ho Hs. induction Hs as [|e es Hs IH Hx]; constructor; apply Forall_cons in Ho as [[_ Hc _ _] Ho].
  - by apply IH.
  - eapply Forall_impl; [exact Hx|]. unfold pe_end. simpl. lia.
Qed.

(** Sorting by offset recovers the order of the writes. *)
Lemma sort_offsets_back d es :
  Forall (pack_entry_ok d) es → StronglySorted (λ e e', pe_end e ≤ pe_offset e') es →
  sorted_by offset_leb (sorted_by entry_leb es) = es.
Proof.
  intros Ho Hs. pose proof (strict_offsets d es Ho Hs) as Hst. set (s := sorted_by offset_leb _).
  assert (s ≡ₚ es) as Hp by (unfold s; by rewrite !sorted_by_perm).
  apply (strict_sorted_unique pe_offset); [|done|done].
  assert (StronglySorted (λ x y, offset_leb x y = true) s) as Hle.
  { apply sorted_by_sorted; unfold offset_leb; intros; lia. }
  assert (NoDup (pe_offset <$> s)) as Hnd.
  { rewrite (fmap_Permutation pe_offset _ _ Hp). clear -Hst.
    induction Hst as [|e es Hs IH Hx]; csimpl; constructor; [|done].
    intros (e' & Heq & Hin)%list_elem_of_fmap. rewrite Forall_forall in Hx. specialize (Hx _ Hin). simpl in Hx. lia. }
  clear -Hle Hnd. induction Hle as [|e s Hs IH Hx]; csimpl in *; constructor; apply NoDup_cons in Hnd as [Hn Hnd].
  - by apply IH.
  - rewrite Forall_forall in *. intros y Hy. specialize (Hx y Hy). unfold offset_leb in Hx.
    assert (pe_offset e ≠ pe_offset y) by (intros Heq; apply Hn; rewrite Heq; by apply list_elem_of_fmap_2).
    lia.
Qed.

Context (sha256_length : ∀ data, length (sha256 data) = 32%nat).

(** Packing the sorted entries always succeeds and reads back. *)
Lemma footer_roundtrip cs w :
  writer_inv cs w → Forall chunk_ok cs →
  ∃ recs, pack_all pack_pack_entry (sorted_by entry_leb (pw_entries w)) = Ok recs ∧
    length (concat recs) = (length (pw_entries w) * 49)%nat ∧
    unpack_records 49 unpack_pack_entry (concat recs) = sorted_by entry_leb (pw_entries w).
Proof.
  intros [Hh Hs Ho Hd Hst Hf] Hcs.
  set (P := λ e, pack_entry_ok (pack_size w) e ∧ length (pe_id e) = 32%nat).
  assert (pack_size w ≤ MAX_PACK_BYTES) as Hmax by (unfold zlen, PACK_ENTRY_SIZE, PACK_TRAILER_SIZE in Hf; lia).
  assert (Forall P (sorted_by entry_leb (pw_entries w))) as HP.
  { rewrite sorted_by_perm. apply Forall_and. split; [done|]. clear -Hh Hcs.
    induction Hh as [|c e cs es [Hi _ _ _ _] _ IH]; constructor; apply Forall_cons in Hcs as [[] ?];
      [by rewrite Hi|by apply IH]. }
  assert (∃ recs, pack_all pack_pack_entry (sorted_by entry_leb (pw_entries w)) = Ok recs) as [recs Hr].
  { induction HP as [|e es [He Hi] _ IH]; [by exists []|].
    destruct (pack_entry_roundtrip (pack_size w) e Hmax He Hi) as (b & Hb & _), IH as [bs Hbs].
    exists (b :: bs). simpl. by rewrite Hb, Hbs. }
  destruct (records_roundtrip 49 pack_pack_entry unpack_pack_entry P
    (sorted_by entry_leb (pw_entries w)) recs) as [Hl Hu]; [lia| |done|done|].
  - intros e b Eb [He Hi]. destruct (pack_entry_roundtrip (pack_size w) e Hmax He Hi) as (b' & Hb & ?). rewrite Hb in Eb. by injection Eb as <-.
  - exists recs. rewrite (Permutation_length (sorted_by_perm entry_leb _)) in Hl. done.
Qed.

Lemma trailer_fields (mid footer flen count digest : bytes) :
  length flen = 8%nat → length count = 4%nat → length digest = 32%nat →
  let tail := mid ++ footer ++ flen ++ count ++ digest ++ TRAILER_MAGIC in
  let at_ := blen mid + blen footer in
  blen tail = at_ + 48 ∧ slice at_ (at_ + 8) tail = flen ∧
  slice (at_ + 8) (at_ + 12) tail = count ∧ slice (at_ + 12) (at_ + 44) tail = digest ∧
  slice (at_ + 44) (at_ + 48) tail = TRAILER_MAGIC ∧ slice (at_ - blen footer) at_ tail = footer.
Proof.
  intros Hf Hc Hd tail at_. unfold tail, at_.
  split_and!.
  - unfold blen. rewrite !length_app. simpl. lia.
  - rewrite app_assoc. apply slice_mid; [by rewrite blen_app|unfold blen; lia].
  - rewrite (app_assoc mid), (app_assoc (mid ++ _)). apply slice_mid; rewrite ?blen_app; unfold blen; lia.
  - rewrite (app_assoc mid), (app_assoc (mid ++ _)), (app_assoc (_ ++ flen)).
    apply slice_mid; rewrite ?blen_app; unfold blen; lia.
  - rewrite (app_assoc mid), (app_assoc (mid ++ _)), (app_assoc (_ ++ flen)), (app_assoc (_ ++ count)).
    apply slice_last; rewrite ?blen_app; unfold blen; simpl; lia.
  - apply slice_mid; lia.
Qed.

Lemma ids_of_entries cs w : writer_inv cs w → pe_id <$> pw_entries w = ci_id <$> cs.
Proof. intros [Hh _ _ _ _ _]. induction Hh as [|c e cs es [Hi _ _ _ _] _ IH]; csimpl; [done|]. by rewrite Hi, IH. Qed.

Lemma parse_written cs w pre mid footer :
  let n := Z.of_nat (length (pw_entries w)) in
  writer_inv cs w → NoDup (pe_id <$> pw_entries w) → pw_stream w = pre ++ mid →
  blen footer = n * PACK_ENTRY_SIZE →
  unpack_records 49 unpack_pack_entry footer = sorted_by entry_leb (pw_entries w) →
  parse_pack_tail (mid ++ footer ++ le 8 (blen footer) ++ le 4 n ++ sha256 footer ++ TRAILER_MAGIC)
    (pack_size w + blen footer + PACK_TRAILER_SIZE)
  = Ok (Some (sorted_by entry_leb (pw_entries w))).
Proof.
  intros n [Hh Hs Ho Hd Hst Hf] Hnd Hsplit Hfl Hun. unfold zlen in Hf. fold n in Hf.
  unfold PACK_ENTRY_SIZE, PACK_TRAILER_SIZE, MAX_PACK_BYTES, pack_size, PACK_HEADER_SIZE in *.
  assert (blen mid ≤ 16 + pw_data w) as Hmid.
  { rewrite <-Hst, Hsplit, blen_app. pose proof (blen_nonneg pre). lia. }
  pose proof (blen_nonneg mid) as Hmid0.
  destruct (trailer_fields mid footer (le 8 (blen footer)) (le 4 n) (sha256 footer))
    as (T1 & T2 & T3 & T4 & T5 & T6); [apply le_length|apply le_length|apply sha256_length|].
  unfold parse_pack_tail, PACK_ENTRY_SIZE, PACK_TRAILER_SIZE, MAX_PACK_BYTES, PACK_HEADER_SIZE.
  set (tail := mid ++ _) in *. rewrite T1.
  replace (blen mid + blen footer + 48 - 48) with (blen mid + blen footer) by lia.
  rewrite T2, T3, T4, T5, !un_le_le by (simpl; lia). apply raise_if_Ok. split; [lia|].
  rewrite bool_decide_true by done. apply raise_if_Ok. split; [lia|].
  rewrite (proj2 (Z.ltb_ge _ _)) by lia. rewrite T6, Hun, bool_decide_true by done. cbn [negb raise_if].
  rewrite sorted_ids_ascend.
  - cbn [negb raise_if]. rewrite (sort_offsets_back (16 + pw_data w)) by done.
    rewrite check_pack_entries_complete; [done|..|done].
    + eapply Forall_impl; [exact Ho|]. intros e. apply pack_entry_ok_mono. unfold pack_size, PACK_HEADER_SIZE. lia.
    + eapply Forall_impl; [exact Ho|]. intros e [[? _] _ _ _]. done.
  - apply sorted_by_sorted; [apply entry_leb_total|apply entry_leb_trans].
  - by rewrite sorted_by_perm.
Qed.

(** C35. Writing a pack and reading its tail recovers every entry: for distinct
    chunks that were all accepted, closing succeeds, the pack is within its size
    limit, parsing any suffix that holds the footer returns the entries sorted
    by id, and each chunk's bytes are in the stream where its entry says. *)
Theorem pack_roundtrip cs w pre mid :
  Forall chunk_ok cs → NoDup (ci_id <$> cs) → add_all cs = Ok w → pw_stream w = pre ++ mid →
  ∃ stream digest size, pack_finish w = Ok (stream, digest, size) ∧
    size = blen stream ∧ size ≤ MAX_PACK_BYTES ∧ digest = hex_of (sha256 stream) ∧
    parse_pack_tail (drop (length pre) stream) size = Ok (Some (sorted_by entry_leb (pw_entries w))) ∧
    Forall2 (holds stream) cs (pw_entries w).
Proof.
  intros Hcs Hnd E Hsplit. pose proof (add_all_inv _ _ Hcs E) as Hinv.
  destruct (footer_roundtrip cs w Hinv Hcs) as (recs & Hrecs & Hlen & Hun).
  rewrite <-(ids_of_entries _ _ Hinv) in Hnd. pose proof Hinv as [Hh Hs Ho Hd Hst Hf].
  assert (blen (concat recs) = Z.of_nat (length (pw_entries w)) * PACK_ENTRY_SIZE) as Hfl
    by (unfold blen, PACK_ENTRY_SIZE; lia).
  pose proof (parse_written cs w pre mid (concat recs) Hinv Hnd Hsplit Hfl Hun) as Hparse.
  unfold zlen, PACK_ENTRY_SIZE, PACK_TRAILER_SIZE, MAX_PACK_BYTES, pack_size, PACK_HEADER_SIZE in *.
  unfold pack_finish. rewrite Hrecs. cbn [res_bind]. unfold zlen.
  rewrite !pack_uint_total by (simpl; lia). cbn [res_bind]. rewrite pack_bytes_exact by apply sha256_length.
  eexists _, _, _. split_and!; [done|..|done| |].
  - assert (∀ k v, blen (le k v) = Z.of_nat k) as Hle by (intros; unfold blen; by rewrite le_length).
    assert (∀ x, blen (sha256 x) = 32) as Hsha by (intros; unfold blen; by rewrite sha256_length).
    rewrite !blen_app, !Hle, Hsha, Hst. change (blen TRAILER_MAGIC) with 4.
    unfold pack_size, PACK_HEADER_SIZE, PACK_TRAILER_SIZE. lia.
  - unfold pack_size, PACK_HEADER_SIZE, PACK_TRAILER_SIZE. lia.
  - rewrite Hsplit, <-!app_assoc, drop_app_length. exact Hparse.
  - eapply Forall2_impl; [exact Hh|]. intros. by apply holds_app.
Qed.

(** ** Verified decoding of one stored chunk *)

(** [zstd_decompress(payload, size)]: exactly [size] bytes, or ValueError. *)
Context (zstd_decompress : bytes → Z → res bytes).

Definition decode_chunk (payload : bytes) (ulen flags : Z) (chunk_id : bytes) : res bytes :=
  (let! data :=
     if flags =? ZSTD then zstd_decompress payload ulen
     else if (flags =? RAW) && (blen payload =? ulen) then Ok payload
     else Raise (ValueError "invalid chunk encoding") in
   raise_if (negb (bool_decide (sha256 data = chunk_id)))
     (ValueError "chunk content identity mismatch") (Ok data))%py.

Definition compressed (flags : Z) : bool := negb (Z.land flags 1 =? 0).

Definition store_encoding (payload : bytes) (ulen flags : Z) (keep : bool) : res (bytes * Z) :=
  if compressed flags && (keep || ((BLOCK <=? ulen) && (blen payload * 100 <=? ulen * 97)))
  then Ok (payload, ZSTD)
  else (let! data := if compressed flags then zstd_decompress payload ulen else Ok payload in
        Ok (data, RAW))%py.

Context (zstd_exact : ∀ payload size data, zstd_decompress payload size = Ok data → blen data = size).

(** A stored chunk is never read back wrong: any bytes [decode_chunk]
    returns have the declared length and the digest that names the chunk, and
    re-encoding a chunk for storage, whichever encoding it picks, decodes to the
    same content. *)
Theorem stored_chunk_verified payload ulen flags keep chunk_id data :
  (if compressed flags then zstd_decompress payload ulen else Ok payload) = Ok data →
  blen data = ulen → sha256 data = chunk_id →
  (∃ stored f, store_encoding payload ulen flags keep = Ok (stored, f) ∧
     decode_chunk stored ulen f chunk_id = Ok data) ∧
  (∀ p f d, decode_chunk p ulen f chunk_id = Ok d → sha256 d = chunk_id ∧ blen d = ulen).
Proof.
  intros Hdata Hlen Hsha. split.
  - unfold store_encoding. rewrite Hdata. destruct (compressed flags) eqn:Ec.
    + destruct (keep || _); eexists _, _; (split; [done|]); unfold decode_chunk; simpl.
      * rewrite Hdata. simpl. by rewrite bool_decide_true.
      * rewrite (proj2 (Z.eqb_eq _ _)) by done. simpl. by rewrite bool_decide_true.
    + eexists _, _. split; [done|]. unfold decode_chunk. simpl.
      rewrite (proj2 (Z.eqb_eq _ _)) by done. simpl. by rewrite bool_decide_true.
  - intros p f d. unfold decode_chunk. intros H. apply res_bind_Ok in H as (x & Hx & H).
    bools. simplify_eq. split; [done|]. destruct (f =? ZSTD); [by apply zstd_exact in Hx|].
    destruct ((f =? RAW) && _) eqn:E; simplify_eq. by bools.
Qed.

(** ** Blob tail tables: "<8sI", "<QI32s?" *)

Definition TAIL_MAGIC : bytes :=
  [Byte.x55; Byte.x43; Byte.x54; Byte.x41; Byte.x49; Byte.x4c; Byte.x00; Byte.x01].
Definition TAIL_HEADER_SIZE : Z := 12.
Definition TAIL_ENTRY_SIZE : Z := 45.

(** (blob offset, size, chunk id, zstd) *)
Abbreviation tail_entry := (Z * Z * bytes * bool)%type.

Definition pack_tail_entry (e : tail_entry) : res bytes :=
  let '(o, s, i, z) := e in
  (let! ob := pack_uint 8 o in
   let! sb := pack_uint 4 s in
   Ok (ob ++ sb ++ pack_bytes 32 i ++ [if (z : bool) then Byte.x01 else Byte.x00]))%py.

Definition unpack_tail_entry (bs : bytes) : tail_entry :=
  (un_le (slice 0 8 bs), un_le (slice 8 12 bs), slice 12 44 bs, negb (un_le (slice 44 45 bs) =? 0)).

(** The chunks fill the blob from 0: each starts where the previous ended. *)
Fixpoint contiguous (position : Z) (layout : list tail_entry) : bool :=
  match layout with
  | [] => true
  | e :: layout => (e.1.1.1 =? position) && contiguous (e.1.1.1 + e.1.1.2) layout
  end.

Definition encode_tail (layout : list tail_entry) (tail : bytes) : res bytes :=
  (let! count := pack_uint 4 (zlen layout) in
   let! recs := pack_all pack_tail_entry layout in
   Ok ((TAIL_MAGIC ++ count) ++ concat recs ++ tail))%py.

Definition decode_tail_table (payload : bytes) : res (list tail_entry * Z) :=
  raise_if (blen payload <? TAIL_HEADER_SIZE)
    (StructError "unpack_from requires a buffer of at least 12 bytes")
  (let magic := slice 0 8 payload in
   let count := un_le (slice 8 12 payload) in
   let table := TAIL_HEADER_SIZE + count * TAIL_ENTRY_SIZE in
   raise_if (negb (bool_decide (magic = TAIL_MAGIC)) || (MAX_MAP_ENTRIES <? count)
             || (blen payload <? table)) (ValueError "invalid nydus blob tail")
   (let layout := unpack_records 45 unpack_tail_entry (slice TAIL_HEADER_SIZE table payload) in
    raise_if (negb (contiguous 0 layout)) (ValueError "a blob's chunks do not fill it from 0")
      (Ok (layout, table)))).

Lemma pack_tail_entry_inv e bs :
  pack_tail_entry e = Ok bs → length e.1.2 = 32%nat → length bs = 45%nat ∧ unpack_tail_entry bs = e.
Proof.
  destruct e as [[[o s] i] z]. unfold pack_tail_entry. simpl. intros E Hi.
  apply res_bind_Ok in E as (ob & Eo & E). apply res_bind_Ok in E as (sb & Es & [= <-]).
  apply pack_uint_Ok in Eo as (Ho & Hov & _), Es as (Hs & Hsv & _).
  rewrite pack_bytes_exact by done. split; [rewrite !length_app; simpl; lia|].
  unfold unpack_tail_entry. f_equal; [f_equal; [f_equal|]|].
  - etrans; [apply f_equal, (slice_mid [] ob); unfold blen; simpl; lia|done].
  - by rewrite (slice_mid ob sb) by (unfold blen; lia).
  - rewrite app_assoc, slice_mid; [done|..]; unfold blen; rewrite ?length_app; lia.
  - rewrite (app_assoc ob), (app_assoc (ob ++ sb)), slice_last; [by destruct z|..];
      unfold blen; rewrite ?length_app; simpl; lia.
Qed.

(** A blob's tail object gives its chunk table back: for any contiguous
    layout within the entry limit, decoding what was encoded returns the same
    layout and the offset at which the blob's own tail bytes start. *)
Theorem blob_tail_roundtrip layout tail bs :
  contiguous 0 layout = true → zlen layout ≤ MAX_MAP_ENTRIES →
  Forall (λ e, length e.1.2 = 32%nat) layout → encode_tail layout tail = Ok bs →
  ∃ table, decode_tail_table bs = Ok (layout, table) ∧ drop (Z.to_nat table) bs = tail.
Proof.
  intros Hc Hn Hids E. unfold encode_tail in E.
  apply res_bind_Ok in E as (cnt & Ecnt & E). apply res_bind_Ok in E as (recs & Er & E).
  assert (bs = (TAIL_MAGIC ++ cnt) ++ concat recs ++ tail) as -> by congruence.
  apply pack_uint_Ok in Ecnt as (Lc & Vc & _).
  destruct (records_roundtrip 45 pack_tail_entry unpack_tail_entry (λ e, length e.1.2 = 32%nat) layout recs)
    as [Hl Hu]; [lia|apply pack_tail_entry_inv|done|done|].
  unfold zlen in *. set (n := length layout) in *.
  assert (blen (concat recs) = Z.of_nat n * 45) as Hb by (unfold blen; lia).
  assert (blen (TAIL_MAGIC ++ cnt) = 12) as Hh by (unfold blen; rewrite length_app; simpl; lia).
  pose proof (blen_nonneg tail).
  exists (12 + Z.of_nat n * 45). unfold decode_tail_table, TAIL_HEADER_SIZE, TAIL_ENTRY_SIZE.
  assert (blen ((TAIL_MAGIC ++ cnt) ++ concat recs ++ tail) = 12 + Z.of_nat n * 45 + blen tail) as ->
    by (rewrite blen_app, Hh, blen_app, Hb; lia). split.
  - rewrite (proj2 (Z.ltb_ge _ 12)) by lia. cbn [raise_if].
    assert (slice 8 12 ((TAIL_MAGIC ++ cnt) ++ concat recs ++ tail) = cnt) as ->.
    { rewrite <-app_assoc. apply slice_mid; unfold blen; simpl; lia. }
    rewrite Vc. assert (slice 0 8 ((TAIL_MAGIC ++ cnt) ++ concat recs ++ tail) = TAIL_MAGIC) as ->.
    { rewrite <-app_assoc. by apply (slice_mid []). }
    rewrite bool_decide_true by done. apply raise_if_Ok. split; [lia|].
    rewrite (slice_mid (TAIL_MAGIC ++ cnt)) by lia. by rewrite Hu, Hc.
  - rewrite app_assoc. replace (Z.to_nat _) with (length ((TAIL_MAGIC ++ cnt) ++ concat recs));
      [apply drop_app_length|]. unfold blen in *. rewrite length_app. lia.
Qed.
End packs.

(** ** Witnesses: a concrete digest function stands for SHA-256 *)

Definition demo_sha (data : bytes) : bytes := pack_bytes 32 (le 8 (un_le data)).
Lemma demo_sha_length data : length (demo_sha data) = 32%nat.
Proof. apply pack_bytes_length. Qed.

(** A stand-in for zstd: the payload padded with zeros to the declared size. *)
Definition demo_zstd (payload : bytes) (size : Z) : res bytes :=
  raise_if (size <? blen payload) (ValueError "too long")
    (Ok (payload ++ replicate (Z.to_nat (size - blen payload)) Byte.x00)).
Lemma demo_zstd_exact payload size data : demo_zstd payload size = Ok data → blen data = size.
Proof.
  unfold demo_zstd. intros H. bools. simplify_eq. unfold blen in *. rewrite length_app, length_replicate. lia.
Qed.

Definition demo_chunks : list chunk_in :=
  [mkChunkIn (demo_id Byte.x09) [Byte.x01; Byte.x02] 2 RAW;
   mkChunkIn (demo_id Byte.x03) [Byte.x05] 9 ZSTD].
Definition demo_writer : PackWriter :=
  match add_all demo_chunks with Ok w => w | Raise _ => writer_init end.

Lemma demo_chunks_ok : Forall chunk_ok demo_chunks.
Proof. repeat constructor; by vm_compute. Qed.

Lemma pack_roundtrip_witness :
  ∃ stream digest size, pack_finish demo_sha demo_writer = Ok (stream, digest, size) ∧
    parse_pack_tail demo_sha stream size = Ok (Some (sorted_by entry_leb (pw_entries demo_writer))).
Proof.
  destruct (pack_roundtrip demo_sha demo_sha_length demo_chunks demo_writer [] (pw_stream demo_writer))
    as (stream & digest & size & H1 & _ & _ & _ & H2 & _);
    [exact demo_chunks_ok|apply (bool_decide_unpack _); by vm_compute|by vm_compute|done|].
  exists stream, digest, size. split; [exact H1|]. exact H2.
Defined.

Lemma pack_tail_sound_witness :
  ∃ stream size entries, parse_pack_tail demo_sha stream size = Ok (Some entries) ∧ length entries = 2%nat ∧
    Forall (pack_entry_ok (size - zlen entries * PACK_ENTRY_SIZE - PACK_TRAILER_SIZE)) entries.
Proof.
  destruct (pack_finish demo_sha demo_writer) as [[[stream digest] size]|e] eqn:E; [|by vm_compute in E].
  assert (parse_pack_tail demo_sha stream size = Ok (Some (sorted_by entry_leb (pw_entries demo_writer)))) as Hp.
  { injection E as <- <- <-. by vm_compute. }
  exists stream, size, (sorted_by entry_leb (pw_entries demo_writer)).
  split; [exact Hp|]. split; [by vm_compute|]. by apply (pack_tail_sound demo_sha stream size).
Defined.

Lemma stored_chunk_verified_witness :
  ∃ stored f, store_encoding demo_zstd [Byte.x01] 5 1 false = Ok (stored, f) ∧
    decode_chunk demo_sha demo_zstd stored 5 f (demo_sha [Byte.x01; Byte.x00; Byte.x00; Byte.x00; Byte.x00])
    = Ok [Byte.x01; Byte.x00; Byte.x00; Byte.x00; Byte.x00].
Proof.
  by apply (stored_chunk_verified demo_sha demo_zstd demo_zstd_exact [Byte.x01] 5 1 false).
Defined.

Lemma blob_tail_roundtrip_witness :
  ∃ bs table, encode_tail [(0, 5, demo_id Byte.x01, true); (5, 7, demo_id Byte.x02, false)] [Byte.x61] = Ok bs ∧
    decode_tail_table bs = Ok ([(0, 5, demo_id Byte.x01, true); (5, 7, demo_id Byte.x02, false)], table).
Proof.
  destruct (encode_tail [(0, 5, demo_id Byte.x01, true); (5, 7, demo_id Byte.x02, false)] [Byte.x61])
    as [bs|e] eqn:E; [|by vm_compute in E].
  destruct (blob_tail_roundtrip [(0, 5, demo_id Byte.x01, true); (5, 7, demo_id Byte.x02, false)] [Byte.x61] bs)
    as (table & Ht & _); [done|by vm_compute|by repeat constructor|exact E|].
  exists bs, table. split; [done|exact Ht].
Defined.
