(* ===== verification/PlacementAccounting.v ===== *)
(** * Placement resource accounting (ucloud_sandboxes/placement_accounting.py)

    What the gateway charges a worker for routes and reservations its heartbeat
    does not show yet.  Strings are ASCII; a route's [spec] is decoded JSON. *)
From S2P Require Import Prelude PyFloat Json PyString Resources.
Local Open Scope Z_scope.

(** ** Routes and reservations *)

(** routing.py [SandboxRoute] *)
Record SandboxRoute := mkRoute {
  sr_sandbox_id : string;
  sr_node_id : string;
  sr_job_id : string;
  sr_node_url : string;
  sr_resources : ResourceQuantity;
  sr_spec : json;
  sr_state : string;
  sr_generation : Z;
  sr_create_operation_id : string;
  sr_spec_hash : string;
  sr_delete_operation_id : string;
  sr_node_epoch : string;
  sr_activity_epoch : Z;
  sr_worker_state : string;
  sr_storage_schema : string;
  sr_snapshot_manifest_digest : string;
  sr_snapshot_repository : string;
  sr_snapshot_tag : string;
  sr_storage_snapshot : dict string json;
  sr_created_at : string;
  sr_updated_at : string
}.

Record PlacementReservation := mkReserved {
  pr_reservation_id : string;
  pr_node_id : string;
  pr_job_id : string;
  pr_node_url : string;
  pr_resources : ResourceQuantity;
  pr_image : string
}.

Inductive PlacementRecord := Route (r : SandboxRoute) | Reserved (p : PlacementReservation).

Definition rec_node_id (p : PlacementRecord) : string :=
  match p with Route r => sr_node_id r | Reserved r => pr_node_id r end.
Definition rec_job_id (p : PlacementRecord) : string :=
  match p with Route r => sr_job_id r | Reserved r => pr_job_id r end.
Definition rec_node_url (p : PlacementRecord) : string :=
  match p with Route r => sr_node_url r | Reserved r => pr_node_url r end.

(** storage_native_migration.py *)
Definition SUPPORTED_SCHEMAS : list string := ["storage-native-v1"; "storage-native-v3"].
Definition supported_schema (s : string) : bool := bool_decide (s ∈ SUPPORTED_SCHEMAS).

(** [(state or "unknown").lower()] *)
Definition state_or_unknown (s : string) : string :=
  lower (if nonempty s then s else "unknown").

Definition is_portable_parked_route (r : SandboxRoute) : bool :=
  bool_decide (state_or_unknown (sr_state r) = "parked")
  && supported_schema (sr_storage_schema r)
  && negb (bool_decide (length (sr_storage_snapshot r) = 0%nat))
  && nonempty (sr_snapshot_manifest_digest r) && nonempty (sr_snapshot_repository r)
  && nonempty (sr_snapshot_tag r).

Definition node_url_text (h : NodeHeartbeat) : string := default EmptyString (node_url h).

Definition route_targets_node (p : PlacementRecord) (h : NodeHeartbeat) : bool :=
  (nonempty (rec_node_id p) && bool_decide (rec_node_id p = node_id h))
  || (nonempty (rec_job_id p) && bool_decide (rec_job_id p = job_id h))
  || (nonempty (rec_node_url p) && nonempty (node_url_text h)
      && bool_decide (rstrip_slash (rec_node_url p) = rstrip_slash (node_url_text h))).

(** [_placement_identity]: the generation is kept a number instead of [str] of it. *)
Inductive placement_id :=
| SandboxIdentity (sandbox_id : string) (generation : Z) (create_operation_id : string)
| ReservationIdentity (reservation_id : string).
#[export] Instance placement_id_eq_dec : EqDecision placement_id.
Proof. solve_decision. Defined.

Definition placement_identity (p : PlacementRecord) : placement_id :=
  match p with
  | Route r => SandboxIdentity (sr_sandbox_id r) (sr_generation r) (sr_create_operation_id r)
  | Reserved r => ReservationIdentity (pr_reservation_id r)
  end.

Abbreviation incarnation_key := (string * Z * string * string)%type.

Definition item_key (i : SandboxInventoryEntry) : incarnation_key :=
  (inv_sandbox_id i, inv_generation i, inv_spec_hash i, inv_operation_id i).
Definition route_key (r : SandboxRoute) : incarnation_key :=
  (sr_sandbox_id r, sr_generation r, sr_spec_hash r, sr_create_operation_id r).

(** The dict comprehension keeps the last item of a key ... *)
Definition inventory_last (h : NodeHeartbeat) : dict incarnation_key SandboxInventoryEntry :=
  foldl (λ d i, dset d (item_key i) i) [] (inventory h).
(** ... and [setdefault] the first. *)
Definition inventory_first (h : NodeHeartbeat) : dict incarnation_key SandboxInventoryEntry :=
  foldl (λ d i, dsetdefault d (item_key i) i) [] (inventory h).

(** The slots one route or reservation charges, given the observed inventory. *)
Definition record_slots (inv : dict incarnation_key SandboxInventoryEntry) (p : PlacementRecord) : Z :=
  match p with
  | Route r =>
      if bool_decide (sr_worker_state r = "detached") || bool_decide (lower (sr_state r) = "parked")
      then 0
      else match dget inv (route_key r) with
           | Some observed =>
               if bool_decide (lower (sr_state r) ∈ ["waking"; "running"])
                  && bool_decide (inv_state observed = "parked") then 1 else 0
           | None => if 0 <? disk_mb (sr_resources r) then 1 else 0
           end
  | Reserved r => if 0 <? disk_mb (pr_resources r) then 1 else 0
  end.

(** The loop both accounting functions share: skip records of other nodes and
    identities already seen. *)
Fixpoint counted (h : NodeHeartbeat) (seen : list placement_id) (ps : list PlacementRecord) :
    list PlacementRecord :=
  match ps with
  | [] => []
  | p :: ps =>
      if negb (route_targets_node p h) || bool_decide (placement_identity p ∈ seen)
      then counted h seen ps
      else p :: counted h (placement_identity p :: seen) ps
  end.

Definition node_reserved_storage_device_slots (h : NodeHeartbeat) (ps : list PlacementRecord) : Z :=
  foldl (λ reserved p, reserved + record_slots (inventory_last h) p) 0 (counted h [] ps).

Definition node_has_storage_device_capacity (h : NodeHeartbeat) (ps : list PlacementRecord) : bool :=
  match runtime_metrics h with
  | Some m =>
      if negb (bool_decide (STORAGE_NATIVE_CAPABILITY ∈ capabilities h))
         || (storage_ublk_max_devices m <=? 0)
      then true
      else storage_ublk_active_devices m + node_reserved_storage_device_slots h ps
           <? storage_ublk_max_devices m
  | None => true
  end.

(** [_dynamic_split_spec]: (disk_mb, memory_mb) *)
Definition dynamic_split_spec (spec : json) (h : NodeHeartbeat) : option (Z * Z) :=
  match runtime_metrics h with
  | None => None
  | Some m =>
      if (storage_workspace_grant_mb m =? 0) && (storage_memory_idle_claim_mb m =? 0) then None
      else
        let spec := match spec with JObj d => d | _ => [] end in
        match jget spec "parkable", jget spec "disk_mb", jget spec "memory_mb" with
        | JBool true, JInt disk, JInt memory => Some (disk, memory)
        | _, _, _ => None
        end
  end.

(** [x or y] on ints *)
Definition int_or (x y : Z) : Z := if x =? 0 then y else x.

(** [_route_initial_claim_mb] of a route's resources and spec. *)
Definition route_initial_claim_mb (resources : ResourceQuantity) (spec : json) (h : NodeHeartbeat) : Z :=
  let full := disk_mb resources in
  match dynamic_split_spec spec h, runtime_metrics h with
  | Some (disk, _), Some m =>
      let workspace := Z.min disk (int_or (storage_workspace_grant_mb m) disk) in
      let memory := int_or (storage_memory_idle_claim_mb m) (Z.max 0 (full - disk)) in
      Z.min full (workspace + memory)
  | _, _ => full
  end.

Definition route_workspace_claim_mb (resources : ResourceQuantity) (spec : json) (h : NodeHeartbeat) : Z :=
  match dynamic_split_spec spec h with
  | None => disk_mb resources
  | Some (disk, _) => Z.min (disk_mb resources) disk
  end.

(** What one record adds to the reserved resources. *)
Definition record_resources (h : NodeHeartbeat) (inv : dict incarnation_key SandboxInventoryEntry)
    (p : PlacementRecord) : option ResourceQuantity :=
  match p with
  | Reserved r => Some (pr_resources r)
  | Route r =>
      let published := supported_schema (sr_storage_schema r)
                       && nonempty (sr_snapshot_manifest_digest r) in
      if bool_decide (sr_worker_state r = "detached") && is_portable_parked_route r then None
      else match dget inv (route_key r) with
           | Some item =>
               if bool_decide (lower (sr_state r) = "waking")
                  && bool_decide (state_or_unknown (inv_state item) = "parked")
               then Some (mkRQ (vcpu (sr_resources r)) (memory_mb (sr_resources r))
                      (if published then route_workspace_claim_mb (sr_resources r) (sr_spec r) h else 0))
               else None
           | None =>
               if bool_decide (lower (sr_state r) = "parked") && published then None
               else Some (mkRQ (vcpu (sr_resources r)) (memory_mb (sr_resources r))
                      (route_initial_claim_mb (sr_resources r) (sr_spec r) h))
           end
  end.

Definition node_reserved_route_resources (h : NodeHeartbeat) (ps : list PlacementRecord) :
    ResourceQuantity :=
  foldl (λ acc p, match record_resources h (inventory_first h) p with
                  | Some q => rq_add acc q
                  | None => acc
                  end) rq_zero (counted h [] ps).

Definition node_available_resources (h : NodeHeartbeat) (ps : list PlacementRecord) : ResourceQuantity :=
  let reserved := node_reserved_route_resources h ps in
  let free := free_resources h in
  mkRQ (fmax (of_int 0) (fsub (vcpu free) (vcpu reserved)))
       (Z.max 0 (memory_mb free - memory_mb reserved))
       (if node_has_storage_device_capacity h ps
        then Z.max 0 (disk_mb free - disk_mb reserved) else 0).

(** ** The route index

    [id(route)] is the object's identity; a record carries it as a number. *)

Abbreviation object := (nat * PlacementRecord)%type.

Record PlacementRouteIndex := mkIndex {
  by_node_id : dict string (list object);
  by_job_id : dict string (list object);
  by_node_url : dict string (list object)
}.

(** [d.setdefault(key, []).append(x)], skipped without a key. *)
Definition index_add (key : object → option string) (d : dict string (list object)) (x : object) :
    dict string (list object) :=
  match key x with
  | Some k => dset d k (default [] (dget d k) ++ [x])
  | None => d
  end.

Definition some_nonempty (s : string) : option string := if nonempty s then Some s else None.
Definition node_id_key (x : object) : option string := some_nonempty (rec_node_id x.2).
Definition job_id_key (x : object) : option string := some_nonempty (rec_job_id x.2).
Definition node_url_key (x : object) : option string :=
  rstrip_slash <$> some_nonempty (rec_node_url x.2).

Definition placement_route_index (routes : list object) : PlacementRouteIndex :=
  mkIndex (foldl (index_add node_id_key) [] routes) (foldl (index_add job_id_key) [] routes)
    (foldl (index_add node_url_key) [] routes).

(** The nested loops with their [seen] set of identities. *)
Fixpoint dedup_objects (seen : list nat) (xs : list object) : list object :=
  match xs with
  | [] => []
  | x :: xs => if bool_decide (x.1 ∈ seen) then dedup_objects seen xs
               else x :: dedup_objects (x.1 :: seen) xs
  end.

Definition routes_for (idx : PlacementRouteIndex) (h : NodeHeartbeat) : list object :=
  dedup_objects []
    (default [] (dget (by_node_id idx) (node_id h))
     ++ default [] (dget (by_job_id idx) (job_id h))
     ++ default [] (dget (by_node_url idx) (rstrip_slash (node_url_text h)))).

(** ** Properties *)

Lemma index_get key routes k :
  default [] (dget (foldl (index_add key) [] routes) k) = filter (λ x, key x = Some k) routes.
Proof.
  induction routes as [|x routes IH] using rev_ind; [done|].
  rewrite foldl_app, filter_app. simpl. unfold index_add at 1.
  rewrite filter_cons, filter_nil. destruct (key x) as [k'|] eqn:E.
  - destruct (decide (k' = k)) as [->|Hne].
    + rewrite dget_dset_eq, decide_True by done. simpl. by rewrite IH.
    + rewrite dget_dset_ne, decide_False by congruence. by rewrite app_nil_r.
  - rewrite decide_False by done. by rewrite app_nil_r.
Qed.

Lemma dedup_spec seen xs x :
  x ∈ dedup_objects seen xs → x ∈ xs ∧ x.1 ∉ seen.
Proof.
  revert seen. induction xs as [|y xs IH]; intros seen; simpl; [intros []%elem_of_nil|].
  case_bool_decide as Hy.
  - intros [? ?]%IH. split; [by right|done].
  - intros [->|[? Hn]%IH]%elem_of_cons; [split; [left|done]|].
    apply not_elem_of_cons in Hn as [_ Hn]. split; [by right|done].
Qed.
Lemma dedup_NoDup seen xs : NoDup (dedup_objects seen xs).*1.
Proof.
  revert seen. induction xs as [|y xs IH]; intros seen; simpl; [constructor|].
  case_bool_decide; [apply IH|]. csimpl. constructor; [|apply IH].
  intros (z & Hz & Hin)%list_elem_of_fmap. apply dedup_spec in Hin as [_ Hn].
  apply Hn. rewrite <-Hz. left.
Qed.
Lemma dedup_complete seen xs x :
  x ∈ xs → x.1 ∉ seen → x.1 ∈ (dedup_objects seen xs).*1.
Proof.
  revert seen. induction xs as [|y xs IH]; intros seen Hx Hs; [by apply elem_of_nil in Hx|]. simpl.
  case_bool_decide as Hy.
  - apply elem_of_cons in Hx as [->|Hx]; [done|by apply IH].
  - csimpl. apply elem_of_cons. destruct (decide (x.1 = y.1)) as [E|E]; [by left|]. right.
    apply elem_of_cons in Hx as [->|Hx]; [done|].
    apply IH; [done|]. by apply not_elem_of_cons.
Qed.

Lemma elem_of_routes_for routes h x :
  x ∈ routes_for (placement_route_index routes) h →
  x ∈ routes ∧ (node_id_key x = Some (node_id h) ∨ job_id_key x = Some (job_id h)
                ∨ node_url_key x = Some (rstrip_slash (node_url_text h))).
Proof.
  unfold routes_for, placement_route_index. simpl. rewrite !index_get.
  intros [Hx _]%dedup_spec. rewrite !elem_of_app, !list_elem_of_filter in Hx. tauto.
Qed.

Lemma some_nonempty_eq s k : some_nonempty s = Some k ↔ nonempty s = true ∧ s = k.
Proof. unfold some_nonempty. destruct (nonempty s); naive_solver. Qed.

Lemma targets_keys x h :
  route_targets_node x.2 h = true ↔
  node_id_key x = Some (node_id h) ∨ job_id_key x = Some (job_id h) ∨
  (nonempty (node_url_text h) = true ∧ node_url_key x = Some (rstrip_slash (node_url_text h))).
Proof.
  unfold route_targets_node, node_id_key, job_id_key, node_url_key.
  rewrite !orb_true_iff, !andb_true_iff, !bool_decide_eq_true, !some_nonempty_eq.
  unfold some_nonempty. destruct (nonempty (rec_node_url x.2)); simpl; split.
  - intros [[?|?]|[[_ ?] ?]]; [tauto|tauto|]. right. right. split; [done|by f_equal].
  - intros [?|[?|[? E]]]; [tauto|tauto|]. right. split; [done|]. by injection E.
  - intros [[?|?]|[[? _] _]]; [tauto|tauto|done].
  - intros [?|[?|[_ E]]]; [tauto|tauto|done].
Qed.

(** The route index loses no charge: looking a worker up returns, each
    once, every route and reservation that targets it, and nothing but records
    of the list; when the worker has a URL, exactly the ones that target it. *)
Theorem placement_index_complete routes h :
  NoDup routes.*1 →
  NoDup (routes_for (placement_route_index routes) h).*1 ∧
  (∀ x, x ∈ routes → route_targets_node x.2 h = true →
     x ∈ routes_for (placement_route_index routes) h) ∧
  (∀ x, x ∈ routes_for (placement_route_index routes) h →
     x ∈ routes ∧ (nonempty (node_url_text h) = true → route_targets_node x.2 h = true)).
Proof.
  intros Hnd. split_and!.
  - apply dedup_NoDup.
  - intros x Hx Ht. apply targets_keys in Ht.
    assert (x.1 ∈ (routes_for (placement_route_index routes) h).*1) as Hin.
    { unfold routes_for, placement_route_index. simpl. rewrite !index_get.
      apply dedup_complete; [|apply not_elem_of_nil]. rewrite !elem_of_app, !list_elem_of_filter. tauto. }
    apply list_elem_of_fmap in Hin as (y & Hy & Hin).
    enough (x = y) as -> by done. apply elem_of_routes_for in Hin as [Hin _].
    apply list_elem_of_lookup in Hx as [i Hi], Hin as [j Hj].
    assert (i = j) as ->; [|congruence].
    eapply NoDup_lookup; [exact Hnd|..]; rewrite list_lookup_fmap; [by rewrite Hi|by rewrite Hj, Hy].
  - intros x [Hx Hk]%elem_of_routes_for. split; [done|]. intros Hu. apply targets_keys. tauto.
Qed.

Lemma placement_index_complete_witness :
  (1%nat, Reserved (mkReserved "r" "x" "j" "u" rq_zero EmptyString)) ∈
  routes_for (placement_route_index
    [(0%nat, Reserved (mkReserved "q" "x" "other" "w" rq_zero EmptyString));
     (1%nat, Reserved (mkReserved "r" "x" "j" "u" rq_zero EmptyString))]) demo_heartbeat.
Proof.
  apply (placement_index_complete
    [(0%nat, Reserved (mkReserved "q" "x" "other" "w" rq_zero EmptyString));
     (1%nat, Reserved (mkReserved "r" "x" "j" "u" rq_zero EmptyString))] demo_heartbeat).
  - apply (bool_decide_unpack _). by vm_compute.
  - right. left.
  - by vm_compute.
Defined.
