(* ===== verification/PlacementChoice.v ===== *)
(** * Power-of-k create placement (ucloud_sandboxes/placement_choice.py)

    The in-flight overlay as a state machine, and the chooser.  The code injects
    its clock and random source; here both are methods of an environment [Env] that
    is threaded with the overlay.  [records] compares heartbeat objects by
    identity, so a fleet node carries one. *)
From S2P Require Import Prelude PyFloat Json PyString Resources Bytes PlacementAccounting.
From stdpp Require Import pretty.
From Stdlib Require Import QArith Lqa Ascii.
Local Close Scope Q_scope.
Local Open Scope Z_scope.

Definition RESIDENCY_WEIGHT : Q := 1 # 4.
Definition PENDING_RESIDENCY : float := Fin (1 # 2).

(** ** deployment.py *)

(** [package] is [package_version()], read from the installed distribution. *)
Definition agent_version_is_schedulable (package agent_version : string) (expected : option string) : bool :=
  let expected := match expected with
                  | Some e => if nonempty e then e else package
                  | None => package
                  end in
  bool_decide (strip agent_version = strip expected).

(** ** Views and requests *)

Record hb_object := mkHB { hb_ref : nat; hb : NodeHeartbeat }.

Record FleetView := mkFleet { fv_nodes : list hb_object; fv_routes : PlacementRouteIndex }.

Definition fleet_ready (package : string) (heartbeats : list hb_object) (now : Z) (ttl : Z)
    (routes : list object) (agent : option string) : FleetView :=
  mkFleet
    (filter (λ o, nonempty (node_url_text (hb o)) && negb (draining (hb o)) && admission_open (hb o)
                  && has_capability (capabilities (hb o)) "sandbox" && is_fresh (hb o) now ttl
                  && agent_version_is_schedulable package (agent_version (hb o)) agent = true) heartbeats)
    (placement_route_index routes).

Record PlacementRequest := mkPReq {
  pq_resources : ResourceQuantity;
  pq_capabilities : list string;
  pq_image : string;
  pq_spec : json;
  pq_residency : dict string float;
  pq_excluded : list string
}.

Record GroupSlice := mkSlice { gs_node : hb_object; gs_count : Z }.

Definition node_fits (h : NodeHeartbeat) (requested : ResourceQuantity) (ps : list PlacementRecord) : bool :=
  node_has_storage_device_capacity h ps
  && node_accepts_dynamic_request h requested (node_available_resources h ps) None false.

Definition initial_charge (h : NodeHeartbeat) (q : PlacementRequest) : ResourceQuantity :=
  mkRQ (vcpu (pq_resources q)) (memory_mb (pq_resources q))
    (route_initial_claim_mb (pq_resources q) (pq_spec q) h).

(** The reservation [fit_count] appends after fitting [count] creates. *)
Definition fit_record (h : NodeHeartbeat) (charge : ResourceQuantity) (count : nat) : PlacementRecord :=
  Reserved (mkReserved ("fit:" +:+ pretty count) (node_id h) (job_id h) (node_url_text h) charge
              EmptyString).

(** The loop over [range(limit)], from [count] with [rounds] to go. *)
Fixpoint fit_loop (h : NodeHeartbeat) (q : PlacementRequest) (charged : list PlacementRecord)
    (count rounds : nat) : nat :=
  match rounds with
  | O => count
  | S rounds =>
      if node_fits h (pq_resources q) charged
      then fit_loop h q (charged ++ [fit_record h (initial_charge h q) count]) (S count) rounds
      else count
  end.

Definition fit_count (h : NodeHeartbeat) (q : PlacementRequest) (ps : list PlacementRecord)
    (limit : Z) : Z := Z.of_nat (fit_loop h q ps 0 (Z.to_nat limit)).

(** ** The in-flight overlay *)

Record reservation := mkResv { rv_record : PlacementReservation; rv_epoch : string; rv_expires : Q }.

Record InflightOverlay := mkOverlay {
  ov_ttl : Q;
  ov_by_job : dict string (dict incarnation_key reservation);
  ov_settled : dict string nat;
  ov_next_sweep : Q
}.

Definition overlay_init (ttl clock : Q) : res InflightOverlay :=
  raise_if (Qle_bool ttl 0) (ValueError "overlay TTL must be positive")
    (Ok (mkOverlay ttl [] [] (clock + ttl)%Q)).

Definition reservation_count (o : InflightOverlay) : Z :=
  dsum (λ entries, Z.of_nat (length entries)) (ov_by_job o).

(** [_forget] *)
Definition forget (o : InflightOverlay) (job : string) : InflightOverlay :=
  mkOverlay (ov_ttl o) (dpop (ov_by_job o) job) (dpop (ov_settled o) job) (ov_next_sweep o).

(** Replace a worker's entries in place, forgetting the worker if none is left. *)
Definition put_entries (o : InflightOverlay) (job : string) (es : dict incarnation_key reservation) :
    InflightOverlay :=
  if bool_decide (es = []) then forget o job
  else mkOverlay (ov_ttl o) (dset (ov_by_job o) job es) (ov_settled o) (ov_next_sweep o).

Definition live (now : Q) (es : dict incarnation_key reservation) : dict incarnation_key reservation :=
  filter (λ ke, Qle_bool (rv_expires ke.2) now = false) es.

(** The sweep in [reserve], at most once per TTL. *)
Definition sweep (now : Q) (o : InflightOverlay) : InflightOverlay :=
  if Qle_bool (ov_next_sweep o) now then
    let o := mkOverlay (ov_ttl o) (ov_by_job o) (ov_settled o) (now + ov_ttl o)%Q in
    foldl (λ o je, put_entries o je.1 (live now je.2)) o (ov_by_job o)
  else o.

Definition incarnation_text (k : incarnation_key) : string :=
  let '(sandbox, generation, hash, operation) := k in
  sandbox +:+ ":" +:+ pretty generation +:+ ":" +:+ hash +:+ ":" +:+ operation.

Definition inflight_record (h : NodeHeartbeat) (k : incarnation_key) (q : PlacementRequest) :
    PlacementReservation :=
  mkReserved ("inflight:" +:+ incarnation_text k) (node_id h) (job_id h) (node_url_text h)
    (initial_charge h q) (pq_image q).

Definition overlay_reserve (now : Q) (h : NodeHeartbeat) (k : incarnation_key) (q : PlacementRequest)
    (o : InflightOverlay) : InflightOverlay :=
  let o := sweep now o in
  let es := default [] (dget (ov_by_job o) (job_id h)) in
  mkOverlay (ov_ttl o)
    (dset (ov_by_job o) (job_id h)
       (dset es k (mkResv (inflight_record h k q) (node_epoch h) (now + ov_ttl o)%Q)))
    (ov_settled o) (ov_next_sweep o).

(** [uuid] is [uuid4().hex]. *)
Definition overlay_hold (now : Q) (uuid : string) (h : NodeHeartbeat) (q : PlacementRequest)
    (o : InflightOverlay) : incarnation_key * InflightOverlay :=
  let key := ("hold-" +:+ uuid, -1, EmptyString, EmptyString) in
  (key, overlay_reserve now h key q o).

Definition overlay_release (job : string) (k : incarnation_key) (o : InflightOverlay) : InflightOverlay :=
  match dget (ov_by_job o) job with
  | Some es => put_entries o job (dpop es k)
  | None => forget o job
  end.

(** What one heartbeat settles of a reservation, given whether this is the
    first look at it. *)
Definition settled_by (now : Q) (h : NodeHeartbeat) (fresh_look : bool)
    (ke : incarnation_key * reservation) : bool :=
  Qle_bool (rv_expires ke.2) now
  || (fresh_look && (bool_decide (ke.1 ∈ (item_key <$> inventory h))
                     || bool_decide (rv_epoch ke.2 ∈ retired_node_epochs h))).

Definition overlay_records (now : Q) (ho : hb_object) (o : InflightOverlay) :
    list PlacementReservation * InflightOverlay :=
  let job := job_id (hb ho) in
  match dget (ov_by_job o) job with
  | None | Some [] => ([], o)
  | Some es =>
      let fresh_look := negb (bool_decide (dget (ov_settled o) job = Some (hb_ref ho))) in
      let o := if fresh_look
               then mkOverlay (ov_ttl o) (ov_by_job o) (dset (ov_settled o) job (hb_ref ho))
                      (ov_next_sweep o)
               else o in
      let kept := filter (λ ke, settled_by now (hb ho) fresh_look ke = false) es in
      (rv_record <$> dvals kept, put_entries o job kept)
  end.

(** ** The chooser *)

Record PowerOfKChooser := mkChooser { ck : Z; ctarget : Z; cprocesses : Z }.

Definition chooser_init (k target processes : Z) : res PowerOfKChooser :=
  raise_if (Z.min k (Z.min target processes) <? 1)
    (ValueError "k, the per-node create target and api_processes must be positive")
    (Ok (mkChooser k target processes)).

(** [l[:n]], where a negative [n] counts from the end. *)
Definition py_take {A} (n : Z) (l : list A) : list A :=
  take (Z.to_nat (if n <? 0 then Z.of_nat (length l) + n else n)) l.

(** [l[i], l[j] = l[j], l[i]] *)
Definition swap_at {A} (i j : nat) (l : list A) : list A :=
  match l !! i, l !! j with
  | Some x, Some y => <[j := x]> (<[i := y]> l)
  | _, _ => l
  end.

Abbreviation scored := (float * hb_object)%type.
(** [sorted(..., key=score)]: stable, by [<] on the score. *)
Definition score_leb (a b : scored) : bool := negb (fltb b.1 a.1).

Section chooser.
Context {Env : Type} (monotonic : Env → Q * Env) (randrange : Env → nat → nat → nat * Env).
Context (ch : PowerOfKChooser).

Abbreviation state := (InflightOverlay * Env)%type.

(** [self.overlay.records(heartbeat)] at the current clock. *)
Definition read_records (ho : hb_object) (st : state) : list PlacementReservation * state :=
  let '(now, e) := monotonic st.2 in
  let '(rs, o) := overlay_records now ho st.1 in
  (rs, (o, e)).

Definition score (fleet : FleetView) (ho : hb_object) (q : PlacementRequest) (st : state) :
    option float * state :=
  let h := hb ho in
  if bool_decide (job_id h ∈ pq_excluded q)
     || negb (forallb (has_capability (capabilities h)) (pq_capabilities q))
  then (None, st)
  else
    let '(own, st) := read_records ho st in
    let durable := (routes_for (fv_routes fleet) h).*2 in
    if negb (node_fits h (pq_resources q) (durable ++ (Reserved <$> own))) then (None, st)
    else
      let residency := default (of_int 0) (dget (pq_residency q) (node_id h)) in
      let residency :=
        if nonempty (pq_image q) && existsb (λ r, bool_decide (pr_image r = pq_image q)) own
        then fmax residency PENDING_RESIDENCY else residency in
      let creates := active_sandbox_creates h + cprocesses ch * Z.of_nat (length own) in
      (Some (fsub (fadd (node_pressure_score h) (int_div creates (ctarget ch)))
               (fscale (fmin (of_int 1) (fmax (of_int 0) residency)) RESIDENCY_WEIGHT)), st).

(** Append a scored worker to [drained] or [preferred]. *)
Definition place (pd : list scored * list scored) (s : option float) (ho : hb_object) :
    list scored * list scored :=
  match s with
  | None => pd
  | Some x => if is_soft_drained (Some (hb ho)) then (pd.1, pd.2 ++ [(x, ho)])
              else (pd.1 ++ [(x, ho)], pd.2)
  end.

(** The first loop: workers named by [include_job_ids]. *)
Fixpoint score_included (fleet : FleetView) (q : PlacementRequest) (include : list string)
    (nodes : list hb_object) (pd : list scored * list scored) (st : state) :
    list scored * list scored * state :=
  match nodes with
  | [] => (pd, st)
  | n :: nodes =>
      if bool_decide (job_id (hb n) ∈ include) then
        let '(s, st) := score fleet n q st in
        score_included fleet q include nodes (place pd s n) st
      else score_included fleet q include nodes pd st
  end.

(** The lazily drawn permutation, with [rounds] indices to go. *)
Fixpoint sample_loop (fleet : FleetView) (q : PlacementRequest) (limit : Z) (rounds index : nat)
    (nodes : list hb_object) (pd : list scored * list scored) (st : state) :
    list scored * list scored * state :=
  match rounds with
  | O => (pd, st)
  | S rounds =>
      if Z.of_nat (length pd.1) =? limit then (pd, st)
      else
        let '(swap, e) := randrange st.2 index (length nodes) in
        let nodes := swap_at index swap nodes in
        match nodes !! index with
        | None => (pd, (st.1, e))
        | Some n =>
            let '(s, st) := score fleet n q (st.1, e) in
            sample_loop fleet q limit rounds (S index) nodes (place pd s n) st
        end
  end.

Definition rank (pd : list scored * list scored) : list hb_object :=
  let ranked := sorted_by score_leb pd.1 in
  (ranked ++ py_take (ck ch - Z.of_nat (length ranked)) (sorted_by score_leb pd.2)).*2.

Definition choose (fleet : FleetView) (q : PlacementRequest) (include : list string) (st : state) :
    list hb_object * state :=
  let nodes := filter (λ n, job_id (hb n) ∉ include) (fv_nodes fleet) in
  let '(pd, st) := score_included fleet q include (fv_nodes fleet) ([], []) st in
  let limit := ck ch + Z.of_nat (length pd.1) in
  let '(pd, st) := sample_loop fleet q limit (length nodes) 0 nodes pd st in
  (rank pd, st).

Definition with_excluded (q : PlacementRequest) (ex : list string) : PlacementRequest :=
  mkPReq (pq_resources q) (pq_capabilities q) (pq_image q) (pq_spec q) (pq_residency q) ex.

(** The [while count > 0] loop of [pack]; [None] when the fuel runs out. *)
Fixpoint pack_loop (fuel : nat) (fleet : FleetView) (q : PlacementRequest) (budget : Z)
    (include : list string) (count : Z) (excluded : list string) (slices : list GroupSlice)
    (st : state) : option (list GroupSlice * state) :=
  if count <=? 0 then Some (slices, st) else
  match fuel with
  | O => None
  | S fuel =>
      let '(ranked, st) := choose fleet (with_excluded q excluded) include st in
      match ranked with
      | [] => Some (slices, st)
      | best :: _ =>
          let '(own, st) := read_records best st in
          let durable := (routes_for (fv_routes fleet) (hb best)).*2 in
          let placed := fit_count (hb best) q (durable ++ (Reserved <$> own)) (Z.min budget count) in
          pack_loop fuel fleet q budget include (count - placed) (job_id (hb best) :: excluded)
            (if placed =? 0 then slices else slices ++ [mkSlice best placed]) st
      end
  end.

Definition pack (fuel : nat) (fleet : FleetView) (q : PlacementRequest) (count budget : Z)
    (include : list string) (st : state) : res (option (list GroupSlice * state)) :=
  raise_if (budget <? 1) (ValueError "per-node group budget must be positive")
    (Ok (pack_loop fuel fleet q budget include count (pq_excluded q) [] st)).

Definition plan_group (fuel : nat) (fleet : FleetView) (q : PlacementRequest) (count budget : Z)
    (policy : string) (include : list string) (st : state) : res (option (list GroupSlice * state)) :=
  if bool_decide (policy = "spread") then
    pack fuel fleet q count
      (Z.min budget (- (- count / Z.max 1 (Z.of_nat (length (fv_nodes fleet)))))) include st
  else if bool_decide (policy = "pack") then pack fuel fleet q count budget include st
  else Raise (ValueError "group placement policy must be pack or spread").

(** ** What a choice returns *)

(** Scored workers that may be returned: of the fleet and not excluded; the
    first list holds no soft-drained worker, the second only such. *)
Definition pool_ok (fleet : FleetView) (q : PlacementRequest) (pd : list scored * list scored) : Prop :=
  Forall (λ x, x.2 ∈ fv_nodes fleet ∧ (job_id (hb x.2) ∉ pq_excluded q) ∧
               is_soft_drained (Some (hb x.2)) = false) pd.1 ∧
  Forall (λ x, x.2 ∈ fv_nodes fleet ∧ (job_id (hb x.2) ∉ pq_excluded q) ∧
               is_soft_drained (Some (hb x.2)) = true) pd.2.

Lemma score_not_excluded fleet ho q st x st' :
  score fleet ho q st = (Some x, st') → job_id (hb ho) ∉ pq_excluded q.
Proof.
  unfold score. destruct (bool_decide (job_id (hb ho) ∈ pq_excluded q)) eqn:E; simpl; [done|].
  intros _. by bools.
Qed.

Lemma place_ok fleet q pd n st s st' :
  pool_ok fleet q pd → n ∈ fv_nodes fleet → score fleet n q st = (s, st') →
  pool_ok fleet q (place pd s n).
Proof.
  intros [H1 H2] Hn Hs. unfold place. destruct s as [x|]; [|done].
  apply score_not_excluded in Hs. destruct (is_soft_drained _) eqn:Ed; split; simpl; try done.
  - apply Forall_app. split; [done|by repeat constructor].
  - apply Forall_app. split; [done|by repeat constructor].
Qed.

Lemma score_included_ok fleet q include nodes pd st pd' st' :
  pool_ok fleet q pd → (∀ n, n ∈ nodes → n ∈ fv_nodes fleet) →
  score_included fleet q include nodes pd st = (pd', st') → pool_ok fleet q pd'.
Proof.
  revert pd st. induction nodes as [|n nodes IH]; intros pd st Hp Hn E; simpl in E; [by simplify_eq|].
  assert (∀ m, m ∈ nodes → m ∈ fv_nodes fleet) by (intros; apply Hn; by right).
  case_bool_decide; [|by eapply IH]. destruct (score fleet n q st) as [s st1] eqn:Es.
  eapply IH; [|done|exact E]. eapply place_ok; [done| |done]. apply Hn. left.
Qed.

Lemma swap_at_elem {A} i j (l : list A) x : x ∈ swap_at i j l → x ∈ l.
Proof.
  unfold swap_at. destruct (l !! i) as [y|] eqn:Ei, (l !! j) as [z|] eqn:Ej; try done.
  intros [k Hk]%list_elem_of_lookup. apply list_lookup_insert_Some in Hk as [(_ & <- & _)|[_ Hk]].
  { by eapply list_elem_of_lookup_2. }
  apply list_lookup_insert_Some in Hk as [(_ & <- & _)|[_ Hk]]; by eapply list_elem_of_lookup_2.
Qed.

Lemma length_place pd s n : (length (place pd s n).1 ≤ S (length pd.1))%nat.
Proof. unfold place. repeat case_match; simpl; rewrite ?length_app; simpl; lia. Qed.

Lemma sample_loop_ok fleet q limit rounds index nodes pd st pd' st' :
  pool_ok fleet q pd → (∀ n, n ∈ nodes → n ∈ fv_nodes fleet) → Z.of_nat (length pd.1) ≤ limit →
  sample_loop fleet q limit rounds index nodes pd st = (pd', st') →
  pool_ok fleet q pd' ∧ Z.of_nat (length pd'.1) ≤ limit.
Proof.
  revert index nodes pd st. induction rounds as [|r IH]; intros index nodes pd st Hp Hn Hl E; simpl in E.
  { by simplify_eq. }
  destruct (Z.eqb_spec (Z.of_nat (length pd.1)) limit); [by simplify_eq|].
  destruct (randrange st.2 index (length nodes)) as [sw e].
  assert (∀ n, n ∈ swap_at index sw nodes → n ∈ fv_nodes fleet) as Hsw.
  { intros m Hm. by eapply Hn, swap_at_elem. }
  destruct (swap_at index sw nodes !! index) as [m|] eqn:Em; [|by simplify_eq].
  destruct (score fleet m q (st.1, e)) as [s st1] eqn:Es.
  eapply IH; [|exact Hsw| |exact E].
  - eapply place_ok; [done| |exact Es]. by eapply Hsw, list_elem_of_lookup_2.
  - pose proof (length_place pd s m). lia.
Qed.

Lemma sorted_scores_elem l x : x ∈ sorted_by score_leb l ↔ x ∈ l.
Proof. by rewrite sorted_by_perm. Qed.

Lemma choose_pool fleet q include st ranked st' :
  0 ≤ ck ch → choose fleet q include st = (ranked, st') →
  ∃ pd p0, pool_ok fleet q pd ∧ ranked = rank pd ∧ Z.of_nat (length pd.1) ≤ ck ch + p0 ∧
    (include = [] → p0 = 0).
Proof.
  intros Hk. unfold choose.
  destruct (score_included _ _ _ _ _ _) as [pd0 st0] eqn:E0.
  destruct (sample_loop _ _ _ _ _ _ _ _) as [pd1 st1] eqn:E1. intros [= <- <-].
  assert (pool_ok fleet q ([], [])) as Hinit by (split; constructor).
  pose proof (score_included_ok _ _ _ _ _ _ _ _ Hinit (λ n H, H) E0) as Hp0.
  apply sample_loop_ok in E1 as [Hp1 Hl]; [|done| |lia].
  - exists pd1, (Z.of_nat (length pd0.1)). split_and!; try done.
    intros ->. assert (∀ nodes, score_included fleet q [] nodes ([], []) st = (([], []), st)) as Hnil.
    { induction nodes as [|n nodes IH]; simpl; [done|exact IH]. }
    rewrite Hnil in E0. by simplify_eq.
  - intros n Hn. by apply list_elem_of_filter in Hn as [_ ?].
Qed.

Lemma py_take_elem {A} n (l : list A) x : x ∈ py_take n l → x ∈ l.
Proof. unfold py_take. intros [i Hi]%list_elem_of_lookup. apply lookup_take_Some in Hi as [Hi _]. by eapply list_elem_of_lookup_2. Qed.

Lemma choose_elem fleet q include st ranked st' ho :
  0 ≤ ck ch → choose fleet q include st = (ranked, st') → ho ∈ ranked →
  ho ∈ fv_nodes fleet ∧ job_id (hb ho) ∉ pq_excluded q.
Proof.
  intros Hk E Hin. apply choose_pool in E as (pd & p0 & [H1 H2] & -> & _); [|done].
  unfold rank in Hin. rewrite fmap_app, elem_of_app in Hin. rewrite Forall_forall in H1, H2.
  destruct Hin as [Hin|Hin]; apply list_elem_of_fmap in Hin as (x & -> & Hx).
  - apply sorted_scores_elem, H1 in Hx. tauto.
  - apply py_take_elem, sorted_scores_elem, H2 in Hx. tauto.
Qed.

(** Soft-drained workers are a last resort: without [include_job_ids], a
    choice lists the workers that are not soft-drained before the drained ones,
    never more than k in all, and lists a drained one only when fewer than k
    others were eligible among those drawn; every worker listed is one of the
    fleet's that the request does not exclude. *)
Theorem choose_drained_last fleet q st ranked st' :
  0 ≤ ck ch → choose fleet q [] st = (ranked, st') →
  ∃ preferred drained, ranked = preferred ++ drained ∧
    Forall (λ ho, is_soft_drained (Some (hb ho)) = false) preferred ∧
    Forall (λ ho, is_soft_drained (Some (hb ho)) = true) drained ∧
    Z.of_nat (length ranked) ≤ ck ch ∧
    (drained ≠ [] → Z.of_nat (length preferred) < ck ch) ∧
    Forall (λ ho, ho ∈ fv_nodes fleet ∧ job_id (hb ho) ∉ pq_excluded q) ranked.
Proof.
  intros Hk Hc. assert (Forall (λ ho, ho ∈ fv_nodes fleet ∧ job_id (hb ho) ∉ pq_excluded q) ranked) as Hall.
  { rewrite Forall_forall. intros ho Hin. by eapply choose_elem. }
  apply choose_pool in Hc as (pd & p0 & [H1 H2] & -> & Hl & Hp0); [|done].
  rewrite (Hp0 eq_refl) in Hl. unfold rank in *. rewrite fmap_app in *.
  set (pref := sorted_by score_leb pd.1) in *.
  assert (length pref = length pd.1) as Hlen by (unfold pref; by rewrite sorted_by_perm).
  set (dr := py_take _ _) in *. exists pref.*2, dr.*2.
  assert (Z.of_nat (length dr) ≤ ck ch - Z.of_nat (length pref)) as Hdr.
  { unfold dr, py_take. rewrite length_take. destruct (Z.ltb_spec (ck ch - Z.of_nat (length pref)) 0); lia. }
  split_and!; try done.
  - rewrite Forall_fmap. unfold pref. rewrite sorted_by_perm. eapply Forall_impl; [exact H1|]. simpl. tauto.
  - rewrite Forall_fmap, Forall_forall in *. intros x Hx%py_take_elem.
    rewrite sorted_scores_elem in Hx. apply H2 in Hx. apply Hx.
  - rewrite length_app, !length_fmap. lia.
  - intros Hne. rewrite length_fmap. destruct dr as [|d dr']; [done|]. simpl in Hdr. lia.
Qed.

(** ** Packing a group *)

Lemma fit_loop_le h q ps count rounds : (count ≤ fit_loop h q ps count rounds ≤ count + rounds)%nat.
Proof.
  revert ps count. induction rounds as [|r IH]; intros ps count; simpl; [lia|].
  case_match; [|lia]. specialize (IH (ps ++ [fit_record h (initial_charge h q) count]) (S count)). lia.
Qed.
Lemma fit_count_le h q ps limit : 0 ≤ limit → 0 ≤ fit_count h q ps limit ≤ limit.
Proof. intros. unfold fit_count. pose proof (fit_loop_le h q ps 0 (Z.to_nat limit)). lia. Qed.

(** Fleet workers still open to the group. *)
Definition open_nodes (fleet : FleetView) (ex : list string) : list hb_object :=
  filter (λ n, job_id (hb n) ∉ ex) (fv_nodes fleet).

Lemma open_nodes_shrink fleet ex ho :
  ho ∈ fv_nodes fleet → job_id (hb ho) ∉ ex →
  (length (open_nodes fleet (job_id (hb ho) :: ex)) < length (open_nodes fleet ex))%nat.
Proof.
  unfold open_nodes. generalize (fv_nodes fleet). intros l Hin Hex.
  apply list_elem_of_split in Hin as (l1 & l2 & ->). rewrite !filter_app, !filter_cons.
  rewrite decide_False by (intros Hn; apply Hn; left). rewrite decide_True by done.
  rewrite !length_app. simpl.
  assert (∀ l : list hb_object, (length (filter (λ n, job_id (hb n) ∉ job_id (hb ho) :: ex) l)
                                 ≤ length (filter (λ n, job_id (hb n) ∉ ex) l))%nat) as Hle.
  { clear. induction l as [|n l IH]; [done|]. rewrite !filter_cons. repeat case_decide; simpl; try lia.
    exfalso. set_solver. }
  pose proof (Hle l1). pose proof (Hle l2). lia.
Qed.

Record pack_ok (fleet : FleetView) (q : PlacementRequest) (budget total : Z) (ex : list string)
    (slices : list GroupSlice) : Prop := {
  pk_total : zsum (gs_count <$> slices) ≤ total;
  pk_each : Forall (λ s, 0 < gs_count s ≤ budget ∧ gs_node s ∈ fv_nodes fleet ∧
                         (job_id (hb (gs_node s)) ∉ pq_excluded q)) slices;
  pk_nodup : NoDup ((λ s, job_id (hb (gs_node s))) <$> slices);
  pk_seen : ∀ s, s ∈ slices → job_id (hb (gs_node s)) ∈ ex;
  pk_excluded : ∀ j, j ∈ pq_excluded q → j ∈ ex
}.

Lemma pack_ok_add fleet q budget total ex slices best placed :
  pack_ok fleet q budget total ex slices → best ∈ fv_nodes fleet → job_id (hb best) ∉ ex →
  0 ≤ placed ≤ budget →
  pack_ok fleet q budget (total + placed) (job_id (hb best) :: ex)
    (if placed =? 0 then slices else slices ++ [mkSlice best placed]).
Proof.
  intros [Ht He Hn Hs Hx] Hin Hex Hp. destruct (Z.eqb_spec placed 0) as [->|Hne].
  { constructor; try done; [lia|..]; intros; right; eauto. }
  constructor.
  - rewrite fmap_app, zsum_app. cbn. lia.
  - apply Forall_app. split; [done|]. constructor; [|constructor]. simpl. split_and!; [lia|lia|done|].
    intros Hq. by apply Hex, Hx.
  - rewrite fmap_app. apply NoDup_app. split_and!; [done| |apply NoDup_singleton].
    intros j (s & -> & Hin')%list_elem_of_fmap Hj%list_elem_of_singleton. simpl in Hj.
    apply Hs in Hin'. congruence.
  - intros s [Hs'| ->%list_elem_of_singleton]%elem_of_app; [right; by apply Hs|left].
  - intros j Hj. right. by apply Hx.
Qed.

Lemma pack_loop_total fuel fleet q budget include count total ex slices st :
  0 ≤ ck ch → 1 ≤ budget → (length (open_nodes fleet ex) < fuel)%nat →
  pack_ok fleet q budget total ex slices →
  ∃ slices' st' ex', pack_loop fuel fleet q budget include count ex slices st = Some (slices', st') ∧
    pack_ok fleet q budget (total + Z.max 0 count) ex' slices'.
Proof.
  intros Hk Hb. revert count total ex slices st.
  assert (∀ t t' ex sl, t ≤ t' → pack_ok fleet q budget t ex sl → pack_ok fleet q budget t' ex sl) as Hmono.
  { intros t t' ex sl ? []. constructor; try done. lia. }
  induction fuel as [|fuel IH]; intros count total ex slices st Hf Hok; [lia|]. simpl.
  destruct (Z.leb_spec count 0); [exists slices, st, ex; split; [done|eapply Hmono; [|done]; lia]|].
  destruct (choose _ _ _ _) as [ranked st1] eqn:Ec.
  destruct ranked as [|best ranked]; [exists slices, st1, ex; split; [done|eapply Hmono; [|done]; lia]|].
  destruct (choose_elem _ _ _ _ _ _ best Hk Ec ltac:(left)) as [Hin Hex]. simpl in Hex.
  destruct (read_records best st1) as [own st2]. set (placed := fit_count _ _ _ _).
  assert (0 ≤ placed ≤ Z.min budget count) as Hp by (apply fit_count_le; lia).
  destruct (IH (count - placed) (total + placed) (job_id (hb best) :: ex)
    (if placed =? 0 then slices else slices ++ [mkSlice best placed]) st2) as (sl & st3 & ex3 & E3 & H3).
  - pose proof (open_nodes_shrink fleet ex best Hin Hex). lia.
  - apply pack_ok_add; [done|done|done|lia].
  - exists sl, st3, ex3. split; [done|]. eapply Hmono; [|exact H3]. lia.
Qed.

(** Packing a group always finishes: one round per fleet worker plus one is
    enough fuel, since every round rules its worker out; and the plan places at
    most the group, at most the budget on a worker, nothing empty, no worker
    twice, and only workers of the fleet the request does not exclude. *)
Theorem pack_terminates fleet q count budget include st :
  0 ≤ ck ch → 1 ≤ budget →
  ∃ slices st', pack (S (length (fv_nodes fleet))) fleet q count budget include st = Ok (Some (slices, st')) ∧
    zsum (gs_count <$> slices) ≤ Z.max 0 count ∧
    NoDup ((λ s, job_id (hb (gs_node s))) <$> slices) ∧
    Forall (λ s, 0 < gs_count s ≤ budget ∧ gs_node s ∈ fv_nodes fleet ∧
                 (job_id (hb (gs_node s)) ∉ pq_excluded q)) slices.
Proof.
  intros Hk Hb. unfold pack. rewrite (proj2 (Z.ltb_ge _ _)) by lia. cbn [raise_if].
  destruct (pack_loop_total (S (length (fv_nodes fleet))) fleet q budget include count 0
    (pq_excluded q) [] st) as (sl & st' & ex' & -> & [Ht He Hn _ _]); try done.
  - unfold open_nodes. pose proof (length_filter (λ n, job_id (hb n) ∉ pq_excluded q) (fv_nodes fleet)). lia.
  - constructor; try constructor; try done; set_solver.
  - exists sl, st'. split_and!; try done.
Qed.
End chooser.

(** ** What fits *)

Lemma counted_snoc h seen ps x :
  route_targets_node x h = true → placement_identity x ∉ seen →
  placement_identity x ∉ placement_identity <$> ps →
  counted h seen (ps ++ [x]) = counted h seen ps ++ [x].
Proof.
  intros Ht. revert seen. induction ps as [|p ps IH]; intros seen Hs Hp; csimpl in *.
  { rewrite Ht, bool_decide_false by done. done. }
  rewrite not_elem_of_cons in Hp. destruct Hp as [Hne Hp].
  destruct (_ || _); simpl; [by apply IH|]. f_equal. apply IH; [|done].
  rewrite not_elem_of_cons. done.
Qed.

Lemma reserved_snoc_disk h ps r :
  route_targets_node (Reserved r) h = true →
  ReservationIdentity (pr_reservation_id r) ∉ placement_identity <$> ps →
  disk_mb (node_reserved_route_resources h (ps ++ [Reserved r])) =
  disk_mb (node_reserved_route_resources h ps) + disk_mb (pr_resources r).
Proof.
  intros Ht Hid. unfold node_reserved_route_resources.
  rewrite counted_snoc by (done || apply not_elem_of_nil). by rewrite foldl_app.
Qed.

Lemma node_fits_disk h requested ps :
  node_fits h requested ps = true → 0 < disk_mb requested →
  disk_mb (node_reserved_route_resources h ps) + disk_mb requested ≤ disk_mb (free_resources h).
Proof.
  unfold node_fits. rewrite andb_true_iff. intros [Hcap Ha] Hpos.
  unfold node_accepts_dynamic_request in Ha.
  destruct (dynamic_request_fits _ _ _) eqn:Hf; [|done]. clear Ha.
  unfold dynamic_request_fits in Hf. destruct (_ || _); [done|]. bools.
  unfold node_available_resources in *. rewrite Hcap in *. simpl in *. lia.
Qed.

(** The records [fit_count] works on after [n] creates. *)
Definition fitted (h : NodeHeartbeat) (q : PlacementRequest) (ps : list PlacementRecord) (n : nat) :
    list PlacementRecord :=
  ps ++ (fit_record h (initial_charge h q) <$> seq 0 n).

Lemma fitted_S h q ps n :
  fitted h q ps (S n) = fitted h q ps n ++ [fit_record h (initial_charge h q) n].
Proof. unfold fitted. by rewrite seq_S, fmap_app, app_assoc. Qed.

Lemma fitted_disk h q ps n :
  nonempty (node_id h) = true →
  (∀ i : nat, ReservationIdentity ("fit:" +:+ pretty i) ∉ placement_identity <$> ps) →
  disk_mb (node_reserved_route_resources h (fitted h q ps n)) =
  disk_mb (node_reserved_route_resources h ps) + Z.of_nat n * disk_mb (initial_charge h q).
Proof.
  intros Hn Hid. induction n as [|n IH]; [unfold fitted; simpl; rewrite app_nil_r; lia|].
  rewrite fitted_S. unfold fit_record at 1. rewrite reserved_snoc_disk; [simpl in *; lia| |].
  - unfold route_targets_node. simpl. by rewrite Hn, bool_decide_true by done.
  - simpl. unfold fitted. rewrite fmap_app, elem_of_app. intros [Hin|Hin]; [by eapply Hid|].
    rewrite list_elem_of_fmap in Hin. destruct Hin as (x & Hx & Hin).
    apply list_elem_of_fmap in Hin as (i & -> & Hi). simpl in Hx. injection Hx as Hx.
    apply pretty_nat_inj in Hx. subst. rewrite elem_of_seq in Hi. lia.
Qed.

Lemma fit_loop_greedy h q ps count rounds :
  let n := fit_loop h q (fitted h q ps count) count rounds in
  (∀ i, (count ≤ i < n)%nat → node_fits h (pq_resources q) (fitted h q ps i) = true) ∧
  (n < count + rounds → node_fits h (pq_resources q) (fitted h q ps n) = false)%nat.
Proof.
  revert count. induction rounds as [|r IH]; intros count; simpl; [split; intros; lia|].
  destruct (node_fits h (pq_resources q) (fitted h q ps count)) eqn:Ef; [|split; [lia|done]].
  rewrite <- fitted_S. destruct (IH (S count)) as [H1 H2]. split.
  - intros i Hi. destruct (decide (i = count)) as [->|]; [done|]. apply H1. lia.
  - intros Hn. apply H2. lia.
Qed.

Lemma initial_charge_le h q : disk_mb (initial_charge h q) ≤ disk_mb (pq_resources q).
Proof. unfold initial_charge, route_initial_claim_mb. simpl. repeat case_match; lia. Qed.

(** [fit_count] is the greedy maximum and never overbooks disk: it stops
    below its limit only when one more create is refused by the reservation-time
    fit, and what the creates it counted charge, on top of every record already
    charged to the worker, is within the worker's free disk. *)
Theorem fit_count_greedy h q ps limit :
  nonempty (node_id h) = true → 0 < disk_mb (initial_charge h q) →
  (∀ i : nat, ReservationIdentity ("fit:" +:+ pretty i) ∉ placement_identity <$> ps) →
  let n := fit_count h q ps limit in
  (n < limit → node_fits h (pq_resources q) (fitted h q ps (Z.to_nat n)) = false) ∧
  (0 < n → disk_mb (node_reserved_route_resources h ps) + n * disk_mb (initial_charge h q)
           ≤ disk_mb (free_resources h)).
Proof.
  intros Hn Hpos Hid n. pose proof (initial_charge_le h q).
  assert (fitted h q ps 0 = ps) as H0 by apply app_nil_r.
  pose proof (fit_loop_greedy h q ps 0 (Z.to_nat limit)) as [H1 H2]. rewrite H0 in H1, H2.
  unfold n, fit_count.
  set (m := fit_loop h q ps 0 (Z.to_nat limit)) in *. rewrite Nat2Z.id. split.
  - intros. apply H2. lia.
  - intros Hm. assert (node_fits h (pq_resources q) (fitted h q ps (m - 1)) = true) as Hf
      by (apply H1; lia).
    apply node_fits_disk in Hf; [|lia]. rewrite fitted_disk in Hf by done. nia.
Qed.

(** ** The overlay never forgets a charge early *)

Inductive overlay_op :=
| OvReserve (now : Q) (h : NodeHeartbeat) (k : incarnation_key) (q : PlacementRequest)
| OvRelease (job : string) (k : incarnation_key)
| OvRecords (now : Q) (ho : hb_object).

Definition overlay_step (o : InflightOverlay) (op : overlay_op) : InflightOverlay :=
  match op with
  | OvReserve now h k q => overlay_reserve now h k q o
  | OvRelease job k => overlay_release job k o
  | OvRecords now ho => (overlay_records now ho o).2
  end.

(** The heartbeat neither reports the incarnation nor retires the boot the
    create was sent to. *)
Definition unsettled (k : incarnation_key) (epoch : string) (h : NodeHeartbeat) : Prop :=
  (k ∉ (item_key <$> inventory h)) ∧ (epoch ∉ retired_node_epochs h).

(** Operations that must leave a reservation of [(job, k)] charged: before its
    expiry, no release or replacement of it, and no heartbeat that settles it. *)
Definition harmless (job epoch : string) (k : incarnation_key) (expires : Q) (op : overlay_op) : Prop :=
  match op with
  | OvReserve now h k' _ => (now < expires)%Q ∧ (job_id h, k') ≠ (job, k)
  | OvRelease job' k' => (job', k') ≠ (job, k)
  | OvRecords now ho => (now < expires)%Q ∧ (job_id (hb ho) = job → unsettled k epoch (hb ho))
  end.

Definition charged (o : InflightOverlay) (job : string) (k : incarnation_key) (rv : reservation) : Prop :=
  NoDup (dkeys (ov_by_job o)) ∧
  ∃ es, dget (ov_by_job o) job = Some es ∧ dget es k = Some rv.

Lemma not_expired now rv : (now < rv_expires rv)%Q → Qle_bool (rv_expires rv) now = false.
Proof. intros H. apply not_true_iff_false. intros Hle%Qle_bool_iff. lra. Qed.

Lemma not_settled now h fl k rv :
  (now < rv_expires rv)%Q → unsettled k (rv_epoch rv) h → settled_by now h fl (k, rv) = false.
Proof.
  intros Hnow [Hinv Hret]. unfold settled_by. simpl. rewrite not_expired by done.
  rewrite !bool_decide_false by done. by destruct fl.
Qed.

Lemma put_entries_NoDup o job es :
  NoDup (dkeys (ov_by_job o)) → NoDup (dkeys (ov_by_job (put_entries o job es))).
Proof. unfold put_entries, forget. case_bool_decide; simpl; auto with py. Qed.

Lemma charged_put o job k rv job' es' :
  charged o job k rv → (job' = job → dget es' k = Some rv) →
  charged (put_entries o job' es') job k rv.
Proof.
  intros [Hnd (es & He & Hk)] Hput. split; [by apply put_entries_NoDup|].
  unfold put_entries, forget. destruct (decide (job' = job)) as [->|Hne].
  - specialize (Hput eq_refl). rewrite bool_decide_false by (by intros ->).
    exists es'. simpl. by rewrite dget_dset_eq.
  - exists es. case_bool_decide; simpl; [by rewrite dget_dpop_ne|by rewrite dget_dset_ne].
Qed.

Lemma charged_sweep_fold now job k rv (l : dict string (dict incarnation_key reservation)) o :
  (now < rv_expires rv)%Q → charged o job k rv →
  (∀ es, (job, es) ∈ l → dget es k = Some rv) →
  charged (foldl (λ o je, put_entries o je.1 (live now je.2)) o l) job k rv.
Proof.
  intros Hnow. revert o. induction l as [|[j es] l IH]; intros o Ho Hl; simpl; [done|].
  apply IH; [|intros es' Hin; apply Hl; by right].
  apply charged_put; [done|]. simpl. intros ->. unfold live.
  apply dget_filter; [apply Hl; left|]. by apply not_expired.
Qed.

Lemma charged_sweep now o job k rv :
  (now < rv_expires rv)%Q → charged o job k rv → charged (sweep now o) job k rv.
Proof.
  intros Hnow [Hnd (es & He & Hk)]. unfold sweep. case_match; [|by split; [|exists es]].
  apply charged_sweep_fold; [done|split; [done|by exists es]|]. simpl.
  intros es' Hin. apply dget_Some_2 in Hin; [|done]. congruence.
Qed.

Lemma charged_step o job epoch k rv op :
  rv_epoch rv = epoch → charged o job k rv → harmless job epoch k (rv_expires rv) op →
  charged (overlay_step o op) job k rv.
Proof.
  intros Hep Ho Hop. destruct op as [now h k' q|job' k'|now ho]; simpl in *.
  - destruct Hop as [Hnow Hne]. apply (charged_sweep now) in Ho as [Hnd (es & He & Hk)]; [|done].
    unfold overlay_reserve. set (o' := sweep now o) in *. split; simpl; [by apply NoDup_dset|].
    destruct (decide (job_id h = job)) as [<-|Hj].
    + rewrite He, dget_dset_eq. simpl. eexists. split; [done|]. rewrite dget_dset_ne; [done|congruence].
    + rewrite dget_dset_ne by done. by exists es.
  - unfold overlay_release. destruct (dget (ov_by_job o) job') as [es'|] eqn:Ej.
    + apply charged_put; [done|]. intros ->. destruct Ho as [_ (es & He & Hk)].
      rewrite dget_dpop_ne by congruence. congruence.
    + destruct Ho as [Hnd (es & He & Hk)]. split; simpl; [by apply NoDup_dpop|]. exists es.
      rewrite dget_dpop_ne; [done|congruence].
  - destruct Hop as [Hnow Hset]. unfold overlay_records.
    destruct (dget (ov_by_job o) (job_id (hb ho))) as [[|e es']|] eqn:Ej; [done| |done].
    set (fl := negb _). set (o' := if fl then _ else o). simpl.
    assert (charged o' job k rv) as Ho' by (unfold o'; by destruct fl).
    apply charged_put; [done|]. intros Hj. destruct Ho as [_ (es & He & Hk)].
    rewrite Hj, He in Ej. injection Ej as <-. apply dget_filter; [done|].
    apply not_settled; [done|]. subst epoch. by apply Hset.
Qed.

Lemma charged_steps o job epoch k rv ops :
  rv_epoch rv = epoch → charged o job k rv → Forall (harmless job epoch k (rv_expires rv)) ops →
  charged (foldl overlay_step o ops) job k rv.
Proof. intros Hep Ho Hops. revert o Ho. induction Hops; intros o Ho; simpl; eauto using charged_step. Qed.

Lemma overlay_reachable_NoDup ops o :
  NoDup (dkeys (ov_by_job o)) → NoDup (dkeys (ov_by_job (foldl overlay_step o ops))).
Proof.
  assert (∀ l now o, NoDup (dkeys (ov_by_job o)) → NoDup (dkeys (ov_by_job
    (foldl (λ o (je : string * dict incarnation_key reservation), put_entries o je.1 (live now je.2)) o l)))) as Hfold.
  { induction l as [|je l IH]; intros now o1 H1; simpl; [done|]. by apply IH, put_entries_NoDup. }
  revert o. induction ops as [|op ops IH]; intros o Hnd; simpl; [done|]. apply IH.
  destruct op as [now h k q|job k|now ho]; simpl.
  - apply NoDup_dset. unfold sweep. case_match; [by apply Hfold|done].
  - unfold overlay_release. case_match; [by apply put_entries_NoDup|simpl; auto with py].
  - unfold overlay_records. repeat case_match; try done; simpl; by apply put_entries_NoDup.
Qed.

Lemma overlay_sweep_ttl now o : ov_ttl (sweep now o) = ov_ttl o.
Proof.
  unfold sweep. case_match; [|done].
  assert (∀ l o, ov_ttl (foldl (λ o (je : string * dict incarnation_key reservation),
    put_entries o je.1 (live now je.2)) o l) = ov_ttl o) as ->; [|done].
  induction l as [|je l IH]; intros o'; simpl; [done|]. rewrite IH.
  unfold put_entries, forget. by case_bool_decide.
Qed.
Lemma overlay_steps_ttl ops o : ov_ttl (foldl overlay_step o ops) = ov_ttl o.
Proof.
  revert o. induction ops as [|op ops IH]; intros o; simpl; [done|]. rewrite IH.
  destruct op; simpl.
  - apply overlay_sweep_ttl.
  - unfold overlay_release, put_entries, forget. repeat case_match; done.
  - unfold overlay_records, put_entries, forget. repeat (case_match; simpl); done.
Qed.

(** A reservation stays charged: from any state of the overlay, after a
    create is reserved on a worker, every later look at that worker still charges
    its record, whatever else was reserved, released or looked at meanwhile,
    unless the reservation was released or replaced, its TTL passed, or a
    heartbeat reported the incarnation or retired the boot it was sent to. *)
Theorem overlay_keeps_charge ttl clock o0 before t h k q after now ho :
  let o1 := overlay_reserve t h k q (foldl overlay_step o0 before) in
  let expires := (t + ttl)%Q in
  overlay_init ttl clock = Ok o0 →
  Forall (harmless (job_id h) (node_epoch h) k expires) after →
  (now < expires)%Q → job_id (hb ho) = job_id h → unsettled k (node_epoch h) (hb ho) →
  inflight_record h k q ∈ (overlay_records now ho (foldl overlay_step o1 after)).1.
Proof.
  intros o1 expires Hinit Hafter Hnow Hjob Hset.
  set (rv := mkResv (inflight_record h k q) (node_epoch h) expires).
  assert (charged o1 (job_id h) k rv) as Ho1.
  { split.
    - pose proof (overlay_reachable_NoDup (before ++ [OvReserve t h k q]) o0) as Hn.
      rewrite foldl_app in Hn. apply Hn. unfold overlay_init in Hinit. bools. simplify_eq. constructor.
    - assert (ov_ttl o0 = ttl) as Httl by (unfold overlay_init in Hinit; bools; by simplify_eq).
      unfold o1, overlay_reserve. simpl. rewrite dget_dset_eq, overlay_sweep_ttl, overlay_steps_ttl, Httl.
      eexists. split; [done|]. apply dget_dset_eq. }
  apply (charged_steps _ _ (node_epoch h) _ _ after) in Ho1 as [_ (es & He & Hk)]; [|done|done].
  unfold overlay_records. rewrite Hjob, He. destruct es as [|e es]; [done|]. cbn [fst].
  apply list_elem_of_fmap. exists rv. split; [done|]. apply (list_elem_of_fmap_2 snd _ (k, rv)).
  apply list_elem_of_filter. split; [|by apply dget_Some_1].
  by apply not_settled.
Qed.

(** ** A concrete fleet *)

Definition demo_node (ref : nat) (job : string) (drained : bool) : hb_object :=
  mkHB ref (mkHeartbeat job job 0 0 0 0 None false None "v" ["disk-quota"; "storage-native-v1"]
    (mkRQ (of_int 4) 16000 2000) true rq_zero
    (if drained then [(SOFT_DRAIN_LABEL, "since")] else []) (Some demo_metrics) None "e" [] [] true
    rq_zero rq_zero true 0 EmptyString 0).
Definition demo_fleet : FleetView :=
  mkFleet [demo_node 0 "a" false; demo_node 1 "b" false; demo_node 2 "c" true; demo_node 3 "d" true]
    (placement_route_index []).
Definition demo_request : PlacementRequest :=
  mkPReq (mkRQ (of_int 1) 512 300) [] EmptyString JNull [] [].
Definition demo_overlay : InflightOverlay := mkOverlay 10 [] [] 10.
(** A frozen clock and a shuffle that keeps the order. *)
Definition demo_monotonic (e : unit) : Q * unit := (0%Q, e).
Definition demo_randrange (e : unit) (i n : nat) : nat * unit := (i, e).
Definition demo_choose (k : Z) (include : list string) : list string :=
  (λ n, job_id (hb n)) <$>
  (choose demo_monotonic demo_randrange (mkChooser k 4 1) demo_fleet demo_request include
     (demo_overlay, ())).1.

Lemma choose_drained_last_witness :
  demo_choose 3 [] = ["a"; "b"; "c"] ∧
  ∃ preferred drained,
    (choose demo_monotonic demo_randrange (mkChooser 3 4 1) demo_fleet demo_request []
       (demo_overlay, ())).1 = preferred ++ drained ∧
    (drained ≠ [] → Z.of_nat (length preferred) < 3).
Proof.
  split; [by vm_compute|].
  destruct (choose demo_monotonic demo_randrange (mkChooser 3 4 1) demo_fleet demo_request []
    (demo_overlay, ())) as [ranked st] eqn:E.
  destruct (choose_drained_last demo_monotonic demo_randrange (mkChooser 3 4 1) demo_fleet demo_request
    (demo_overlay, ()) ranked st ltac:(done) E) as (p & d & -> & _ & _ & _ & Hd & _).
  by exists p, d.
Defined.

Lemma fit_count_greedy_witness :
  fit_count (hb (demo_node 0 "a" false)) demo_request [] 9 = 5 ∧
  0 + 5 * 300 ≤ disk_mb (free_resources (hb (demo_node 0 "a" false))).
Proof.
  split; [by vm_compute|].
  refine (proj2 (fit_count_greedy (hb (demo_node 0 "a" false)) demo_request [] 9 _ _ _) _);
    [by vm_compute|by vm_compute| |by vm_compute].
  intros i. apply not_elem_of_nil.
Defined.

Lemma pack_terminates_witness :
  ∃ slices st',
    pack demo_monotonic demo_randrange (mkChooser 2 4 1) 5 demo_fleet demo_request 7 3 []
      (demo_overlay, ()) = Ok (Some (slices, st')) ∧
    zsum (gs_count <$> slices) ≤ 7.
Proof.
  destruct (pack_terminates demo_monotonic demo_randrange (mkChooser 2 4 1) demo_fleet demo_request
    7 3 [] (demo_overlay, ()) ltac:(done) ltac:(done)) as (sl & st' & E & H & _).
  by exists sl, st'.
Defined.

Lemma overlay_keeps_charge_witness :
  inflight_record (hb (demo_node 0 "a" false)) ("s", 1, "h", "o") demo_request ∈
  (overlay_records 9 (demo_node 7 "a" false)
     (foldl overlay_step
        (overlay_reserve 2 (hb (demo_node 0 "a" false)) ("s", 1, "h", "o") demo_request demo_overlay)
        [OvReserve 8 (hb (demo_node 0 "a" false)) ("t", 1, "h", "o") demo_request;
         OvRelease "a" ("t", 1, "h", "o"); OvRecords 8 (demo_node 5 "a" false)])).1.
Proof.
  refine (overlay_keeps_charge 10 0 demo_overlay [] 2 (hb (demo_node 0 "a" false)) ("s", 1, "h", "o")
    demo_request _ 9 (demo_node 7 "a" false) _ _ _ _ _); [done| | | |]; try done.
  - repeat constructor; try done; simpl; set_solver.
  - split; simpl; set_solver.
Defined.
