(* ===== verification/ScaleModels.v ===== *)
(** * What the autoscaler reads and returns (ucloud_sandboxes/models.py)

    The scale policy, the demand, the live signals and the decision record, with
    the label tests that retire a failing host. *)
From S2P Require Import Prelude PyFloat PyString Resources PyTime.
From stdpp Require Import pretty.
From Stdlib Require Import Ascii QArith.
Local Close Scope Q_scope.
Local Open Scope Z_scope.

Record ScalePolicy := mkScalePolicy {
  min_nodes : Z;
  max_nodes : Z;
  warm_resources : ResourceQuantity;
  max_create_per_cycle : Z;
  max_stop_per_cycle : Z;
  max_provisioning_nodes : Z;
  provisioning_capacity_weight : float;
  stale_provisioning_after_seconds : Z;
  max_cpu_check_ms : Z;
  stale_provisioning_capacity_weight : float;
  unreachable_stop_after_seconds : Z;
  scale_down_idle_seconds : Z;
  builder_scale_down_idle_seconds : Z;
  sp_heartbeat_ttl_seconds : Z;
  live_pressure_enabled : bool;
  live_pressure_window_seconds : Z;
  live_pressure_min_samples : Z;
  live_pressure_fresh_seconds : Z;
  target_cpu_utilization : float;
  target_memory_utilization : float;
  max_memory_psi_full_avg10 : float;
  max_io_psi_full_avg10 : float;
  target_storage_queue_utilization : float;
  create_pressure_enabled : bool;
  create_pressure_window_seconds : Z;
  create_pressure_min_samples : Z;
  create_pressure_fresh_seconds : Z;
  create_target_concurrency_per_node : Z;
  create_pressure_max_headroom_nodes : Z;
  pressure_scale_down_cooldown_seconds : Z;
  provisioning_latency_lookback_seconds : Z;
  provisioning_scale_down_multiplier : float;
  parked_wake_consolidation_enabled : bool;
  drain_on_park_enabled : bool;
  drain_on_park_moves_per_cycle : Z;
  default_node_resources : ResourceQuantity
}.

(** [ScalePolicy()] with the given consolidation switch, floors and shape *)
Definition default_policy (min max : Z) (consolidate : bool) (shape : ResourceQuantity) : ScalePolicy :=
  mkScalePolicy min max rq_zero 4 1 8 (of_int 1) 300 0 (of_int 0) 1800 600 900 120 true 60 3 30
    (Fin (7 # 10)) (Fin (8 # 10)) (of_int 5) (of_int 10) (Fin (3 # 4)) true 30 2 15 8 1 300
    (7 * 24 * 60 * 60) (of_int 2) consolidate true 4 shape.

(** [replace(policy, scale_down_idle_seconds=...)] *)
Definition with_scale_down_idle (p : ScalePolicy) (idle : Z) : ScalePolicy :=
  mkScalePolicy (min_nodes p) (max_nodes p) (warm_resources p) (max_create_per_cycle p)
    (max_stop_per_cycle p) (max_provisioning_nodes p) (provisioning_capacity_weight p)
    (stale_provisioning_after_seconds p) (max_cpu_check_ms p) (stale_provisioning_capacity_weight p)
    (unreachable_stop_after_seconds p) idle (builder_scale_down_idle_seconds p)
    (sp_heartbeat_ttl_seconds p) (live_pressure_enabled p) (live_pressure_window_seconds p)
    (live_pressure_min_samples p) (live_pressure_fresh_seconds p) (target_cpu_utilization p)
    (target_memory_utilization p) (max_memory_psi_full_avg10 p) (max_io_psi_full_avg10 p)
    (target_storage_queue_utilization p) (create_pressure_enabled p)
    (create_pressure_window_seconds p) (create_pressure_min_samples p)
    (create_pressure_fresh_seconds p) (create_target_concurrency_per_node p)
    (create_pressure_max_headroom_nodes p) (pressure_scale_down_cooldown_seconds p)
    (provisioning_latency_lookback_seconds p) (provisioning_scale_down_multiplier p)
    (parked_wake_consolidation_enabled p) (drain_on_park_enabled p)
    (drain_on_park_moves_per_cycle p) (default_node_resources p).

Record SandboxPlacementRequest := mkPR {
  pr_resources : ResourceQuantity;
  pr_count : Z;
  pr_excluded_job_ids : list string;
  pr_image : string
}.
#[export] Instance ResourceQuantity_eq_dec : EqDecision ResourceQuantity.
Proof. solve_decision. Defined.
#[export] Instance SandboxPlacementRequest_eq_dec : EqDecision SandboxPlacementRequest.
Proof. solve_decision. Defined.

(** [__post_init__] of a placement request with an int count *)
Definition placement_request_init (r : SandboxPlacementRequest) : res SandboxPlacementRequest :=
  raise_if (pr_count r <=? 0) (ValueError "placement request count must be positive") (Ok r).

Record SandboxDemand := mkDemand {
  dm_pending_resources : ResourceQuantity;
  suppressed_pending_resources : ResourceQuantity;
  pending_count : Z;
  suppressed_pending_count : Z;
  oldest_pending_seconds : Z;
  oldest_capacity_pending_seconds : Z;
  placement_requests : list SandboxPlacementRequest;
  prepared_placement_requests : list SandboxPlacementRequest
}.

Definition prepared_resources (d : SandboxDemand) : ResourceQuantity :=
  foldl (λ total r, let n := inject_Z (pr_count r) in rq_add total (scaled (pr_resources r) n n n))
    rq_zero (prepared_placement_requests d).

Record LiveScaleSignals := mkSignals {
  window_seconds : Z;
  observation_samples : Z;
  latest_observation_age_seconds : option Z;
  pressure_samples : Z;
  latest_pressure_age_seconds : option Z;
  cpu_utilization : option float;
  memory_utilization : option float;
  sig_memory_psi_full_avg10 : option float;
  sig_io_psi_full_avg10 : option float;
  storage_queue_utilization : option float;
  image_materialization_queue_utilization : option float;
  create_pressure_samples : Z;
  latest_create_pressure_age_seconds : option Z;
  sandbox_create_rejections : Z;
  sandbox_create_limit : Z;
  provisioning_samples : Z;
  provisioning_p95_seconds : option float;
  scale_up_wait_samples : Z;
  scale_up_wait_p95_seconds : option float;
  latest_schedule_age_seconds : option Z
}.

Record ScaleAction := mkAction {
  ac_kind : string;
  ac_count : Z;
  ac_job_ids : list string;
  ac_reason : string
}.
#[export] Instance ScaleAction_eq_dec : EqDecision ScaleAction.
Proof. solve_decision. Defined.

Record ScaleDecision := mkDecision {
  sd_actions : list ScaleAction;
  sd_ready_nodes : Z;
  sd_provisioning_nodes : Z;
  sd_total_nodes : Z;
  sd_reasons : list string;
  sd_unreachable_nodes : Z;
  sd_pending_resources : ResourceQuantity;
  sd_suppressed_pending_resources : ResourceQuantity;
  sd_pending_count : Z;
  sd_suppressed_pending_count : Z;
  sd_prepared_resources : ResourceQuantity;
  sd_desired_resources : ResourceQuantity;
  sd_projected_free_resources : ResourceQuantity;
  sd_resource_deficit : ResourceQuantity;
  sd_live_signals : option LiveScaleSignals;
  sd_pressure_scale_up : bool;
  sd_create_pressure_scale_up : bool;
  sd_effective_scale_down_idle_seconds : Z;
  sd_soft_drain_job_id : string;
  sd_soft_drain_selected : bool;
  sd_soft_drain_clear_job_ids : list string
}.

Definition actions_of (kind : string) (l : list ScaleAction) : list ScaleAction :=
  filter (λ a, ac_kind a = kind) l.
(** [ScaleDecision.creates] *)
Definition creates (d : ScaleDecision) : Z := zsum (ac_count <$> actions_of "create" (sd_actions d)).
(** [ScaleDecision.stops] *)
Definition stops (d : ScaleDecision) : list string :=
  mjoin (ac_job_ids <$> actions_of "stop" (sd_actions d)).

(** ** Hosts that retire *)

(** [s.split(c)] on a one-character separator *)
Fixpoint split_on (c : ascii) (s : string) : list string :=
  match s with
  | EmptyString => [EmptyString]
  | String x s =>
      if bool_decide (x = c) then EmptyString :: split_on c s
      else match split_on c s with
           | item :: items => String x item :: items
           | [] => [String x EmptyString]
           end
  end.

Definition EPOCH_RETIREMENTS_LABEL : string := "ucloud-sandboxes/controller-epoch-retirements".
Definition REPEATED_REBOOTS : Z := 2.
(** [timedelta(hours=24)], in microseconds *)
Definition REPEATED_REBOOT_WINDOW : Z := 24 * 3600 * 1000000.

(** [parse_iso_datetime], where it returns.  An instant outside [datetime]'s range
    makes it raise, which ends the cycle; here it counts as no instant, so this is
    the code on every cycle that returns. *)
Definition parse_iso (item : string) : option Z :=
  match parse_iso_datetime item with Ok at_ => at_ | Raise _ => None end.

Definition epoch_retirements (heartbeat : option NodeHeartbeat) : list Z :=
  let raw := match heartbeat with
             | Some h => default EmptyString (dget (labels h) EPOCH_RETIREMENTS_LABEL)
             | None => EmptyString
             end in
  omap parse_iso (split_on "," raw).

Definition repeatedly_rebooted (heartbeat : option NodeHeartbeat) (now : Z) : bool :=
  REPEATED_REBOOTS <=?
  zsum ((λ at_, Z.b2z (now - at_ <=? REPEATED_REBOOT_WINDOW)) <$> epoch_retirements heartbeat).

Definition retiring_reason (heartbeat : option NodeHeartbeat) (now max_cpu_check_ms : Z) : option string :=
  if repeatedly_rebooted heartbeat now
  then Some ("rebooted " +:+ pretty REPEATED_REBOOTS +:+ " times within a day")
  else match (h ← heartbeat; runtime_metrics h) with
       | Some m =>
           if (0 <? max_cpu_check_ms) && (max_cpu_check_ms <? cpu_check_ms m)
           then Some ("CPU check took " +:+ pretty (cpu_check_ms m) +:+ " ms, over the "
                      +:+ pretty max_cpu_check_ms +:+ " ms limit")
           else None
       | None => None
       end.
