(* ===== verification/Routes.v ===== *)
(** * Sandbox routes (ucloud_sandboxes/routing.py)

    The route record's validation, which runs again on every [replace], the
    incarnation and freshness tests that fence late observations, and what becomes
    of a route whose owner is lost. *)
From S2P Require Import Prelude PyFloat Json PyString Resources Bytes PlacementAccounting.
Local Open Scope py_scope.
Local Open Scope Z_scope.

(** ** Validation *)

Definition SANDBOX_WORKER_STATES : list string := ["attached"; "detaching"; "detached"].

Definition spec_id_is (spec : dict string json) (sandbox_id : string) : bool :=
  match jget spec "id" with JStr s => bool_decide (s = sandbox_id) | _ => false end.

(** [_validate_sandbox_route_identity], the record's [__post_init__]. *)
Definition route_init (r : SandboxRoute) : res SandboxRoute :=
  raise_if (negb (nonempty (sr_sandbox_id r)) || negb (nonempty (sr_node_id r))
            || negb (nonempty (sr_job_id r)) || negb (nonempty (sr_node_url r)))
    (ValueError "sandbox route requires exact sandbox and node identity")
  match sr_spec r with
  | JObj spec =>
    raise_if (negb (spec_id_is spec (sr_sandbox_id r)))
      (ValueError "sandbox route spec must contain its exact id")
    (raise_if (negb (nonempty (strip (sr_state r)))) (ValueError "sandbox route state is required")
    (raise_if (negb (is_valid (sr_resources r))) (ValueError "sandbox route resources are invalid")
    (raise_if (sr_generation r <? 1) (ValueError "sandbox route generation must be positive")
    (raise_if (negb (operation_id_ok (sr_create_operation_id r)))
      (ValueError "sandbox route create_operation_id is invalid")
    (raise_if (nonempty (sr_delete_operation_id r) && negb (operation_id_ok (sr_delete_operation_id r)))
      (ValueError "sandbox route delete_operation_id is invalid")
    (raise_if (negb (is_hex64 (sr_spec_hash r)))
      (ValueError "sandbox route spec_hash must be a lowercase SHA-256 digest")
    (raise_if (sr_activity_epoch r <? 0) (ValueError "sandbox route activity_epoch must be non-negative")
    (raise_if (negb (bool_decide (sr_worker_state r ∈ SANDBOX_WORKER_STATES)))
      (ValueError "sandbox route worker_state must be one of: attached, detaching, detached")
    (raise_if (negb (bool_decide (sr_worker_state r = "attached")) && negb (is_portable_parked_route r))
      (ValueError "a detaching or detached route must be a fully published park")
    (Ok r))))))))))
  | _ => Raise (AttributeError "spec has no get")
  end.

(** ** [replace] of the fields the operations change *)

(** [replace(r, state=..., updated_at=...)] *)
Definition with_state (r : SandboxRoute) (state updated_at : string) : SandboxRoute :=
  mkRoute (sr_sandbox_id r) (sr_node_id r) (sr_job_id r) (sr_node_url r) (sr_resources r)
    (sr_spec r) state (sr_generation r) (sr_create_operation_id r) (sr_spec_hash r)
    (sr_delete_operation_id r) (sr_node_epoch r) (sr_activity_epoch r) (sr_worker_state r)
    (sr_storage_schema r) (sr_snapshot_manifest_digest r) (sr_snapshot_repository r)
    (sr_snapshot_tag r) (sr_storage_snapshot r) (sr_created_at r) updated_at.

(** [replace] of the worker attachment *)
Definition with_worker (r : SandboxRoute) (worker_state node_epoch : string) (activity_epoch : Z) (updated_at : string) : SandboxRoute :=
  mkRoute (sr_sandbox_id r) (sr_node_id r) (sr_job_id r) (sr_node_url r) (sr_resources r)
    (sr_spec r) (sr_state r) (sr_generation r) (sr_create_operation_id r) (sr_spec_hash r)
    (sr_delete_operation_id r) node_epoch activity_epoch worker_state (sr_storage_schema r)
    (sr_snapshot_manifest_digest r) (sr_snapshot_repository r) (sr_snapshot_tag r)
    (sr_storage_snapshot r) (sr_created_at r) updated_at.

(** [replace(r, node_epoch=..., activity_epoch=...)] *)
Definition with_epoch (r : SandboxRoute) (node_epoch : string) (activity_epoch : Z) : SandboxRoute :=
  mkRoute (sr_sandbox_id r) (sr_node_id r) (sr_job_id r) (sr_node_url r) (sr_resources r)
    (sr_spec r) (sr_state r) (sr_generation r) (sr_create_operation_id r) (sr_spec_hash r)
    (sr_delete_operation_id r) node_epoch activity_epoch (sr_worker_state r) (sr_storage_schema r)
    (sr_snapshot_manifest_digest r) (sr_snapshot_repository r) (sr_snapshot_tag r)
    (sr_storage_snapshot r) (sr_created_at r) (sr_updated_at r).

(** [replace] of the published snapshot *)
Definition with_snapshot (r : SandboxRoute) (schema digest repository tag : string) (snapshot : dict string json) : SandboxRoute :=
  mkRoute (sr_sandbox_id r) (sr_node_id r) (sr_job_id r) (sr_node_url r) (sr_resources r)
    (sr_spec r) (sr_state r) (sr_generation r) (sr_create_operation_id r) (sr_spec_hash r)
    (sr_delete_operation_id r) (sr_node_epoch r) (sr_activity_epoch r) (sr_worker_state r) schema
    digest repository tag snapshot (sr_created_at r) (sr_updated_at r).

(** [replace] of the owning worker *)
Definition with_owner (r : SandboxRoute) (node_id job_id node_url : string) : SandboxRoute :=
  mkRoute (sr_sandbox_id r) node_id job_id node_url (sr_resources r) (sr_spec r) (sr_state r)
    (sr_generation r) (sr_create_operation_id r) (sr_spec_hash r) (sr_delete_operation_id r)
    (sr_node_epoch r) (sr_activity_epoch r) (sr_worker_state r) (sr_storage_schema r)
    (sr_snapshot_manifest_digest r) (sr_snapshot_repository r) (sr_snapshot_tag r)
    (sr_storage_snapshot r) (sr_created_at r) (sr_updated_at r).

(** [replace] of the incarnation *)
Definition with_identity (r : SandboxRoute) (generation : Z) (create_operation_id spec_hash : string) : SandboxRoute :=
  mkRoute (sr_sandbox_id r) (sr_node_id r) (sr_job_id r) (sr_node_url r) (sr_resources r)
    (sr_spec r) (sr_state r) generation create_operation_id spec_hash (sr_delete_operation_id r)
    (sr_node_epoch r) (sr_activity_epoch r) (sr_worker_state r) (sr_storage_schema r)
    (sr_snapshot_manifest_digest r) (sr_snapshot_repository r) (sr_snapshot_tag r)
    (sr_storage_snapshot r) (sr_created_at r) (sr_updated_at r).

(** [replace(r, resources=...)] *)
Definition with_resources (r : SandboxRoute) (resources : ResourceQuantity) : SandboxRoute :=
  mkRoute (sr_sandbox_id r) (sr_node_id r) (sr_job_id r) (sr_node_url r) resources (sr_spec r)
    (sr_state r) (sr_generation r) (sr_create_operation_id r) (sr_spec_hash r)
    (sr_delete_operation_id r) (sr_node_epoch r) (sr_activity_epoch r) (sr_worker_state r)
    (sr_storage_schema r) (sr_snapshot_manifest_digest r) (sr_snapshot_repository r)
    (sr_snapshot_tag r) (sr_storage_snapshot r) (sr_created_at r) (sr_updated_at r).

(** [replace(r, created_at=..., updated_at=...)] *)
Definition with_times (r : SandboxRoute) (created_at updated_at : string) : SandboxRoute :=
  mkRoute (sr_sandbox_id r) (sr_node_id r) (sr_job_id r) (sr_node_url r) (sr_resources r)
    (sr_spec r) (sr_state r) (sr_generation r) (sr_create_operation_id r) (sr_spec_hash r)
    (sr_delete_operation_id r) (sr_node_epoch r) (sr_activity_epoch r) (sr_worker_state r)
    (sr_storage_schema r) (sr_snapshot_manifest_digest r) (sr_snapshot_repository r)
    (sr_snapshot_tag r) (sr_storage_snapshot r) created_at updated_at.

(** [replace(r, delete_operation_id=..., updated_at=...)] *)
Definition with_delete (r : SandboxRoute) (delete_operation_id updated_at : string) : SandboxRoute :=
  mkRoute (sr_sandbox_id r) (sr_node_id r) (sr_job_id r) (sr_node_url r) (sr_resources r)
    (sr_spec r) (sr_state r) (sr_generation r) (sr_create_operation_id r) (sr_spec_hash r)
    delete_operation_id (sr_node_epoch r) (sr_activity_epoch r) (sr_worker_state r)
    (sr_storage_schema r) (sr_snapshot_manifest_digest r) (sr_snapshot_repository r)
    (sr_snapshot_tag r) (sr_storage_snapshot r) (sr_created_at r) updated_at.

(** ** Identity and freshness *)

Definition normalized_route_node_url (node_url : string) : string := rstrip_slash (strip node_url).

Definition same_sandbox_route_incarnation (a b : SandboxRoute) : bool :=
  bool_decide (sr_sandbox_id a = sr_sandbox_id b) && (sr_generation a =? sr_generation b)
  && bool_decide (sr_create_operation_id a = sr_create_operation_id b)
  && bool_decide (sr_spec_hash a = sr_spec_hash b) && bool_decide (sr_node_id a = sr_node_id b)
  && bool_decide (sr_job_id a = sr_job_id b)
  && bool_decide (normalized_route_node_url (sr_node_url a) = normalized_route_node_url (sr_node_url b)).

Definition route_update_is_current (existing candidate : SandboxRoute)
    (allow_node_epoch_adoption : bool) : bool :=
  if negb (same_sandbox_route_incarnation existing candidate) then false
  else if nonempty (sr_node_epoch candidate)
          && negb (bool_decide (sr_node_epoch candidate = sr_node_epoch existing))
  then allow_node_epoch_adoption
  else if bool_decide (sr_node_epoch existing = sr_node_epoch candidate)
          && (sr_activity_epoch candidate <? sr_activity_epoch existing)
  then false
  else true.

(** Equality of routes, as the dataclass compares them. *)
Definition rq_eqb (a b : ResourceQuantity) : bool :=
  feqb (vcpu a) (vcpu b) && (memory_mb a =? memory_mb b) && (disk_mb a =? disk_mb b).
Definition route_eqb (a b : SandboxRoute) : bool :=
  same_sandbox_route_incarnation a b && bool_decide (sr_node_url a = sr_node_url b)
  && rq_eqb (sr_resources a) (sr_resources b) && json_eqb (sr_spec a) (sr_spec b)
  && bool_decide (sr_state a = sr_state b)
  && bool_decide (sr_delete_operation_id a = sr_delete_operation_id b)
  && bool_decide (sr_node_epoch a = sr_node_epoch b) && (sr_activity_epoch a =? sr_activity_epoch b)
  && bool_decide (sr_worker_state a = sr_worker_state b)
  && bool_decide (sr_storage_schema a = sr_storage_schema b)
  && bool_decide (sr_snapshot_manifest_digest a = sr_snapshot_manifest_digest b)
  && bool_decide (sr_snapshot_repository a = sr_snapshot_repository b)
  && bool_decide (sr_snapshot_tag a = sr_snapshot_tag b)
  && json_eqb (JObj (sr_storage_snapshot a)) (JObj (sr_storage_snapshot b))
  && bool_decide (sr_created_at a = sr_created_at b)
  && bool_decide (sr_updated_at a = sr_updated_at b).

(** ** Loss of the owner *)

Inductive SandboxOwnerLossDisposition := RECOVER_DETACHED | TERMINAL_REPLACE | TERMINAL_DELETE.

Definition sandbox_owner_loss_disposition (r : SandboxRoute) : SandboxOwnerLossDisposition :=
  if nonempty (sr_delete_operation_id r) then TERMINAL_DELETE
  else if is_portable_parked_route r then RECOVER_DETACHED
  else TERMINAL_REPLACE.

Definition wake_pending_demand_id (sandbox_id : string) : string := "__wake__:" +:+ sandbox_id.

(** [cold_offload_fence], the compared fields *)
Definition cold_offload_fence (r : SandboxRoute) :=
  (sr_generation r, sr_create_operation_id r, sr_spec_hash r, sr_node_id r, sr_job_id r,
   sr_node_epoch r, sr_activity_epoch r, sr_snapshot_manifest_digest r).

Definition is_worker_detachable_parked_route (r : SandboxRoute) : bool :=
  bool_decide (sr_worker_state r ∈ ["attached"; "detaching"])
  && bool_decide (state_or_unknown (sr_state r) = "parked")
  && negb (nonempty (sr_delete_operation_id r)).

(** models.py [SandboxInventoryEntry.route_state]: only running and parked are
    routable. *)
Definition item_route_state (i : SandboxInventoryEntry) : option string :=
  let s := lower (strip (inv_state i)) in
  if bool_decide (s ∈ ["running"; "parked"]) then Some s else None.

(** ** Inventory snapshots *)

(** The descriptor [StorageNativeMigration.from_dict] returns, as far as the
    routing code reads it. *)
Record descriptor := mkDescriptor {
  ds_schema : string;
  ds_sandbox_id : string;
  ds_generation : Z;
  ds_create_operation_id : string;
  ds_spec_sha256 : string;
  ds_digest : string;
  ds_repository : string;
  ds_tag : string;
  ds_dict : dict string json
}.

(** [route_with_inventory_snapshot]; [parse] is [StorageNativeMigration.from_dict]. *)
Definition route_with_inventory_snapshot (parse : dict string json → res descriptor)
    (r : SandboxRoute) (i : SandboxInventoryEntry) : res SandboxRoute :=
  raise_if (negb (bool_decide (inv_sandbox_id i = sr_sandbox_id r)) || negb (inv_generation i =? sr_generation r)
            || negb (bool_decide (inv_operation_id i = sr_create_operation_id r))
            || negb (bool_decide (inv_spec_hash i = sr_spec_hash r)))
    (ValueError "inventory snapshot does not own its sandbox route")
  (raise_if (negb (bool_decide (lower (strip (inv_state i)) = "parked")))
    (ValueError "only a parked inventory entry can publish a snapshot")
  (let! s := parse (inv_storage_snapshot i) in
   raise_if (negb (bool_decide (ds_schema s = inv_storage_schema i))
             || negb (bool_decide (ds_sandbox_id s = sr_sandbox_id r))
             || negb (ds_generation s =? sr_generation r)
             || negb (bool_decide (ds_create_operation_id s = sr_create_operation_id r))
             || negb (bool_decide (ds_spec_sha256 s = sr_spec_hash r))
             || negb (bool_decide (ds_digest s = inv_snapshot_manifest_digest i))
             || negb (bool_decide (ds_repository s = inv_snapshot_repository i))
             || negb (bool_decide (ds_tag s = inv_snapshot_tag i)))
     (ValueError "inventory snapshot descriptor does not match its route")
   (route_init (with_snapshot r (inv_storage_schema i) (inv_snapshot_manifest_digest i)
      (inv_snapshot_repository i) (inv_snapshot_tag i) (ds_dict s))))).
