(* ===== verification/Consolidation.v ===== *)
(** * Consolidating parks at their next wake (ucloud_sandboxes/consolidation.py)

    The rank of a worker and the test that lets a portable park wake on an older,
    busier worker.  Since every move strictly lowers the rank, no sequence of
    moves can bounce a sandbox between workers. *)
From S2P Require Import Prelude PyFloat PyString PyTime Json Resources Bytes PlacementAccounting ScaleModels Routes.
From Stdlib Require Import QArith Lqa.
Local Close Scope Q_scope.
Local Open Scope py_scope.
Local Open Scope Z_scope.

Definition consolidation_rank (h : NodeHeartbeat) : nat * string * string :=
  (String.length (job_id h), job_id h, node_id h).

(** [a < b] on the rank tuples *)
Definition rank_ltb (a b : nat * string * string) : bool :=
  let '(la, ja, na) := a in
  let '(lb, jb, nb) := b in
  (la <? lb)%nat
  || ((la =? lb)%nat && (string_ltb ja jb || (bool_decide (ja = jb) && string_ltb na nb))).

(** A worker whose observations may be used: the [for node in (source, destination)] guard. *)
Definition observed_ready (policy : ScalePolicy) (now : Z) (h : NodeHeartbeat) : bool :=
  let fresh := live_pressure_fresh_seconds policy in
  negb (negb (inventory_complete h) || negb (resources_known h) || draining h
        || negb (admission_open h) || negb (is_fresh h now fresh)
        || match runtime_metrics h with
           | None => true
           | Some m =>
               let age := now - collected_at m in
               negb ((0 <=? age) && (age <=? fresh * 1000000))
               || match cpu_percent m with None => true | Some c => negb (isfinite c) end
               || (memory_total_mb m <=? 0) || (0 <? storage_error_volumes m)
               || (0 <? storage_waiting_operations m) || (0 <? active_sandbox_creates h)
           end).

(** Both samples present and the destination's stall the larger one. *)
Definition worse_stall (source destination : option float) : bool :=
  match source, destination with
  | Some s, Some d => fltb s d
  | _, _ => false
  end.

Definition stalled (limit x : float) : bool := negb (isfinite x) || fleb limit x.

Definition used_memory (m : NodeRuntimeMetrics) : Z :=
  Z.max (Z.max (memory_used_mb m) (memory_total_mb m - memory_available_mb m))
    (memory_working_set_mb m).

(** The checks on the two samples, after [assert src is not None and dst is not None]. *)
Definition headroom_ok (src dst : NodeRuntimeMetrics) (destination : NodeHeartbeat)
    (requested : ResourceQuantity) (policy : ScalePolicy) (observed_memory_mb : option Z) : bool :=
  let cpu m := default NaN (cpu_percent m) in
  if worse_stall (io_psi_some_avg10 src) (io_psi_some_avg10 dst)
     || worse_stall (io_psi_full_avg10 src) (io_psi_full_avg10 dst)
     || worse_stall (memory_psi_some_avg10 src) (memory_psi_some_avg10 dst)
  then false
  else if fltb (fscale (target_cpu_utilization policy) (1 # 2)) (fscale (cpu src) (1 # 100)) then false
  else if fleb (vcpu (total_resources destination)) (of_int 0) then false
  else if fltb (target_cpu_utilization policy)
            (fadd (fscale (cpu dst) (1 # 100))
               (fdiv (vcpu requested) (vcpu (total_resources destination)))) then false
  else if fltb (target_memory_utilization policy)
            (int_div (used_memory dst + Z.max (memory_mb requested) (default 0 observed_memory_mb))
               (memory_total_mb dst)) then false
  else if from_option (stalled (max_memory_psi_full_avg10 policy)) true (memory_psi_full_avg10 dst)
  then false
  else if from_option (stalled (max_io_psi_full_avg10 policy)) false (io_psi_full_avg10 dst) then false
  else if (storage_max_concurrent_operations dst <=? 0)
          || fleb (target_storage_queue_utilization policy)
               (int_div (storage_active_operations dst) (storage_max_concurrent_operations dst))
  then false
  else true.

(** The inner loop's body: the sample of one inventory entry, if it is the route's *)
Definition observed_entry (route : SandboxRoute) (now max_age_seconds : Z) (e : SandboxInventoryEntry) :
    res (option Z) :=
  if negb (bool_decide (inv_sandbox_id e = sr_sandbox_id route)) || negb (inv_generation e =? sr_generation route)
     || negb (bool_decide (inv_spec_hash e = sr_spec_hash route))
  then Ok None
  else match inv_memory_observation e with
       | None => Ok None
       | Some sample =>
           let! sampled_at := parse_iso_datetime (mo_sampled_at sample) in
           Ok match sampled_at with
              | Some t => if (0 <=? now - t) && (now - t <=? max_age_seconds * 1000000)
                          then Some ((mo_memory_bytes sample + 1048576 - 1) / 1048576) else None
              | None => None
              end
       end.
Definition observed_memory_mb (route : SandboxRoute) (heartbeats : list NodeHeartbeat) (now max_age_seconds : Z) :
    res (option Z) :=
  res_first (λ h,
    if negb (bool_decide (job_id h = sr_job_id route)) || negb (bool_decide (node_id h = sr_node_id route))
       || (nonempty (sr_node_epoch route) && negb (bool_decide (node_epoch h = sr_node_epoch route)))
       || negb (is_fresh h now max_age_seconds)
    then Ok None
    else res_first (observed_entry route now max_age_seconds) (inventory h)) heartbeats.

Definition can_consolidate_wake (source destination : NodeHeartbeat) (requested : ResourceQuantity)
    (policy : ScalePolicy) (now : Z) (observed_memory_mb : option Z) : bool :=
  if negb (parked_wake_consolidation_enabled policy) then false
  else if negb (rank_ltb (consolidation_rank destination) (consolidation_rank source)) then false
  else if active_sandboxes destination <? Z.max 1 (active_sandboxes source) then false
  else if negb (observed_ready policy now source && observed_ready policy now destination) then false
  else match runtime_metrics source, runtime_metrics destination with
       | Some src, Some dst => headroom_ok src dst destination requested policy observed_memory_mb
       | _, _ => false
       end.

(** ** The rank is a strict order *)

Lemma rank_ltb_irrefl a : rank_ltb a a = false.
Proof.
  destruct a as [[l j] n]. unfold rank_ltb.
  by rewrite Nat.ltb_irrefl, Nat.eqb_refl, !string_ltb_irrefl, andb_false_r.
Qed.

Lemma rank_ltb_trans a b c : rank_ltb a b = true → rank_ltb b c = true → rank_ltb a c = true.
Proof.
  destruct a as [[la ja] na], b as [[lb jb] nb], c as [[lc jc] nc]. unfold rank_ltb.
  rewrite !orb_true_iff, !andb_true_iff, !orb_true_iff, !andb_true_iff,
    !bool_decide_eq_true, !Nat.ltb_lt, !Nat.eqb_eq.
  intros [?|[? Hab]] [?|[? Hbc]]; [left; lia|left; lia|left; lia|]. right. split; [lia|].
  destruct Hab as [Hab|[-> Hab]], Hbc as [Hbc|[-> Hbc]]; eauto using string_ltb_trans.
Qed.

Lemma can_consolidate_rank s d r p now o :
  can_consolidate_wake s d r p now o = true →
  rank_ltb (consolidation_rank d) (consolidation_rank s) = true.
Proof. unfold can_consolidate_wake. intros H. by repeat case_match; bools. Qed.

(** One park waking on worker after worker; the policy, the demand and both
    heartbeats may differ at every move. *)
Inductive moved : NodeHeartbeat → list NodeHeartbeat → Prop :=
| moved_nil h : moved h []
| moved_cons s s' d r p now o ds :
    consolidation_rank s' = consolidation_rank s →
    can_consolidate_wake s' d r p now o = true → moved d ds → moved s (d :: ds).

Lemma moved_lower h ds :
  moved h ds →
  Forall (λ d, rank_ltb (consolidation_rank d) (consolidation_rank h) = true) ds.
Proof.
  induction 1 as [|s s' d r p now o ds Hr Hc _ IH]; constructor.
  - rewrite <- Hr. by eapply can_consolidate_rank.
  - eapply Forall_impl; [exact IH|]. intros x Hx. eapply rank_ltb_trans; [exact Hx|].
    rewrite <- Hr. by eapply can_consolidate_rank.
Qed.

Lemma moved_NoDup h ds : moved h ds → NoDup (consolidation_rank <$> h :: ds).
Proof.
  intros Hm. pose proof (moved_lower _ _ Hm) as Hl. revert Hl.
  induction Hm as [|s s' d r p now o ds Hr Hc Hm IH]; intros Hl; csimpl; constructor.
  - set_solver.
  - constructor.
  - change (consolidation_rank s ∉ consolidation_rank <$> (d :: ds)).
    intros (x & Hx & Hin)%list_elem_of_fmap. rewrite Forall_forall in Hl. specialize (Hl _ Hin).
    rewrite <- Hx, rank_ltb_irrefl in Hl. done.
  - apply IH. by apply moved_lower.
Qed.

(** Consolidation never returns a park to a worker it left: along any
    sequence of consolidated wakes, whatever the heartbeats, demands and policies
    of each, all workers visited are different, so a fleet of [n] workers allows at
    most [n - 1] moves. *)
Theorem consolidation_never_returns h ds fleet :
  moved h ds →
  NoDup ((λ n, (job_id n, node_id n)) <$> h :: ds) ∧
  ((∀ n, n ∈ h :: ds → (job_id n, node_id n) ∈ fleet) → (length ds < length fleet)%nat).
Proof.
  intros Hm. assert (NoDup ((λ n, (job_id n, node_id n)) <$> h :: ds)) as Hnd.
  { apply moved_NoDup in Hm.
    apply (NoDup_fmap_1 (λ jn : string * string, (String.length jn.1, jn.1, jn.2))).
    by rewrite <- list_fmap_compose. }
  split; [done|]. intros Hin.
  assert (length ((λ n, (job_id n, node_id n)) <$> h :: ds) ≤ length fleet)%nat as Hlen.
  { apply submseteq_length, NoDup_submseteq; [done|].
    intros x (n & -> & Hn)%list_elem_of_fmap. by apply Hin. }
  rewrite length_fmap in Hlen. simpl in Hlen. lia.
Qed.

Lemma fltb_false_Fin x y : isfinite x = true → isfinite y = true → fltb x y = false → fleb y x = true.
Proof. intros Hx Hy. apply fltb_false_fleb; by intros ->. Qed.
Lemma fleb_false_Fin x y : isfinite x = true → isfinite y = true → fleb x y = false → fltb y x = true.
Proof. destruct x, y; simpl; try done. intros _ _ ->. done. Qed.

Lemma observed_ready_inv policy now h :
  observed_ready policy now h = true →
  ∃ m c, runtime_metrics h = Some m ∧ cpu_percent m = Some c ∧ isfinite c = true ∧
    0 < memory_total_mb m ∧ storage_error_volumes m ≤ 0 ∧ storage_waiting_operations m ≤ 0 ∧
    active_sandbox_creates h ≤ 0 ∧ draining h = false ∧ admission_open h = true ∧
    is_fresh h now (live_pressure_fresh_seconds policy) = true.
Proof.
  unfold observed_ready. rewrite negb_true_iff, !orb_false_iff. intros [[[[[_ _] ?] ?] ?] Hm].
  destruct (runtime_metrics h) as [m|]; [|done]. rewrite !orb_false_iff in Hm.
  destruct Hm as [[[[[_ Hc] ?] ?] ?] ?]. destruct (cpu_percent m) as [c|] eqn:Ec; [|done].
  exists m, c. bools. split_and!; try done; lia.
Qed.

(** A policy whose thresholds are numbers. *)
Definition policy_finite (p : ScalePolicy) : Prop :=
  isfinite (target_cpu_utilization p) = true ∧ isfinite (target_memory_utilization p) = true ∧
  isfinite (max_memory_psi_full_avg10 p) = true ∧ isfinite (target_storage_queue_utilization p) = true.

(** A consolidated wake keeps its destination within the policy: with its
    working set plus the waking sandbox it stays at or below the memory target, its
    CPU plus the full waking shape at or below the CPU target, its memory stall and
    storage queue strictly below their limits, it carries at least as many sandboxes
    as the source, and it admits, is not draining and was observed recently. *)
Theorem consolidation_within_targets s d r p now o :
  policy_finite p → is_valid r = true → isfinite (vcpu (total_resources d)) = true →
  can_consolidate_wake s d r p now o = true →
  ∃ m c stall, runtime_metrics d = Some m ∧ cpu_percent m = Some c ∧ memory_psi_full_avg10 m = Some stall ∧
    fleb (int_div (used_memory m + memory_mb r) (memory_total_mb m)) (target_memory_utilization p) = true ∧
    fleb (fadd (fscale c (1 # 100)) (fdiv (vcpu r) (vcpu (total_resources d))))
      (target_cpu_utilization p) = true ∧
    fltb stall (max_memory_psi_full_avg10 p) = true ∧
    fltb (int_div (storage_active_operations m) (storage_max_concurrent_operations m))
      (target_storage_queue_utilization p) = true ∧
    active_sandboxes s ≤ active_sandboxes d ∧ 1 ≤ active_sandboxes d ∧
    admission_open d = true ∧ draining d = false ∧
    is_fresh d now (live_pressure_fresh_seconds p) = true.
Proof.
  intros (Pc & Pm & Pp & Ps) Hr Ht H. unfold can_consolidate_wake in H.
  destruct (negb _); [done|]. destruct (negb (rank_ltb _ _)); [done|].
  destruct (_ <? _) eqn:Ha; [done|]. destruct (negb _) eqn:Hobs; [done|].
  rewrite negb_false_iff, andb_true_iff in Hobs. destruct Hobs as [_ Hobs]. bools.
  destruct (runtime_metrics s) as [src|]; [|done].
  apply observed_ready_inv in Hobs as (m & c & Em & Ec & Hc & Htot & _ & _ & _ & Hd & Ho & Hf).
  rewrite Em in H. unfold headroom_ok in H. rewrite Ec in H. cbn [default] in H.
  destruct (_ || _ || _); [done|]. destruct (fltb (fscale _ _) _); [done|].
  destruct (fleb (vcpu _) _) eqn:Hv; [done|]. destruct (fltb (target_cpu_utilization p) _) eqn:H1; [done|].
  destruct (fltb (target_memory_utilization p) _) eqn:H2; [done|].
  destruct (memory_psi_full_avg10 m) as [stall|] eqn:Eps; [|done].
  cbn [from_option] in H. destruct (stalled _ stall) eqn:H3; [done|]. unfold stalled in H3.
  destruct (from_option _ _ (io_psi_full_avg10 m)); [done|].
  destruct ((_ <=? 0) || _) eqn:H4; [done|]. bools.
  exists m, c, stall. unfold is_valid in Hr. bools.
  split_and!; try done; try lia.
  - apply fltb_false_Fin in H2; [|done|done]. eapply fleb_trans; [|exact H2].
    unfold int_div. apply fleb_Fin. apply Qmult_le_compat_r; [rewrite <-Zle_Qle; lia|].
    apply Qinv_le_0_compat. rewrite <-(Zle_Qle 0). lia.
  - apply fltb_false_Fin in H1; [done|done|].
    destruct c, (vcpu r), (vcpu (total_resources d)); done.
  - by apply fleb_false_Fin.
  - by apply fleb_false_Fin.
Qed.

(** ** A concrete fleet *)

Definition packed_metrics : NodeRuntimeMetrics :=
  mkMetrics 0 (Some (of_int 10)) 4 16000 4000 12000 None 3000 0 0 None (Some (of_int 1)) None None None
    2000 500 0 0 8 0 0 0 0 0 None 0.
Definition packed_node (job : string) (active : Z) : NodeHeartbeat :=
  mkHeartbeat job job 0 active 0 0 None false None "v" ["sandbox"] (mkRQ (of_int 4) 16000 2000) true rq_zero
    [] (Some packed_metrics) None "e" [] [] true rq_zero rq_zero true 0 EmptyString 0.
Definition packed_policy : ScalePolicy :=
  default_policy 0 10 true (mkRQ (of_int 32) 98304 1449984).
Definition packed_request : ResourceQuantity := mkRQ (of_int 1) 2048 0.

Lemma packed_moved : moved (packed_node "210" 1) [packed_node "99" 2; packed_node "87" 3].
Proof.
  apply (moved_cons _ (packed_node "210" 1) _ packed_request packed_policy 1000000 None);
    [done|by vm_compute|].
  apply (moved_cons _ (packed_node "99" 2) _ packed_request packed_policy 1000000 (Some 4096));
    [done|by vm_compute|constructor].
Qed.

Lemma consolidation_never_returns_witness :
  (length [packed_node "99" 2; packed_node "87" 3]
   < length [("210", "210"); ("99", "99"); ("87", "87")])%nat.
Proof.
  apply (consolidation_never_returns _ _ [("210", "210"); ("99", "99"); ("87", "87")] packed_moved).
  intros n Hn. rewrite !elem_of_cons, elem_of_nil in Hn.
  destruct Hn as [-> |[-> |[-> |[]]]]; simpl; set_solver.
Defined.

Lemma consolidation_within_targets_witness :
  admission_open (packed_node "99" 2) = true ∧ 1 ≤ active_sandboxes (packed_node "99" 2).
Proof.
  destruct (consolidation_within_targets (packed_node "210" 1) (packed_node "99" 2) packed_request
    packed_policy 1000000 None) as (m & c & x & _ & _ & _ & _ & _ & _ & _ & _ & H1 & H2 & _);
    [done|by vm_compute|done|by vm_compute|done].
Defined.
