(* ===== verification/RouteStore.v ===== *)
(** * The route store (ucloud_sandboxes/routing.py, RoutingStore)

    The tables as finite maps keyed by their primary keys, and each write
    transaction as a function of the database: [Ok (result, database)], or [Raise]
    when the transaction rolls back.  One clock reading [now] and fresh identifiers
    are arguments.  Timestamps are the text the rows hold. *)
From S2P Require Import Prelude PyFloat Json PyString Resources Bytes PyTime ManagedProcess.
From S2P Require Import PlacementAccounting Routes.
From stdpp Require Import gmap strings.
Local Open Scope py_scope.
Local Open Scope Z_scope.

(** ** Tables *)

Record ExecRoute := mkExec {
  er_session_id : string;
  er_sandbox_id : string;
  er_node_id : string;
  er_job_id : string;
  er_node_url : string;
  er_created_at : string;
  er_updated_at : string
}.

Record ExecLoss := mkExecLoss {
  el_sandbox_id : string; el_generation : Z; el_job_id : string; el_lost_at : string
}.

Record SandboxLoss := mkLoss {
  sl_generation : Z; sl_job_id : string; sl_reason : string; sl_lost_at : string
}.

Record PendingSandboxDemand := mkPending {
  pd_sandbox_id : string;
  pd_resources : ResourceQuantity;
  pd_created_at : string;
  pd_updated_at : string;
  pd_attempts : Z;
  pd_generation : Z;
  pd_operation_id : string;
  pd_spec_hash : string;
  pd_failure_reason : string
}.

Record PreparedCapacityDemand := mkPrepared {
  pc_prepare_id : string;
  pc_resources : ResourceQuantity;
  pc_count : Z;
  pc_created_at : string;
  pc_updated_at : string;
  pc_expires_at : string;
  pc_image : string
}.

(** A row of program_requests *)
Record ProgramRequest := mkProgram {
  pg_request_id : string;
  pg_rollout_id : string;
  pg_sandbox_id : string;
  pg_generation : Z;
  pg_state : string;
  pg_resources : ResourceQuantity;
  pg_accepted_at : string;
  pg_parked_at : string;
  pg_response_ready_at : string;
  pg_wake_started_at : string;
  pg_wake_completed_at : string;
  pg_updated_at : string;
  pg_last_error : string
}.

Record PendingImageBuildDemand := mkImageBuild {
  ib_image_id : string;
  ib_tag : string;
  ib_created_at : string;
  ib_updated_at : string;
  ib_attempts : Z
}.

Record PreparedBuilderDemand := mkBuilder {
  bd_prepare_id : string;
  bd_count : Z;
  bd_created_at : string;
  bd_updated_at : string;
  bd_expires_at : string
}.

Record PendingImageWarmup := mkWarmup {
  wu_warmup_id : string;
  wu_image : string;
  wu_resources : ResourceQuantity;
  wu_count : Z;
  wu_created_at : string;
  wu_updated_at : string;
  wu_expires_at : string;
  wu_image_id : string;
  wu_warmed_node_ids : list string;
  wu_attempts : Z
}.

Record SandboxMigration := mkMigration {
  mg_migration_id : string;
  mg_sandbox_id : string;
  mg_phase : string;
  mg_source_node_id : string;
  mg_source_job_id : string;
  mg_source_node_url : string;
  mg_destination_node_id : string;
  mg_destination_job_id : string;
  mg_destination_node_url : string;
  mg_generation : Z;
  mg_create_operation_id : string;
  mg_spec_hash : string;
  mg_storage_schema : string;
  mg_snapshot_sha256 : string;
  mg_storage_snapshot : dict string json;
  mg_source_fenced : bool;
  mg_created_at : string;
  mg_updated_at : string;
  mg_error : string
}.

Record GroupRow := mkGroup {
  gr_request_hash : string; gr_spec : dict string json; gr_count : Z; gr_state : string;
  gr_created_at : string; gr_updated_at : string
}.

Record db := mkDB {
  sandboxes : gmap string SandboxRoute;
  sandbox_generation_hwm : gmap string Z;
  storage_dependencies : gmap string (Z * dict string json);
  exec_sessions : gmap string ExecRoute;
  exec_losses : gmap string ExecLoss;
  sandbox_losses : gmap string SandboxLoss;
  managed_processes : gmap string ManagedProcessRecord;
  sandbox_migrations : gmap string SandboxMigration;
  pending : gmap string PendingSandboxDemand;
  prepared_capacity : gmap string PreparedCapacityDemand;
  program_requests : gmap string ProgramRequest;
  sandbox_groups : gmap string GroupRow;
  sandbox_group_members : gmap string (string * Z);
  image_builds : gmap string PendingImageBuildDemand;
  prepared_builders : gmap string PreparedBuilderDemand;
  image_warmups : gmap string PendingImageWarmup
}.

Definition empty_db : db := mkDB ∅ ∅ ∅ ∅ ∅ ∅ ∅ ∅ ∅ ∅ ∅ ∅ ∅ ∅ ∅ ∅.

(** Applying a statement to one table. *)
Definition on_sandboxes (f : gmap string SandboxRoute → gmap string SandboxRoute) (d : db) : db :=
  mkDB (f (sandboxes d)) (sandbox_generation_hwm d) (storage_dependencies d) (exec_sessions d)
    (exec_losses d) (sandbox_losses d) (managed_processes d) (sandbox_migrations d) (pending d)
    (prepared_capacity d) (program_requests d) (sandbox_groups d) (sandbox_group_members d)
    (image_builds d) (prepared_builders d) (image_warmups d).
Definition on_hwm (f : gmap string Z → gmap string Z) (d : db) : db :=
  mkDB (sandboxes d) (f (sandbox_generation_hwm d)) (storage_dependencies d) (exec_sessions d)
    (exec_losses d) (sandbox_losses d) (managed_processes d) (sandbox_migrations d) (pending d)
    (prepared_capacity d) (program_requests d) (sandbox_groups d) (sandbox_group_members d)
    (image_builds d) (prepared_builders d) (image_warmups d).
Definition on_dependencies (f : gmap string (Z * dict string json) → gmap string (Z * dict string json)) (d : db) : db :=
  mkDB (sandboxes d) (sandbox_generation_hwm d) (f (storage_dependencies d)) (exec_sessions d)
    (exec_losses d) (sandbox_losses d) (managed_processes d) (sandbox_migrations d) (pending d)
    (prepared_capacity d) (program_requests d) (sandbox_groups d) (sandbox_group_members d)
    (image_builds d) (prepared_builders d) (image_warmups d).
Definition on_execs (f : gmap string ExecRoute → gmap string ExecRoute) (d : db) : db :=
  mkDB (sandboxes d) (sandbox_generation_hwm d) (storage_dependencies d) (f (exec_sessions d))
    (exec_losses d) (sandbox_losses d) (managed_processes d) (sandbox_migrations d) (pending d)
    (prepared_capacity d) (program_requests d) (sandbox_groups d) (sandbox_group_members d)
    (image_builds d) (prepared_builders d) (image_warmups d).
Definition on_exec_losses (f : gmap string ExecLoss → gmap string ExecLoss) (d : db) : db :=
  mkDB (sandboxes d) (sandbox_generation_hwm d) (storage_dependencies d) (exec_sessions d)
    (f (exec_losses d)) (sandbox_losses d) (managed_processes d) (sandbox_migrations d) (pending d)
    (prepared_capacity d) (program_requests d) (sandbox_groups d) (sandbox_group_members d)
    (image_builds d) (prepared_builders d) (image_warmups d).
Definition on_losses (f : gmap string SandboxLoss → gmap string SandboxLoss) (d : db) : db :=
  mkDB (sandboxes d) (sandbox_generation_hwm d) (storage_dependencies d) (exec_sessions d)
    (exec_losses d) (f (sandbox_losses d)) (managed_processes d) (sandbox_migrations d) (pending d)
    (prepared_capacity d) (program_requests d) (sandbox_groups d) (sandbox_group_members d)
    (image_builds d) (prepared_builders d) (image_warmups d).
Definition on_managed (f : gmap string ManagedProcessRecord → gmap string ManagedProcessRecord) (d : db) : db :=
  mkDB (sandboxes d) (sandbox_generation_hwm d) (storage_dependencies d) (exec_sessions d)
    (exec_losses d) (sandbox_losses d) (f (managed_processes d)) (sandbox_migrations d) (pending d)
    (prepared_capacity d) (program_requests d) (sandbox_groups d) (sandbox_group_members d)
    (image_builds d) (prepared_builders d) (image_warmups d).
Definition on_migrations (f : gmap string SandboxMigration → gmap string SandboxMigration) (d : db) : db :=
  mkDB (sandboxes d) (sandbox_generation_hwm d) (storage_dependencies d) (exec_sessions d)
    (exec_losses d) (sandbox_losses d) (managed_processes d) (f (sandbox_migrations d)) (pending d)
    (prepared_capacity d) (program_requests d) (sandbox_groups d) (sandbox_group_members d)
    (image_builds d) (prepared_builders d) (image_warmups d).
Definition on_pending (f : gmap string PendingSandboxDemand → gmap string PendingSandboxDemand) (d : db) : db :=
  mkDB (sandboxes d) (sandbox_generation_hwm d) (storage_dependencies d) (exec_sessions d)
    (exec_losses d) (sandbox_losses d) (managed_processes d) (sandbox_migrations d) (f (pending d))
    (prepared_capacity d) (program_requests d) (sandbox_groups d) (sandbox_group_members d)
    (image_builds d) (prepared_builders d) (image_warmups d).
Definition on_prepared (f : gmap string PreparedCapacityDemand → gmap string PreparedCapacityDemand) (d : db) : db :=
  mkDB (sandboxes d) (sandbox_generation_hwm d) (storage_dependencies d) (exec_sessions d)
    (exec_losses d) (sandbox_losses d) (managed_processes d) (sandbox_migrations d) (pending d)
    (f (prepared_capacity d)) (program_requests d) (sandbox_groups d) (sandbox_group_members d)
    (image_builds d) (prepared_builders d) (image_warmups d).
Definition on_programs (f : gmap string ProgramRequest → gmap string ProgramRequest) (d : db) : db :=
  mkDB (sandboxes d) (sandbox_generation_hwm d) (storage_dependencies d) (exec_sessions d)
    (exec_losses d) (sandbox_losses d) (managed_processes d) (sandbox_migrations d) (pending d)
    (prepared_capacity d) (f (program_requests d)) (sandbox_groups d) (sandbox_group_members d)
    (image_builds d) (prepared_builders d) (image_warmups d).
Definition on_groups (f : gmap string GroupRow → gmap string GroupRow) (d : db) : db :=
  mkDB (sandboxes d) (sandbox_generation_hwm d) (storage_dependencies d) (exec_sessions d)
    (exec_losses d) (sandbox_losses d) (managed_processes d) (sandbox_migrations d) (pending d)
    (prepared_capacity d) (program_requests d) (f (sandbox_groups d)) (sandbox_group_members d)
    (image_builds d) (prepared_builders d) (image_warmups d).
Definition on_members (f : gmap string (string * Z) → gmap string (string * Z)) (d : db) : db :=
  mkDB (sandboxes d) (sandbox_generation_hwm d) (storage_dependencies d) (exec_sessions d)
    (exec_losses d) (sandbox_losses d) (managed_processes d) (sandbox_migrations d) (pending d)
    (prepared_capacity d) (program_requests d) (sandbox_groups d) (f (sandbox_group_members d))
    (image_builds d) (prepared_builders d) (image_warmups d).
Definition on_image_builds (f : gmap string PendingImageBuildDemand → gmap string PendingImageBuildDemand) (d : db) : db :=
  mkDB (sandboxes d) (sandbox_generation_hwm d) (storage_dependencies d) (exec_sessions d)
    (exec_losses d) (sandbox_losses d) (managed_processes d) (sandbox_migrations d) (pending d)
    (prepared_capacity d) (program_requests d) (sandbox_groups d) (sandbox_group_members d)
    (f (image_builds d)) (prepared_builders d) (image_warmups d).
Definition on_builders (f : gmap string PreparedBuilderDemand → gmap string PreparedBuilderDemand) (d : db) : db :=
  mkDB (sandboxes d) (sandbox_generation_hwm d) (storage_dependencies d) (exec_sessions d)
    (exec_losses d) (sandbox_losses d) (managed_processes d) (sandbox_migrations d) (pending d)
    (prepared_capacity d) (program_requests d) (sandbox_groups d) (sandbox_group_members d)
    (image_builds d) (f (prepared_builders d)) (image_warmups d).
Definition on_warmups (f : gmap string PendingImageWarmup → gmap string PendingImageWarmup) (d : db) : db :=
  mkDB (sandboxes d) (sandbox_generation_hwm d) (storage_dependencies d) (exec_sessions d)
    (exec_losses d) (sandbox_losses d) (managed_processes d) (sandbox_migrations d) (pending d)
    (prepared_capacity d) (program_requests d) (sandbox_groups d) (sandbox_group_members d)
    (image_builds d) (prepared_builders d) (f (image_warmups d)).

(** ** Row writes *)

(** [_sandbox_route_from_row] of a stored row runs the record's validation. *)
Definition get_sandbox_unlocked (d : db) (sandbox_id : string) : res (option SandboxRoute) :=
  match sandboxes d !! sandbox_id with
  | None => Ok None
  | Some row => let! r := route_init row in Ok (Some r)
  end.

Definition hwm_upsert (sandbox_id : string) (generation : Z) (m : gmap string Z) : gmap string Z :=
  <[sandbox_id := match m !! sandbox_id with
                  | Some g => if generation <? g then g else generation
                  | None => generation
                  end]> m.

(** [INSERT INTO sandbox_storage_dependencies ... ON CONFLICT DO UPDATE], when the
    route has a snapshot *)
Definition write_dependency (r : SandboxRoute) (d : db) : db :=
  match sr_storage_snapshot r with
  | [] => d
  | snapshot => on_dependencies <[sr_sandbox_id r := (sr_generation r, snapshot)]> d
  end.

Definition write_sandbox (r : SandboxRoute) (d : db) : db :=
  let stored := with_epoch r (sr_node_epoch r) (Z.max 0 (sr_activity_epoch r)) in
  let d := on_sandboxes <[sr_sandbox_id r := stored]> d in
  let d := on_dependencies (λ m,
    match m !! sr_sandbox_id r with
    | Some (g, _) => if g =? sr_generation r then m else delete (sr_sandbox_id r) m
    | None => m
    end) d in
  on_hwm (hwm_upsert (sr_sandbox_id r) (sr_generation r)) (write_dependency r d).

(** [UPDATE sandboxes SET state=?, ...]: the lifecycle columns of [r] over a row *)
Definition lifecycle_row (r row : SandboxRoute) : SandboxRoute :=
  with_epoch
    (with_snapshot (with_state row (sr_state r) (sr_updated_at r)) (sr_storage_schema r)
       (sr_snapshot_manifest_digest r) (sr_snapshot_repository r) (sr_snapshot_tag r)
       (sr_storage_snapshot r))
    (sr_node_epoch r) (sr_activity_epoch r).
Definition write_sandbox_lifecycle (r : SandboxRoute) (d : db) : db :=
  write_dependency r (on_sandboxes (alter (lifecycle_row r) (sr_sandbox_id r)) d).

(** [_record_exec_losses_unlocked]: [ON CONFLICT(session_id) DO NOTHING] *)
Definition record_exec_losses (r : SandboxRoute) (now : string) (d : db) : db :=
  on_exec_losses (λ m, m ∪
    ((λ e, mkExecLoss (er_sandbox_id e) (sr_generation r) (er_job_id e) now) <$>
     filter (λ se, er_sandbox_id se.2 = sr_sandbox_id r ∧ er_job_id se.2 = sr_job_id r)
       (exec_sessions d))) d.

(** [DELETE FROM exec_sessions WHERE sandbox_id = ?] *)
Definition delete_execs (sandbox_id : string) (d : db) : db :=
  on_execs (filter (λ se, er_sandbox_id se.2 ≠ sandbox_id)) d.

(** [_detach_owner_lost_route_unlocked] *)
Definition detach_owner_lost_route (r : SandboxRoute) (updated_at now : string) (d : db) :
    res (SandboxRoute * db) :=
  let! detached := route_init (with_worker r "detached" EmptyString 0 updated_at) in
  Ok (detached, delete_execs (sr_sandbox_id r) (record_exec_losses r now (write_sandbox detached d))).

(** The row with a new state, update time and error *)
Definition program_set (p : ProgramRequest) (state updated_at last_error : string) : ProgramRequest :=
  mkProgram (pg_request_id p) (pg_rollout_id p) (pg_sandbox_id p) (pg_generation p) state (pg_resources p)
    (pg_accepted_at p) (pg_parked_at p) (pg_response_ready_at p) (pg_wake_started_at p) (pg_wake_completed_at p)
    updated_at last_error.

(** [_terminalize_program_requests_unlocked] *)
Definition terminalize_program_requests (sandbox_id : string) (generation : option Z)
    (last_error now : string) (d : db) : db :=
  on_programs (fmap (λ p,
    if bool_decide (pg_sandbox_id p = sandbox_id) && negb (bool_decide (pg_state p = "terminal"))
       && match generation with Some g => pg_generation p =? g | None => true end
    then program_set p "terminal" now (if nonempty last_error then last_error else pg_last_error p)
    else p)) d.

Definition migration_set (m : SandboxMigration) (phase updated_at error : string) : SandboxMigration :=
  mkMigration (mg_migration_id m) (mg_sandbox_id m) phase (mg_source_node_id m) (mg_source_job_id m)
    (mg_source_node_url m) (mg_destination_node_id m) (mg_destination_job_id m)
    (mg_destination_node_url m) (mg_generation m) (mg_create_operation_id m) (mg_spec_hash m)
    (mg_storage_schema m) (mg_snapshot_sha256 m) (mg_storage_snapshot m) (mg_source_fenced m)
    (mg_created_at m) updated_at error.
Definition active (m : SandboxMigration) : bool := negb (bool_decide (mg_phase m = "complete")).

(** The statements of [_delete_sandbox_unlocked] after the row is removed. *)
Definition delete_dependents (sandbox_id : string) (generation : option Z) (terminal_error now : string)
    (d : db) : db :=
  let d := on_dependencies (delete sandbox_id) d in
  let d := on_pending (delete sandbox_id) d in
  let d := on_managed (delete sandbox_id) (delete_execs sandbox_id d) in
  let d := on_migrations (fmap (λ m,
    if bool_decide (mg_sandbox_id m = sandbox_id) && active m
    then migration_set m "complete" now
           (str_or (mg_error m) "sandbox deleted before migration completed")
    else m)) d in
  terminalize_program_requests sandbox_id generation terminal_error now d.

Definition record_loss (r : SandboxRoute) (reason now : string) (m : gmap string SandboxLoss) :
    gmap string SandboxLoss :=
  let row := mkLoss (sr_generation r) (sr_job_id r) reason now in
  match m !! sr_sandbox_id r with
  | Some old => if sl_generation old <=? sr_generation r then <[sr_sandbox_id r := row]> m else m
  | None => <[sr_sandbox_id r := row]> m
  end.

(** [_delete_sandbox_unlocked] of a route: only the exact incarnation *)
Definition delete_sandbox_route (r : SandboxRoute) (terminal_error loss_reason now : string) (d : db) :
    bool * db :=
  match sandboxes d !! sr_sandbox_id r with
  | None => (false, d)
  | Some row =>
      if (sr_generation row =? sr_generation r)
         && bool_decide (sr_create_operation_id row = sr_create_operation_id r)
         && bool_decide (sr_spec_hash row = sr_spec_hash r)
      then
        let d := on_sandboxes (delete (sr_sandbox_id r)) d in
        let d := if nonempty terminal_error
                 then on_losses (record_loss r (str_or loss_reason terminal_error) now)
                        (record_exec_losses r now d)
                 else d in
        (true, delete_dependents (sr_sandbox_id r) (Some (sr_generation r)) terminal_error now d)
      else (false, d)
  end.
(** ... and of a bare id *)
Definition delete_sandbox_id (sandbox_id now : string) (d : db) : db :=
  delete_dependents sandbox_id None EmptyString now (on_sandboxes (delete sandbox_id) d).

(** ** Lifecycle transactions *)

Definition opt_or {A} (o : option A) (x : A) : A := match o with Some y => y | None => x end.

(** What an exact worker lifecycle proof may not contradict. *)
Definition proof_stale (current route : SandboxRoute) (proof : option (string * Z)) : bool :=
  match proof with
  | None => false
  | Some (epoch, activity) =>
      (activity <=? sr_activity_epoch route)
      || (nonempty (sr_node_epoch route) && negb (bool_decide (sr_node_epoch route = epoch)))
      || (nonempty (sr_node_epoch current) && negb (bool_decide (sr_node_epoch current = epoch)))
      || (activity <? sr_activity_epoch current)
  end.

(** The snapshot fields a caller may replace; [None] keeps the current one. *)
Record snapshot_update := mkSnapUpd {
  su_schema : option string; su_digest : option string; su_repository : option string;
  su_tag : option string; su_snapshot : option (dict string json)
}.

(** The checks of the arguments: the cleaned lifecycle proof. *)
Definition lifecycle_proof (expected : list string) (state : string) (node_epoch : option string)
    (activity_epoch : option Z) : res (option (string * Z)) :=
  raise_if (bool_decide (expected = []) || negb (nonempty (strip state)))
    (ValueError "expected and destination sandbox states are required")
  match node_epoch, activity_epoch with
  | None, None => Ok None
  | Some e, Some a =>
      raise_if (negb (nonempty (strip e))) (ValueError "lifecycle node_epoch must be nonempty")
      (raise_if (a <? 0) (ValueError "lifecycle activity_epoch must be non-negative")
      (Ok (Some (strip e, a))))
  | _, _ => Raise (ValueError "node_epoch and activity_epoch must be supplied together")
  end.

Definition set_sandbox_state_if_current (d : db) (route : SandboxRoute) (expected : list string)
    (state : string) (node_epoch : option string) (activity_epoch : option Z) (su : snapshot_update)
    (now : string) : res (option SandboxRoute * db) :=
  let! proof := lifecycle_proof expected state node_epoch activity_epoch in
  let expected := (λ s, lower (strip (str_or s "unknown"))) <$> expected in
  let! current := get_sandbox_unlocked d (sr_sandbox_id route) in
  match current with
  | None => Ok (None, d)
  | Some current =>
      if negb (bool_decide (state_or_unknown (sr_state current) ∈ expected))
         || negb (same_sandbox_route_incarnation current route)
         || negb (bool_decide (sr_worker_state current = sr_worker_state route))
         || nonempty (sr_delete_operation_id current)
         || proof_stale current route proof
      then Ok (None, d)
      else
        let '(epoch, activity) := opt_or proof (sr_node_epoch current, sr_activity_epoch current) in
        let! stored := route_init (with_epoch (with_snapshot (with_state current (strip state) now)
          (opt_or (su_schema su) (sr_storage_schema current))
          (opt_or (su_digest su) (sr_snapshot_manifest_digest current))
          (opt_or (su_repository su) (sr_snapshot_repository current))
          (opt_or (su_tag su) (sr_snapshot_tag current))
          (opt_or (su_snapshot su) (sr_storage_snapshot current))) epoch activity) in
        Ok (Some stored, write_sandbox_lifecycle stored d)
  end.

(** One request of [reserve_sandbox_wakes]. *)
Definition reserve_wake (now : string) (acc : dict string (option SandboxRoute) * db)
    (request : SandboxRoute * string) : res (dict string (option SandboxRoute) * db) :=
  let '(result, d) := acc in
  let '(route, pending_id) := request in
  let! current := get_sandbox_unlocked d (sr_sandbox_id route) in
  match current with
  | Some current =>
      if negb (bool_decide (lower (sr_state current) = "parked"))
         || negb (same_sandbox_route_incarnation current route)
         || negb (bool_decide (sr_worker_state current = sr_worker_state route))
         || nonempty (sr_delete_operation_id current)
      then Ok (dset result (sr_sandbox_id route) None, d)
      else
        let! stored := route_init (with_state current "waking" now) in
        let d := on_sandboxes (alter (λ row, with_state row "waking" now) (sr_sandbox_id stored)) d in
        Ok (dset result (sr_sandbox_id route) (Some stored), on_pending (delete pending_id) d)
  | None => Ok (dset result (sr_sandbox_id route) None, d)
  end.
Definition reserve_sandbox_wakes (d : db) (requests : list (SandboxRoute * string)) (now : string) :
    res (dict string (option SandboxRoute) * db) :=
  res_foldl (reserve_wake now) ([], d) requests.

(** [reserve_sandbox_wake], which indexes the result by the id *)
Definition reserve_sandbox_wake (d : db) (route : SandboxRoute) (pending_id now : string) :
    res (option SandboxRoute * db) :=
  let! '(result, d) := reserve_sandbox_wakes d [(route, pending_id)] now in
  match dget result (sr_sandbox_id route) with
  | Some r => Ok (r, d)
  | None => Raise (KeyError (sr_sandbox_id route))
  end.

(** What [require_cold] asks for: the observed fence, and no wake or program in flight *)
Definition cold_blocked (d : db) (current route : SandboxRoute) : bool :=
  negb (bool_decide (cold_offload_fence current = cold_offload_fence route))
  || (bool_decide (sr_worker_state current = "attached")
      && (bool_decide (is_Some (pending d !! wake_pending_demand_id (sr_sandbox_id current)))
          || existsb (λ ip, bool_decide (pg_sandbox_id ip.2 = sr_sandbox_id current)
                            && (pg_generation ip.2 =? sr_generation current)
                            && negb (bool_decide (pg_state ip.2 = "terminal")))
               (map_to_list (program_requests d)))).

Definition begin_sandbox_detach (d : db) (route : SandboxRoute) (require_cold : bool) (now : string) :
    res (option SandboxRoute * db) :=
  let! current := get_sandbox_unlocked d (sr_sandbox_id route) in
  match current with
  | Some current =>
      if negb (same_sandbox_route_incarnation current route) then Ok (None, d)
      else if require_cold && cold_blocked d current route then Ok (None, d)
      else if bool_decide (sr_worker_state current ∈ ["detaching"; "detached"])
      then Ok (Some current, d)
      else if negb (bool_decide (sr_worker_state current = "attached"))
              || negb (is_portable_parked_route current) || nonempty (sr_delete_operation_id current)
      then Ok (None, d)
      else
        let! stored := route_init (with_worker current "detaching" (sr_node_epoch current)
                                     (sr_activity_epoch current) now) in
        Ok (Some stored, delete_execs (sr_sandbox_id stored) (write_sandbox stored d))
  | None => Ok (None, d)
  end.

Definition complete_sandbox_detach (d : db) (route : SandboxRoute) (now : string) :
    res (option SandboxRoute * db) :=
  let! current := get_sandbox_unlocked d (sr_sandbox_id route) in
  match current with
  | Some current =>
      if negb (same_sandbox_route_incarnation current route) then Ok (None, d)
      else if bool_decide (sr_worker_state current = "detached") then Ok (Some current, d)
      else if negb (bool_decide (sr_worker_state current = "detaching"))
              || negb (is_portable_parked_route current) || nonempty (sr_delete_operation_id current)
      then Ok (None, d)
      else
        let! '(stored, d) := detach_owner_lost_route current now now d in
        Ok (Some stored, d)
  | None => Ok (None, d)
  end.

(** [upsert_sandbox] inside a transaction *)
Definition upsert_sandbox (d : db) (route : SandboxRoute) (adoption : bool) (now : string) :
    res (SandboxRoute * db) :=
  let! existing := get_sandbox_unlocked d (sr_sandbox_id route) in
  match existing with
  | Some e =>
      if negb (route_update_is_current e route adoption) then Ok (e, d)
      else
        let activity := if bool_decide (sr_node_epoch route = sr_node_epoch e)
                        then Z.max (sr_activity_epoch route) (sr_activity_epoch e)
                        else sr_activity_epoch route in
        let! stored := route_init (with_times (with_epoch route (sr_node_epoch route) (Z.max 0 activity))
                                     (str_or (sr_created_at route) (sr_created_at e)) now) in
        Ok (stored, on_pending (delete (sr_sandbox_id route)) (write_sandbox stored d))
  | None =>
      let! stored := route_init (with_times (with_epoch route (sr_node_epoch route)
                       (Z.max 0 (sr_activity_epoch route))) (str_or (sr_created_at route) now) now) in
      Ok (stored, on_pending (delete (sr_sandbox_id route)) (write_sandbox stored d))
  end.

Definition confirm_sandbox_observation (d : db) (route : SandboxRoute) (adoption : bool) (now : string) :
    res (option SandboxRoute * db) :=
  let! current := get_sandbox_unlocked d (sr_sandbox_id route) in
  match current with
  | Some current =>
      if nonempty (sr_delete_operation_id current)
         || negb (same_sandbox_route_incarnation current route)
      then Ok (None, d)
      else
        let! '(stored, d) := upsert_sandbox d route adoption now in
        Ok (Some stored, d)
  | None => Ok (None, d)
  end.

(** ** Creates *)

Record SandboxRouteAllocation := mkAllocation {
  al_sandbox_id : string;
  al_node_id : string;
  al_job_id : string;
  al_node_url : string;
  al_resources : ResourceQuantity;
  al_spec : dict string json;
  al_node_epoch : string;
  al_activity_epoch : Z
}.

Definition allocation_init (a : SandboxRouteAllocation) : res SandboxRouteAllocation :=
  raise_if (negb (spec_id_is (al_spec a) (al_sandbox_id a)))
    (ValueError "sandbox allocation spec must contain its exact id")
  (raise_if (negb (nonempty (al_node_id a)) || negb (nonempty (al_job_id a)) || negb (nonempty (al_node_url a)))
    (ValueError "sandbox allocation requires exact node identity")
  (raise_if (negb (is_valid (al_resources a))) (ValueError "sandbox allocation resources are invalid")
  (Ok a))).

(** [str(route.spec.get("image") or "").strip()] of a spec whose image is text *)
Definition spec_image (spec : json) : string :=
  match spec with
  | JObj d => match jget d "image" with JStr s => strip s | _ => EmptyString end
  | _ => EmptyString
  end.

(** [PreparedCapacityDemand.__post_init__] *)
Definition MAX_PREPARED_CAPACITY_COUNT : Z := 2 ^ 63 - 1.
Definition prepared_init (p : PreparedCapacityDemand) : res PreparedCapacityDemand :=
  raise_if (negb ((1 <=? pc_count p) && (pc_count p <=? MAX_PREPARED_CAPACITY_COUNT)))
    (ValueError "prepared capacity count must be between 1 and 9223372036854775807") (Ok p).
(** [is_expired] of an explicit expiry *)
Definition past (expires_at : string) (now_us : Z) : res bool :=
  let! at_ := parse_iso_datetime expires_at in
  Ok match at_ with Some e => e <=? now_us | None => false end.

(** The order of [min]: an image match first, then age, then id *)
Definition prepared_leb (image : string) (p q : PreparedCapacityDemand) : bool :=
  let rank p := if bool_decide (pc_image p = image) && nonempty (pc_image p) then 0 else 1 in
  (rank p <? rank q)
  || ((rank p =? rank q)
      && (string_ltb (pc_created_at p) (pc_created_at q)
          || (bool_decide (pc_created_at p = pc_created_at q)
              && string_leb (pc_prepare_id p) (pc_prepare_id q)))).

(** [_claim_prepared_capacity_unlocked]; [now_us] is the instant of [now] *)
Definition claim_prepared_capacity (r : SandboxRoute) (now : string) (now_us : Z) (d : db) :
    res (option PreparedCapacityDemand * db) :=
  let image := spec_image (sr_spec r) in
  let! matching := res_filter (λ row,
      let! p := prepared_init row in
      let! expired := past (pc_expires_at p) now_us in
      Ok (negb expired && rq_eqb (pc_resources p) (sr_resources r)
          && (negb (nonempty (pc_image p)) || bool_decide (pc_image p = image))))
    (map_to_list (prepared_capacity d)).*2 in
  match matching with
  | [] => Ok (None, d)
  | p :: ps =>
      let selected := foldl (λ best q, if prepared_leb image best q then best else q) p ps in
      if pc_count selected <=? 1
      then Ok (Some selected, on_prepared (delete (pc_prepare_id selected)) d)
      else
        let! rest := prepared_init (mkPrepared (pc_prepare_id selected) (pc_resources selected)
          (pc_count selected - 1) (pc_created_at selected) now (pc_expires_at selected) (pc_image selected)) in
        Ok (Some selected, on_prepared <[pc_prepare_id selected := rest]> d)
  end.

Definition high_water (d : db) (sandbox_id : string) : Z := default 0 (sandbox_generation_hwm d !! sandbox_id).

(** [_allocate_create_unlocked] *)
Definition allocate_create (a : SandboxRouteAllocation) (spec_hash operation_id now : string)
    (now_us : Z) (d : db) : res (SandboxRoute * option PendingSandboxDemand * db) :=
  let pending := pending d !! al_sandbox_id a in
  let! existing := get_sandbox_unlocked d (al_sandbox_id a) in
  match existing with
  | Some e =>
      raise_if ((nonempty (sr_spec_hash e) && negb (bool_decide (sr_spec_hash e = spec_hash)))
                || (negb (json_eqb (sr_spec e) (JObj [])) && negb (bool_decide (al_spec a = []))
                    && negb (json_eqb (sr_spec e) (JObj (al_spec a)))))
        (SandboxRouteConflictError "sandbox route already exists with a different spec")
        (Ok (e, pending, d))
  | None =>
      let! stored := route_init (mkRoute (al_sandbox_id a) (al_node_id a) (al_job_id a) (al_node_url a)
        (al_resources a) (JObj (al_spec a)) "creating" (high_water d (al_sandbox_id a) + 1) operation_id
        (strip spec_hash) EmptyString (al_node_epoch a) (Z.max 0 (al_activity_epoch a)) "attached"
        EmptyString EmptyString EmptyString EmptyString [] now now) in
      let d := on_pending (delete (al_sandbox_id a)) (write_sandbox stored d) in
      let! '(_, d) := claim_prepared_capacity stored now now_us d in
      Ok (stored, pending, d)
  end.

(** [uuid] is the [uuid4().hex] of a create without an operation id. *)
Definition allocate_sandbox_create_with_pending (d : db) (a : SandboxRouteAllocation) (spec_hash : string)
    (create_operation_id : option string) (uuid now : string) (now_us : Z) :
    res (SandboxRoute * option PendingSandboxDemand * db) :=
  let operation_id := match create_operation_id with
                      | None => "create-" +:+ uuid
                      | Some o => strip o
                      end in
  raise_if (negb (nonempty operation_id) || negb (nonempty (strip spec_hash)))
    (ValueError "create operation id and spec hash are required")
    (allocate_create a spec_hash operation_id now now_us d).

(** [_retarget_create_unlocked] *)
Definition retarget_create (route : SandboxRoute) (a : SandboxRouteAllocation) (operation_id now : string)
    (d : db) : res (option SandboxRoute * db) :=
  let! current := get_sandbox_unlocked d (sr_sandbox_id route) in
  match current with
  | Some current =>
      if nonempty (sr_delete_operation_id current)
         || negb (bool_decide (lower (sr_state current) ∈ ["creating"; "unknown"]))
         || negb (same_sandbox_route_incarnation current route)
      then Ok (None, d)
      else
        let generation := Z.max (sr_generation current) (high_water d (sr_sandbox_id route)) + 1 in
        let! stored := route_init (with_times
          (with_identity (with_epoch (with_owner current (al_node_id a) (al_job_id a) (al_node_url a))
             (al_node_epoch a) (Z.max 0 (al_activity_epoch a)))
             generation operation_id (sr_spec_hash current)) now now) in
        Ok (Some stored, write_sandbox stored d)
  | None => Ok (None, d)
  end.

(** ** Group creates *)

(** [_require_active_group] *)
Definition require_active_group (d : db) (group_id : string) : res unit :=
  if negb (nonempty group_id) then Ok ()
  else match sandbox_groups d !! group_id with
       | Some g => raise_if (negb (bool_decide (gr_state g = "active")))
                     (SandboxGroupDeletedError group_id) (Ok ())
       | None => Raise (SandboxGroupDeletedError group_id)
       end.

(** One member of [reserve_create_intents]; only the conflict is caught. *)
Definition reserve_member (now : string) (now_us : Z)
    (acc : list (option (SandboxRoute * option PendingSandboxDemand)) * db)
    (member : SandboxRouteAllocation * string * string) :
    res (list (option (SandboxRoute * option PendingSandboxDemand)) * db) :=
  let '(reserved, d) := acc in
  let '(a, spec_hash, operation_id) := member in
  match allocate_create a spec_hash operation_id now now_us d with
  | Ok (r, p, d) => Ok (reserved ++ [Some (r, p)], d)
  | Raise (SandboxRouteConflictError _) => Ok (reserved ++ [None], d)
  | Raise e => Raise e
  end.
Definition reserve_create_intents (d : db) (members : list (SandboxRouteAllocation * string * string))
    (group_id now : string) (now_us : Z) :
    res (list (option (SandboxRoute * option PendingSandboxDemand)) * db) :=
  let! _ := require_active_group d group_id in
  res_foldl (reserve_member now now_us) ([], d) members.

Definition retarget_member (now : string) (acc : list (option SandboxRoute) * db)
    (move : SandboxRoute * SandboxRouteAllocation * string) : res (list (option SandboxRoute) * db) :=
  let '(moved, d) := acc in
  let '(route, a, operation_id) := move in
  let! '(r, d) := retarget_create route a operation_id now d in
  Ok (moved ++ [r], d).
Definition retarget_create_intents (d : db) (moves : list (SandboxRoute * SandboxRouteAllocation * string))
    (group_id now : string) : res (list (option SandboxRoute) * db) :=
  let! _ := require_active_group d group_id in
  res_foldl (retarget_member now) ([], d) moves.

(** One route of [confirm_creates] *)
Definition confirm_member (group_id now : string) (acc : list (option SandboxRoute) * db)
    (route : SandboxRoute) : res (list (option SandboxRoute) * db) :=
  let '(confirmed, d) := acc in
  let! '(r, d) := confirm_sandbox_observation d route true now in
  match r with
  | None => Ok (confirmed ++ [None], d)
  | Some r =>
      Ok (confirmed ++ [Some r],
          if nonempty group_id
          then on_members <[sr_sandbox_id route := (group_id, sr_generation route)]> d else d)
  end.
Definition confirm_creates (d : db) (routes : list SandboxRoute) (group_id now : string) :
    res (list (option SandboxRoute) * db) :=
  res_foldl (confirm_member group_id now) ([], d) routes.

(** A group as [_sandbox_group_unlocked] reads it: the row and the placed members. *)
Definition sandbox_group_unlocked (d : db) (group_id : string) : option (GroupRow * gset string) :=
  match sandbox_groups d !! group_id with
  | None => None
  | Some g => Some (g, dom (filter (λ im, im.2.1 = group_id) (sandbox_group_members d)))
  end.
(** The table's [CHECK (member_count > 0)] fails the insert of an empty group. *)
Definition ensure_sandbox_group (d : db) (group_id request_hash : string) (spec : dict string json)
    (count : Z) (now : string) : res (option (GroupRow * gset string) * db) :=
  raise_if (count <=? 0) (IntegrityError "CHECK constraint failed: member_count")
  (let d := on_groups (λ m, match m !! group_id with
                            | Some _ => m
                            | None => <[group_id := mkGroup request_hash spec count "active" now now]> m
                            end) d in
   Ok (sandbox_group_unlocked d group_id, d)).
Definition delete_sandbox_group (d : db) (group_id now : string) : option (GroupRow * gset string) * db :=
  let d := on_groups (alter (λ g, mkGroup (gr_request_hash g) (gr_spec g) (gr_count g) "deleted"
                                    (gr_created_at g) now) group_id) d in
  (sandbox_group_unlocked d group_id, d).

(** ** Deletes *)

(** [uuid] is the [uuid4().hex] of a new delete operation. *)
Definition prepare_sandbox_delete (d : db) (sandbox_id uuid now : string) :
    res (option SandboxRoute * db) :=
  let! existing := get_sandbox_unlocked d sandbox_id in
  match existing with
  | None => Ok (None, d)
  | Some e =>
      let! '(stored, d) :=
        (if nonempty (sr_delete_operation_id e) then Ok (e, d)
         else let! stored := route_init (with_delete e ("delete-" +:+ uuid) now) in
              Ok (stored, write_sandbox stored d)) in
      Ok (Some stored, terminalize_program_requests sandbox_id (Some (sr_generation stored))
                         "sandbox deletion requested" now d)
  end.

Definition delete_sandbox_if_current (d : db) (sandbox_id : string) (generation : Z)
    (create_operation_id delete_operation_id now : string) : res (option SandboxRoute * db) :=
  let! existing := get_sandbox_unlocked d sandbox_id in
  match existing with
  | None => Ok (None, d)
  | Some e =>
      if negb (sr_generation e =? generation) then Ok (None, d)
      else if nonempty create_operation_id && negb (bool_decide (sr_create_operation_id e = create_operation_id))
      then Ok (None, d)
      else if nonempty delete_operation_id && negb (bool_decide (sr_delete_operation_id e = delete_operation_id))
      then Ok (None, d)
      else Ok (Some e, (delete_sandbox_route e EmptyString EmptyString now d).2)
  end.

Definition delete_sandbox (d : db) (sandbox_id now : string) : db := delete_sandbox_id sandbox_id now d.

(** ** Concrete stores *)

Definition demo_hash : string := "aaaaaaaaaaaaaaaaaaaaaaaaaaaaaaaaaaaaaaaaaaaaaaaaaaaaaaaaaaaaaaaa".
Definition demo_allocation : SandboxRouteAllocation :=
  mkAllocation "s" "n" "j" "http://n" (mkRQ (of_int 1) 512 1024) [("id", JStr "s")] "boot1" 0.
Definition db_of {A} (c : res (A * db)) : db := match c with Ok (_, d) => d | Raise _ => empty_db end.
Definition row_of (d : db) (id : string) : SandboxRoute :=
  default (mkRoute EmptyString EmptyString EmptyString EmptyString rq_zero JNull EmptyString 0 EmptyString
             EmptyString EmptyString EmptyString 0 EmptyString EmptyString EmptyString EmptyString EmptyString
             [] EmptyString EmptyString) (sandboxes d !! id).
Definition keep_snapshot : snapshot_update := mkSnapUpd None None None None None.

Definition db_created : db :=
  db_of (allocate_sandbox_create_with_pending empty_db demo_allocation demo_hash (Some "create-1")
           EmptyString "t1" 1).
Definition db_of3 {A B} (c : res (A * B * db)) : db := match c with Ok (_, _, d) => d | Raise _ => empty_db end.
