(* ===== verification/Programs.v ===== *)
(** * Program requests, managed processes and exec sessions
    (ucloud_sandboxes/routing.py, RoutingStore)

    The transactions a sandbox's running program causes: the phase of each relay
    request, the cached state of its supervised process, and the worker of each exec
    session.  A caller first reads, and takes the writer transaction only when
    something changed; the two steps see two databases, [d0] and [d]. *)
From S2P Require Import Prelude PyFloat Json PyString Resources Bytes PyTime ManagedProcess.
From S2P Require Import PlacementAccounting Routes RouteStore.
Local Open Scope py_scope.
Local Open Scope Z_scope.

(** ** Program requests *)

Definition PROGRAM_REQUEST_STATES : list string :=
  ["model_wait"; "ready_to_wake"; "waking"; "acting"; "terminal"].
(** [_PROGRAM_STATE_RANK.get(state)] *)
Definition state_rank (state : string) : option nat := fst <$> list_find (λ s, s = state) PROGRAM_REQUEST_STATES.
Definition rank_lt (s t : string) : bool :=
  match state_rank s, state_rank t with Some m, Some n => (m <? n)%nat | _, _ => false end.

(** [_program_request_from_row] *)
Definition program_from_row (p : ProgramRequest) : ProgramRequest :=
  mkProgram (pg_request_id p) (pg_rollout_id p) (pg_sandbox_id p) (Z.max 0 (pg_generation p))
    (if bool_decide (pg_state p ∈ PROGRAM_REQUEST_STATES) then pg_state p else "terminal") (pg_resources p) (pg_accepted_at p)
    (pg_parked_at p) (pg_response_ready_at p) (pg_wake_started_at p) (pg_wake_completed_at p)
    (pg_updated_at p) (pg_last_error p).

(** [_resources_json]: what a row holds, or a refusal *)
Definition resources_json (r : ResourceQuantity) : res ResourceQuantity := rq_from_dict (rq_to_dict r).

(** The keyword arguments of a transition; an absent timestamp is empty, as the code
    tests them for truth. *)
Record transition := mkTransition {
  tr_state : string;
  tr_transition_at : string;
  tr_accepted_at : string;
  tr_parked_at : string;
  tr_response_ready_at : string;
  tr_wake_started_at : string;
  tr_last_error : string;
  tr_clear_error : bool
}.

(** [if value and not field: field = value] *)
Definition fill (field value : string) : string := if nonempty field then field else value.
(** The field the transition itself stamps *)
Definition stamp (t : transition) (state field : string) (at_ : string) : string :=
  if bool_decide (tr_state t = state) then fill field at_ else field.

(** [project_request(existing)]: the row the transition leads to, and whether it is the
    existing one *)
Definition project_request (route : SandboxRoute) (request_id rollout_id at_ : string) (t : transition)
    (existing : option ProgramRequest) : res (ProgramRequest * bool) :=
  let get f := match existing with Some e => f e | None => EmptyString end in
  let conflict := match existing with
                  | Some e => negb (bool_decide (pg_rollout_id e = rollout_id))
                              || negb (bool_decide (pg_sandbox_id e = sr_sandbox_id route))
                              || negb (pg_generation e =? sr_generation route)
                  | None => false
                  end in
  raise_if conflict (SandboxRouteConflictError "program request id belongs to another rollout or sandbox")
  (let state := match existing with
                | Some e => if rank_lt (tr_state t) (pg_state e) then pg_state e else tr_state t
                | None => tr_state t
                end in
   let accepted := fill (fill (get pg_accepted_at) (tr_accepted_at t)) at_ in
   let parked := fill (get pg_parked_at) (tr_parked_at t) in
   let ready := stamp t "ready_to_wake" (fill (get pg_response_ready_at) (tr_response_ready_at t)) at_ in
   let started := stamp t "waking" (fill (get pg_wake_started_at) (tr_wake_started_at t)) at_ in
   let completed := stamp t "acting" (get pg_wake_completed_at) at_ in
   let advanced := match existing with Some e => rank_lt (pg_state e) state | None => false end in
   let error := if nonempty (tr_last_error t) then tr_last_error t
                else if tr_clear_error t || advanced then EmptyString else get pg_last_error in
   let row := mkProgram request_id rollout_id (sr_sandbox_id route) (sr_generation route) state
                (sr_resources route) accepted parked ready started completed at_ error in
   let unchanged := match existing with
                    | Some e => bool_decide (pg_state e = state) && rq_eqb (pg_resources e) (sr_resources route)
                                && bool_decide (pg_accepted_at e = accepted) && bool_decide (pg_parked_at e = parked)
                                && bool_decide (pg_response_ready_at e = ready)
                                && bool_decide (pg_wake_started_at e = started)
                                && bool_decide (pg_wake_completed_at e = completed)
                                && bool_decide (pg_last_error e = error)
                    | None => false
                    end in
   Ok (row, unchanged)).

(** [read_current]: the joined read of the sandbox's generation and the request *)
Definition read_current (d : db) (route : SandboxRoute) (request_id : string) : res (option ProgramRequest) :=
  match sandboxes d !! sr_sandbox_id route with
  | Some s =>
      raise_if (negb (sr_generation s =? sr_generation route))
        (SandboxRouteConflictError "program transition does not own the current sandbox generation")
        (Ok (program_from_row <$> program_requests d !! request_id))
  | None => Raise (SandboxRouteConflictError "program transition does not own the current sandbox generation")
  end.

Definition with_stored_resources (p : ProgramRequest) (r : ResourceQuantity) : ProgramRequest :=
  mkProgram (pg_request_id p) (pg_rollout_id p) (pg_sandbox_id p) (pg_generation p) (pg_state p) r (pg_accepted_at p)
    (pg_parked_at p) (pg_response_ready_at p) (pg_wake_started_at p) (pg_wake_completed_at p) (pg_updated_at p)
    (pg_last_error p).

(** The transaction that recomputes the projection and writes it *)
Definition write_program_request (d : db) (route : SandboxRoute) (request_id rollout_id at_ : string)
    (t : transition) (existing : option ProgramRequest) : res (ProgramRequest * bool * db) :=
  let! '(row, unchanged) := project_request route request_id rollout_id at_ t existing in
  match existing, unchanged with
  | Some e, true => Ok (e, false, d)
  | _, _ =>
      let! resources := resources_json (sr_resources route) in
      let row := with_stored_resources row resources in
      Ok (row, true, on_programs <[request_id := row]> d)
  end.

(** [connected] when the caller passed its own connection *)
Definition upsert_program_request_transition_with_change (d0 d : db) (route : SandboxRoute)
    (request_id rollout_id : string) (t : transition) (connected : bool) (now : string) :
    res (ProgramRequest * bool * db) :=
  let request_id := strip request_id in
  let rollout_id := strip rollout_id in
  raise_if (negb (nonempty request_id) || negb (nonempty rollout_id))
    (ValueError "program request and rollout ids are required")
  (raise_if (negb (bool_decide (tr_state t ∈ PROGRAM_REQUEST_STATES)))
    (ValueError ("unsupported program request state: " +:+ tr_state t))
  (let at_ := str_or (tr_transition_at t) now in
   let! previous := read_current d0 route request_id in
   let! settled := match previous with
                   | Some p => let! '(_, unchanged) := project_request route request_id rollout_id at_ t (Some p) in
                               Ok (if unchanged : bool then Some p else None)
                   | None => Ok None
                   end in
   match settled with
   | Some p => Ok (p, false, d)
   | None =>
       let! existing := if connected then Ok previous else read_current d route request_id in
       write_program_request d route request_id rollout_id at_ t existing
   end)).

(** [confirm_sandbox_wake]: the ownership and the outcome of the program request in
    one transaction; [program] is the request, its rollout and the transition *)
Definition confirm_sandbox_wake (d : db) (route : SandboxRoute) (node_epoch : string) (activity_epoch : Z)
    (program : option (string * string * transition)) (now : string) :
    res (option SandboxRoute * option (ProgramRequest * bool) * db) :=
  let! '(updated, d) := set_sandbox_state_if_current d route ["parked"; "waking"; "running"] "running"
    (Some node_epoch) (Some activity_epoch)
    (mkSnapUpd (Some (sr_storage_schema route)) (Some EmptyString) (Some EmptyString) (Some EmptyString) (Some [])) now in
  match updated, program with
  | Some r, Some (request_id, rollout_id, t) =>
      let! '(row, changed, d) := upsert_program_request_transition_with_change d d r request_id rollout_id t true now in
      Ok (updated, Some (row, changed), d)
  | _, _ => Ok (updated, None, d)
  end.

(** ** Managed processes *)

(** The cached record, as the statements of [upsert_managed_process] read it *)
Definition cached_record (d : db) (sandbox_id : string) : res (option ManagedProcessRecord) :=
  match managed_processes d !! sandbox_id with
  | Some row => let! r := reread row in Ok (Some r)
  | None => Ok None
  end.

(** [existing] keeps its place: an older sequence, a terminal state undone, or fewer
    log bytes in the same sequence *)
Definition outdated (existing record : ManagedProcessRecord) : bool :=
  (mp_sequence record <? mp_sequence existing) || (terminal existing && negb (terminal record))
  || ((mp_sequence existing =? mp_sequence record)
      && ((mp_stdout_bytes record <? mp_stdout_bytes existing)
          || (mp_stderr_bytes record <? mp_stderr_bytes existing))).

Definition write_managed_process (d : db) (route : SandboxRoute) (record : ManagedProcessRecord) :
    res (ManagedProcessRecord * db) :=
  let! current := get_sandbox_unlocked d (sr_sandbox_id route) in
  raise_if (match current with Some c => negb (sr_generation c =? sr_generation route) | None => true end)
    (SandboxRouteConflictError "managed process route generation is no longer current")
  (let! existing := cached_record d (sr_sandbox_id route) in
   let write := Ok (record, on_managed <[sr_sandbox_id route := record]> d) in
   match existing with
   | None => write
   | Some e =>
       raise_if (mp_sandbox_generation record <? mp_sandbox_generation e)
         (SandboxRouteConflictError "managed process generation is fenced by newer state")
       (if mp_sandbox_generation e =? mp_sandbox_generation record then
          raise_if (negb (bool_decide (mp_job_id e = mp_job_id record))
                    || negb (bool_decide (mp_spec_sha256 e = mp_spec_sha256 record)))
            (SandboxRouteConflictError "sandbox generation already owns another managed process")
          (if outdated e record then Ok (e, d) else write)
        else write)
   end).

Definition upsert_managed_process (d0 d : db) (route : SandboxRoute) (record : ManagedProcessRecord) :
    res (ManagedProcessRecord * db) :=
  raise_if (negb (bool_decide (mp_sandbox_id record = sr_sandbox_id route))
            || negb (mp_sandbox_generation record =? sr_generation route))
    (SandboxRouteConflictError "managed process does not belong to the routed sandbox generation")
  (let! _ := validate record in
   raise_if (match sandboxes d0 !! sr_sandbox_id route with
             | Some s => negb (sr_generation s =? sr_generation route)
             | None => true
             end)
     (SandboxRouteConflictError "managed process route generation is no longer current")
   (let! cached := cached_record d0 (sr_sandbox_id route) in
    match cached with
    | Some c => if bool_decide (touch_record c (mp_updated_at record) = record) then Ok (c, d)
                else write_managed_process d route record
    | None => write_managed_process d route record
    end)).

(** ** Exec sessions *)

Definition upsert_exec (d : db) (route : ExecRoute) (now : string) : res db :=
  let existing := exec_sessions d !! er_session_id route in
  raise_if (match existing with
            | Some e => negb (bool_decide (er_sandbox_id e = er_sandbox_id route))
                        || negb (bool_decide (er_node_id e = er_node_id route))
                        || negb (bool_decide (er_job_id e = er_job_id route))
                        || negb (bool_decide (er_node_url e = er_node_url route))
            | None => false
            end)
    (SandboxRouteConflictError "exec session id belongs to another sandbox or worker")
  (Ok (on_execs <[er_session_id route :=
         mkExec (er_session_id route) (er_sandbox_id route) (er_node_id route) (er_job_id route) (er_node_url route)
           (str_or (er_created_at route) (match existing with Some e => er_created_at e | None => now end)) now]> d)).
Definition delete_exec (d : db) (session_id : string) : option ExecRoute * db :=
  (exec_sessions d !! session_id, on_execs (delete session_id) d).

(** ** Ranks *)

Definition phase_rank (s : string) : nat := default 5%nat (state_rank s).
Lemma state_cases s : s ∈ PROGRAM_REQUEST_STATES →
  s = "model_wait" ∨ s = "ready_to_wake" ∨ s = "waking" ∨ s = "acting" ∨ s = "terminal".
Proof. unfold PROGRAM_REQUEST_STATES. set_solver. Qed.
Lemma rank_lt_spec s t : s ∈ PROGRAM_REQUEST_STATES → t ∈ PROGRAM_REQUEST_STATES →
  rank_lt s t = bool_decide (phase_rank s < phase_rank t)%nat.
Proof. intros Hs%state_cases Ht%state_cases. destruct_or! Hs; destruct_or! Ht; by subst. Qed.
Lemma rank_inj s t : s ∈ PROGRAM_REQUEST_STATES → t ∈ PROGRAM_REQUEST_STATES → phase_rank s = phase_rank t → s = t.
Proof. intros Hs%state_cases Ht%state_cases. destruct_or! Hs; destruct_or! Ht; by subst. Qed.
Lemma from_row_state p : pg_state (program_from_row p) ∈ PROGRAM_REQUEST_STATES.
Proof. simpl. case_bool_decide; [done|]. unfold PROGRAM_REQUEST_STATES. set_solver. Qed.

Lemma read_states (o : option ProgramRequest) x :
  program_from_row <$> o = Some x → pg_state x ∈ PROGRAM_REQUEST_STATES.
Proof. intros (e & _ & ->)%fmap_Some. apply from_row_state. Qed.

Lemma fill_keep x y : x ≠ EmptyString → fill x y = x.
Proof. unfold fill, nonempty. intros. by rewrite bool_decide_eq_false_2. Qed.
Lemma fill_idem x y : fill (fill x y) y = fill x y.
Proof. unfold fill. destruct (nonempty x) eqn:E; [by rewrite E|]. by destruct (nonempty y). Qed.
Lemma fill_nonempty x y : y ≠ EmptyString → fill x y ≠ EmptyString.
Proof. unfold fill, nonempty. case_bool_decide; simpl; congruence. Qed.
Lemma stamp_keep t s x at_ : x ≠ EmptyString → stamp t s x at_ = x.
Proof. unfold stamp. intros. case_bool_decide; [by apply fill_keep|done]. Qed.

(** What is settled once stays *)
Record advances (e r : ProgramRequest) : Prop := {
  av_identity : pg_rollout_id r = pg_rollout_id e ∧ pg_sandbox_id r = pg_sandbox_id e ∧ pg_generation r = pg_generation e;
  av_rank : (phase_rank (pg_state e) ≤ phase_rank (pg_state r))%nat;
  av_accepted : pg_accepted_at e ≠ EmptyString → pg_accepted_at r = pg_accepted_at e;
  av_parked : pg_parked_at e ≠ EmptyString → pg_parked_at r = pg_parked_at e;
  av_ready : pg_response_ready_at e ≠ EmptyString → pg_response_ready_at r = pg_response_ready_at e;
  av_started : pg_wake_started_at e ≠ EmptyString → pg_wake_started_at r = pg_wake_started_at e;
  av_completed : pg_wake_completed_at e ≠ EmptyString → pg_wake_completed_at r = pg_wake_completed_at e
}.

Lemma project_state route id ro at_ t e row u :
  tr_state t ∈ PROGRAM_REQUEST_STATES → (∀ x, e = Some x → pg_state x ∈ PROGRAM_REQUEST_STATES) →
  project_request route id ro at_ t e = Ok (row, u) →
  pg_state row ∈ PROGRAM_REQUEST_STATES ∧ (phase_rank (tr_state t) ≤ phase_rank (pg_state row))%nat.
Proof.
  intros Ht He H. unfold project_request in H. apply raise_if_Ok in H as [_ H]. injection H as <- _. simpl.
  destruct e as [e|]; [|done]. specialize (He e eq_refl). rewrite rank_lt_spec by done. case_bool_decide; [|done].
  split; [done|lia].
Qed.
Lemma project_advances route id ro at_ t e row u :
  tr_state t ∈ PROGRAM_REQUEST_STATES → pg_state e ∈ PROGRAM_REQUEST_STATES →
  project_request route id ro at_ t (Some e) = Ok (row, u) → advances e row.
Proof.
  intros Ht He H. unfold project_request in H. apply raise_if_Ok in H as [Hc H]. bools. injection H as <- _.
  split; simpl.
  - by split_and!.
  - rewrite rank_lt_spec by done. case_bool_decide; lia.
  - intros. by rewrite !fill_keep by (by rewrite ?fill_keep).
  - apply fill_keep.
  - intros. by rewrite stamp_keep; rewrite fill_keep.
  - intros. by rewrite stamp_keep; rewrite fill_keep.
  - apply stamp_keep.
Qed.

Lemma read_current_Ok d route id o :
  read_current d route id = Ok o →
  (∃ s, sandboxes d !! sr_sandbox_id route = Some s ∧ sr_generation s = sr_generation route) ∧
  o = program_from_row <$> program_requests d !! id.
Proof.
  unfold read_current. destruct (sandboxes d !! _) as [s|]; [|done]. intros [H [= <-]]%raise_if_Ok. bools. eauto.
Qed.
Lemma project_unchanged route id ro at_ t e row :
  project_request route id ro at_ t (Some e) = Ok (row, true) → pg_state row = pg_state e.
Proof. unfold project_request. intros [_ H]%raise_if_Ok. injection H as <- H. simpl. by bools. Qed.

(** What a successful transition returns and leaves in the table *)
Record transition_result (d0 d : db) (route : SandboxRoute) (id : string) (t : transition)
    (row : ProgramRequest) (changed : bool) (d' : db) : Prop := {
  ts_state : pg_state row ∈ PROGRAM_REQUEST_STATES ∧ (phase_rank (tr_state t) ≤ phase_rank (pg_state row))%nat;
  ts_kept : changed = false → d' = d ∧
    (program_from_row <$> program_requests d0 !! id = Some row ∨
     program_from_row <$> program_requests d !! id = Some row);
  ts_written : changed = true → d' = on_programs <[id := row]> d ∧
    (∃ s, sandboxes d !! sr_sandbox_id route = Some s ∧ sr_generation s = sr_generation route) ∧
    ∀ e, program_requests d !! id = Some e → advances (program_from_row e) row
}.

Lemma write_program_result d0 d route id ro at_ t row changed d' :
  tr_state t ∈ PROGRAM_REQUEST_STATES →
  (∃ s, sandboxes d !! sr_sandbox_id route = Some s ∧ sr_generation s = sr_generation route) →
  write_program_request d route id ro at_ t (program_from_row <$> program_requests d !! id) = Ok (row, changed, d') →
  transition_result d0 d route id t row changed d'.
Proof.
  intros Ht Hs H. unfold write_program_request in H. apply res_bind_Ok in H as ([pr u] & Hp & H).
  pose proof (project_state _ _ _ _ _ _ _ _ Ht (read_states _) Hp) as Hst.
  destruct (program_requests d !! id) as [e|] eqn:Ee; simpl in *.
  - destruct u.
    + simplify_eq. apply project_unchanged in Hp. rewrite Hp in Hst. split; [done| |done].
      intros _. split; [done|]. right. by rewrite Ee.
    + apply res_bind_Ok in H as (r & _ & H). simplify_eq. split; [done|done|]. intros _. split_and!; [done|done|].
      intros e' He'. simplify_eq. apply project_advances in Hp; [|done|apply from_row_state]. destruct Hp. by split.
  - apply res_bind_Ok in H as (r & _ & H). simplify_eq. split; [done|done|]. intros _. split_and!; [done|done|].
    intros e' He'. congruence.
Qed.

Lemma transition_spec d0 d route id ro t conn now row changed d' :
  (conn = true → d0 = d) →
  upsert_program_request_transition_with_change d0 d route id ro t conn now = Ok (row, changed, d') →
  transition_result d0 d route (strip id) t row changed d'.
Proof.
  intros Hconn H. unfold upsert_program_request_transition_with_change in H.
  apply raise_if_Ok in H as [_ H]. apply raise_if_Ok in H as [Ht%negb_false_iff%bool_decide_eq_true H].
  apply res_bind_Ok in H as (prev & Hprev & H). apply read_current_Ok in Hprev as [Hs0 Hprev].
  apply res_bind_Ok in H as (settled & Hset & H). destruct settled as [p|].
  - simplify_eq. destruct (program_requests d0 !! strip id) as [e|] eqn:Ee; simpl in Hset; [|done].
    apply res_bind_Ok in Hset as ([pr u] & Hp & Hset). destruct u; [|done]. injection Hset as <-.
    pose proof (project_state _ _ _ _ _ _ _ _ Ht (read_states (Some e)) Hp) as Hst.
    apply project_unchanged in Hp. rewrite Hp in Hst. split; [done| |done]. intros _. split; [done|].
    left. by rewrite Ee.
  - apply res_bind_Ok in H as (e & He & H). destruct conn.
    + injection He as <-. rewrite Hprev, (Hconn eq_refl) in H. rewrite (Hconn eq_refl) in Hs0.
      by eapply write_program_result.
    + apply read_current_Ok in He as [Hs ->]. by eapply write_program_result.
Qed.

(** C15. A program request's phase never moves back.  Whatever the order in which
    reports of one request arrive, a transition either changes nothing and returns
    the stored row, or writes, for the sandbox's current generation, a row of the
    same rollout and incarnation whose phase is at least both the stored one and the
    reported one, and in which every timestamp that was already set is kept.  In
    particular a terminal request stays terminal. *)
Theorem program_phase_monotone d0 d route id ro t conn now row changed d' :
  (conn = true → d0 = d) →
  upsert_program_request_transition_with_change d0 d route id ro t conn now = Ok (row, changed, d') →
  transition_result d0 d route (strip id) t row changed d' ∧
  (∀ e, program_requests d !! strip id = Some e → pg_state e = "terminal" → changed = true → pg_state row = "terminal").
Proof.
  intros Hc H%transition_spec; [|done]. split; [done|]. intros e He Hst Hch.
  destruct H as [[Hrow _] _ Hw]. destruct (Hw Hch) as (_ & _ & Ha). destruct (Ha e He) as [_ Hr _ _ _ _ _].
  assert (pg_state (program_from_row e) = "terminal") as Et by (simpl; rewrite Hst; by case_bool_decide).
  rewrite Et in Hr. apply state_cases in Hrow. destruct_or! Hrow; rewrite Hrow in *; vm_compute in Hr; [lia..|done].
Qed.

(** ** Retries *)

(** The row already says all the transition has to say *)
Record settled (route : SandboxRoute) (ro : string) (t : transition) (r : ProgramRequest) : Prop := {
  st_identity : pg_rollout_id r = ro ∧ pg_sandbox_id r = sr_sandbox_id route ∧ pg_generation r = sr_generation route;
  st_state : pg_state r ∈ PROGRAM_REQUEST_STATES ∧ (phase_rank (tr_state t) ≤ phase_rank (pg_state r))%nat;
  st_resources : rq_eqb (pg_resources r) (sr_resources route) = true;
  st_accepted : pg_accepted_at r ≠ EmptyString;
  st_parked : fill (pg_parked_at r) (tr_parked_at t) = pg_parked_at r;
  st_ready : ∀ at_, stamp t "ready_to_wake" (fill (pg_response_ready_at r) (tr_response_ready_at t)) at_ = pg_response_ready_at r;
  st_started : ∀ at_, stamp t "waking" (fill (pg_wake_started_at r) (tr_wake_started_at t)) at_ = pg_wake_started_at r;
  st_completed : ∀ at_, stamp t "acting" (pg_wake_completed_at r) at_ = pg_wake_completed_at r;
  st_error : (if nonempty (tr_last_error t) then tr_last_error t
              else if tr_clear_error t then EmptyString else pg_last_error r) = pg_last_error r
}.

Lemma settled_unchanged route id ro at_ t r : tr_state t ∈ PROGRAM_REQUEST_STATES → settled route ro t r →
  ∃ row, project_request route id ro at_ t (Some r) = Ok (row, true).
Proof.
  intros Ht [(E1 & E2 & E3) [Hs Hr] Hq Ha Hp Hre Hst Hco Her]. unfold project_request.
  rewrite !bool_decide_eq_true_2, E3, Z.eqb_refl by done. simpl.
  assert ((if rank_lt (tr_state t) (pg_state r) then pg_state r else tr_state t) = pg_state r) as ->.
  { rewrite rank_lt_spec by done. case_bool_decide; [done|]. apply rank_inj; [done..|lia]. }
  rewrite (rank_lt_spec (pg_state r)), bool_decide_eq_false_2, orb_false_r by (done || lia).
  rewrite Hq, Hp, Hre, Hst, Hco, Her. rewrite (fill_keep _ (tr_accepted_at t)), (fill_keep _ at_) by done.
  rewrite !bool_decide_eq_true_2 by done. eauto.
Qed.

Lemma stamp_again t s x v at1 at2 : at1 ≠ EmptyString →
  stamp t s (fill (stamp t s (fill x v) at1) v) at2 = stamp t s (fill x v) at1.
Proof.
  intros Ha. unfold stamp. case_bool_decide; [|by rewrite fill_idem].
  pose proof (fill_nonempty (fill x v) at1 Ha) as Hy. rewrite (fill_keep _ v Hy). by apply fill_keep.
Qed.
Lemma stamp_again' t s x at1 at2 : at1 ≠ EmptyString → stamp t s (stamp t s x at1) at2 = stamp t s x at1.
Proof.
  intros Ha. unfold stamp. case_bool_decide; [|done]. by apply fill_keep, fill_nonempty.
Qed.

Lemma project_settled route id ro at_ t e row u r :
  at_ ≠ EmptyString → tr_state t ∈ PROGRAM_REQUEST_STATES → (∀ x, e = Some x → pg_state x ∈ PROGRAM_REQUEST_STATES) →
  project_request route id ro at_ t e = Ok (row, u) → rq_eqb r (sr_resources route) = true →
  settled route ro t (with_stored_resources row r).
Proof.
  intros Ha Ht He H Hr. pose proof (project_state _ _ _ _ _ _ _ _ Ht He H) as Hs.
  unfold project_request in H. apply raise_if_Ok in H as [_ H]. injection H as <- _.
  split; simpl; [done|exact Hs|done| | | | | |].
  - by apply fill_nonempty.
  - apply fill_idem.
  - intros. by apply stamp_again.
  - intros. by apply stamp_again.
  - intros. by apply stamp_again'.
  - destruct (nonempty (tr_last_error t)); [done|]. destruct (tr_clear_error t); done.
Qed.

(** An unchanged row is settled as it is *)
Lemma unchanged_settled route id ro at_ t e row :
  at_ ≠ EmptyString → tr_state t ∈ PROGRAM_REQUEST_STATES → pg_state e ∈ PROGRAM_REQUEST_STATES →
  project_request route id ro at_ t (Some e) = Ok (row, true) → settled route ro t e.
Proof.
  intros Ha Ht He H.
  assert (rq_eqb (pg_resources e) (sr_resources route) = true ∧ e = with_stored_resources
    (mkProgram (pg_request_id e) (pg_rollout_id row) (pg_sandbox_id row) (pg_generation row) (pg_state row) (pg_resources row)
       (pg_accepted_at row) (pg_parked_at row) (pg_response_ready_at row) (pg_wake_started_at row)
       (pg_wake_completed_at row) (pg_updated_at e) (pg_last_error row)) (pg_resources e)) as [Hr Ee].
  { unfold project_request in H. apply raise_if_Ok in H as [Hc H]. injection H as <- H. bools. split; [done|].
    unfold with_stored_resources. simpl. destruct e; simpl in *. congruence. }
  assert (∀ x, Some e = Some x → pg_state x ∈ PROGRAM_REQUEST_STATES) as Hall by naive_solver.
  pose proof (project_settled _ _ _ _ _ _ _ _ _ Ha Ht Hall H Hr) as Hs.
  rewrite Ee. destruct Hs. by split.
Qed.

Lemma from_row_same p : pg_state p ∈ PROGRAM_REQUEST_STATES → 0 ≤ pg_generation p → program_from_row p = p.
Proof. intros Hs Hg. destruct p. unfold program_from_row. simpl in *. by rewrite bool_decide_eq_true_2, Z.max_r. Qed.

(** A settled row is returned as it is *)
Lemma settled_returns d route id ro t conn now r s :
  nonempty (strip id) = true → nonempty (strip ro) = true → tr_state t ∈ PROGRAM_REQUEST_STATES →
  sandboxes d !! sr_sandbox_id route = Some s → sr_generation s = sr_generation route →
  program_from_row <$> program_requests d !! strip id = Some r → settled route (strip ro) t r →
  upsert_program_request_transition_with_change d d route id ro t conn now = Ok (r, false, d).
Proof.
  intros Hi Ho Ht Hs Hg Hr Hset. unfold upsert_program_request_transition_with_change. rewrite Hi, Ho. simpl.
  rewrite bool_decide_eq_true_2 by done. simpl. unfold read_current. rewrite Hs, Hg, Z.eqb_refl. simpl. rewrite Hr.
  destruct (settled_unchanged route (strip id) (strip ro) (str_or (tr_transition_at t) now) t r Ht Hset) as [row Hp].
  cbn [res_bind]. rewrite Hp. done.
Qed.

Lemma rq_eqb_valid r : is_valid r = true → rq_eqb r r = true.
Proof.
  unfold is_valid, rq_eqb. intros H. bools. rewrite !Z.eqb_refl, !andb_true_r. destruct (vcpu r) as [q| | |]; [|done..].
  unfold feqb. by rewrite fleb_refl.
Qed.
Lemma resources_json_Ok r r' : resources_json r = Ok r' → r' = r ∧ rq_eqb r' r = true.
Proof. intros [Hv ->]%rq_reread. split; [done|by apply rq_eqb_valid]. Qed.

Lemma str_or_nonempty s u : u ≠ EmptyString → str_or s u ≠ EmptyString.
Proof. unfold str_or, nonempty. case_bool_decide; simpl; congruence. Qed.

(** Either way, a transition leaves a settled row *)
Lemma write_settles d route id ro at_ t row changed d' :
  at_ ≠ EmptyString → 0 ≤ sr_generation route → tr_state t ∈ PROGRAM_REQUEST_STATES →
  write_program_request d route id ro at_ t (program_from_row <$> program_requests d !! id) = Ok (row, changed, d') →
  settled route ro t row ∧ sandboxes d' = sandboxes d ∧ program_from_row <$> program_requests d' !! id = Some row.
Proof.
  intros Ha Hg Ht H. unfold write_program_request in H. apply res_bind_Ok in H as ([pr u] & Hp & H).
  assert (∀ r, resources_json (sr_resources route) = Ok r → let row := with_stored_resources pr r in
    settled route ro t row ∧ program_from_row row = row) as Hw.
  { intros r [_ Hr]%resources_json_Ok row'. pose proof (project_settled _ _ _ _ _ _ _ _ _ Ha Ht (read_states _) Hp Hr) as Hs.
    split; [done|]. destruct Hs as [(_ & _ & Hgen) [Hst _] _ _ _ _ _ _ _]. apply from_row_same; [exact Hst|]. subst row'. by rewrite Hgen. }
  destruct (program_from_row <$> program_requests d !! id) as [e|] eqn:Ee; [destruct u|].
  - simplify_eq. apply unchanged_settled in Hp; [|done|done|by eapply read_states]. done.
  - apply res_bind_Ok in H as (r & Hr & H). simplify_eq. destruct (Hw r Hr) as [Hs Hf]. split_and!; [done|done|].
    simpl. rewrite lookup_insert_eq. simpl. by rewrite Hf.
  - apply res_bind_Ok in H as (r & Hr & H). simplify_eq. destruct (Hw r Hr) as [Hs Hf]. split_and!; [done|done|].
    simpl. rewrite lookup_insert_eq. simpl. by rewrite Hf.
Qed.

(** Reporting the same transition again changes nothing, at any later time:
    the retry returns the row the first call stored and leaves the database as it
    is, so a caller that lost the answer can simply repeat the call. *)
Theorem program_retry_unchanged d route id ro t conn now now' row changed d' :
  now ≠ EmptyString → 0 ≤ sr_generation route →
  upsert_program_request_transition_with_change d d route id ro t conn now = Ok (row, changed, d') →
  upsert_program_request_transition_with_change d' d' route id ro t conn now' = Ok (row, false, d').
Proof.
  intros Hnow Hgen H. unfold upsert_program_request_transition_with_change in H.
  pose proof (str_or_nonempty (tr_transition_at t) now Hnow) as Ha.
  apply raise_if_Ok in H as [Hids H]. apply orb_false_iff in Hids as [Hi%negb_false_iff Ho%negb_false_iff].
  apply raise_if_Ok in H as [Ht%negb_false_iff%bool_decide_eq_true H].
  apply res_bind_Ok in H as (prev & Hprev & H). pose proof Hprev as [(s & Hs & Hg) ->]%read_current_Ok.
  apply res_bind_Ok in H as (st & Hset & H). destruct st as [p|].
  - simplify_eq. destruct (program_from_row <$> program_requests d' !! strip id) as [e|] eqn:Ee; [|done].
    apply res_bind_Ok in Hset as ([pr u] & Hp & Hset). destruct u; [|done]. injection Hset as ->.
    apply unchanged_settled in Hp; [|done|done|by eapply read_states]. by eapply settled_returns.
  - assert (write_program_request d route (strip id) (strip ro) (str_or (tr_transition_at t) now) t
      (program_from_row <$> program_requests d !! strip id) = Ok (row, changed, d')) as Hw.
    { destruct conn; [exact H|]. rewrite Hprev in H. exact H. }
    apply write_settles in Hw as (Hse & Esb & Er); [|done..]. eapply settled_returns; [done..| |exact Hg|exact Er|exact Hse].
    by rewrite Esb.
Qed.

(** ** Managed processes never go back *)

(** [r] may follow [e] as the cached record of a sandbox *)
Definition follows (e r : ManagedProcessRecord) : Prop :=
  mp_sandbox_generation e < mp_sandbox_generation r ∨
  (mp_sandbox_generation e = mp_sandbox_generation r ∧ mp_job_id e = mp_job_id r ∧ mp_spec_sha256 e = mp_spec_sha256 r ∧
   mp_sequence e ≤ mp_sequence r ∧ (terminal e = true → terminal r = true) ∧
   (mp_sequence e = mp_sequence r → mp_stdout_bytes e ≤ mp_stdout_bytes r ∧ mp_stderr_bytes e ≤ mp_stderr_bytes r)).
#[export] Instance follows_preorder : PreOrder follows.
Proof.
  split.
  - intros e. right. split_and!; (done || lia).
  - intros a b c [?|(? & Ej & Es & ? & Ht & Hl)] [?|(? & Ej' & Es' & ? & Ht' & Hl')]; [left; lia..|right].
    split_and!; [lia|congruence|congruence|lia|by eauto|]. intros ?. destruct (Hl ltac:(lia)), (Hl' ltac:(lia)). lia.
Qed.

Lemma outdated_false e r : outdated e r = false →
  mp_sequence e ≤ mp_sequence r ∧ (terminal e = true → terminal r = true) ∧
  (mp_sequence e = mp_sequence r → mp_stdout_bytes e ≤ mp_stdout_bytes r ∧ mp_stderr_bytes e ≤ mp_stderr_bytes r).
Proof.
  unfold outdated. intros H. bools. split_and!; [done| |].
  - intros He. rewrite He in *. simpl in *. by destruct (terminal r).
  - intros Hs. rewrite Hs, Z.eqb_refl in *. simpl in *. bools. lia.
Qed.

Lemma write_managed_follows d route record out d' e :
  validate record = Ok tt → write_managed_process d route record = Ok (out, d') →
  cached_record d (sr_sandbox_id route) = Ok (Some e) →
  ∃ r, cached_record d' (sr_sandbox_id route) = Ok (Some r) ∧ follows e r.
Proof.
  intros Hv H He. unfold write_managed_process in H. apply res_bind_Ok in H as (cur & _ & H).
  apply raise_if_Ok in H as [_ H]. rewrite He in H. cbn [res_bind] in H. apply raise_if_Ok in H as [Hg H]. bools.
  assert (∀ d2, d2 = on_managed <[sr_sandbox_id route := record]> d →
    cached_record d2 (sr_sandbox_id route) = Ok (Some (clamp_counters record))) as Hread.
  { intros d2 ->. unfold cached_record. simpl. rewrite lookup_insert_eq. by rewrite (reread_valid _ _ Hv). }
  assert (1 ≤ mp_sequence record) by (by eapply validate_sequence).
  destruct (Z.eqb_spec (mp_sandbox_generation e) (mp_sandbox_generation record)) as [Eg|].
  - apply raise_if_Ok in H as [Hc H]. bools. destruct (outdated e record) eqn:Ho.
    + simplify_eq. exists out. by split.
    + simplify_eq. eexists. split; [by apply Hread|]. right. apply outdated_false in Ho as (Hs & Ht & Hl).
      simpl. rewrite Z.max_r by lia. split_and!; [done..|]. intros Es. destruct (Hl Es). lia.
  - simplify_eq. eexists. split; [by apply Hread|]. left. simpl. lia.
Qed.

(** One call of any gateway, on whatever it read before *)
Definition managed_step (d d' : db) : Prop :=
  ∃ d0 route record out, upsert_managed_process d0 d route record = Ok (out, d').

Lemma managed_step_follows d d' id e : managed_step d d' → cached_record d id = Ok (Some e) →
  ∃ r, cached_record d' id = Ok (Some r) ∧ follows e r.
Proof.
  intros (d0 & route & record & out & H) He. unfold upsert_managed_process in H.
  apply raise_if_Ok in H as [_ H]. apply res_bind_Ok in H as ([] & Hv & H). apply raise_if_Ok in H as [_ H].
  apply res_bind_Ok in H as (c & _ & H).
  assert (d' = d ∨ write_managed_process d route record = Ok (out, d')) as [->|Hw].
  { destruct c as [c|]; [|by right]. case_bool_decide; [left; by simplify_eq|by right]. }
  - exists e. by split.
  - destruct (decide (id = sr_sandbox_id route)) as [->|Hne]; [by eapply write_managed_follows|].
    exists e. split; [|done]. rewrite <-He. unfold cached_record.
    assert (managed_processes d' !! id = managed_processes d !! id) as ->; [|done].
    unfold write_managed_process in Hw. apply res_bind_Ok in Hw as (? & _ & Hw). apply raise_if_Ok in Hw as [_ Hw].
    apply res_bind_Ok in Hw as (ex & _ & Hw). destruct ex as [e'|].
    + apply raise_if_Ok in Hw as [_ Hw]. case_match; [apply raise_if_Ok in Hw as [_ Hw]; case_match|];
        simplify_eq; simpl; rewrite ?lookup_insert_ne; done.
    + simplify_eq. simpl. by rewrite lookup_insert_ne.
Qed.

(** C16. Status reads of a sandbox's process can be held and finish in any order,
    and still never take the cached record back: across any sequence of upserts by
    any callers the record of a sandbox is replaced only by a newer generation's,
    or, within the generation, by a record of the same process with at least its
    sequence, terminal if it was terminal, and with at least its log bytes when the
    sequence is the same. *)
Theorem managed_process_never_regresses d d' id e :
  rtc managed_step d d' → cached_record d id = Ok (Some e) →
  ∃ r, cached_record d' id = Ok (Some r) ∧ follows e r.
Proof.
  intros H. revert e. induction H as [d|d d1 d' Hs _ IH]; intros e He; [exists e; by split|].
  destruct (managed_step_follows _ _ _ _ Hs He) as (r & Hr & Hf). destruct (IH r Hr) as (r' & ? & ?).
  exists r'. split; [done|]. by etrans.
Qed.

(** ** Concrete reports *)

Definition demo_report (state : string) : transition :=
  mkTransition state EmptyString EmptyString (if bool_decide (state = "model_wait") then "t1" else EmptyString) EmptyString EmptyString EmptyString false.
Definition demo_upsert (d : db) (state now : string) : res (ProgramRequest * bool * db) :=
  upsert_program_request_transition_with_change d d (row_of db_created "s") "r1" "roll" (demo_report state) false now.
Definition demo_ended : db := db_of3 (demo_upsert db_created "terminal" "t2").

(** The report that the request is parked arrives after the terminal one. *)
Lemma program_phase_monotone_witness :
  match demo_upsert demo_ended "model_wait" "t3" with
  | Ok (row, changed, d') => changed = true ∧ pg_state row = "terminal" ∧ pg_updated_at row = "t3"
  | Raise _ => False
  end.
Proof.
  destruct (demo_upsert demo_ended "model_wait" "t3") as [[[row changed] d']|e] eqn:E; [|vm_compute in E; discriminate E].
  destruct (program_phase_monotone demo_ended demo_ended _ "r1" "roll" (demo_report "model_wait") false "t3" row changed d'
    ltac:(intros [=]) E) as [_ H].
  assert (changed = true ∧ pg_updated_at row = "t3") as [-> Hu] by (vm_compute in E; injection E as <- <- _; split; reflexivity).
  clear E. split; [reflexivity|]. split; [|exact Hu].
  destruct (program_requests demo_ended !! strip "r1") as [e|] eqn:Ee; [|vm_compute in Ee; discriminate Ee].
  apply (H e); [reflexivity| |reflexivity]. vm_compute in Ee. injection Ee as <-. reflexivity.
Defined.

Lemma program_retry_unchanged_witness :
  match demo_upsert db_created "model_wait" "t2" with
  | Ok (row, changed, d') => changed = true ∧ demo_upsert d' "model_wait" "t9" = Ok (row, false, d')
  | Raise _ => False
  end.
Proof.
  destruct (demo_upsert db_created "model_wait" "t2") as [[[row changed] d']|e] eqn:E; [|vm_compute in E; discriminate E].
  split.
  - vm_compute in E. injection E as _ <- _. reflexivity.
  - apply (program_retry_unchanged db_created _ _ _ _ _ "t2" "t9" row changed d'); [discriminate|by vm_compute|exact E].
Defined.

(** Two status reads of one process, stored in the wrong order *)
Definition demo_record (state : string) (sequence : Z) : ManagedProcessRecord :=
  mkManaged "s" 1 "job-1" demo_hash state 7 EmptyString EmptyString None 0 10 0 false false sequence EmptyString.
Definition demo_exited : db :=
  db_of (upsert_managed_process db_created db_created (row_of db_created "s") (demo_record "exited" 5)).
Definition demo_late : db :=
  db_of (upsert_managed_process db_created demo_exited (row_of db_created "s") (demo_record "running" 4)).
Lemma managed_process_never_regresses_witness :
  ∃ r, cached_record demo_late "s" = Ok (Some r) ∧ follows (demo_record "exited" 5) r.
Proof.
  apply (managed_process_never_regresses demo_exited demo_late "s" (demo_record "exited" 5)).
  - apply rtc_once. eexists db_created, (row_of db_created "s"), (demo_record "running" 4), _. vm_compute. reflexivity.
  - by vm_compute.
Defined.
