(* ===== verification/Demands.v ===== *)
(** * Capacity demand (ucloud_sandboxes/routing.py, RoutingStore)

    The tables that tell the autoscaler what is wanted: sandboxes no worker could
    take, image builds, image warm-ups, reserved capacity and reserved builders;
    their expiry, which SQL decides on the text of the timestamps; and the demand
    the autoscaler reads.  [now] is an instant in microseconds, [iso now] its text.
    [julianday] is SQLite's function of that name. *)
From S2P Require Import Prelude PyFloat Json PyString Resources Bytes PyTime ManagedProcess.
From S2P Require Import PlacementAccounting ScaleModels Routes RouteStore Programs.
From stdpp Require Import gmap strings.
From Stdlib Require Import QArith.
Local Close Scope Q_scope.
Local Open Scope py_scope.
Local Open Scope Z_scope.

Definition PENDING_DEMAND_TTL_SECONDS : Z := 300.
Definition PROGRAM_TERMINAL_RETENTION_SECONDS : Z := 7 * 24 * 60 * 60.

(** [t + timedelta(seconds=s)] *)
Definition add_seconds (t s : Z) : res Z :=
  let u := t + s * 1000000 in
  raise_if ((u <? MIN_US) || (MAX_US <? u)) (OverflowError "date value out of range") (Ok u).

(** ** Pending sandboxes *)

(** [_ExpiringDemand.is_expired] *)
Definition signal_expired (updated_at created_at : string) (now : Z) : res bool :=
  let! updated := parse_iso_datetime updated_at in
  let! reference := match updated with Some _ => Ok updated | None => parse_iso_datetime created_at end in
  match reference with
  | None => Ok false
  | Some t => let! e := add_seconds t (Z.max 1 PENDING_DEMAND_TTL_SECONDS) in Ok (e <=? now)
  end.

Definition is_capacity_demand (p : PendingSandboxDemand) : bool :=
  let reason := lower (strip (pd_failure_reason p)) in
  negb (String.prefix "image_pull_http_" reason || bool_decide (reason = "registry_lease_unavailable")
        || bool_decide (reason ∈ ["wake_snapshot_publication_pending"; "wake_storage_recovery_required"])).

(** [_pending_from_row] *)
Definition pending_from_row (p : PendingSandboxDemand) : PendingSandboxDemand :=
  mkPending (pd_sandbox_id p) (pd_resources p) (pd_created_at p) (pd_updated_at p) (Z.max 1 (pd_attempts p))
    (Z.max 0 (pd_generation p)) (pd_operation_id p) (pd_spec_hash p) (pd_failure_reason p).

(** [_upsert_pending_unlocked] *)
Definition upsert_pending_unlocked (d : db) (sandbox_id : string) (resources : ResourceQuantity) (now : Z)
    (generation : Z) (operation_id spec_hash failure_reason : string) : res (PendingSandboxDemand * db) :=
  let timestamp := iso now in
  let same := match pending_from_row <$> pending d !! sandbox_id with
              | Some e => if (pd_generation e =? Z.max 0 generation) && bool_decide (pd_operation_id e = operation_id)
                             && bool_decide (pd_spec_hash e = spec_hash) then Some e else None
              | None => None
              end in
  let stored := mkPending sandbox_id resources (match same with Some e => pd_created_at e | None => timestamp end)
                  timestamp (match same with Some e => pd_attempts e + 1 | None => 1 end) (Z.max 0 generation)
                  (strip operation_id) (strip spec_hash) (strip failure_reason) in
  let! _ := resources_json resources in
  Ok (stored, on_pending <[sandbox_id := stored]> d).
Definition upsert_pending (d : db) (sandbox_id : string) (resources : ResourceQuantity) (now : Z)
    (generation : Z) (operation_id spec_hash failure_reason : string) : res db :=
  let! '(_, d) := upsert_pending_unlocked d sandbox_id resources now generation operation_id spec_hash failure_reason in
  Ok d.
Definition clear_pending (d : db) (sandbox_id : string) : db := on_pending (delete sandbox_id) d.

(** [SELECT ... ORDER BY key] *)
Definition rows_by_key {A} (m : gmap string A) : list A :=
  (sorted_by (λ x y, string_leb x.1 y.1) (map_to_list m)).*2.

(** [_active_pending_unlocked]: the rows that are left, and the database without the
    expired ones *)
Definition active_pending (d : db) (now : Z) : res (list PendingSandboxDemand * db) :=
  let rows := pending_from_row <$> rows_by_key (pending d) in
  let! expired := res_filter (λ p, signal_expired (pd_updated_at p) (pd_created_at p) now) rows in
  let gone := pd_sandbox_id <$> expired in
  Ok (filter (λ p, pd_sandbox_id p ∉ gone) rows,
      on_pending (filter (λ kp, kp.1 ∉ gone)) d).

(** One target of [consume_pending_demand]: deleted only as it was read *)
Definition consume_one (acc : list PendingSandboxDemand * db) (item : PendingSandboxDemand) :
    list PendingSandboxDemand * db :=
  let '(consumed, d) := acc in
  match pending d !! pd_sandbox_id item with
  | Some row => if bool_decide (pd_updated_at row = pd_updated_at item) && (pd_attempts row =? pd_attempts item)
                then (consumed ++ [item], on_pending (delete (pd_sandbox_id item)) d) else acc
  | None => acc
  end.
Definition consume_pending_demand (d : db) (items : option (list PendingSandboxDemand)) (now : Z) :
    res (list PendingSandboxDemand * db) :=
  let! '(rows, d) := active_pending d now in
  match rows with
  | [] => Ok ([], d)
  | _ => Ok (foldl consume_one ([], d) (default rows items))
  end.

(** ** Image builds *)

Definition image_build_from_row (b : PendingImageBuildDemand) : PendingImageBuildDemand :=
  mkImageBuild (ib_image_id b) (ib_tag b) (ib_created_at b) (ib_updated_at b) (Z.max 1 (ib_attempts b)).
Definition upsert_pending_image_build (d : db) (image_id tag : string) (now : Z) : db :=
  let existing := image_build_from_row <$> image_builds d !! image_id in
  on_image_builds <[image_id := mkImageBuild image_id tag
    (match existing with Some e => ib_created_at e | None => iso now end) (iso now)
    (match existing with Some e => ib_attempts e + 1 | None => 1 end)]> d.
Definition clear_pending_image_build (d : db) (image_id : string) : db := on_image_builds (delete image_id) d.
Definition active_image_builds (d : db) (now : Z) : res (list PendingImageBuildDemand * db) :=
  let rows := image_build_from_row <$> rows_by_key (image_builds d) in
  let! expired := res_filter (λ b, signal_expired (ib_updated_at b) (ib_created_at b) now) rows in
  let gone := ib_image_id <$> expired in
  Ok (filter (λ b, ib_image_id b ∉ gone) rows, on_image_builds (filter (λ kb, kb.1 ∉ gone)) d).
Definition consume_image_build (acc : list PendingImageBuildDemand * db) (item : PendingImageBuildDemand) :
    list PendingImageBuildDemand * db :=
  let '(consumed, d) := acc in
  match image_builds d !! ib_image_id item with
  | Some row => if bool_decide (ib_tag row = ib_tag item) && bool_decide (ib_updated_at row = ib_updated_at item)
                   && (ib_attempts row =? ib_attempts item)
                then (consumed ++ [item], on_image_builds (delete (ib_image_id item)) d) else acc
  | None => acc
  end.
Definition consume_pending_image_builds (d : db) (items : option (list PendingImageBuildDemand)) (now : Z) :
    res (list PendingImageBuildDemand * db) :=
  let! '(rows, d) := active_image_builds d now in
  match rows with
  | [] => Ok ([], d)
  | _ => Ok (foldl consume_image_build ([], d) (default rows items))
  end.

(** ** Image warm-ups *)

Definition warmup_from_row (w : PendingImageWarmup) : PendingImageWarmup :=
  mkWarmup (wu_warmup_id w) (wu_image w) (wu_resources w) (Z.max 1 (wu_count w)) (wu_created_at w) (wu_updated_at w)
    (wu_expires_at w) (wu_image_id w) (from_keys (filter (λ n, n ≠ EmptyString) (wu_warmed_node_ids w)))
    (Z.max 1 (wu_attempts w)).
Definition upsert_image_warmup (d : db) (warmup_id image : string) (resources : ResourceQuantity)
    (count ttl_seconds : Z) (image_id : string) (now : Z) : res (PendingImageWarmup * db) :=
  let id := strip warmup_id in
  let image := strip image in
  raise_if (negb (nonempty id)) (ValueError "warmup id is required.")
  (raise_if (negb (nonempty image)) (ValueError "image is required.")
  (let existing := warmup_from_row <$> image_warmups d !! id in
   let warmed := match existing with
                 | Some e => if bool_decide (wu_image e = image) && bool_decide (wu_image_id e = strip image_id)
                             then wu_warmed_node_ids e else []
                 | None => []
                 end in
   let! expires := add_seconds now (Z.max 1 ttl_seconds) in
   let stored := mkWarmup id image resources (Z.max 1 count)
     (match existing with Some e => wu_created_at e | None => iso now end) (iso now) (iso expires) (strip image_id)
     (from_keys warmed) (match existing with Some e => wu_attempts e + 1 | None => 1 end) in
   let! _ := resources_json resources in
   Ok (stored, on_warmups <[id := stored]> d))).

(** The tests [mark_image_warmup_node] makes twice: [None] to return early *)
Definition warmup_target (d : db) (id expected_image expected_image_id : string) : option PendingImageWarmup :=
  e ← warmup_from_row <$> image_warmups d !! id;
  if (nonempty expected_image && negb (bool_decide (wu_image e = strip expected_image)))
     || (nonempty expected_image_id && negb (bool_decide (wu_image_id e = strip expected_image_id)))
  then None else Some e.
Definition mark_image_warmup_node (d0 d : db) (warmup_id node_id expected_image expected_image_id : string)
    (now : Z) : res (option PendingImageWarmup * db) :=
  let id := strip warmup_id in
  let node := strip node_id in
  if negb (nonempty id) || negb (nonempty node) then Ok (None, d)
  else match warmup_target d0 id expected_image expected_image_id with
       | None => Ok (None, d)
       | Some e0 =>
           if bool_decide (node ∈ wu_warmed_node_ids e0) then Ok (Some e0, d)
           else match warmup_target d id expected_image expected_image_id with
                | None => Ok (None, d)
                | Some e =>
                    if bool_decide (node ∈ wu_warmed_node_ids e) then Ok (Some e, d)
                    else
                      let stored := mkWarmup (wu_warmup_id e) (wu_image e) (wu_resources e) (wu_count e)
                        (wu_created_at e) (iso now) (wu_expires_at e) (wu_image_id e)
                        (from_keys (wu_warmed_node_ids e ++ [node])) (wu_attempts e) in
                      let! _ := resources_json (wu_resources e) in
                      Ok (Some stored, on_warmups <[wu_warmup_id stored := stored]> d)
                end
       end.
Definition delete_image_warmup (d : db) (warmup_id : string) : option PendingImageWarmup * db :=
  let id := strip warmup_id in
  if negb (nonempty id) then (None, d)
  else (warmup_from_row <$> image_warmups d !! id, on_warmups (delete id) d).

(** ** Reserved capacity and builders *)

Definition upsert_prepared_capacity (d : db) (prepare_id : string) (resources : ResourceQuantity)
    (count ttl_seconds : Z) (image : string) (now : Z) : res (PreparedCapacityDemand * db) :=
  raise_if (negb ((1 <=? count) && (count <=? MAX_PREPARED_CAPACITY_COUNT)))
    (ValueError "prepared capacity count must be between 1 and 9223372036854775807")
  (let! existing := match prepared_capacity d !! prepare_id with
                    | Some row => let! p := prepared_init row in Ok (Some p)
                    | None => Ok None
                    end in
   let! expires := add_seconds now (Z.max 1 ttl_seconds) in
   let! stored := prepared_init (mkPrepared prepare_id resources count
     (match existing with Some e => pc_created_at e | None => iso now end) (iso now) (iso expires) (strip image)) in
   let! _ := resources_json resources in
   Ok (stored, on_prepared <[prepare_id := stored]> d)).
Definition delete_prepared_capacity (d : db) (prepare_id : string) : res (option PreparedCapacityDemand * db) :=
  let! existing := match prepared_capacity d !! prepare_id with
                   | Some row => let! p := prepared_init row in Ok (Some p)
                   | None => Ok None
                   end in
  Ok (existing, on_warmups (delete prepare_id) (on_prepared (delete prepare_id) d)).

Definition builder_from_row (b : PreparedBuilderDemand) : PreparedBuilderDemand :=
  mkBuilder (bd_prepare_id b) (Z.max 1 (bd_count b)) (bd_created_at b) (bd_updated_at b) (bd_expires_at b).
Definition upsert_prepared_builder (d : db) (prepare_id : string) (count ttl_seconds now : Z) :
    res (PreparedBuilderDemand * db) :=
  let existing := builder_from_row <$> prepared_builders d !! prepare_id in
  let! expires := add_seconds now (Z.max 1 ttl_seconds) in
  let stored := mkBuilder prepare_id (Z.max 1 count)
    (match existing with Some e => bd_created_at e | None => iso now end) (iso now) (iso expires) in
  Ok (stored, on_builders <[prepare_id := stored]> d).
Definition delete_prepared_builder (d : db) (prepare_id : string) : option PreparedBuilderDemand * db :=
  (builder_from_row <$> prepared_builders d !! prepare_id, on_builders (delete prepare_id) d).

(** [DELETE ... WHERE expires_at <= ?]: on the text *)
Definition unexpired (expires_at : string) (now : Z) : bool := negb (string_leb expires_at (iso now)).
(** [_active_prepared_unlocked] *)
Definition active_prepared (d : db) (now : Z) : res (list PreparedCapacityDemand * db) :=
  let d := on_prepared (filter (λ kp, unexpired (pc_expires_at kp.2) now = true)) d in
  let! rows := res_map prepared_init (rows_by_key (prepared_capacity d)) in
  Ok (rows, d).
Definition active_prepared_builders (d : db) (now : Z) : list PreparedBuilderDemand * db :=
  let d := on_builders (filter (λ kb, unexpired (bd_expires_at kb.2) now = true)) d in
  (builder_from_row <$> rows_by_key (prepared_builders d), d).
Definition consume_builder (acc : list PreparedBuilderDemand * db) (item : PreparedBuilderDemand) :
    list PreparedBuilderDemand * db :=
  let '(consumed, d) := acc in
  match prepared_builders d !! bd_prepare_id item with
  | Some row => if (bd_count row =? bd_count item) && bool_decide (bd_updated_at row = bd_updated_at item)
                   && bool_decide (bd_expires_at row = bd_expires_at item)
                then (consumed ++ [item], on_builders (delete (bd_prepare_id item)) d) else acc
  | None => acc
  end.
Definition consume_prepared_builders (d : db) (items : option (list PreparedBuilderDemand)) (now : Z) :
    list PreparedBuilderDemand * db :=
  let '(rows, d) := active_prepared_builders d now in
  match rows with
  | [] => ([], d)
  | _ => foldl consume_builder ([], d) (default rows items)
  end.

(** ** Expiry *)

Section expiry.
Context (julianday : string → option Q).

(** [_expired_signal_predicate] *)
Definition signal_before (updated_at created_at cutoff : string) : bool :=
  let reference := str_or updated_at created_at in
  nonempty reference
  && match julianday reference, julianday cutoff with
     | Some r, Some c => Qle_bool r c
     | _, _ => false
     end.

(** [_prune_expired_unlocked] *)
Definition prune_expired (d : db) (now : Z) : res db :=
  let! pending_cutoff := add_seconds now (- PENDING_DEMAND_TTL_SECONDS) in
  let! terminal_cutoff := add_seconds now (- PROGRAM_TERMINAL_RETENTION_SECONDS) in
  let retained lost_at := negb (string_leb lost_at (iso terminal_cutoff)) in
  let d := on_pending (filter (λ kp, signal_before (pd_updated_at kp.2) (pd_created_at kp.2) (iso pending_cutoff) = false)) d in
  let d := on_image_builds (filter (λ kb, signal_before (ib_updated_at kb.2) (ib_created_at kb.2) (iso pending_cutoff) = false)) d in
  let d := on_prepared (filter (λ kp, unexpired (pc_expires_at kp.2) now = true)) d in
  let d := on_builders (filter (λ kb, unexpired (bd_expires_at kb.2) now = true)) d in
  let d := on_warmups (filter (λ kw, unexpired (wu_expires_at kw.2) now = true)) d in
  let d := on_losses (filter (λ kl, retained (sl_lost_at kl.2) = true)) d in
  let d := on_exec_losses (filter (λ kl, retained (el_lost_at kl.2) = true)) d in
  Ok (on_programs (filter (λ kp, bool_decide (pg_state kp.2 = "terminal") && negb (retained (pg_updated_at kp.2)) = false)) d).

(** ** The demand the autoscaler reads *)

(** The sandbox a migration or wake demand is for *)
Definition demand_sandbox (id : string) : option string :=
  let strip_prefix p := if String.prefix p id
                        then Some (String.substring (String.length p) (String.length id - String.length p) id) else None in
  match strip_prefix "__migration__:" with
  | Some s => Some s
  | None => strip_prefix "__wake__:"
  end.
Definition excluded_jobs (d : db) (p : PendingSandboxDemand) : res (list string) :=
  match demand_sandbox (pd_sandbox_id p) with
  | None => Ok []
  | Some id =>
      let! route := get_sandbox_unlocked d id in
      Ok match route with Some r => if nonempty (sr_job_id r) then [sr_job_id r] else [] | None => [] end
  end.
(** [max(oldest, int((now - created_at).total_seconds()))] *)
Definition older (created_at : string) (now oldest : Z) : res Z :=
  let! at_ := parse_iso_datetime created_at in
  Ok match at_ with Some c => Z.max oldest (Z.quot (now - c) 1000000) | None => oldest end.

(** One unexpired pending row; [request] builds its placement request *)
Definition add_row (request : PendingSandboxDemand → res SandboxPlacementRequest) (now : Z)
    (acc : SandboxDemand) (p : PendingSandboxDemand) : res SandboxDemand :=
  if negb (is_capacity_demand p)
  then Ok (mkDemand (dm_pending_resources acc) (rq_add (suppressed_pending_resources acc) (pd_resources p))
             (pending_count acc) (suppressed_pending_count acc + 1) (oldest_pending_seconds acc)
             (oldest_capacity_pending_seconds acc) (placement_requests acc) (prepared_placement_requests acc))
  else
    let! r := request p in
    let! oldest := older (pd_created_at p) now (oldest_pending_seconds acc) in
    Ok (mkDemand (rq_add (dm_pending_resources acc) (pd_resources p)) (suppressed_pending_resources acc)
          (pending_count acc + 1) (suppressed_pending_count acc) oldest (oldest_capacity_pending_seconds acc)
          (placement_requests acc ++ [r]) (prepared_placement_requests acc)).
Definition pending_request (d : db) (p : PendingSandboxDemand) : res SandboxPlacementRequest :=
  let! excluded := excluded_jobs d p in
  placement_request_init (mkPR (pd_resources p) 1 excluded EmptyString).
Definition add_prepared (now : Z) (acc : SandboxDemand) (p : PreparedCapacityDemand) : res SandboxDemand :=
  let! request := placement_request_init (mkPR (pc_resources p) (pc_count p) [] (pc_image p)) in
  let! oldest := older (pc_created_at p) now (oldest_pending_seconds acc) in
  Ok (mkDemand (dm_pending_resources acc) (suppressed_pending_resources acc) (pending_count acc)
        (suppressed_pending_count acc) oldest (oldest_capacity_pending_seconds acc) (placement_requests acc)
        (prepared_placement_requests acc ++ [request])).

(** The unexpired rows *)
Definition live_pending (d : db) (now : Z) : res (list PendingSandboxDemand) :=
  res_filter (λ p, let! e := signal_expired (pd_updated_at p) (pd_created_at p) now in Ok (negb e))
    (pending_from_row <$> (map_to_list (pending d)).*2).
Definition live_prepared (d : db) (now : Z) : res (list PreparedCapacityDemand) :=
  let! rows := res_map prepared_init (map_to_list (prepared_capacity d)).*2 in
  res_filter (λ p, let! e := past (pc_expires_at p) now in Ok (negb e)) rows.

(** The two passes over the rows, once they are read *)
Definition total_demand (request : PendingSandboxDemand → res SandboxPlacementRequest) (now : Z)
    (pending : list PendingSandboxDemand) (prepared : list PreparedCapacityDemand) : res SandboxDemand :=
  let! acc := res_foldl (add_row request now) (mkDemand rq_zero rq_zero 0 0 0 0 [] []) pending in
  let oldest_capacity := Z.max 0 (oldest_pending_seconds acc) in
  let! acc := res_foldl (add_prepared now) acc prepared in
  Ok (mkDemand (dm_pending_resources acc) (suppressed_pending_resources acc) (pending_count acc)
        (suppressed_pending_count acc) (Z.max 0 (oldest_pending_seconds acc)) oldest_capacity
        (placement_requests acc) (prepared_placement_requests acc)).
(** [_sandbox_demand_unlocked] *)
Definition sandbox_demand (d : db) (now : Z) : res SandboxDemand :=
  let! pending := live_pending d now in
  let! prepared := live_prepared d now in
  total_demand (pending_request d) now pending prepared.
Definition pending_demand (d : db) (now : Z) : res (SandboxDemand * db) :=
  let! d := prune_expired d now in
  let! demand := sandbox_demand d now in
  Ok (demand, d).
Definition upsert_pending_with_demand (d : db) (sandbox_id : string) (resources : ResourceQuantity) (now : Z)
    (generation : Z) (operation_id spec_hash failure_reason : string) :
    res (PendingSandboxDemand * SandboxDemand * db) :=
  let! '(stored, d) := upsert_pending_unlocked d sandbox_id resources now generation operation_id spec_hash failure_reason in
  let! '(demand, d) := pending_demand d now in
  Ok (stored, demand, d).
End expiry.

(** ** Rows *)

(** Its last five minutes aside, any time of the calendar *)
Definition clock_ok (now : Z) : Prop := MIN_US ≤ now ∧ now + PENDING_DEMAND_TTL_SECONDS * 1000000 ≤ MAX_US.

(** What the upserts keep true of the rows they write *)
Record signals_ok (d : db) : Prop := {
  so_pending : ∀ k p, pending d !! k = Some p →
    pd_sandbox_id p = k ∧ 1 ≤ pd_attempts p ∧ 0 ≤ pd_generation p ∧ is_valid (pd_resources p) = true ∧
    (∃ u, clock_ok u ∧ pd_updated_at p = iso u) ∧ ∃ c, clock_ok c ∧ pd_created_at p = iso c;
  so_prepared : ∀ k p, prepared_capacity d !! k = Some p →
    pc_prepare_id p = k ∧ 1 ≤ pc_count p ≤ MAX_PREPARED_CAPACITY_COUNT ∧ is_valid (pc_resources p) = true ∧
    (∃ c, clock_ok c ∧ pc_created_at p = iso c) ∧ ∃ e, MIN_US ≤ e ≤ MAX_US ∧ pc_expires_at p = iso e
}.

Lemma pending_row_same p : 1 ≤ pd_attempts p → 0 ≤ pd_generation p → pending_from_row p = p.
Proof. intros. destruct p. unfold pending_from_row. simpl in *. by rewrite !Z.max_r by lia. Qed.
Lemma prepared_init_Ok p q : prepared_init p = Ok q ↔ q = p ∧ 1 ≤ pc_count p ≤ MAX_PREPARED_CAPACITY_COUNT.
Proof.
  unfold prepared_init. rewrite raise_if_Ok, negb_false_iff, andb_true_iff, !Z.leb_le. naive_solver.
Qed.
Lemma add_seconds_Ok t s u : add_seconds t s = Ok u ↔ u = t + s * 1000000 ∧ MIN_US ≤ u ≤ MAX_US.
Proof.
  unfold add_seconds. rewrite raise_if_Ok, orb_false_iff, !Z.ltb_ge. naive_solver lia.
Qed.
Lemma unexpired_iso e now : MIN_US ≤ e ≤ MAX_US → MIN_US ≤ now ≤ MAX_US → unexpired (iso e) now = (now <? e).
Proof. intros. unfold unexpired. by rewrite iso_leb, Z.ltb_antisym. Qed.
Lemma past_iso e now : MIN_US ≤ e ≤ MAX_US → past (iso e) now = Ok (e <=? now).
Proof. intros. unfold past. by rewrite parse_of_iso. Qed.

(** ** Reservations *)

Definition reserved (d : db) : Z := zsum (pc_count <$> (map_to_list (prepared_capacity d)).*2).

Lemma reserved_delete d k p : prepared_capacity d !! k = Some p →
  reserved (on_prepared (delete k) d) = reserved d - pc_count p.
Proof.
  intros H. unfold reserved. simpl.
  assert (zsum (pc_count <$> (map_to_list (prepared_capacity d)).*2) =
    zsum (pc_count <$> ((k, p) :: map_to_list (delete k (prepared_capacity d))).*2)) as -> by
    (by rewrite (map_to_list_delete _ _ _ H)).
  csimpl. unfold zsum. simpl. lia.
Qed.
Lemma reserved_insert d k p q : prepared_capacity d !! k = Some p →
  reserved (on_prepared <[k := q]> d) = reserved d - pc_count p + pc_count q.
Proof.
  intros H. pose proof (reserved_delete d k p H) as Hd. revert Hd. unfold reserved. simpl. intros Hd.
  rewrite <-insert_delete_eq. rewrite map_to_list_insert by apply lookup_delete_eq. csimpl. unfold zsum in *. simpl. lia.
Qed.

(** An unexpired reservation of exactly this shape, for this image or for any *)
Definition reservation_fits (r : SandboxRoute) (us : Z) (p : PreparedCapacityDemand) : Prop :=
  past (pc_expires_at p) us = Ok false ∧ rq_eqb (pc_resources p) (sr_resources r) = true ∧
  (pc_image p = EmptyString ∨ pc_image p = spec_image (sr_spec r)).

Lemma string_cmp a b : string_ltb a b = true ∨ a = b ∨ string_ltb b a = true.
Proof.
  unfold string_ltb. destruct (string_leb a b) eqn:E1, (string_leb b a) eqn:E2; simpl; auto.
  right. left. by apply string_leb_antisym.
Qed.
Lemma prepared_leb_total image p q : prepared_leb image p q = true ∨ prepared_leb image q p = true.
Proof.
  unfold prepared_leb. cbv zeta.
  generalize (if bool_decide (pc_image p = image) && nonempty (pc_image p) then 0 else 1).
  generalize (if bool_decide (pc_image q = image) && nonempty (pc_image q) then 0 else 1). intros a b.
  destruct (Z.lt_trichotomy a b) as [H|[->|H]].
  - right. by rewrite (proj2 (Z.ltb_lt _ _) H).
  - rewrite Z.ltb_irrefl, Z.eqb_refl. simpl.
    destruct (string_cmp (pc_created_at p) (pc_created_at q)) as [-> | [-> | ->]]; simpl; auto.
    rewrite string_ltb_irrefl, !bool_decide_eq_true_2 by done. simpl. apply string_leb_total.
  - left. by rewrite (proj2 (Z.ltb_lt _ _) H).
Qed.
Lemma prepared_leb_trans image p q s :
  prepared_leb image p q = true → prepared_leb image q s = true → prepared_leb image p s = true.
Proof.
  unfold prepared_leb. cbv zeta.
  generalize (if bool_decide (pc_image p = image) && nonempty (pc_image p) then 0 else 1).
  generalize (if bool_decide (pc_image q = image) && nonempty (pc_image q) then 0 else 1).
  generalize (if bool_decide (pc_image s = image) && nonempty (pc_image s) then 0 else 1). intros c b a.
  rewrite !orb_true_iff, !andb_true_iff, !orb_true_iff, !andb_true_iff, !Z.ltb_lt, !Z.eqb_eq, !bool_decide_eq_true.
  intros [?|[-> [Hx|[Ex Hx]]]] [?|[-> [Hy|[Ey Hy]]]]; try (left; lia); right; (split; [done|]).
  - left. by eapply string_ltb_trans.
  - left. by rewrite <-Ey.
  - left. by rewrite Ex.
  - right. split; [congruence|]. by eapply string_leb_trans.
Qed.

Lemma fold_min {A} (leb : A → A → bool) (Ht : ∀ x y, leb x y = true ∨ leb y x = true)
    (Htr : ∀ x y z, leb x y = true → leb y z = true → leb x z = true) a l :
  let m := foldl (λ best q, if leb best q then best else q) a l in
  m ∈ a :: l ∧ ∀ x, x ∈ a :: l → leb m x = true.
Proof.
  revert a. induction l as [|b l IH]; intros a; simpl.
  - split; [set_solver|]. intros x ->%list_elem_of_singleton. by destruct (Ht a a).
  - destruct (IH (if leb a b then a else b)) as [Hin Hmin]. split; [destruct (leb a b); set_solver|].
    intros x Hx. apply elem_of_cons in Hx as [->|[->|Hx]%elem_of_cons]; [..|by apply Hmin; set_solver].
    + destruct (leb a b) eqn:E; [apply Hmin; set_solver|]. apply (Htr _ b); [apply Hmin; set_solver|].
      destruct (Ht a b); congruence.
    + destruct (leb a b) eqn:E; [|apply Hmin; set_solver]. apply (Htr _ a); [apply Hmin; set_solver|done].
Qed.

Lemma map_values {A} (m : gmap string A) p : p ∈ (map_to_list m).*2 ↔ ∃ k, m !! k = Some p.
Proof.
  rewrite list_elem_of_fmap. split.
  - intros ([k q] & -> & H%elem_of_map_to_list). eauto.
  - intros [k H]. exists (k, p). by rewrite elem_of_map_to_list.
Qed.

(** The outcome of looking for a reservation to use *)
Definition claim_outcome (r : SandboxRoute) (us : Z) (d : db) (o : option PreparedCapacityDemand) (d' : db) : Prop :=
  match o with
  | None => prepared_capacity d' = prepared_capacity d ∧
      ∀ k p, prepared_capacity d !! k = Some p → ¬ reservation_fits r us p
  | Some p =>
      prepared_capacity d !! pc_prepare_id p = Some p ∧ reservation_fits r us p ∧
      (∀ k q, prepared_capacity d !! k = Some q → reservation_fits r us q →
         prepared_leb (spec_image (sr_spec r)) p q = true) ∧
      reserved d' = reserved d - 1 ∧
      ∀ k, k ≠ pc_prepare_id p → prepared_capacity d' !! k = prepared_capacity d !! k
  end.

Lemma claim_spec r now us d o d' : signals_ok d → claim_prepared_capacity r now us d = Ok (o, d') →
  claim_outcome r us d o d'.
Proof.
  intros Hok H. unfold claim_prepared_capacity in H. apply res_bind_Ok in H as (l & Hl & H).
  apply res_filter_Ok in Hl as [_ ->].
  assert (∀ p, p ∈ filter (λ row, (let! p := prepared_init row in let! expired := past (pc_expires_at p) us in
      Ok (negb expired && rq_eqb (pc_resources p) (sr_resources r) &&
        (negb (nonempty (pc_image p)) || bool_decide (pc_image p = spec_image (sr_spec r))))) = Ok true)
      (map_to_list (prepared_capacity d)).*2 ↔ ∃ k, prepared_capacity d !! k = Some p ∧ reservation_fits r us p) as Hin.
  { intros p. rewrite list_elem_of_filter, map_values. setoid_rewrite res_bind_Ok. setoid_rewrite res_bind_Ok.
    setoid_rewrite prepared_init_Ok. unfold reservation_fits, nonempty. split.
    - intros [(q & [-> _] & [] & He & [= [Hr Hi]%andb_true_iff]) [k Hk]]. exists k. split_and!; [done..|].
      apply orb_true_iff in Hi as [Hi|Hi]; bools; auto.
    - intros (k & Hk & He & Hr & Hi). split; [|eauto]. destruct (so_prepared d Hok k p Hk) as (_ & Hc & _).
      exists p. split; [done|]. exists false. split; [done|]. rewrite Hr. simpl. f_equal.
      apply orb_true_iff. destruct Hi as [->| ->]; [by left|right; by apply bool_decide_eq_true_2]. }
  destruct (filter _ _) as [|p ps] eqn:Ef.
  - simplify_eq. split; [done|]. intros k p Hk Hf. apply (not_elem_of_nil p), Hin. eauto.
  - destruct (fold_min _ (prepared_leb_total (spec_image (sr_spec r))) (prepared_leb_trans (spec_image (sr_spec r))) p ps)
      as [Hm Hmin]. set (m := foldl _ p ps) in *. apply Hin in Hm as (k & Hk & Hf).
    destruct (so_prepared d Hok k m Hk) as (Ek & Hc & _). subst k.
    assert (∀ k q, prepared_capacity d !! k = Some q → reservation_fits r us q →
      prepared_leb (spec_image (sr_spec r)) m q = true) as Hbest by (intros; apply Hmin, Hin; eauto).
    destruct (Z.leb_spec (pc_count m) 1); [|apply res_bind_Ok in H as (rest & Hrest & H); apply prepared_init_Ok in Hrest as [-> _]];
      simplify_eq; split_and!; try done; intros; simpl.
    + rewrite (reserved_delete _ _ m) by done. lia.
    + by rewrite lookup_delete_ne.
    + rewrite (reserved_insert _ _ m) by done. simpl. lia.
    + by rewrite lookup_insert_ne.
Qed.

Lemma write_sandbox_signals r d :
  prepared_capacity (write_sandbox r d) = prepared_capacity d ∧ pending (write_sandbox r d) = pending d.
Proof. unfold write_sandbox, write_dependency. by destruct (sr_storage_snapshot r). Qed.

Lemma claim_pending r now us d o d' : claim_prepared_capacity r now us d = Ok (o, d') → pending d' = pending d.
Proof.
  unfold claim_prepared_capacity. intros H. apply res_bind_Ok in H as (l & _ & H). destruct l as [|p ps]; [by simplify_eq|].
  case_match; [by simplify_eq|]. apply res_bind_Ok in H as (x & _ & H). by simplify_eq.
Qed.

(** The tables of one database are those of another *)
Lemma signals_frame d d' : pending d' = pending d → prepared_capacity d' = prepared_capacity d →
  signals_ok d → signals_ok d'.
Proof. intros E1 E2 [H1 H2]. split; [by rewrite E1|by rewrite E2]. Qed.

(** C14. A create uses up at most one unit of reserved capacity, and the right one:
    when an unexpired reservation of exactly its shape exists, for its image or for
    any, one unit of the best is taken (its own image first, then the oldest) and
    nothing else changes; when none fits, no reservation is touched.  Allocating an
    existing sandbox again takes nothing.  The create's own pending demand is
    returned and cleared. *)
Theorem create_takes_one_reservation d a hash op uuid now us r p d' :
  signals_ok d → allocate_sandbox_create_with_pending d a hash op uuid now us = Ok (r, p, d') →
  p = pending d !! al_sandbox_id a ∧
  match sandboxes d !! al_sandbox_id a with
  | Some _ => d' = d
  | None => pending d' = delete (al_sandbox_id a) (pending d) ∧ ∃ o, claim_outcome r us d o d'
  end.
Proof.
  intros Hok H. unfold allocate_sandbox_create_with_pending in H. apply raise_if_Ok in H as [_ H].
  unfold allocate_create, get_sandbox_unlocked in H. destruct (sandboxes d !! al_sandbox_id a) as [row|].
  - apply res_bind_Ok in H as (e & He & H). apply res_bind_Ok in He as (? & _ & [= <-]).
    apply raise_if_Ok in H as [_ [= -> -> ->]]. done.
  - cbn [res_bind] in H. apply res_bind_Ok in H as (stored & _ & H). apply res_bind_Ok in H as ([o d1] & Hc & [= <- <- <-]).
    destruct (write_sandbox_signals stored d) as [E1 E2]. split; [done|].
    assert (signals_ok (on_pending (delete (al_sandbox_id a)) (write_sandbox stored d))) as Hok'.
    { destruct Hok as [H1 H2]. split; cbn [on_pending pending prepared_capacity]; [rewrite E2; intros k q [_ Hq]%lookup_delete_Some; by apply H1|by rewrite E1]. }
    pose proof (claim_pending _ _ _ _ _ _ Hc) as Ep. apply claim_spec in Hc; [|done]. split.
    + rewrite Ep. cbn [on_pending pending]. by rewrite E2.
    + exists o. revert Hc. unfold claim_outcome, reserved. cbn [on_pending prepared_capacity]. by rewrite E1.
Qed.

(** ** Every demand transaction keeps the rows well formed *)

Section signals.
Context (julianday : string → option Q).

Inductive signal_step (d d' : db) : Prop :=
| sg_pending id r now g op h f : clock_ok now → upsert_pending d id r now g op h f = Ok d' → signal_step d d'
| sg_pending_demand id r now g op h f s dm : clock_ok now →
    upsert_pending_with_demand julianday d id r now g op h f = Ok (s, dm, d') → signal_step d d'
| sg_clear id : d' = clear_pending d id → signal_step d d'
| sg_consume items now out : consume_pending_demand d items now = Ok (out, d') → signal_step d d'
| sg_prepared id r n ttl image now out : clock_ok now →
    upsert_prepared_capacity d id r n ttl image now = Ok (out, d') → signal_step d d'
| sg_delete_prepared id out : delete_prepared_capacity d id = Ok (out, d') → signal_step d d'
| sg_create a h op uuid now us r p :
    allocate_sandbox_create_with_pending d a h op uuid now us = Ok (r, p, d') → signal_step d d'
| sg_demand now dm : pending_demand julianday d now = Ok (dm, d') → signal_step d d'.

Lemma upsert_pending_ok d id r now g op h f s d' :
  clock_ok now → signals_ok d → upsert_pending_unlocked d id r now g op h f = Ok (s, d') → signals_ok d'.
Proof.
  intros Hn [H1 H2] H. unfold upsert_pending_unlocked in H. apply res_bind_Ok in H as (r' & Hr & [= <- <-]).
  apply rq_reread in Hr as [Hv _]. split; [|done]. intros k p. cbn [on_pending pending].
  intros [[<- <-]|[_ Hp]]%lookup_insert_Some; [|by apply H1].
  cbn [pd_sandbox_id pd_attempts pd_generation pd_resources pd_updated_at pd_created_at].
  destruct (pending d !! id) as [e|] eqn:Ee; cbn [fmap option_fmap option_map].
  - destruct (H1 id e Ee) as (_ & Ha & Hg & _ & _ & Hc). rewrite pending_row_same by done.
    destruct (_ && _); (split_and!; [done|lia|lia|done|by exists now|]); [done|by exists now].
  - split_and!; [done|lia|lia|done|by exists now|by exists now].
Qed.
Lemma filter_ok d d' (P : string * PendingSandboxDemand → Prop) (R : string * PreparedCapacityDemand → Prop)
    `{∀ x, Decision (P x), ∀ x, Decision (R x)} :
  pending d' = filter P (pending d) → prepared_capacity d' = filter R (prepared_capacity d) → signals_ok d → signals_ok d'.
Proof.
  intros E1 E2 [H1 H2]. split; [rewrite E1|rewrite E2]; intros k p [Hp _]%map_lookup_filter_Some; eauto.
Qed.
Lemma prune_ok d now d' : prune_expired julianday d now = Ok d' → signals_ok d → signals_ok d'.
Proof.
  unfold prune_expired. intros (c1 & _ & H)%res_bind_Ok. apply res_bind_Ok in H as (c2 & _ & [= <-]).
  eapply filter_ok; done.
Qed.
Lemma map_filter_true {A} (m : gmap string A) : filter (λ _, True) m = m.
Proof. apply map_filter_id. by intros. Qed.
Lemma consume_ok rows : ∀ d acc out d', foldl consume_one (acc, d) rows = (out, d') →
  prepared_capacity d' = prepared_capacity d ∧ ∀ k p, pending d' !! k = Some p → pending d !! k = Some p.
Proof.
  induction rows as [|x rows IH]; intros d acc out d' H; simpl in H; [by simplify_eq|].
  destruct (pending d !! pd_sandbox_id x) as [row|]; [case_match|]; apply IH in H as [E H]; [|done..].
  split; [done|]. intros k p Hp%H. cbn [on_pending pending] in Hp. by apply lookup_delete_Some in Hp as [_ ?].
Qed.
Lemma claim_ok r now us d o d' : claim_prepared_capacity r now us d = Ok (o, d') → signals_ok d → signals_ok d'.
Proof.
  intros H Hok. pose proof (claim_pending _ _ _ _ _ _ H) as Ep. pose proof (claim_spec _ _ _ _ _ _ Hok H) as Hc.
  destruct Hok as [H1 H2]. split; [by rewrite Ep|]. destruct o as [p|]; [|by destruct Hc as [-> _]].
  destruct Hc as (Hp & _ & _ & _ & Hne). intros k q Hq. destruct (decide (k = pc_prepare_id p)) as [->|]; [|rewrite Hne in Hq; eauto].
  destruct (H2 _ _ Hp) as (_ & Hc & Hv & He). unfold claim_prepared_capacity in H. apply res_bind_Ok in H as (l & _ & H).
  destruct l as [|p0 ps]; [done|]. set (m := foldl _ p0 ps) in H. case_match eqn:Em.
  - injection H as <- <-. cbn [on_prepared prepared_capacity] in Hq. by rewrite lookup_delete_eq in Hq.
  - apply res_bind_Ok in H as (rest & [-> Hr]%prepared_init_Ok & [= <- <-]).
    cbn [on_prepared prepared_capacity] in Hq. rewrite lookup_insert_eq in Hq. injection Hq as <-. done.
Qed.
Lemma create_ok d a h op uuid now us r p d' :
  allocate_sandbox_create_with_pending d a h op uuid now us = Ok (r, p, d') → signals_ok d → signals_ok d'.
Proof.
  unfold allocate_sandbox_create_with_pending. intros [_ H]%raise_if_Ok Hok. unfold allocate_create in H.
  apply res_bind_Ok in H as (ex & _ & H). destruct ex as [e|]; [by apply raise_if_Ok in H as [_ [= _ _ <-]]|].
  apply res_bind_Ok in H as (stored & _ & H). apply res_bind_Ok in H as ([o d1] & Hc & [= _ _ <-]).
  eapply claim_ok; [exact Hc|]. destruct (write_sandbox_signals stored d) as [E1 E2]. destruct Hok as [H1 H2].
  split; cbn [on_pending pending prepared_capacity]; [rewrite E2|by rewrite E1].
  intros k q [_ Hq]%lookup_delete_Some. eauto.
Qed.

Lemma signal_step_ok d d' : signal_step d d' → signals_ok d → signals_ok d'.
Proof.
  intros Hs Hok. destruct Hs as [id r now g op h f Hn H|id r now g op h f s dm Hn H|id ->|items now out H
    |id r n ttl image now out Hn H|id out H|a h op uuid now us r p H|now dm H].
  - unfold upsert_pending in H. apply res_bind_Ok in H as ([s d1] & H & [= <-]). by eapply upsert_pending_ok.
  - unfold upsert_pending_with_demand in H. apply res_bind_Ok in H as ([s' d1] & H1 & H).
    apply res_bind_Ok in H as ([dm' d2] & H2 & [= _ _ <-]). unfold pending_demand in H2.
    apply res_bind_Ok in H2 as (d3 & H3 & H2). apply res_bind_Ok in H2 as (? & _ & [= _ <-]).
    eapply prune_ok; [exact H3|]. by eapply upsert_pending_ok.
  - destruct Hok as [H1 H2]. split; [|done]. simpl. intros k p [_ Hp]%lookup_delete_Some. eauto.
  - unfold consume_pending_demand in H. apply res_bind_Ok in H as ([rows d1] & Ha & H).
    unfold active_pending in Ha. apply res_bind_Ok in Ha as (ex & _ & [= Hrows <-]).
    assert (signals_ok (on_pending (filter (λ kp, kp.1 ∉ pd_sandbox_id <$> ex)) d)) as Hok1.
    { eapply (filter_ok d); [done| |done]. symmetry. apply map_filter_true. }
    destruct rows as [|p0 rows]; [by simplify_eq|]. injection H as H.
    apply consume_ok in H as [E Hp]. destruct Hok1 as [H1 H2]. split; [eauto|by rewrite E].
  - unfold upsert_prepared_capacity in H. apply raise_if_Ok in H as [_ H]. apply res_bind_Ok in H as (ex & Hex & H).
    apply res_bind_Ok in H as (e & [-> He]%add_seconds_Ok & H). apply res_bind_Ok in H as (st & Hst & H).
    apply prepared_init_Ok in Hst as [-> Hc]. apply res_bind_Ok in H as (? & [Hv _]%rq_reread & [= <- <-]).
    destruct Hok as [H1 H2]. split; [done|]. intros k q. cbn [on_prepared prepared_capacity].
    intros [[<- <-]|[_ Hq]]%lookup_insert_Some; [|by apply H2]. simpl in *. split_and!; [done|lia|lia|done| |eauto].
    destruct (prepared_capacity d !! id) as [e0|] eqn:E0; [|injection Hex as <-; by exists now].
    apply res_bind_Ok in Hex as (q0 & [-> _]%prepared_init_Ok & [= <-]). by destruct (H2 id e0 E0) as (_ & _ & _ & ? & _).
  - unfold delete_prepared_capacity in H. apply res_bind_Ok in H as (ex & _ & [= _ <-]). destruct Hok as [H1 H2].
    split; [done|]. simpl. intros k q [_ Hq]%lookup_delete_Some. eauto.
  - by eapply create_ok.
  - unfold pending_demand in H. apply res_bind_Ok in H as (d1 & H1 & H). apply res_bind_Ok in H as (? & _ & [= _ <-]).
    by eapply prune_ok.
Qed.
End signals.

(** ** What the autoscaler reads *)

Lemma substring_all s : String.substring 0 (String.length s) s = s.
Proof. induction s as [|c s IH]; simpl; [done|by rewrite IH]. Qed.
Lemma substring_after p s :
  String.substring (String.length p) (String.length (p +:+ s) - String.length p) (p +:+ s) = s.
Proof.
  induction p as [|c p IH]; simpl; [|exact IH]. rewrite Nat.sub_0_r. apply substring_all.
Qed.
Lemma prefix_app p s : String.prefix p (p +:+ s) = true.
Proof. induction p as [|c p IH]; simpl; [by destruct s|]. by destruct (Ascii.ascii_dec c c). Qed.
Lemma demand_sandbox_wake s : demand_sandbox (wake_pending_demand_id s) = Some s.
Proof.
  unfold demand_sandbox, wake_pending_demand_id. rewrite prefix_app, substring_after.
  assert (String.prefix "__migration__:" ("__wake__:" +:+ s) = false) as -> by done. done.
Qed.

Lemma signal_expired_iso u created now : clock_ok u →
  signal_expired (iso u) created now = Ok (u + PENDING_DEMAND_TTL_SECONDS * 1000000 <=? now).
Proof.
  intros Hu. unfold signal_expired. assert (0 ≤ PENDING_DEMAND_TTL_SECONDS) by done. destruct Hu.
  rewrite parse_of_iso by (unfold PENDING_DEMAND_TTL_SECONDS in *; lia). cbn [res_bind].
  change (Z.max 1 PENDING_DEMAND_TTL_SECONDS) with PENDING_DEMAND_TTL_SECONDS.
  assert (add_seconds u PENDING_DEMAND_TTL_SECONDS = Ok (u + PENDING_DEMAND_TTL_SECONDS * 1000000)) as ->; [|done].
  apply add_seconds_Ok. unfold PENDING_DEMAND_TTL_SECONDS in *. lia.
Qed.

(** The rows that count at [now] *)
Definition live_rows (d : db) (now : Z) : list PendingSandboxDemand :=
  filter (λ p, signal_expired (pd_updated_at p) (pd_created_at p) now = Ok false) (map_to_list (pending d)).*2.
Definition live_reservations (d : db) (now : Z) : list PreparedCapacityDemand :=
  filter (λ p, past (pc_expires_at p) now = Ok false) (map_to_list (prepared_capacity d)).*2.

Lemma live_pending_ok d now : signals_ok d → live_pending d now = Ok (live_rows d now).
Proof.
  intros [H1 _]. unfold live_pending, live_rows.
  assert (pending_from_row <$> (map_to_list (pending d)).*2 = (map_to_list (pending d)).*2) as ->.
  { rewrite <-(list_fmap_id (map_to_list (pending d)).*2) at 2. apply list_fmap_ext. intros i p Hp.
    apply list_elem_of_lookup_2, map_values in Hp as [k Hk]. destruct (H1 k p Hk) as (_ & ? & ? & _).
    by apply pending_row_same. }
  apply res_filter_Ok. split.
  - intros p [k Hk]%map_values. destruct (H1 k p Hk) as (_ & _ & _ & _ & (u & Hu & ->) & _).
    rewrite signal_expired_iso by done. simpl. eauto.
  - apply list_filter_iff. intros p. destruct (signal_expired _ _ _) as [[]|]; simpl; naive_solver.
Qed.
Lemma live_prepared_ok d now : signals_ok d → live_prepared d now = Ok (live_reservations d now).
Proof.
  intros [_ H2]. unfold live_prepared, live_reservations.
  assert (res_map prepared_init (map_to_list (prepared_capacity d)).*2 = Ok (map_to_list (prepared_capacity d)).*2) as ->.
  { apply res_map_Ok, Forall2_same_length_lookup_2; [done|]. intros i p q Hp Hq. simplify_eq.
    apply list_elem_of_lookup_2, map_values in Hp as [k Hk]. destruct (H2 k p Hk) as (_ & ? & _). by apply prepared_init_Ok. }
  cbn [res_bind]. apply res_filter_Ok. split.
  - intros p [k Hk]%map_values. destruct (H2 k p Hk) as (_ & _ & _ & _ & e & He & ->). rewrite past_iso by done. simpl. eauto.
  - apply list_filter_iff. intros p. destruct (past _ _) as [[]|]; simpl; naive_solver.
Qed.

(** The request a pending row becomes *)
Definition request_for (d : db) (p : PendingSandboxDemand) (r : SandboxPlacementRequest) : Prop :=
  pr_resources r = pd_resources p ∧ pr_count r = 1 ∧ excluded_jobs d p = Ok (pr_excluded_job_ids r).
Definition reservation_request (p : PreparedCapacityDemand) : SandboxPlacementRequest :=
  mkPR (pc_resources p) (pc_count p) [] (pc_image p).
Definition waited (now : Z) (created_at : string) (seconds : Z) : Prop :=
  ∀ c, parse_iso_datetime created_at = Ok (Some c) → Z.quot (now - c) 1000000 ≤ seconds.

(** The rows another worker can help *)
Definition helpable (l : list PendingSandboxDemand) : list PendingSandboxDemand :=
  filter (λ p, is_capacity_demand p = true) l.

(** What adding the rows [l] did to the demand *)
Record added (R : PendingSandboxDemand → SandboxPlacementRequest → Prop) (now : Z) (l : list PendingSandboxDemand) (a b : SandboxDemand) : Prop := {
  ad_requests : ∃ k, placement_requests b = placement_requests a ++ k ∧
    Forall2 R (helpable l) k;
  ad_count : pending_count b = pending_count a + Z.of_nat (length (helpable l));
  ad_suppressed : suppressed_pending_count b =
    suppressed_pending_count a + Z.of_nat (length (filter (λ p, is_capacity_demand p = false) l));
  ad_disk : disk_mb (dm_pending_resources b) = disk_mb (dm_pending_resources a) +
    zsum ((λ p, disk_mb (pd_resources p)) <$> helpable l);
  ad_memory : memory_mb (dm_pending_resources b) = memory_mb (dm_pending_resources a) +
    zsum ((λ p, memory_mb (pd_resources p)) <$> helpable l);
  ad_prepared : prepared_placement_requests b = prepared_placement_requests a;
  ad_oldest : oldest_pending_seconds a ≤ oldest_pending_seconds b ∧
    ∀ p, p ∈ l → is_capacity_demand p = true → waited now (pd_created_at p) (oldest_pending_seconds b)
}.

Lemma older_Ok created now o o' : older created now o = Ok o' → o ≤ o' ∧ waited now created o'.
Proof.
  unfold older, waited. intros (a & Ha & [= <-])%res_bind_Ok. rewrite Ha. destruct a as [c|]; split; try lia; intros ? [=]; subst; lia.
Qed.
Lemma waited_le now c o o' : waited now c o → o ≤ o' → waited now c o'.
Proof. unfold waited. intros H ? x Hx%H. lia. Qed.
Lemma rq_add_disk a b : disk_mb (rq_add a b) = disk_mb a + disk_mb b.
Proof. done. Qed.

Section adding.
Context (request : PendingSandboxDemand → res SandboxPlacementRequest).
Context (R : PendingSandboxDemand → SandboxPlacementRequest → Prop).
Hypothesis request_R : ∀ p r, request p = Ok r → R p r.

Lemma add_row_one now a p b : add_row request now a p = Ok b → added R now [p] a b.
Proof.
  unfold add_row. destruct (is_capacity_demand p) eqn:Ec; cbn [negb].
  - intros (r & Hr%request_R & H)%res_bind_Ok.
    apply res_bind_Ok in H as (o & [Ho Hw]%older_Ok & [= <-]).
    split; unfold helpable; rewrite ?filter_cons_True, ?filter_cons_False by congruence; simpl; try lia; try done.
    + eexists. split; [done|]. constructor; [done|constructor].
    + split; [done|]. by intros q ->%list_elem_of_singleton.
  - intros [= <-].
    split; unfold helpable; rewrite ?filter_cons_False, ?filter_cons_True by congruence; simpl; try lia; try done.
    + exists []. split; [by rewrite app_nil_r|constructor].
    + split; [done|]. intros q ->%list_elem_of_singleton. congruence.
Qed.
Lemma added_trans now l k a b c : added R now l a b → added R now k b c → added R now (l ++ k) a c.
Proof.
  intros [(k1 & E1 & F1) C1 S1 D1 M1 P1 [O1 W1]] [(k2 & E2 & F2) C2 S2 D2 M2 P2 [O2 W2]].
  unfold helpable in *. split; unfold helpable; rewrite ?filter_app, ?length_app, ?fmap_app, ?zsum_app; try lia.
  - exists (k1 ++ k2). rewrite E2, E1, app_assoc. split; [done|]. by apply Forall2_app.
  - congruence.
  - split; [lia|]. intros p [Hp|Hp]%elem_of_app Hc; [|by apply W2]. eapply waited_le; [by apply W1|done].
Qed.
Lemma add_rows_all now l : ∀ a b, res_foldl (add_row request now) a l = Ok b → added R now l a b.
Proof.
  induction l as [|p l IH]; intros a b H; simpl in H.
  - injection H as <-. split; simpl; try lia; try done; [exists []; by rewrite app_nil_r|]. split; [done|]. by intros ? ?%elem_of_nil.
  - apply res_bind_Ok in H as (x & Hx%add_row_one & H). apply (added_trans now [p] l a x b Hx). by apply IH.
Qed.
End adding.
Lemma add_prepared_all now l : ∀ a b, res_foldl (add_prepared now) a l = Ok b →
  prepared_placement_requests b = prepared_placement_requests a ++ (reservation_request <$> l) ∧
  placement_requests b = placement_requests a ∧ pending_count b = pending_count a ∧
  suppressed_pending_count b = suppressed_pending_count a ∧ dm_pending_resources b = dm_pending_resources a ∧
  oldest_pending_seconds a ≤ oldest_pending_seconds b.
Proof.
  induction l as [|p l IH]; intros a b H; simpl in H.
  - injection H as <-. rewrite app_nil_r. by split_and!.
  - apply res_bind_Ok in H as (x & Hx & H). unfold add_prepared in Hx. apply res_bind_Ok in Hx as (r & Hr & Hx).
    apply res_bind_Ok in Hx as (o & [Ho _]%older_Ok & [= <-]). apply raise_if_Ok in Hr as [_ [= <-]].
    apply IH in H as (E1 & E2 & E3 & E4 & E5 & E6). simpl in *. csimpl. rewrite E1, <-app_assoc. split_and!; (done || lia).
Qed.

(** The demand reported for the unexpired rows [rows] and [held] *)
Record demand_of (R : PendingSandboxDemand → SandboxPlacementRequest → Prop) (now : Z)
    (rows : list PendingSandboxDemand) (held : list PreparedCapacityDemand) (dm : SandboxDemand) : Prop := {
  do_requests : Forall2 R (helpable rows) (placement_requests dm);
  do_reservations : prepared_placement_requests dm = reservation_request <$> held;
  do_count : pending_count dm = Z.of_nat (length (helpable rows));
  do_suppressed : pending_count dm + suppressed_pending_count dm = Z.of_nat (length rows);
  do_disk : disk_mb (dm_pending_resources dm) = zsum ((λ p, disk_mb (pd_resources p)) <$> helpable rows);
  do_memory : memory_mb (dm_pending_resources dm) = zsum ((λ p, memory_mb (pd_resources p)) <$> helpable rows);
  do_oldest : ∀ p, p ∈ helpable rows → waited now (pd_created_at p) (oldest_capacity_pending_seconds dm);
  do_oldest_le : 0 ≤ oldest_capacity_pending_seconds dm ≤ oldest_pending_seconds dm
}.

Lemma total_demand_spec request (R : PendingSandboxDemand → SandboxPlacementRequest → Prop) now rows held dm :
  (∀ p r, request p = Ok r → R p r) → total_demand request now rows held = Ok dm → demand_of R now rows held dm.
Proof.
  intros HR H. unfold total_demand in H.
  apply res_bind_Ok in H as (a & Ha & H). apply (add_rows_all request R HR) in Ha.
  apply res_bind_Ok in H as (b & Hb%add_prepared_all & [= <-]).
  destruct Ha as [(k & Ek & Fk) C S D M P [O W]], Hb as (E1 & E2 & E3 & E4 & E5 & E6). simpl in *.
  split; simpl; rewrite ?E1, ?E2, ?E3, ?E4, ?E5, ?Ek, ?P; try done; try lia.
  - rewrite C, S. pose proof (filter_bool_length is_capacity_demand rows). unfold helpable. lia.
  - intros p [Hc Hp]%list_elem_of_filter. eapply waited_le; [by apply W|lia].
Qed.
Lemma pending_request_for d p r : pending_request d p = Ok r → request_for d p r.
Proof. unfold pending_request. intros (ex & Hex & [= <-])%res_bind_Ok. done. Qed.
Lemma sandbox_demand_spec d now dm : signals_ok d → sandbox_demand d now = Ok dm →
  demand_of (request_for d) now (live_rows d now) (live_reservations d now) dm.
Proof.
  intros Hok H. unfold sandbox_demand in H. rewrite live_pending_ok, live_prepared_ok in H by done. cbn [res_bind] in H.
  revert H. apply total_demand_spec, pending_request_for.
Qed.

(** ** Claims about the demand *)

Lemma clock_range t : clock_ok t → MIN_US ≤ t ≤ MAX_US.
Proof. unfold clock_ok, PENDING_DEMAND_TTL_SECONDS. lia. Qed.
Lemma older_iso c now o : clock_ok c → ∃ o', older (iso c) now o = Ok o'.
Proof. intros Hc%clock_range. unfold older. rewrite parse_of_iso by done. simpl. eauto. Qed.
Lemma foldl_total {A B} (f : A → B → res A) l :
  (∀ a x, x ∈ l → ∃ b, f a x = Ok b) → ∀ a, ∃ b, res_foldl f a l = Ok b.
Proof.
  induction l as [|x l IH]; intros H a; simpl; [eauto|]. destruct (H a x) as [b Hb]; [set_solver|]. rewrite Hb.
  apply IH. intros. apply H. set_solver.
Qed.

(** Every stored route can be read *)
Definition routes_readable (d : db) : Prop := ∀ k row, sandboxes d !! k = Some row → route_init row = Ok row.

Lemma excluded_jobs_total d p : routes_readable d → ∃ l, excluded_jobs d p = Ok l.
Proof.
  intros Hr. unfold excluded_jobs. destruct (demand_sandbox _) as [s|]; [|eauto]. unfold get_sandbox_unlocked.
  destruct (sandboxes d !! s) as [row|] eqn:Es; [rewrite (Hr _ _ Es)|]; simpl; eauto.
Qed.
Lemma total_demand_total request now d rows held :
  signals_ok d → (∀ p, ∃ r, request p = Ok r) → (∀ p, p ∈ rows → ∃ k, pending d !! k = Some p) →
  (∀ p, p ∈ held → ∃ k, prepared_capacity d !! k = Some p) → ∃ dm, total_demand request now rows held = Ok dm.
Proof.
  intros Hok Hr Hp Hh. unfold total_demand.
  destruct (foldl_total (add_row request now) rows) with (a := mkDemand rq_zero rq_zero 0 0 0 0 [] []) as [a Ha].
  { intros a p [k Hk]%Hp. destruct (so_pending d Hok k p Hk) as (_ & _ & _ & _ & _ & c & Hc & Ec). unfold add_row.
    destruct (negb _); [eauto|]. destruct (Hr p) as [r ->]. cbn [res_bind]. rewrite Ec.
    destruct (older_iso c now (oldest_pending_seconds a) Hc) as [o ->]. simpl. eauto. }
  rewrite Ha. cbn [res_bind].
  destruct (foldl_total (add_prepared now) held) with (a := a) as [b Hb]; [|rewrite Hb; simpl; eauto].
  intros x p [k Hk]%Hh.
  destruct (so_prepared d Hok k p Hk) as (_ & Hn & _ & (c & Hc & Ec) & _). unfold add_prepared, placement_request_init.
  simpl. rewrite (proj2 (Z.leb_gt _ _)) by lia. simpl. rewrite Ec.
  destruct (older_iso c now (oldest_pending_seconds x) Hc) as [o ->]. simpl. eauto.
Qed.
Lemma sandbox_demand_total d now : signals_ok d → routes_readable d → ∃ dm, sandbox_demand d now = Ok dm.
Proof.
  intros Hok Hr. unfold sandbox_demand. rewrite live_pending_ok, live_prepared_ok by done. cbn [res_bind].
  apply (total_demand_total _ _ d); [done| | |].
  - intros p. unfold pending_request. destruct (excluded_jobs_total d p Hr) as [l ->]. simpl. unfold placement_request_init. simpl. eauto.
  - by intros p [_ H%map_values]%list_elem_of_filter.
  - by intros p [_ H%map_values]%list_elem_of_filter.
Qed.

(** The store always answers with the demand, and exactly the stored one: every
    unexpired pending sandbox that another worker can help counts once, as one
    placement request of its shape; one that waits for a wake excludes the worker it
    is parked on; image and registry failures are counted apart; and every unexpired
    reservation is requested with its full count.  The reported waiting time is an
    upper bound of every row's. *)
Theorem store_demand_exact d now : signals_ok d → routes_readable d →
  ∃ dm, sandbox_demand d now = Ok dm ∧
    demand_of (request_for d) now (live_rows d now) (live_reservations d now) dm ∧
    ∀ p r s row, request_for d p r → pd_sandbox_id p = wake_pending_demand_id s → sandboxes d !! s = Some row →
      sr_job_id row ≠ EmptyString → pr_excluded_job_ids r = [sr_job_id row].
Proof.
  intros Hok Hr. destruct (sandbox_demand_total d now Hok Hr) as [dm H]. exists dm. split; [done|].
  split; [by apply sandbox_demand_spec|]. intros p r s row (_ & _ & He) Hid Hs Hj. unfold excluded_jobs in He.
  rewrite Hid, demand_sandbox_wake in He. unfold get_sandbox_unlocked in He. rewrite Hs, (Hr _ _ Hs) in He.
  simpl in He. unfold nonempty in He. rewrite bool_decide_eq_false_2 in He by done. by injection He.
Qed.

(** ** Expiry by SQL and by Python *)

Section prune.
Context (julianday : string → option Q).
(** SQLite reads the text of an instant; its answer has millisecond precision. *)
Hypothesis julianday_iso : ∀ t, MIN_US ≤ t ≤ MAX_US → ∃ q, julianday (iso t) = Some q.
Hypothesis julianday_lt : ∀ s t p q, MIN_US ≤ s → s + 1000 ≤ t → t ≤ MAX_US →
  julianday (iso s) = Some p → julianday (iso t) = Some q → (p < q)%Q.

Lemma iso_nonempty t : nonempty (iso t) = true.
Proof. unfold iso, isoformat, iso_stamp. rewrite pad_digits. done. Qed.

Lemma signal_before_iso u created c : MIN_US ≤ u ≤ MAX_US → MIN_US ≤ c → c + 1000 ≤ u →
  signal_before julianday (iso u) created (iso c) = false.
Proof.
  intros Hu Hc H. unfold signal_before, str_or. rewrite iso_nonempty. cbn [andb]. rewrite iso_nonempty. cbn [andb].
  destruct (julianday_iso u Hu) as [q Hq]. destruct (julianday_iso c ltac:(lia)) as [p Hp]. rewrite Hq, Hp.
  apply not_true_iff_false. rewrite Qle_bool_iff. pose proof (julianday_lt c u p q Hc H ltac:(lia) Hp Hq) as Hlt.
  by apply Qlt_not_le.
Qed.

(** The deletions SQL makes on the text of timestamps agree with the expiry the
    code computes: pruning removes a reservation exactly when it has expired, and a
    pending sandbox at most one millisecond (SQLite's precision) before it expires.
    So the demand read after pruning has every reservation the store held. *)
Theorem prune_agrees d now d' : signals_ok d → clock_ok now → prune_expired julianday d now = Ok d' →
  (∀ k p, prepared_capacity d' !! k = Some p ↔
     prepared_capacity d !! k = Some p ∧ past (pc_expires_at p) now = Ok false) ∧
  (∀ p, p ∈ live_reservations d' now ↔ p ∈ live_reservations d now) ∧
  (∀ k p u, pending d !! k = Some p → pd_updated_at p = iso u → MIN_US ≤ u ≤ MAX_US →
     now + 1000 ≤ u + PENDING_DEMAND_TTL_SECONDS * 1000000 → pending d' !! k = Some p) ∧
  (∀ k p, pending d' !! k = Some p → pending d !! k = Some p).
Proof.
  intros Hok Hnow H. unfold prune_expired in H. apply res_bind_Ok in H as (c & [Ec Hc]%add_seconds_Ok & H).
  apply res_bind_Ok in H as (t & _ & [= <-]). cbn [prepared_capacity pending on_programs on_exec_losses on_losses on_warmups
    on_builders on_prepared on_image_builds on_pending].
  assert (∀ k p, prepared_capacity d !! k = Some p →
    unexpired (pc_expires_at p) now = true ↔ past (pc_expires_at p) now = Ok false) as Hexp.
  { intros k p Hk. destruct (so_prepared d Hok k p Hk) as (_ & _ & _ & _ & e & He & ->).
    apply clock_range in Hnow. rewrite unexpired_iso, past_iso by done. rewrite Z.ltb_antisym. destruct (e <=? now); naive_solver. }
  assert (∀ k p, filter (λ kp, unexpired (pc_expires_at kp.2) now = true) (prepared_capacity d) !! k = Some p ↔
    prepared_capacity d !! k = Some p ∧ past (pc_expires_at p) now = Ok false) as Hlook.
  { intros k p. rewrite map_lookup_filter_Some. simpl. split; intros [Hk Hp]; split; try done; by apply (Hexp k p). }
  split_and!; [exact Hlook| | |].
  - intros p. unfold live_reservations. rewrite !list_elem_of_filter, !map_values. cbn [prepared_capacity on_programs
      on_exec_losses on_losses on_warmups on_builders on_prepared on_image_builds on_pending].
    setoid_rewrite Hlook. naive_solver.
  - intros k p u Hk Eu Hu Hlive. apply map_lookup_filter_Some. split; [done|]. cbn [fst snd]. rewrite Eu.
    apply signal_before_iso; lia.
  - intros k p [Hk _]%map_lookup_filter_Some. done.
Qed.
End prune.

(** ** Consuming demand *)

Lemma consume_all rows : ∀ acc d out d', foldl consume_one (acc, d) rows = (out, d') →
  ∃ taken, out = acc ++ taken ∧ sublist taken rows ∧
  ∀ k row, pending d !! k = Some row → pending d' !! k = Some row ∨
    ∃ item, item ∈ taken ∧ pd_sandbox_id item = k ∧ pd_updated_at item = pd_updated_at row ∧ pd_attempts item = pd_attempts row.
Proof.
  induction rows as [|x rows IH]; intros acc d out d' H; simpl in H.
  - simplify_eq. exists []. rewrite app_nil_r. split_and!; [done|constructor|auto].
  - destruct (pending d !! pd_sandbox_id x) as [row|] eqn:Ex; [|apply IH in H as (t & -> & Ht & Hk); exists t; eauto using sublist_cons].
    destruct (_ && _) eqn:Eb; [|apply IH in H as (t & -> & Ht & Hk); exists t; eauto using sublist_cons].
    bools. apply IH in H as (t & -> & Ht & Hk). exists (x :: t). rewrite <-app_assoc. split_and!; [done|by constructor|].
    intros k r Hr. destruct (decide (k = pd_sandbox_id x)) as [->|Hne].
    + right. exists x. simplify_eq. split_and!; [set_solver|done|done|done].
    + destruct (Hk k r) as [?|(i & Hi & ?)]; [by cbn [on_pending pending]; rewrite lookup_delete_ne|by left|].
      right. exists i. split; [set_solver|done].
Qed.

(** Consuming demand never loses a demand that was refreshed meanwhile.  A
    pending row survives unless it has expired or the caller presented it exactly as
    it is stored, with its update time and attempt count; and only what was
    presented and deleted is reported as consumed. *)
Theorem consume_as_read d items now out d' :
  signals_ok d → consume_pending_demand d (Some items) now = Ok (out, d') →
  sublist out items ∧
  ∀ k row, pending d !! k = Some row → pending d' !! k = Some row ∨
    signal_expired (pd_updated_at row) (pd_created_at row) now = Ok true ∨
    ∃ item, item ∈ out ∧ pd_sandbox_id item = k ∧ pd_updated_at item = pd_updated_at row ∧ pd_attempts item = pd_attempts row.
Proof.
  intros Hok H. unfold consume_pending_demand in H. apply res_bind_Ok in H as ([rows d1] & Ha & H).
  unfold active_pending in Ha. apply res_bind_Ok in Ha as (ex & [_ ->]%res_filter_Ok & [= Hrows <-]).
  set (gone := pd_sandbox_id <$> _) in *.
  assert (∀ k row, pending d !! k = Some row → k ∉ gone ∨ signal_expired (pd_updated_at row) (pd_created_at row) now = Ok true) as Hg.
  { intros k row Hk. destruct (decide (k ∈ gone)) as [(p & -> & [He (q & -> & Hq)%list_elem_of_fmap]%list_elem_of_filter)%list_elem_of_fmap|]; [|auto].
    right. unfold rows_by_key in Hq. apply list_elem_of_fmap in Hq as ([k' q'] & -> & Hq).
    rewrite sorted_by_perm in Hq. apply elem_of_map_to_list in Hq. simpl in *.
    destruct (so_pending d Hok k' q' Hq) as (<- & _). simplify_eq. done. }
  destruct rows as [|p0 rows].
  - injection H as <- <-. split; [apply sublist_nil_l|]. intros k row Hk. destruct (Hg k row Hk) as [Hn|?]; [left|auto].
    cbn [on_pending pending]. by apply map_lookup_filter_Some.
  - injection H as H. apply consume_all in H as (t & -> & Ht & Hk). simpl. split; [done|]. intros k row Hr.
    destruct (Hg k row Hr) as [Hn|?]; [|auto]. destruct (Hk k row) as [?|?]; [|auto..].
    cbn [on_pending pending]. by apply map_lookup_filter_Some.
Qed.

(** ** A concrete store *)

(** A wake of sandbox "s" waits, and two creates are reserved for ten minutes. *)
Definition demo_now : Z := 63900000000000000.
Definition demo_shape : ResourceQuantity := mkRQ (of_int 1) 512 1024.
Definition demo_waiting : db :=
  match upsert_pending db_created (wake_pending_demand_id "s") demo_shape demo_now 1 EmptyString EmptyString EmptyString with
  | Ok d => d | Raise _ => empty_db end.
Definition demo_reserved : db :=
  db_of (upsert_prepared_capacity demo_waiting "p" demo_shape 2 600 EmptyString demo_now).
Definition demo_other : SandboxRouteAllocation :=
  mkAllocation "s2" "n" "j" "http://n" demo_shape [("id", JStr "s2")] "boot1" 0.
Definition demo_taken : db :=
  db_of3 (allocate_sandbox_create_with_pending demo_reserved demo_other demo_hash (Some "create-2") EmptyString "t2" demo_now).

(** SQLite's day number, in milliseconds *)
Definition demo_julianday (s : string) : option Q :=
  match parse_iso_datetime s with Ok (Some t) => Some (inject_Z (t / 1000)) | _ => None end.
Lemma demo_julianday_iso t : MIN_US ≤ t ≤ MAX_US → demo_julianday (iso t) = Some (inject_Z (t / 1000)).
Proof. intros H. unfold demo_julianday. by rewrite parse_of_iso. Qed.
Lemma demo_julianday_lt s t p q : MIN_US ≤ s → s + 1000 ≤ t → t ≤ MAX_US →
  demo_julianday (iso s) = Some p → demo_julianday (iso t) = Some q → (p < q)%Q.
Proof.
  intros ???. rewrite !demo_julianday_iso by lia. intros [= <-] [= <-]. rewrite <-Zlt_Qlt.
  Z.to_euclidean_division_equations. lia.
Qed.

Lemma demo_clock : clock_ok demo_now.
Proof. split; by vm_compute. Qed.
Lemma demo_waiting_ok : signals_ok demo_waiting.
Proof.
  apply (signal_step_ok demo_julianday db_created).
  { eapply (sg_pending _ _ _ (wake_pending_demand_id "s") demo_shape demo_now 1 EmptyString EmptyString EmptyString);
      [exact demo_clock|]. vm_compute. reflexivity. }
  apply (signal_step_ok demo_julianday empty_db); [|by split].
  eapply (sg_create _ _ _ demo_allocation demo_hash (Some "create-1") EmptyString "t1" 1). vm_compute. reflexivity.
Qed.
Lemma demo_reserved_ok : signals_ok demo_reserved.
Proof.
  apply (signal_step_ok demo_julianday demo_waiting); [|exact demo_waiting_ok].
  eapply (sg_prepared _ _ _ "p" demo_shape 2 600 EmptyString demo_now); [exact demo_clock|]. vm_compute. reflexivity.
Qed.
Lemma demo_reserved_readable : routes_readable demo_reserved.
Proof.
  intros k row. assert (sandboxes demo_reserved = {["s" := row_of db_created "s"]}) as -> by (by vm_compute).
  intros [<- <-]%lookup_singleton_Some. by vm_compute.
Qed.

Lemma create_takes_one_reservation_witness :
  reserved demo_reserved = 2 ∧ reserved demo_taken = 1 ∧ ∃ r o, claim_outcome r demo_now demo_reserved o demo_taken.
Proof.
  split; [by vm_compute|]. split; [by vm_compute|].
  destruct (allocate_sandbox_create_with_pending demo_reserved demo_other demo_hash (Some "create-2") EmptyString "t2" demo_now)
    as [[[r p] d']|e] eqn:E; [|by vm_compute in E].
  destruct (create_takes_one_reservation demo_reserved demo_other demo_hash (Some "create-2") EmptyString "t2" demo_now r p d'
    demo_reserved_ok E) as [_ H].
  assert (demo_taken = d') as -> by (unfold demo_taken, db_of3; by rewrite E).
  assert (sandboxes demo_reserved !! al_sandbox_id demo_other = None) as Hn by (by vm_compute). rewrite Hn in H.
  destruct H as [_ [o Ho]]. exists r, o. exact Ho.
Defined.

Lemma store_demand_exact_witness : ∃ dm, sandbox_demand demo_reserved demo_now = Ok dm ∧ pending_count dm = 1 ∧
  demand_of (request_for demo_reserved) demo_now (live_rows demo_reserved demo_now) (live_reservations demo_reserved demo_now) dm.
Proof.
  destruct (store_demand_exact demo_reserved demo_now demo_reserved_ok demo_reserved_readable) as (dm & H & Hd & _).
  exists dm. split; [exact H|]. split; [|exact Hd]. rewrite (do_count _ _ _ _ _ Hd). by vm_compute.
Defined.

Lemma prune_agrees_witness : ∃ d', prune_expired demo_julianday demo_reserved (demo_now + 1000000) = Ok d' ∧
  pending d' !! wake_pending_demand_id "s" = pending demo_reserved !! wake_pending_demand_id "s" ∧
  ∀ p, p ∈ live_reservations d' (demo_now + 1000000) ↔ p ∈ live_reservations demo_reserved (demo_now + 1000000).
Proof.
  destruct (prune_expired demo_julianday demo_reserved (demo_now + 1000000)) as [d'|e] eqn:E; [|by vm_compute in E].
  exists d'. split; [done|].
  destruct (prune_agrees demo_julianday (λ t H, ex_intro _ _ (demo_julianday_iso t H)) demo_julianday_lt
    demo_reserved (demo_now + 1000000) d' demo_reserved_ok ltac:(split; by vm_compute) E) as (_ & Hl & Hk & _).
  split; [|exact Hl]. destruct (pending demo_reserved !! wake_pending_demand_id "s") as [p|] eqn:Ep; [|by vm_compute in Ep].
  apply (Hk _ p demo_now); [exact Ep| |split; by vm_compute|by vm_compute].
  vm_compute in Ep. injection Ep as <-. by vm_compute.
Defined.

(** The wake's demand, presented before another attempt refreshed it, is kept. *)
Definition demo_refreshed : db :=
  match upsert_pending demo_waiting (wake_pending_demand_id "s") demo_shape (demo_now + 5000000) 1 EmptyString EmptyString EmptyString with
  | Ok d => d | Raise _ => empty_db end.
Lemma demo_refreshed_ok : signals_ok demo_refreshed.
Proof.
  apply (signal_step_ok demo_julianday demo_waiting); [|exact demo_waiting_ok].
  eapply (sg_pending _ _ _ (wake_pending_demand_id "s") demo_shape (demo_now + 5000000) 1 EmptyString EmptyString EmptyString);
    [split; by vm_compute|]. vm_compute. reflexivity.
Qed.
Lemma consume_as_read_witness :
  match consume_pending_demand demo_refreshed (Some (map_to_list (pending demo_waiting)).*2) (demo_now + 6000000) with
  | Ok (out, d') => out = [] ∧ pending d' !! wake_pending_demand_id "s" = pending demo_refreshed !! wake_pending_demand_id "s"
  | Raise _ => False
  end.
Proof.
  destruct (consume_pending_demand demo_refreshed (Some (map_to_list (pending demo_waiting)).*2) (demo_now + 6000000))
    as [[out d']|e] eqn:E; [|vm_compute in E; discriminate E].
  destruct (consume_as_read demo_refreshed _ (demo_now + 6000000) out d' demo_refreshed_ok E) as [_ H].
  assert (out = []) as -> by (vm_compute in E; injection E as <- _; reflexivity). clear E. split; [reflexivity|].
  destruct (pending demo_refreshed !! wake_pending_demand_id "s") as [p|] eqn:Ep; [|vm_compute in Ep; discriminate Ep].
  destruct (H _ p Ep) as [Hp|[Hx|(i & Hi & _)]]; [exact Hp| |apply elem_of_nil in Hi; destruct Hi].
  vm_compute in Ep. injection Ep as <-. vm_compute in Hx. discriminate Hx.
Defined.
