(* ===== verification/RoutingSnapshot.v ===== *)
(** * The autoscaler's snapshot of the routing store (ucloud_sandboxes/routing.py)

    [load] prunes expired signals and reads every table in one transaction; the
    autoscaler computes its demand from that snapshot, not with the query the
    gateway uses, so the two have to agree. *)
From S2P Require Import Prelude PyFloat Json PyString Resources Bytes PyTime ManagedProcess.
From S2P Require Import PlacementAccounting ScaleModels Routes RouteStore Programs Demands.
From stdpp Require Import gmap strings.
From Stdlib Require Import QArith.
Local Close Scope Q_scope.
Local Open Scope py_scope.
Local Open Scope Z_scope.

(** The dicts are keyed by the rows' primary keys, in their order. *)
Record RoutingState := mkRoutingState {
  rs_sandboxes : dict string SandboxRoute;
  rs_exec_sessions : dict string ExecRoute;
  rs_pending : dict string PendingSandboxDemand;
  rs_image_builds : dict string PendingImageBuildDemand;
  rs_prepared : dict string PreparedCapacityDemand;
  rs_prepared_builders : dict string PreparedBuilderDemand;
  rs_image_warmups : dict string PendingImageWarmup
}.

Definition keyed {A} (key : A → string) (rows : list A) : dict string A := (λ r, (key r, r)) <$> rows.

Definition load_unlocked (d : db) (include_exec_sessions : bool) : res RoutingState :=
  let! routes := res_map route_init (rows_by_key (sandboxes d)) in
  let! prepared := res_map prepared_init (rows_by_key (prepared_capacity d)) in
  Ok (mkRoutingState (keyed sr_sandbox_id routes)
    (if include_exec_sessions then keyed er_session_id (rows_by_key (exec_sessions d)) else [])
    (keyed pd_sandbox_id (pending_from_row <$> rows_by_key (pending d)))
    (keyed ib_image_id (image_build_from_row <$> rows_by_key (image_builds d)))
    (keyed pc_prepare_id prepared)
    (keyed bd_prepare_id (builder_from_row <$> rows_by_key (prepared_builders d)))
    (keyed wu_warmup_id (warmup_from_row <$> rows_by_key (image_warmups d)))).

Definition load (julianday : string → option Q) (d : db) (include_exec_sessions : bool) (now : Z) :
    res (RoutingState * db) :=
  let! d := prune_expired julianday d now in
  let! st := load_unlocked d include_exec_sessions in
  Ok (st, d).

(** The request of one pending item *)
Definition state_request (st : RoutingState) (p : PendingSandboxDemand) : res SandboxPlacementRequest :=
  let route id := dget (rs_sandboxes st) id in
  let excluded := match demand_sandbox (pd_sandbox_id p) with
                  | None => []
                  | Some id => match route id with
                               | Some r => if nonempty (sr_job_id r) then [sr_job_id r] else []
                               | None => []
                               end
                  end in
  let owner := route (default (pd_sandbox_id p) (demand_sandbox (pd_sandbox_id p))) in
  placement_request_init (mkPR (pd_resources p) 1 excluded
    (match owner with Some r => spec_image (sr_spec r) | None => EmptyString end)).

(** A loop that skips the items its test drops *)
Definition unless_expired {A S} (expired : A → res bool) (step : S → A → res S) (acc : S) (x : A) : res S :=
  let! e := expired x in
  if e : bool then Ok acc else step acc x.

Definition sandbox_demand_from_routing_state (st : RoutingState) (now : Z) : res SandboxDemand :=
  let! acc := res_foldl (unless_expired (λ p, signal_expired (pd_updated_at p) (pd_created_at p) now)
                           (add_row (state_request st) now)) (mkDemand rq_zero rq_zero 0 0 0 0 [] []) (rs_pending st).*2 in
  let oldest_capacity := Z.max 0 (oldest_pending_seconds acc) in
  let! acc := res_foldl (unless_expired (λ p, past (pc_expires_at p) now) (add_prepared now)) acc (rs_prepared st).*2 in
  Ok (mkDemand (dm_pending_resources acc) (suppressed_pending_resources acc) (pending_count acc)
        (suppressed_pending_count acc) (Z.max 0 (oldest_pending_seconds acc)) oldest_capacity
        (placement_requests acc) (prepared_placement_requests acc)).

(** ** Skipping is filtering *)

Lemma unless_expired_fold {A S} (expired : A → res bool) (step : S → A → res S) l :
  (∀ x, x ∈ l → ∃ b, expired x = Ok b) → ∀ acc,
  res_foldl (unless_expired expired step) acc l = res_foldl step acc (filter (λ x, expired x = Ok false) l).
Proof.
  induction l as [|x l IH]; intros H acc; [done|]. destruct (H x) as [b Hb]; [left|].
  assert (∀ y, y ∈ l → ∃ b, expired y = Ok b) as H' by (intros; apply H; by right).
  destruct b.
  - rewrite filter_cons_False by congruence. cbn [res_foldl]. unfold unless_expired at 1. rewrite Hb. cbn [res_bind]. by apply IH.
  - rewrite filter_cons_True by done. cbn [res_foldl]. unfold unless_expired at 1. rewrite Hb. cbn [res_bind].
    destruct (step acc x); cbn [res_bind]; [by apply IH|done].
Qed.

(** ** What the snapshot holds *)

(** Every route is filed under its id and can be read *)
Definition routes_filed (d : db) : Prop :=
  ∀ k row, sandboxes d !! k = Some row → sr_sandbox_id row = k ∧ route_init row = Ok row.

Lemma rows_by_key_perm {A} (m : gmap string A) : rows_by_key m ≡ₚ (map_to_list m).*2.
Proof. unfold rows_by_key. by rewrite sorted_by_perm. Qed.
Lemma rows_by_key_elem {A} (m : gmap string A) x : x ∈ rows_by_key m ↔ ∃ k, m !! k = Some x.
Proof. rewrite rows_by_key_perm. apply map_values. Qed.
Lemma keyed_values {A} (key : A → string) rows : (keyed key rows).*2 = rows.
Proof. unfold keyed. rewrite <-list_fmap_compose. by rewrite (list_fmap_ext _ id), list_fmap_id. Qed.
Lemma keyed_get {A} (key : A → string) (m : gmap string A) k :
  (∀ k x, m !! k = Some x → key x = k) → dget (keyed key (rows_by_key m)) k = m !! k.
Proof.
  intros Hk. assert (dkeys (keyed key (rows_by_key m)) = key <$> rows_by_key m) as Ek.
  { unfold dkeys, keyed. by rewrite <-list_fmap_compose. }
  destruct (m !! k) as [x|] eqn:E.
  - apply dget_Some_2.
    + rewrite Ek, rows_by_key_perm, <-list_fmap_compose.
      rewrite (list_fmap_ext _ fst); [apply NoDup_fst_map_to_list|].
      intros i [k' y] Hi%list_elem_of_lookup_2%elem_of_map_to_list. by apply Hk.
    + unfold keyed. apply list_elem_of_fmap. exists x. rewrite (Hk _ _ E). split; [done|]. apply rows_by_key_elem. by exists k.
  - apply dget_None. rewrite Ek. intros (x & -> & [k' Hx]%rows_by_key_elem)%list_elem_of_fmap.
    rewrite (Hk _ _ Hx) in E. congruence.
Qed.
Lemma res_map_id {A} (f : A → res A) l : (∀ x, x ∈ l → f x = Ok x) → res_map f l = Ok l.
Proof.
  intros H. apply res_map_Ok, Forall2_same_length_lookup_2; [done|]. intros i x y Hx Hy. simplify_eq.
  by eapply H, list_elem_of_lookup_2.
Qed.

(** The snapshot's tables are the store's *)
Record snapshot_of (d : db) (st : RoutingState) : Prop := {
  sn_routes : ∀ id, dget (rs_sandboxes st) id = sandboxes d !! id;
  sn_pending : (rs_pending st).*2 = rows_by_key (pending d);
  sn_prepared : (rs_prepared st).*2 = rows_by_key (prepared_capacity d)
}.
Lemma load_unlocked_spec d include : routes_filed d → signals_ok d →
  ∃ st, load_unlocked d include = Ok st ∧ snapshot_of d st.
Proof.
  intros Hf [H1 H2]. unfold load_unlocked.
  rewrite (res_map_id route_init) by (intros r [k Hk]%rows_by_key_elem; by apply Hf in Hk as [_ ?]). cbn [res_bind].
  rewrite (res_map_id prepared_init) by (intros p [k Hk]%rows_by_key_elem; apply prepared_init_Ok; by apply H2 in Hk as (_ & ? & _)).
  cbn [res_bind]. eexists. split; [done|]. split; cbn [rs_sandboxes rs_pending rs_prepared].
  - intros id. apply keyed_get. intros k x Hx. by apply Hf in Hx as [? _].
  - rewrite keyed_values. transitivity (id <$> rows_by_key (pending d)); [|apply list_fmap_id]. apply list_fmap_ext.
    intros i p [k Hk]%list_elem_of_lookup_2%rows_by_key_elem. apply H1 in Hk as (_ & ? & ? & _). by apply pending_row_same.
  - apply keyed_values.
Qed.

(** ** Both readers see the same demand *)

Lemma state_request_for d st p r : routes_filed d → snapshot_of d st → state_request st p = Ok r → request_for d p r.
Proof.
  intros Hf Hst. unfold state_request. intros [_ [= <-]]%raise_if_Ok. split_and!; [done..|]. simpl.
  unfold excluded_jobs. destruct (demand_sandbox _) as [id|]; [|done]. unfold get_sandbox_unlocked.
  rewrite (sn_routes _ _ Hst). destruct (sandboxes d !! id) as [row|] eqn:E; [|done]. apply Hf in E as [_ ->]. done.
Qed.

(** The unexpired rows in the order of their keys *)
Definition ordered_rows (d : db) (now : Z) : list PendingSandboxDemand :=
  filter (λ p, signal_expired (pd_updated_at p) (pd_created_at p) now = Ok false) (rows_by_key (pending d)).
Definition ordered_reservations (d : db) (now : Z) : list PreparedCapacityDemand :=
  filter (λ p, past (pc_expires_at p) now = Ok false) (rows_by_key (prepared_capacity d)).

Lemma state_demand_total d st now : routes_filed d → signals_ok d → snapshot_of d st →
  sandbox_demand_from_routing_state st now
    = total_demand (state_request st) now (ordered_rows d now) (ordered_reservations d now).
Proof.
  intros Hf Hok Hst. unfold sandbox_demand_from_routing_state, total_demand.
  rewrite (sn_pending _ _ Hst), (sn_prepared _ _ Hst), unless_expired_fold.
  - destruct (res_foldl _ _ _); cbn [res_bind]; [|done]. rewrite unless_expired_fold; [done|].
    intros p [k Hk]%rows_by_key_elem. destruct (so_prepared d Hok k p Hk) as (_ & _ & _ & _ & e & He & ->).
    rewrite past_iso by done. eauto.
  - intros p [k Hk]%rows_by_key_elem. destruct (so_pending d Hok k p Hk) as (_ & _ & _ & _ & (u & Hu & ->) & _).
    rewrite signal_expired_iso by done. eauto.
Qed.
Lemma state_demand_spec d st now : routes_filed d → signals_ok d → snapshot_of d st →
  ∃ dm, sandbox_demand_from_routing_state st now = Ok dm ∧
    demand_of (request_for d) now (ordered_rows d now) (ordered_reservations d now) dm.
Proof.
  intros Hf Hok Hst. rewrite (state_demand_total d) by done.
  destruct (total_demand_total (state_request st) now d (ordered_rows d now) (ordered_reservations d now)) as [dm H].
  - done.
  - intros p. unfold state_request, placement_request_init. simpl. eauto.
  - by intros p [_ ?%rows_by_key_elem]%list_elem_of_filter.
  - by intros p [_ ?%rows_by_key_elem]%list_elem_of_filter.
  - exists dm. split; [done|]. revert H. apply total_demand_spec. intros p r. by apply state_request_for.
Qed.

(** A request without its image, which only the snapshot's reader fills in *)
Definition anonymous (r : SandboxPlacementRequest) : SandboxPlacementRequest :=
  mkPR (pr_resources r) (pr_count r) (pr_excluded_job_ids r) EmptyString.
Lemma requests_anonymous d l k : Forall2 (request_for d) l k →
  anonymous <$> k = (λ p, mkPR (pd_resources p) 1 (match excluded_jobs d p with Ok e => e | Raise _ => [] end) EmptyString) <$> l.
Proof.
  induction 1 as [|p r l k (E1 & E2 & E3) _ IH]; csimpl; [done|]. rewrite IH. unfold anonymous. by rewrite E1, E2, E3.
Qed.

(** ** Sums and ages of the rows *)

(** [sum(...)] of quantities from zero, in the order of the list *)
Definition rq_sum (l : list ResourceQuantity) : ResourceQuantity := foldl rq_add rq_zero l.
(** The rows no other worker can help *)
Definition refused (l : list PendingSandboxDemand) : list PendingSandboxDemand :=
  filter (λ p, is_capacity_demand p = false) l.
(** Whole seconds since a stored time; an unreadable one counts for nothing *)
Definition age (now : Z) (created_at : string) : Z :=
  match parse_iso_datetime created_at with Ok (Some c) => Z.quot (now - c) 1000000 | _ => 0 end.
Definition oldest (now : Z) (l : list string) : Z := foldr Z.max 0 (age now <$> l).

#[local] Instance oldest_proper now : Proper ((≡ₚ) ==> (=)) (oldest now).
Proof. unfold oldest. intros l k H. induction H; csimpl; lia. Qed.
Lemma oldest_nonneg now l : 0 ≤ oldest now l.
Proof. unfold oldest. induction l; csimpl; lia. Qed.
Lemma older_age c now o o' : 0 ≤ o → older c now o = Ok o' → o' = Z.max o (age now c).
Proof. unfold older, age. intros Ho (x & -> & [= <-])%res_bind_Ok. destruct x; lia. Qed.

Lemma rq_sums l : ∀ a, disk_mb (foldl rq_add a l) = disk_mb a + zsum (disk_mb <$> l) ∧
  memory_mb (foldl rq_add a l) = memory_mb a + zsum (memory_mb <$> l).
Proof.
  induction l as [|q l IH]; intros a; csimpl; [lia|]. destruct (IH (rq_add a q)) as [-> ->]. simpl. lia.
Qed.
Lemma rq_sum_perm l k : l ≡ₚ k → disk_mb (rq_sum l) = disk_mb (rq_sum k) ∧ memory_mb (rq_sum l) = memory_mb (rq_sum k).
Proof. intros E. unfold rq_sum. destruct (rq_sums l rq_zero) as [-> ->], (rq_sums k rq_zero) as [-> ->]. by rewrite E. Qed.

Lemma add_rows_fields request now l : ∀ a b, 0 ≤ oldest_pending_seconds a → res_foldl (add_row request now) a l = Ok b →
  dm_pending_resources b = foldl rq_add (dm_pending_resources a) (pd_resources <$> helpable l) ∧
  suppressed_pending_resources b = foldl rq_add (suppressed_pending_resources a) (pd_resources <$> refused l) ∧
  oldest_pending_seconds b = Z.max (oldest_pending_seconds a) (oldest now (pd_created_at <$> helpable l)).
Proof.
  unfold helpable, refused, oldest. induction l as [|p l IH]; intros a b Ha H; simpl in H.
  { injection H as <-. split_and!; [done|done|]. simpl. lia. }
  apply res_bind_Ok in H as (x & Hx & H). unfold add_row in Hx. destruct (is_capacity_demand p) eqn:E; cbn [negb] in Hx.
  - rewrite filter_cons_True, filter_cons_False by congruence. apply res_bind_Ok in Hx as (r & _ & Hx).
    apply res_bind_Ok in Hx as (o & Ho%older_age & [= <-]); [|done].
    apply IH in H as (-> & -> & ->); [|simpl; lia]. csimpl. split_and!; [done|done|]. lia.
  - rewrite filter_cons_False, filter_cons_True by congruence. injection Hx as <-. by apply IH in H.
Qed.
Lemma add_prepared_fields now l : ∀ a b, 0 ≤ oldest_pending_seconds a → res_foldl (add_prepared now) a l = Ok b →
  dm_pending_resources b = dm_pending_resources a ∧ suppressed_pending_resources b = suppressed_pending_resources a ∧
  oldest_pending_seconds b = Z.max (oldest_pending_seconds a) (oldest now (pc_created_at <$> l)).
Proof.
  unfold oldest. induction l as [|p l IH]; intros a b Ha H; simpl in H.
  { injection H as <-. split_and!; [done|done|]. simpl. lia. }
  apply res_bind_Ok in H as (x & Hx & H). unfold add_prepared in Hx. apply res_bind_Ok in Hx as (r & _ & Hx).
  apply res_bind_Ok in Hx as (o & Ho%older_age & [= <-]); [|done].
  apply IH in H as (-> & -> & ->); [|simpl; lia]. csimpl. split_and!; [done|done|]. lia.
Qed.

(** Every field of the demand but its request lists, from the rows it is for *)
Lemma total_demand_fields request now rows held dm : total_demand request now rows held = Ok dm →
  dm_pending_resources dm = rq_sum (pd_resources <$> helpable rows) ∧
  suppressed_pending_resources dm = rq_sum (pd_resources <$> refused rows) ∧
  oldest_capacity_pending_seconds dm = oldest now (pd_created_at <$> helpable rows) ∧
  oldest_pending_seconds dm = Z.max (oldest now (pd_created_at <$> helpable rows)) (oldest now (pc_created_at <$> held)).
Proof.
  unfold total_demand. intros (a & Ha & H)%res_bind_Ok. apply res_bind_Ok in H as (b & Hb & [= <-]).
  apply add_rows_fields in Ha as (E1 & E2 & E3); [|done]. simpl in *. pose proof (oldest_nonneg now (pd_created_at <$> helpable rows)).
  apply add_prepared_fields in Hb as (F1 & F2 & F3); [|lia]. simpl in *. unfold rq_sum.
  split_and!; [congruence|congruence|lia|lia].
Qed.
Lemma requests_resources d l k : Forall2 (request_for d) l k → pr_resources <$> k = pd_resources <$> l.
Proof. induction 1 as [|p r l k (E & _) _ IH]; csimpl; congruence. Qed.

(** Two demands for the same rows, read in two orders *)
Record same_demand (rows rows' : list PendingSandboxDemand) (dm dm' : SandboxDemand) : Prop := {
  sm_requests : anonymous <$> placement_requests dm ≡ₚ anonymous <$> placement_requests dm';
  sm_reservations : prepared_placement_requests dm ≡ₚ prepared_placement_requests dm';
  sm_count : pending_count dm = pending_count dm';
  sm_suppressed_count : suppressed_pending_count dm = suppressed_pending_count dm';
  sm_oldest : oldest_pending_seconds dm = oldest_pending_seconds dm';
  sm_oldest_capacity : oldest_capacity_pending_seconds dm = oldest_capacity_pending_seconds dm';
  sm_disk : disk_mb (dm_pending_resources dm) = disk_mb (dm_pending_resources dm');
  sm_memory : memory_mb (dm_pending_resources dm) = memory_mb (dm_pending_resources dm');
  sm_suppressed_disk : disk_mb (suppressed_pending_resources dm) = disk_mb (suppressed_pending_resources dm');
  sm_suppressed_memory : memory_mb (suppressed_pending_resources dm) = memory_mb (suppressed_pending_resources dm');
  sm_sum : dm_pending_resources dm = rq_sum (pr_resources <$> placement_requests dm);
  sm_sum' : dm_pending_resources dm' = rq_sum (pr_resources <$> placement_requests dm');
  sm_rows : refused rows ≡ₚ refused rows';
  sm_suppressed_sum : suppressed_pending_resources dm = rq_sum (pd_resources <$> refused rows);
  sm_suppressed_sum' : suppressed_pending_resources dm' = rq_sum (pd_resources <$> refused rows')
}.

Lemma total_demands_same request request' d now rows rows' held held' dm dm' :
  (∀ p r, request p = Ok r → request_for d p r) → (∀ p r, request' p = Ok r → request_for d p r) →
  rows ≡ₚ rows' → held ≡ₚ held' →
  total_demand request now rows held = Ok dm → total_demand request' now rows' held' = Ok dm' →
  same_demand rows rows' dm dm'.
Proof.
  intros HR HR' Ep Eh Hd Hd'.
  assert (helpable rows ≡ₚ helpable rows') as El by (unfold helpable; by rewrite Ep).
  assert (refused rows ≡ₚ refused rows') as Er by (unfold refused; by rewrite Ep).
  destruct (total_demand_fields _ _ _ _ _ Hd) as (P & S & O & A), (total_demand_fields _ _ _ _ _ Hd') as (P' & S' & O' & A').
  apply (total_demand_spec _ (request_for d)) in Hd; [|done]. apply (total_demand_spec _ (request_for d)) in Hd'; [|done].
  pose proof (do_requests _ _ _ _ _ Hd) as Q. pose proof (do_requests _ _ _ _ _ Hd') as Q'.
  pose proof (do_count _ _ _ _ _ Hd) as C. pose proof (do_count _ _ _ _ _ Hd') as C'.
  destruct (rq_sum_perm (pd_resources <$> helpable rows) (pd_resources <$> helpable rows')) as [D M]; [by rewrite El|].
  destruct (rq_sum_perm (pd_resources <$> refused rows) (pd_resources <$> refused rows')) as [D' M']; [by rewrite Er|].
  split; try congruence; try done.
  - rewrite (requests_anonymous _ _ _ Q), (requests_anonymous _ _ _ Q'). by rewrite El.
  - rewrite (do_reservations _ _ _ _ _ Hd), (do_reservations _ _ _ _ _ Hd'). by rewrite Eh.
  - rewrite C, C'. by rewrite El.
  - pose proof (do_suppressed _ _ _ _ _ Hd). pose proof (do_suppressed _ _ _ _ _ Hd').
    pose proof (Permutation_length Ep). pose proof (Permutation_length El). lia.
  - rewrite A, A'. by rewrite El, Eh.
  - rewrite O, O'. by rewrite El.
  - by rewrite P, (requests_resources _ _ _ Q).
  - by rewrite P', (requests_resources _ _ _ Q').
Qed.

(** C13. The two readers of the demand agree.  The autoscaler loads a snapshot and
    sums the demand from it; the gateway asks the store.  On the same store both
    always answer, and agree on every field: the same placement requests, in some
    order and apart from the image that only the snapshot adds, the same reservations,
    both counts, both waiting times, and the disk and memory of both totals.  The CPU
    totals are sums of floats, so they can differ by rounding, and only by that: each
    total is the sum of the quantities of the requests (for the suppressed one, of the
    suppressed rows), which are the same up to their order, added in the reader's own
    order. *)
Theorem demand_readers_agree d include now : routes_filed d → signals_ok d →
  ∃ st dm dm', load_unlocked d include = Ok st ∧ sandbox_demand_from_routing_state st now = Ok dm ∧
    sandbox_demand d now = Ok dm' ∧ same_demand (ordered_rows d now) (live_rows d now) dm dm'.
Proof.
  intros Hf Hok. destruct (load_unlocked_spec d include Hf Hok) as (st & Hl & Hst).
  destruct (state_demand_spec d st now Hf Hok Hst) as (dm & Hd & _).
  destruct (sandbox_demand_total d now Hok) as [dm' Hd']; [by intros k row [_ ?]%Hf|].
  exists st, dm, dm'. split_and!; [done..|]. rewrite (state_demand_total d) in Hd by done.
  unfold sandbox_demand in Hd'. rewrite live_pending_ok, live_prepared_ok in Hd' by done. cbn [res_bind] in Hd'.
  eapply (total_demands_same (state_request st) (pending_request d) d); [| | | |exact Hd|exact Hd'].
  - intros p r. by apply state_request_for.
  - apply pending_request_for.
  - unfold ordered_rows, live_rows. by rewrite rows_by_key_perm.
  - unfold ordered_reservations, live_reservations. by rewrite rows_by_key_perm.
Qed.

Lemma demo_reserved_filed : routes_filed demo_reserved.
Proof.
  intros k row. assert (sandboxes demo_reserved = {["s" := row_of db_created "s"]}) as -> by (by vm_compute).
  intros [<- <-]%lookup_singleton_Some. split; by vm_compute.
Qed.
Lemma demand_readers_agree_witness :
  ∃ st dm, load_unlocked demo_reserved false = Ok st ∧ sandbox_demand_from_routing_state st demo_now = Ok dm ∧
    pending_count dm = 1.
Proof.
  destruct (demand_readers_agree demo_reserved false demo_now demo_reserved_filed demo_reserved_ok)
    as (st & dm & dm' & Hl & Hd & Hd' & Hs).
  exists st, dm. split; [exact Hl|]. split; [exact Hd|]. rewrite (sm_count _ _ _ _ Hs). vm_compute in Hd'. injection Hd' as <-. reflexivity.
Defined.
