(* ===== verification/RouteRecovery.v ===== *)
(** * Owner loss and inventory reconciliation (ucloud_sandboxes/routing.py)

    The transactions that settle many routes at once: a retired boot, terminated
    jobs, stale owners, and a worker's inventory.  [parse] stands for
    [StorageNativeMigration.from_dict] and [publication] for [StorageSnapshotPublication.from_dict] and its [to_dict]. *)
From S2P Require Import Prelude PyFloat Json PyString Resources Bytes PyTime PlacementAccounting Routes RouteStore.
From stdpp Require Import gmap strings.
Local Open Scope py_scope.
Local Open Scope Z_scope.

(** [SELECT * FROM sandboxes WHERE ... ORDER BY sandbox_id] *)
Definition select_sandboxes (P : SandboxRoute → bool) (d : db) : list SandboxRoute :=
  sorted_by (λ a b, string_leb (sr_sandbox_id a) (sr_sandbox_id b))
    (filter (λ r, P r = true) (map_to_list (sandboxes d)).*2).

Definition REBOOTED_LOSS_REASON : string := "rebooted".

Abbreviation incarnation := (string * Z * string * string)%type.

(** One row of [retire_node_epochs]; the lists are (lost, pending deletes). *)
Definition retire_row (retired : list string) (parked : list incarnation) (node_epoch : string)
    (activity_epoch : Z) (observed_at now : string)
    (acc : list SandboxRoute * list SandboxRoute * db) (row : SandboxRoute) :
    res (list SandboxRoute * list SandboxRoute * db) :=
  let '(lost, deletes, d) := acc in
  let! route := route_init row in
  if negb (bool_decide (sr_node_epoch route ∈ retired)) then Ok (lost, deletes, d)
  else
    let disposition := sandbox_owner_loss_disposition route in
    let settle d := delete_execs (sr_sandbox_id route) (record_exec_losses route now d) in
    let key := (sr_sandbox_id route, sr_generation route, sr_create_operation_id route, sr_spec_hash route) in
    match disposition with
    | TERMINAL_DELETE => Ok (lost, deletes ++ [route], settle d)
    | _ =>
        if bool_decide (sr_worker_state route = "attached") && bool_decide (key ∈ parked) then
          let! adopted := route_init (with_epoch (with_state route "parked" observed_at) node_epoch
                                        (Z.max 0 activity_epoch)) in
          Ok (lost, deletes, settle (write_sandbox adopted d))
        else
          match disposition with
          | RECOVER_DETACHED =>
              let! '(_, d) := detach_owner_lost_route route observed_at now d in
              Ok (lost, deletes, d)
          | _ =>
              let '(removed, d) := delete_sandbox_route route "node_lost" REBOOTED_LOSS_REASON now d in
              Ok (if removed then lost ++ [route] else lost, deletes, d)
          end
    end.

(** [retire_node_epochs]; [inventory] is [None] when incomplete. *)
Definition retire_node_epochs (d : db) (job_id : string) (retired_node_epochs : list string)
    (node_epoch : string) (activity_epoch : Z) (inventory : option (list SandboxInventoryEntry))
    (observed_at now : string) : res (list SandboxRoute * list SandboxRoute * db) :=
  let retired := filter (λ e, e ≠ EmptyString ∧ e ≠ node_epoch) retired_node_epochs in
  if negb (nonempty job_id) || negb (nonempty node_epoch) || bool_decide (retired = []) then Ok ([], [], d)
  else
    let parked :=
      (λ i, (inv_sandbox_id i, inv_generation i, inv_operation_id i, inv_spec_hash i)) <$>
      filter (λ i, item_route_state i = Some "parked") (default [] inventory) in
    res_foldl (retire_row retired parked node_epoch activity_epoch observed_at now) ([], [], d)
      (select_sandboxes (λ r, bool_decide (sr_job_id r = job_id)) d).

(** Detaching or deleting the routes of owners proven gone: the tail that
    [delete_sandboxes_for_jobs_with_error] and [delete_stale_sandboxes] share. *)
Definition portable_loss (r : SandboxRoute) : bool :=
  match sandbox_owner_loss_disposition r with RECOVER_DETACHED => true | _ => false end.
Definition settle_lost (routes : list SandboxRoute) (terminal_error now : string) (d : db) :
    res (list SandboxRoute * db) :=
  let preserved := filter (λ r, portable_loss r = true) routes in
  let removed := filter (λ r, portable_loss r = false) routes in
  let! d := res_foldl (λ d r, let! '(_, d) := detach_owner_lost_route r now now d in Ok d) d preserved in
  Ok (removed, foldl (λ d r, (delete_sandbox_route r terminal_error EmptyString now d).2) d removed).

Definition read_rows (rows : list SandboxRoute) : res (list SandboxRoute) :=
  res_foldl (λ acc row, let! r := route_init row in Ok (acc ++ [r])) [] rows.

(** [delete_sandboxes_for_jobs_with_error]; [job_ids] sorted and without duplicates. *)
Definition delete_sandboxes_for_jobs_with_error (d : db) (job_ids : list string)
    (terminal_error now : string) : res (list SandboxRoute * db) :=
  let targets := sorted_by string_leb (remove_dups (filter (λ j, j ≠ EmptyString) job_ids)) in
  let! routes := read_rows (mjoin ((λ j, select_sandboxes (λ r, bool_decide (sr_job_id r = j)) d) <$> targets)) in
  settle_lost routes terminal_error now d.

Section recovery.
Context (parse : dict string json → res descriptor).
Context (publication : dict string json → res (dict string json)).

(** [parse_iso_datetime(updated_at) or parse_iso_datetime(created_at)] *)
Definition route_reference (r : SandboxRoute) : res (option Z) :=
  let! updated := parse_iso_datetime (sr_updated_at r) in
  match updated with Some t => Ok (Some t) | None => parse_iso_datetime (sr_created_at r) end.

Definition delete_stale_sandboxes (d : db) (active_job_ids active_node_ids : list string)
    (older_than : Z) (now : string) : res (list SandboxRoute * db) :=
  let keep_jobs := filter (λ j, j ≠ EmptyString) active_job_ids in
  let keep_nodes := filter (λ j, j ≠ EmptyString) active_node_ids in
  let! routes := read_rows (select_sandboxes (λ _, true) d) in
  let! stale := res_filter (λ r,
    if bool_decide (sr_job_id r ∈ keep_jobs) || bool_decide (sr_node_id r ∈ keep_nodes) then Ok false
    else let! reference := route_reference r in
         Ok (match reference with Some t => t <=? older_than | None => false end)) routes in
  settle_lost stale "node_lost" now d.

(** ** A worker's inventory *)

(** What the pass over the observations threads: the database, the routes as
    projected so far, the ids only touched, the ids accepted, the dependency rows
    to write, and the routes whose snapshot became stale. *)
Record pass_state := mkPassState {
  ps_db : db;
  ps_existing : gmap string SandboxRoute;
  ps_touched : list string;
  ps_accepted : list string;
  ps_dependencies : list (string * Z * dict string json);
  ps_stale : list SandboxRoute
}.

(** [_write_storage_dependencies]: an empty row inserts, but never replaces *)
Definition write_storage_dependencies (rows : list (string * Z * dict string json)) (d : db) : db :=
  foldl (λ d row, let '(id, generation, snapshot) := row in
           on_dependencies (λ m, match m !! id, snapshot with
                                 | Some _, [] => m
                                 | _, _ => <[id := (generation, snapshot)]> m
                                 end) d) d rows.

(** The route an accepted observation projects. *)
Definition inventory_candidate (existing : SandboxRoute) (item : SandboxInventoryEntry) (state : string)
    (validated : option SandboxRoute) (node_id job_id node_url node_epoch : string) (activity_epoch : Z)
    (observed_at : string) : res SandboxRoute :=
  let keep {A} (f : SandboxRoute → A) (e : A) :=
    match validated with
    | Some v => f v
    | None => if bool_decide (state = "parked") then f existing else e
    end in
  let resources := if negb (rq_eqb (inv_resources item) rq_zero) then inv_resources item
                   else sr_resources existing in
  route_init (with_snapshot
    (with_epoch (with_identity (with_resources (with_owner (with_state existing state observed_at)
        node_id job_id node_url) resources)
      (inv_generation item) (inv_operation_id item) (inv_spec_hash item))
      node_epoch (Z.max 0 activity_epoch))
    (keep sr_storage_schema EmptyString) (keep sr_snapshot_manifest_digest EmptyString)
    (keep sr_snapshot_repository EmptyString) (keep sr_snapshot_tag EmptyString)
    (keep sr_storage_snapshot [])).

(** The validated publication of a parked observation, [None] when there is none
    or [route_with_inventory_snapshot] raises [ValueError]. *)
Definition validated_snapshot (existing : SandboxRoute) (item : SandboxInventoryEntry) (state : string) :
    res (option SandboxRoute) :=
  if bool_decide (state = "parked") && negb (bool_decide (length (inv_storage_snapshot item) = 0%nat)) then
    match route_with_inventory_snapshot parse existing item with
    | Ok v => Ok (Some v)
    | Raise (ValueError _) => Ok None
    | Raise e => Raise e
    end
  else Ok None.

(** The dependency row an accepted observation appends. *)
Definition dependency_rows (item : SandboxInventoryEntry) (candidate : SandboxRoute) :
    res (list (string * Z * dict string json)) :=
  match inv_storage_dependency item with
  | None => Ok []
  | Some [] => Ok [(sr_sandbox_id candidate, sr_generation candidate, [])]
  | Some dependency =>
      let! p := publication dependency in
      Ok [(sr_sandbox_id candidate, sr_generation candidate, [("publication", JObj p)])]
  end.

Definition snapshot_replaced (existing candidate : SandboxRoute) : bool :=
  nonempty (sr_snapshot_manifest_digest existing)
  && (negb (bool_decide (sr_snapshot_manifest_digest existing = sr_snapshot_manifest_digest candidate))
      || negb (bool_decide (sr_snapshot_repository existing = sr_snapshot_repository candidate))
      || negb (bool_decide (sr_snapshot_tag existing = sr_snapshot_tag candidate))).

(** One observation: the body of [for item in observed]. *)
Definition reconcile_item (node_id job_id node_url node_epoch : string) (activity_epoch : Z)
    (observed_at : string) (unique : bool) (st : pass_state) (item : SandboxInventoryEntry) :
    res pass_state :=
  match ps_existing st !! inv_sandbox_id item, item_route_state item with
  | Some existing, Some state =>
      let! validated := validated_snapshot existing item state in
      let! candidate := inventory_candidate existing item state validated node_id job_id node_url
                          node_epoch activity_epoch observed_at in
      if negb (sr_generation candidate =? sr_generation existing)
         || negb (route_update_is_current existing candidate false)
      then Ok st
      else
        let stale := if snapshot_replaced existing candidate then ps_stale st ++ [existing] else ps_stale st in
        let! watermark := route_init (with_times (with_epoch candidate (sr_node_epoch candidate)
          (sr_activity_epoch existing)) (sr_created_at candidate) (sr_updated_at existing)) in
        let id := sr_sandbox_id candidate in
        let '(d, touched) :=
          if route_eqb watermark existing then (ps_db st, ps_touched st ++ [id])
          else (write_sandbox candidate (ps_db st), ps_touched st) in
        let! rows := dependency_rows item candidate in
        let dependencies := ps_dependencies st ++ rows in
        let '(d, dependencies) :=
          if negb unique && negb (bool_decide (length rows = 0%nat))
          then (write_storage_dependencies dependencies d, [])
          else (d, dependencies) in
        Ok (mkPassState d (<[id := candidate]> (ps_existing st)) touched (ps_accepted st ++ [id])
              dependencies stale)
  | _, _ => Ok st
  end.

(** Absence: one route of the node that the inventory does not report. *)
Definition reconcile_absent (node_epoch : string) (activity_epoch : Z) (observed_at now : string)
    (observed_at_dt : option Z) (acc : list SandboxRoute * db) (route : SandboxRoute) : res (list SandboxRoute * db) :=
  let '(removed, d) := acc in
  if (nonempty (sr_node_epoch route) && negb (bool_decide (sr_node_epoch route = node_epoch)))
     || bool_decide (state_or_unknown (sr_state route) ∈ ["creating"; "unknown"])
     || (Z.max 0 activity_epoch <? sr_activity_epoch route)
  then Ok (removed, d)
  else
  let! reference := route_reference route in
  if match observed_at_dt, reference with Some o, Some t => o <? t | _, _ => false end
  then Ok (removed, d)
  else match sandbox_owner_loss_disposition route with
       | RECOVER_DETACHED =>
           let! '(_, d) := detach_owner_lost_route route observed_at now d in Ok (removed, d)
       | _ =>
           let '(gone, d) := delete_sandbox_route route EmptyString EmptyString now d in
           Ok (if gone then removed ++ [route] else removed, d)
       end.

(** The last statement: [UPDATE sandboxes SET activity_epoch = ?, updated_at = ?] *)
Definition touch (ids : list string) (activity_epoch : Z) (observed_at : string) (d : db) : db :=
  foldl (λ d id, on_sandboxes (alter (λ r, with_times (with_epoch r (sr_node_epoch r)
           (Z.max 0 activity_epoch)) (sr_created_at r) observed_at) id) d) d ids.

Definition reconcile_sandboxes_for_node (d : db) (node_url : string)
    (observed : list SandboxInventoryEntry) (node_id job_id : string) (reported : list string)
    (observed_at node_epoch : string) (activity_epoch : Z) (inventory_complete : bool) (now : string) :
    res (list SandboxRoute * list SandboxRoute * db) :=
  let node_url := strip node_url in
  let node_id := strip node_id in
  let job_id := strip job_id in
  raise_if (negb (nonempty node_url) || negb (nonempty node_id) || negb (nonempty job_id))
    (ValueError "sandbox inventory requires exact node identity")
  (let reported := filter (λ s, s ≠ EmptyString) (strip <$> reported) ++ (inv_sandbox_id <$> observed) in
   let! observed_at_dt := parse_iso_datetime observed_at in
   let! snapshot := read_rows (select_sandboxes
     (λ r, bool_decide (sr_sandbox_id r ∈ (inv_sandbox_id <$> observed))) d) in
   let existing := list_to_map ((λ r, (sr_sandbox_id r, r)) <$> snapshot) in
   let unique := bool_decide (NoDup (inv_sandbox_id <$> observed)) in
   let! st := res_foldl (reconcile_item node_id job_id node_url node_epoch activity_epoch observed_at unique)
                (mkPassState d existing [] [] [] []) observed in
   let d := write_storage_dependencies (ps_dependencies st) (ps_db st) in
   let d := foldl (λ d id, on_pending (delete id) d) d (ps_accepted st) in
   let! absent := read_rows (select_sandboxes (λ r, bool_decide (sr_node_url r = node_url)
                     && negb (bool_decide (sr_sandbox_id r ∈ reported))) d) in
   let! '(removed, d) :=
     (if inventory_complete
      then res_foldl (reconcile_absent node_epoch activity_epoch observed_at now observed_at_dt) ([], d) absent
      else Ok ([], d)) in
   Ok (removed, ps_stale st, touch (ps_touched st) activity_epoch observed_at d)).

End recovery.
