(* ===== verification/RouteMigrations.v ===== *)
(** * Migration journal (ucloud_sandboxes/routing.py, RoutingStore)

    The transactions of the migration journal.  The table's partial unique index on
    active migrations of a sandbox is part of the write.  [parse] stands for
    [StorageNativeMigration.from_dict] and [py_str] for [str] of a JSON value that is
    not text. *)
From S2P Require Import Prelude PyFloat Json PyString Resources Bytes PlacementAccounting Routes RouteStore.
From stdpp Require Import gmap strings.
Local Open Scope py_scope.
Local Open Scope Z_scope.

(** Another active journal of the same sandbox. *)
Definition other_active (m : SandboxMigration) (d : db) : bool :=
  existsb (λ im, negb (bool_decide (im.1 = mg_migration_id m)) && active im.2
                 && bool_decide (mg_sandbox_id im.2 = mg_sandbox_id m))
    (map_to_list (sandbox_migrations d)).

Definition write_sandbox_migration (m : SandboxMigration) (d : db) : res db :=
  raise_if (active m && other_active m d)
    (IntegrityError "UNIQUE constraint failed: sandbox_migrations.sandbox_id")
    (Ok (on_migrations <[mg_migration_id m := m]> d)).

(** The sandbox has an active journal. *)
Definition has_active_migration (sandbox_id : string) (d : db) : bool :=
  existsb (λ im, active im.2 && bool_decide (mg_sandbox_id im.2 = sandbox_id))
    (map_to_list (sandbox_migrations d)).

Definition migration_source_changed (current source : SandboxRoute) : bool :=
  negb (sr_generation current =? sr_generation source)
  || negb (bool_decide (sr_create_operation_id current = sr_create_operation_id source))
  || negb (bool_decide (sr_spec_hash current = sr_spec_hash source))
  || negb (bool_decide (sr_node_id current = sr_node_id source))
  || negb (bool_decide (sr_job_id current = sr_job_id source))
  || negb (bool_decide (rstrip_slash (sr_node_url current) = rstrip_slash (sr_node_url source)))
  || negb (bool_decide (sr_worker_state current = sr_worker_state source))
  || nonempty (sr_delete_operation_id current).

Definition begin_sandbox_migration (d : db) (source : SandboxRoute) (migration_id destination_node_id
    destination_job_id destination_node_url now : string) : res (SandboxMigration * db) :=
  let cleaned_id := strip migration_id in
  let cleaned_url := rstrip_slash (strip destination_node_url) in
  raise_if (negb (nonempty cleaned_id) || negb (nonempty (strip destination_node_id))
            || negb (nonempty (strip destination_job_id)) || negb (nonempty cleaned_url))
    (ValueError "migration and destination identities are required")
  match sandbox_migrations d !! cleaned_id with
  | Some existing => Ok (existing, d)
  | None =>
      raise_if (has_active_migration (sr_sandbox_id source) d)
        (SandboxRouteConflictError "sandbox already has an active migration")
      (let! current := get_sandbox_unlocked d (sr_sandbox_id source) in
       match current with
       | None => Raise (SandboxRouteConflictError "sandbox route changed before migration began")
       | Some current =>
           raise_if (migration_source_changed current source)
             (SandboxRouteConflictError "sandbox route changed before migration began")
           (let m := mkMigration cleaned_id (sr_sandbox_id source) "planned" (sr_node_id source)
              (sr_job_id source) (rstrip_slash (sr_node_url source)) (strip destination_node_id)
              (strip destination_job_id) cleaned_url (sr_generation source)
              (sr_create_operation_id source) (sr_spec_hash source) EmptyString EmptyString [] false
              now now EmptyString in
            let! d := write_sandbox_migration m d in
            Ok (m, d))
       end)
  end.

(** The fields [advance_sandbox_migration] may replace. *)
Record migration_update := mkMigUpd {
  mu_schema : option string; mu_sha256 : option string; mu_snapshot : option (dict string json);
  mu_fenced : option bool; mu_error : option string
}.

Definition advance_sandbox_migration (d : db) (migration_id : string) (expected : list string)
    (phase : string) (mu : migration_update) (now : string) : res (option SandboxMigration * db) :=
  raise_if (bool_decide (expected = []) || negb (nonempty (strip phase)))
    (ValueError "migration phases are required")
  match sandbox_migrations d !! strip migration_id with
  | None => Ok (None, d)
  | Some m =>
      if negb (bool_decide (mg_phase m ∈ expected)) then Ok (None, d)
      else
        let stored := mkMigration (mg_migration_id m) (mg_sandbox_id m) (strip phase)
          (mg_source_node_id m) (mg_source_job_id m) (mg_source_node_url m) (mg_destination_node_id m)
          (mg_destination_job_id m) (mg_destination_node_url m) (mg_generation m)
          (mg_create_operation_id m) (mg_spec_hash m) (opt_or (mu_schema mu) (mg_storage_schema m))
          (opt_or (mu_sha256 mu) (mg_snapshot_sha256 m)) (opt_or (mu_snapshot mu) (mg_storage_snapshot m))
          (opt_or (mu_fenced mu) (mg_source_fenced m)) (mg_created_at m) now
          (opt_or (mu_error mu) (mg_error m)) in
        let! d := write_sandbox_migration stored d in
        Ok (Some stored, d)
  end.

(** The route is the migration's incarnation, at its destination and not deleting. *)
Definition at_destination (r : SandboxRoute) (m : SandboxMigration) : bool :=
  bool_decide (sr_node_id r = mg_destination_node_id m)
  && bool_decide (sr_job_id r = mg_destination_job_id m)
  && bool_decide (rstrip_slash (sr_node_url r) = rstrip_slash (mg_destination_node_url m))
  && (sr_generation r =? mg_generation m)
  && bool_decide (sr_create_operation_id r = mg_create_operation_id m)
  && bool_decide (sr_spec_hash r = mg_spec_hash m) && negb (nonempty (sr_delete_operation_id r)).

(** [replace(current, state="waking")] and its write *)
Definition mark_waking (r : SandboxRoute) (now : string) (d : db) : res db :=
  let! waking := route_init (with_state r "waking" now) in
  Ok (write_sandbox waking d).

Definition complete_sandbox_migration (d : db) (migration_id : string) (wake_destination : bool)
    (now : string) : res (option SandboxMigration * db) :=
  match sandbox_migrations d !! strip migration_id with
  | None => Ok (None, d)
  | Some m =>
      let! current := get_sandbox_unlocked d (mg_sandbox_id m) in
      if bool_decide (mg_phase m = "complete") then
        match current with
        | Some r =>
            if wake_destination && at_destination r m
               && bool_decide (state_or_unknown (sr_state r) = "parked")
            then let! d := mark_waking r now d in Ok (Some m, d)
            else Ok (Some m, d)
        | None => Ok (Some m, d)
        end
      else match current with
           | None => Ok (None, d)
           | Some r =>
               if negb (bool_decide (mg_phase m = "activated")) || negb (at_destination r m)
               then Ok (None, d)
               else
                 let! d := (if wake_destination then mark_waking r now d else Ok d) in
                 let completed := migration_set m "complete" now EmptyString in
                 let! d := write_sandbox_migration completed d in
                 Ok (Some completed, d)
           end
  end.

(** One journal of [terminalize_orphaned_sandbox_migrations]. *)
Definition orphaned (d : db) (m : SandboxMigration) : bool :=
  active m && bool_decide (sandboxes d !! mg_sandbox_id m = None).
Definition migration_leb (a b : SandboxMigration) : bool :=
  string_ltb (mg_created_at a) (mg_created_at b)
  || (bool_decide (mg_created_at a = mg_created_at b)
      && string_leb (mg_migration_id a) (mg_migration_id b)).
Definition terminalize_orphaned_sandbox_migrations (d : db) (max_count : Z) (now : string) :
    res (list SandboxMigration * db) :=
  raise_if (max_count <? 0)
    (ValueError "orphaned migration reconciliation limit cannot be negative")
  (let rows := take (Z.to_nat max_count)
     (sorted_by migration_leb (filter (λ m, orphaned d m = true) (map_to_list (sandbox_migrations d)).*2)) in
   let done := (λ m, migration_set m "complete" now (str_or (mg_error m) "sandbox route is absent")) <$> rows in
   Ok (done, foldl (λ d m, on_migrations <[mg_migration_id m := m]> d) d done)).

Section routing.
Context (parse : dict string json → res descriptor) (py_str : json → string).

Definition SPLIT_MIGRATION_SCHEMA : string := "storage-native-v3".

(** The published (digest, repository, tag) a staged migration routes with; [None]
    when the journal cannot be routed. *)
Definition migration_publication (m : SandboxMigration) : res (option (string * string * string)) :=
  if negb (nonempty (mg_storage_schema m)) then Ok (Some (EmptyString, EmptyString, EmptyString))
  else
    let complete (digest repository tag : string) :=
      if nonempty digest && nonempty repository && nonempty tag
      then Some (digest, repository, tag) else None in
    if bool_decide (mg_storage_schema m = SPLIT_MIGRATION_SCHEMA) then
      match parse (mg_storage_snapshot m) with
      | Ok s => Ok (if bool_decide (ds_schema s = mg_storage_schema m)
                    then complete (ds_digest s) (ds_repository s) (ds_tag s) else None)
      | Raise (ValueError _) => Ok None
      | Raise e => Raise e
      end
    else match jget (mg_storage_snapshot m) "publication" with
         | JObj p => Ok (complete (text_or_empty py_str (jget p "manifest_digest"))
                           (text_or_empty py_str (jget p "repository")) (text_or_empty py_str (jget p "tag")))
         | _ => Ok None
         end.

(** The route is the migration's incarnation, still at its source and not deleting. *)
Definition at_source (r : SandboxRoute) (m : SandboxMigration) : bool :=
  (sr_generation r =? mg_generation m)
  && bool_decide (sr_create_operation_id r = mg_create_operation_id m)
  && bool_decide (sr_spec_hash r = mg_spec_hash m) && bool_decide (sr_node_id r = mg_source_node_id m)
  && bool_decide (sr_job_id r = mg_source_job_id m)
  && bool_decide (rstrip_slash (sr_node_url r) = rstrip_slash (mg_source_node_url m))
  && negb (nonempty (sr_delete_operation_id r)).

Definition route_sandbox_migration (d : db) (migration_id now : string) :
    res (option (SandboxMigration * SandboxRoute) * db) :=
  match sandbox_migrations d !! strip migration_id with
  | None => Ok (None, d)
  | Some m =>
      let! current := get_sandbox_unlocked d (mg_sandbox_id m) in
      match current with
      | None => Ok (None, d)
      | Some r =>
          if bool_decide (mg_phase m = "routed") then
            Ok (if bool_decide (sr_node_id r = mg_destination_node_id m)
                   && bool_decide (rstrip_slash (sr_node_url r) = rstrip_slash (mg_destination_node_url m))
                then Some (m, r) else None, d)
          else if negb (bool_decide (mg_phase m = "staged")) || negb (at_source r m) then Ok (None, d)
          else
            let! published := migration_publication m in
            match published with
            | None => Ok (None, d)
            | Some (digest, repository, tag) =>
                let! route := route_init (with_snapshot
                  (with_worker (with_owner (with_state r "parked" now) (mg_destination_node_id m)
                     (mg_destination_job_id m) (mg_destination_node_url m)) "attached" EmptyString 0 now)
                  (mg_storage_schema m) digest repository tag
                  (if nonempty (mg_storage_schema m) then mg_storage_snapshot m else [])) in
                let d := delete_execs (mg_sandbox_id m) (write_sandbox route d) in
                let routed := migration_set m "routed" now EmptyString in
                let! d := write_sandbox_migration routed d in
                Ok (Some (routed, route), d)
            end
      end
  end.

End routing.
