(* ===== verification/RouteSafety.v ===== *)
(** * Safety of the route store

    Every transaction of the store but [upsert_sandbox], whatever its arguments, is a
    sequence of row steps: an update that keeps an incarnation and any recorded
    delete, a fresh incarnation above the high-water mark, or a removal.  A direct
    [upsert_sandbox] writes the observation it is given back over the row of the same
    incarnation, or where no row is stored.  From that: the invariant of reachable
    stores, and what a history can make of a row. *)
From S2P Require Import Prelude PyFloat Json PyString Resources.
From S2P Require Import Bytes PlacementAccounting Routes RouteStore RouteRecovery RouteMigrations.
From stdpp Require Import gmap strings.
Local Open Scope py_scope.
Local Open Scope Z_scope.

(** ** Valid routes *)

Definition valid (r : SandboxRoute) : Prop := route_init r = Ok r.

Lemma route_init_Ok r r' : route_init r = Ok r' → r' = r ∧ valid r.
Proof.
  intros H. enough (r' = r) as -> by done. revert H. unfold route_init.
  rewrite raise_if_Ok. intros [_ H]. destruct (sr_spec r); try discriminate.
  repeat (rewrite raise_if_Ok in H; destruct H as [_ H]). congruence.
Qed.

Lemma valid_facts r :
  valid r →
  1 ≤ sr_generation r ∧ 0 ≤ sr_activity_epoch r ∧
  (sr_worker_state r = "attached" ∨ is_portable_parked_route r = true).
Proof.
  unfold valid, route_init. rewrite raise_if_Ok. intros [_ H]. destruct (sr_spec r); try discriminate.
  rewrite !raise_if_Ok in H. destruct H as (_ & _ & _ & Hg & _ & _ & _ & Ha & _ & Hw & _).
  apply Z.ltb_ge in Hg, Ha. split_and!; [done|done|].
  destruct (bool_decide_reflect (sr_worker_state r = "attached")); [by left|right].
  destruct (is_portable_parked_route r); [done|discriminate].
Qed.

(** Neither the epochs nor the times of a route matter to its validation. *)
Lemma valid_touched r epoch activity created updated :
  valid r → valid (with_times (with_epoch r epoch (Z.max 0 activity)) created updated).
Proof.
  unfold valid, route_init. rewrite raise_if_Ok. intros [H0 H]. destruct r. cbn in *. destruct sr_spec; try discriminate.
  rewrite !raise_if_Ok in H. destruct H as (H1 & H2 & H3 & H4 & H5 & H6 & H7 & H8 & H9 & H10 & _).
  assert (Z.max 0 activity <? 0 = false) as Ha by (apply Z.ltb_ge; lia).
  rewrite H0, H1, H2, H3, H4, H5, H6, H7, Ha, H9. cbn [raise_if]. apply raise_if_Ok. split; [exact H10|done].
Qed.

(** ** Row steps *)

Definition deleting (r : SandboxRoute) : Prop := nonempty (sr_delete_operation_id r) = true.

(** The same incarnation, and a recorded delete kept. *)
Definition continues (r r' : SandboxRoute) : Prop :=
  sr_sandbox_id r' = sr_sandbox_id r ∧ sr_generation r' = sr_generation r ∧
  sr_create_operation_id r' = sr_create_operation_id r ∧ sr_spec_hash r' = sr_spec_hash r ∧
  (deleting r → sr_delete_operation_id r' = sr_delete_operation_id r).

Inductive rows_step (d d' : db) : Prop :=
| rows_keep :
    sandboxes d' = sandboxes d → sandbox_generation_hwm d' = sandbox_generation_hwm d →
    sandbox_losses d' ⊆ sandbox_losses d → rows_step d d'
| rows_update r r' :
    sandboxes d !! sr_sandbox_id r = Some r → valid r' → continues r r' →
    sandboxes d' = <[sr_sandbox_id r := r']> (sandboxes d) →
    sandbox_generation_hwm d' = sandbox_generation_hwm d → sandbox_losses d' = sandbox_losses d →
    rows_step d d'
| rows_fresh r' :
    valid r' → high_water d (sr_sandbox_id r') < sr_generation r' →
    (∀ r, sandboxes d !! sr_sandbox_id r' = Some r → ¬ deleting r) →
    sandboxes d' = <[sr_sandbox_id r' := r']> (sandboxes d) →
    sandbox_generation_hwm d' = <[sr_sandbox_id r' := sr_generation r']> (sandbox_generation_hwm d) →
    sandbox_losses d' = sandbox_losses d → rows_step d d'
| rows_remove id :
    sandboxes d' = delete id (sandboxes d) → sandbox_generation_hwm d' = sandbox_generation_hwm d →
    (sandbox_losses d' = sandbox_losses d ∨
     ∃ r l, sandboxes d !! id = Some r ∧ sl_generation l = sr_generation r ∧
            sandbox_losses d' = <[id := l]> (sandbox_losses d)) → rows_step d d'.

(** What may happen to the migration journal: nothing, a write the unique index
    admits, or completions. *)
Inductive migs_step (d d' : db) : Prop :=
| migs_keep : sandbox_migrations d' = sandbox_migrations d → migs_step d d'
| migs_write m :
    (active m = true → other_active m d = false) →
    sandbox_migrations d' = <[mg_migration_id m := m]> (sandbox_migrations d) → migs_step d d'
| migs_complete f :
    (∀ m, mg_migration_id (f m) = mg_migration_id m ∧ mg_sandbox_id (f m) = mg_sandbox_id m ∧
          (active (f m) = true → active m = true)) →
    sandbox_migrations d' = f <$> sandbox_migrations d → migs_step d d'.

Record prim (d d' : db) : Prop := { prim_rows : rows_step d d'; prim_migs : migs_step d d' }.

(** ** The invariant *)

Record store_inv (d : db) : Prop := {
  inv_rows : ∀ id r, sandboxes d !! id = Some r →
    sr_sandbox_id r = id ∧ valid r ∧ sr_generation r ≤ high_water d id;
  inv_losses : ∀ id l, sandbox_losses d !! id = Some l → sl_generation l ≤ high_water d id;
  inv_migration_ids : ∀ k m, sandbox_migrations d !! k = Some m → mg_migration_id m = k;
  inv_one_active : ∀ k1 k2 m1 m2, sandbox_migrations d !! k1 = Some m1 →
    sandbox_migrations d !! k2 = Some m2 → active m1 = true → active m2 = true →
    mg_sandbox_id m1 = mg_sandbox_id m2 → k1 = k2
}.

Lemma high_water_keep d d' id :
  sandbox_generation_hwm d' = sandbox_generation_hwm d → high_water d' id = high_water d id.
Proof. unfold high_water. by intros ->. Qed.

Lemma high_water_fresh d d' r id :
  sandbox_generation_hwm d' = <[sr_sandbox_id r := sr_generation r]> (sandbox_generation_hwm d) →
  high_water d (sr_sandbox_id r) < sr_generation r →
  high_water d id ≤ high_water d' id ∧ (id = sr_sandbox_id r → high_water d' id = sr_generation r).
Proof.
  unfold high_water. intros -> Hlt. destruct (decide (id = sr_sandbox_id r)) as [->|Hne].
  - rewrite lookup_insert_eq. simpl. lia.
  - rewrite lookup_insert_ne by done. split; [lia|done].
Qed.

Lemma rows_step_high_water d d' id : rows_step d d' → high_water d id ≤ high_water d' id.
Proof.
  intros [? H ?|r r' ? ? ? ? H ?|r' ? Hlt ? ? H ?|id' ? H ?];
    try (rewrite (high_water_keep _ _ _ H); lia). by apply (high_water_fresh d d' r').
Qed.

Lemma rows_step_rows d d' :
  store_inv d → rows_step d d' →
  ∀ id r, sandboxes d' !! id = Some r → sr_sandbox_id r = id ∧ valid r ∧ sr_generation r ≤ high_water d' id.
Proof.
  intros [Hr _ _ _] Hs id r. destruct Hs as [E H _|r0 r' H0 Hv (Hid & Hg & _) E H _|r' Hv Hlt _ E H _|id' E H _].
  - rewrite E, (high_water_keep _ _ _ H). apply Hr.
  - rewrite E, (high_water_keep _ _ _ H). intros [[<- <-]|[? ?]]%lookup_insert_Some; [|by apply Hr].
    destruct (Hr _ _ H0) as (_ & _ & ?). split_and!; [done|done|lia].
  - pose proof (high_water_fresh d d' r' id H Hlt) as [Hle Heq]. rewrite E.
    intros [[<- <-]|[? Hin]]%lookup_insert_Some; [specialize (Heq eq_refl); split_and!; [done|done|lia]|].
    destruct (Hr _ _ Hin) as (? & ? & ?). split_and!; [done|done|lia].
  - rewrite E, (high_water_keep _ _ _ H). intros [_ ?]%lookup_delete_Some. by apply Hr.
Qed.

(** A recorded loss is older than any live route of its id. *)
Definition losses_older (d : db) : Prop :=
  ∀ id l r, sandbox_losses d !! id = Some l → sandboxes d !! id = Some r → sl_generation l < sr_generation r.

Lemma rows_step_losses d d' :
  store_inv d → rows_step d d' → ∀ id l, sandbox_losses d' !! id = Some l → sl_generation l ≤ high_water d' id.
Proof.
  intros [Hr Hl _ _] Hs id l Hin. pose proof (rows_step_high_water _ _ id Hs) as Hle.
  assert (sl_generation l ≤ high_water d id); [|lia].
  destruct Hs as [E H L|r0 r' H0 Hv (Hid & Hg & _) E H L|r' Hv Hlt _ E H L|id' E H L].
  - by eapply Hl, lookup_weaken.
  - apply Hl. by rewrite <-L.
  - apply Hl. by rewrite <-L.
  - destruct L as [L|(r & l' & Hr0 & Hg & L)]; rewrite L in Hin; [by apply Hl|].
    apply lookup_insert_Some in Hin as [[<- <-]|[_ Hin]]; [|by apply Hl].
    destruct (Hr _ _ Hr0) as (_ & _ & ?). lia.
Qed.

Lemma rows_step_older d d' : store_inv d → losses_older d → rows_step d d' → losses_older d'.
Proof.
  intros [_ Hl _ _] Ho Hs id l r. destruct Hs as [E H L|r0 r' H0 Hv (Hid & Hg & _) E H L|r' Hv Hlt _ E H L|id' E H L].
  - rewrite E. intros Hin. by eapply Ho, lookup_weaken.
  - rewrite L, E. intros Hin [[<- <-]|[_ ?]]%lookup_insert_Some; [|by eapply Ho].
    specialize (Ho _ _ _ Hin H0). lia.
  - rewrite L, E. intros Hin [[<- <-]|[_ ?]]%lookup_insert_Some; [|by eapply Ho].
    specialize (Hl _ _ Hin). lia.
  - rewrite E. intros Hin [Hne Hr]%lookup_delete_Some.
    destruct L as [L|(r1 & l' & _ & _ & L)]; rewrite L in Hin; [by eapply Ho|].
    rewrite lookup_insert_ne in Hin by done. by eapply Ho.
Qed.

Lemma other_active_false m d k m' :
  other_active m d = false → sandbox_migrations d !! k = Some m' → k ≠ mg_migration_id m →
  active m' = true → mg_sandbox_id m' ≠ mg_sandbox_id m.
Proof.
  unfold other_active. intros Hex Hk Hne Ha Heq. apply not_true_iff_false in Hex. apply Hex.
  apply existsb_exists. exists (k, m'). split; [by apply list_elem_of_In, elem_of_map_to_list|].
  simpl. by rewrite bool_decide_false, Ha, bool_decide_true by done.
Qed.

Lemma prim_inv d d' : store_inv d → prim d d' → store_inv d'.
Proof.
  intros Hi [Hrows Hmigs]. split; [by eapply rows_step_rows|by eapply rows_step_losses| |];
    destruct Hi as [_ _ Hid Hone]; destruct Hmigs as [E|m Hm E|f Hf E]; rewrite E; try done.
  - intros k m' [[<- <-]|[_ ?]]%lookup_insert_Some; [done|by apply Hid].
  - intros k m'. rewrite lookup_fmap, fmap_Some. intros (m & Hm & ->).
    destruct (Hf m) as (-> & _ & _). by apply Hid.
  - intros k1 k2 m1 m2 [[<- <-]|[Hn1 H1]]%lookup_insert_Some [[<- <-]|[Hn2 H2]]%lookup_insert_Some Ha1 Ha2 He.
    + done.
    + exfalso. by eapply (other_active_false m d k2 m2); eauto.
    + exfalso. by eapply (other_active_false m d k1 m1); eauto.
    + by eapply Hone.
  - intros k1 k2 m1 m2. rewrite !lookup_fmap, !fmap_Some. intros (n1 & H1 & ->) (n2 & H2 & ->) Ha1 Ha2.
    destruct (Hf n1) as (_ & -> & Hn1), (Hf n2) as (_ & -> & Hn2). intros He.
    by eapply Hone; eauto.
Qed.

Lemma prims_inv d d' : store_inv d → rtc prim d d' → store_inv d'.
Proof. intros Hi Hs. induction Hs; eauto using prim_inv. Qed.

Lemma prims_older d d' : store_inv d → losses_older d → rtc prim d d' → losses_older d'.
Proof.
  intros Hi Ho Hs. induction Hs as [|d1 d2 d3 H1 _ IH]; [done|].
  apply IH; [by eapply prim_inv|]. by eapply rows_step_older, prim_rows.
Qed.

Lemma empty_inv : store_inv empty_db.
Proof. split; intros *; cbn; rewrite !lookup_empty; done. Qed.

(** ** The row writes are steps *)

Lemma rows_same d d' : sandboxes d' = sandboxes d → sandbox_generation_hwm d' = sandbox_generation_hwm d →
  sandbox_losses d' = sandbox_losses d → rows_step d d'.
Proof. intros ? ? E. apply rows_keep; [done..|by rewrite E]. Qed.

(** The tables the steps speak of are equal. *)
Definition same_core (d d' : db) : Prop :=
  sandboxes d' = sandboxes d ∧ sandbox_generation_hwm d' = sandbox_generation_hwm d ∧
  sandbox_losses d' = sandbox_losses d ∧ sandbox_migrations d' = sandbox_migrations d.

Lemma prim_core d d' : same_core d d' → prim d d'.
Proof. intros (? & ? & ? & ?). split; [by apply rows_same|by apply migs_keep]. Qed.

Lemma prim_frame d d1 d2 : prim d d1 → same_core d1 d2 → prim d d2.
Proof.
  intros [Hr Hm] (E1 & E2 & E3 & E4). split.
  - destruct Hr; [eapply rows_keep|eapply rows_update|eapply rows_fresh|eapply rows_remove];
      rewrite ?E1, ?E2, ?E3; eauto.
  - destruct Hm; [eapply migs_keep|eapply migs_write|eapply migs_complete]; rewrite ?E4; eauto.
Qed.

Lemma prim_after_core d d1 d2 : same_core d d1 → prim d1 d2 → prim d d2.
Proof.
  intros (E1 & E2 & E3 & E4) [Hr Hm]. split.
  - destruct Hr as [| | |id ?? L]; [eapply rows_keep|eapply rows_update|eapply rows_fresh|eapply rows_remove];
      unfold high_water in *; rewrite ?E1, ?E2, ?E3 in *; eauto.
  - destruct Hm as [|m Hm ?|]; [eapply migs_keep|eapply migs_write|eapply migs_complete];
      unfold other_active in *; rewrite ?E4 in *; eauto.
Qed.

Lemma get_row d id o : store_inv d → get_sandbox_unlocked d id = Ok o → o = sandboxes d !! id.
Proof.
  intros [Hr _ _ _]. unfold get_sandbox_unlocked. destruct (sandboxes d !! id) as [r|] eqn:E; [|by intros [= <-]].
  destruct (Hr _ _ E) as (_ & -> & _). by intros [= <-].
Qed.

Lemma row_id d id r : store_inv d → sandboxes d !! id = Some r → sr_sandbox_id r = id ∧ valid r.
Proof. intros [Hr _ _ _] H. destruct (Hr _ _ H) as (? & ? & ?). done. Qed.

Lemma with_epoch_same r : 0 ≤ sr_activity_epoch r → with_epoch r (sr_node_epoch r) (Z.max 0 (sr_activity_epoch r)) = r.
Proof. intros. rewrite Z.max_r by done. by destruct r. Qed.

Lemma write_dependency_core r d : same_core d (write_dependency r d).
Proof. unfold write_dependency. destruct (sr_storage_snapshot r); done. Qed.

Lemma write_sandbox_tables r d :
  valid r →
  sandboxes (write_sandbox r d) = <[sr_sandbox_id r := r]> (sandboxes d) ∧
  sandbox_generation_hwm (write_sandbox r d) =
    hwm_upsert (sr_sandbox_id r) (sr_generation r) (sandbox_generation_hwm d) ∧
  sandbox_losses (write_sandbox r d) = sandbox_losses d ∧
  sandbox_migrations (write_sandbox r d) = sandbox_migrations d.
Proof.
  intros (_ & Ha & _)%valid_facts. unfold write_sandbox. cbn.
  destruct (write_dependency_core r (on_dependencies (λ m,
    match m !! sr_sandbox_id r with
    | Some (g, _) => if g =? sr_generation r then m else delete (sr_sandbox_id r) m
    | None => m
    end) (on_sandboxes <[sr_sandbox_id r :=
      with_epoch r (sr_node_epoch r) (Z.max 0 (sr_activity_epoch r))]> d))) as (-> & -> & -> & ->).
  cbn. by rewrite with_epoch_same.
Qed.

Lemma write_update d r r' :
  store_inv d → sandboxes d !! sr_sandbox_id r = Some r → valid r' → continues r r' →
  prim d (write_sandbox r' d).
Proof.
  intros Hi Hr Hv Hc. destruct (write_sandbox_tables r' d Hv) as (E1 & E2 & E3 & E4).
  pose proof Hc as (Hid & Hg & _). rewrite Hid in E1, E2. split; [|by apply migs_keep].
  eapply rows_update; eauto. rewrite E2. unfold hwm_upsert.
  destruct (inv_rows d Hi _ _ Hr) as (_ & Hvr & Hle). apply valid_facts in Hvr as (H1 & _).
  unfold high_water in Hle. destruct (sandbox_generation_hwm d !! sr_sandbox_id r) as [g|] eqn:Eg;
    simpl in Hle; [|lia].
  apply insert_id. rewrite Eg. f_equal. destruct (Z.ltb_spec (sr_generation r') g); lia.
Qed.

Lemma write_fresh d r' :
  valid r' → high_water d (sr_sandbox_id r') < sr_generation r' →
  (∀ r, sandboxes d !! sr_sandbox_id r' = Some r → ¬ deleting r) →
  prim d (write_sandbox r' d).
Proof.
  intros Hv Hlt Hd. destruct (write_sandbox_tables r' d Hv) as (E1 & E2 & E3 & E4).
  split; [|by apply migs_keep]. eapply rows_fresh; eauto. rewrite E2. unfold hwm_upsert.
  unfold high_water in Hlt. destruct (_ !! _) as [g|]; [|done]. simpl in Hlt.
  by rewrite (proj2 (Z.ltb_ge _ _)) by lia.
Qed.

Lemma alter_as_insert (f : SandboxRoute → SandboxRoute) id (m : gmap string SandboxRoute) r :
  m !! id = Some r → alter f id m = <[id := f r]> m.
Proof.
  intros H. apply map_eq. intros j. destruct (decide (id = j)) as [<-|Hne].
  - by rewrite lookup_alter_eq, lookup_insert_eq, H.
  - by rewrite lookup_alter_ne, lookup_insert_ne.
Qed.

Lemma alter_update d r f :
  sandboxes d !! sr_sandbox_id r = Some r → valid (f r) → continues r (f r) →
  prim d (on_sandboxes (alter f (sr_sandbox_id r)) d).
Proof.
  intros Hr Hv Hc. split; [|by apply migs_keep]. eapply rows_update; eauto. cbn. by apply alter_as_insert.
Qed.

Lemma delete_execs_core id d : same_core d (delete_execs id d).
Proof. done. Qed.
Lemma record_exec_losses_core r now d : same_core d (record_exec_losses r now d).
Proof. done. Qed.
Lemma same_core_trans d1 d2 d3 : same_core d1 d2 → same_core d2 d3 → same_core d1 d3.
Proof. intros (? & ? & ? & ?) (? & ? & ? & ?). unfold same_core. split_and!; congruence. Qed.

Lemma delete_dependents_core id g e now d :
  let d' := delete_dependents id g e now d in
  sandboxes d' = sandboxes d ∧ sandbox_generation_hwm d' = sandbox_generation_hwm d ∧
  sandbox_losses d' = sandbox_losses d ∧ migs_step d d'.
Proof.
  split_and!; try done. eapply migs_complete; [|reflexivity].
  intros m. cbn. destruct (bool_decide _ && active m) eqn:E; [|done].
  by split_and!.
Qed.

Lemma delete_route_prim d r e l now b d' :
  delete_sandbox_route r e l now d = (b, d') → prim d d'.
Proof.
  unfold delete_sandbox_route. destruct (sandboxes d !! sr_sandbox_id r) as [row|] eqn:Er;
    [|intros [= _ <-]; by apply prim_core].
  destruct (_ && _) eqn:Hs; [|intros [= _ <-]; by apply prim_core]. intros [= _ <-].
  rewrite !andb_true_iff in Hs. destruct Hs as [[Hg%Z.eqb_eq _] _].
  set (d1 := if nonempty e then _ else _).
  destruct (delete_dependents_core (sr_sandbox_id r) (Some (sr_generation r)) e now d1) as (E1 & E2 & E3 & E4).
  assert (sandboxes d1 = delete (sr_sandbox_id r) (sandboxes d) ∧
          sandbox_generation_hwm d1 = sandbox_generation_hwm d ∧
          sandbox_migrations d1 = sandbox_migrations d) as (F1 & F2 & F4) by (unfold d1; by destruct (nonempty e)).
  split.
  - apply (rows_remove _ _ (sr_sandbox_id r)); [by rewrite E1|by rewrite E2|]. rewrite E3. unfold d1.
    destruct (nonempty e); [|by left]. cbn. unfold record_loss.
    destruct (sandbox_losses d !! sr_sandbox_id r) as [old|];
      [destruct (sl_generation old <=? sr_generation r); [|by left]|];
      (right; eexists row, _; split_and!; [done| |reflexivity]; by cbn).
  - destruct E4 as [E|m Hm E|f Hf E].
    + apply migs_keep. by rewrite E.
    + apply (migs_write _ _ m); [|by rewrite E, F4]. intros Ha. specialize (Hm Ha).
      unfold other_active in *. by rewrite F4 in Hm.
    + apply (migs_complete _ _ f Hf). by rewrite E, F4.
Qed.

Lemma delete_id_prim d id now : prim d (delete_sandbox_id id now d).
Proof.
  unfold delete_sandbox_id. set (d1 := on_sandboxes _ d).
  destruct (delete_dependents_core id None EmptyString now d1) as (E1 & E2 & E3 & E4).
  split.
  - apply (rows_remove _ _ id); [by rewrite E1|by rewrite E2|left; by rewrite E3].
  - destruct E4 as [E|m Hm E|f Hf E]; [by apply migs_keep|by apply (migs_write _ _ m)|by apply (migs_complete _ _ f)].
Qed.

Lemma detach_prim d r updated_at now r' d' :
  store_inv d → sandboxes d !! sr_sandbox_id r = Some r →
  detach_owner_lost_route r updated_at now d = Ok (r', d') → prim d d'.
Proof.
  intros Hi Hr. unfold detach_owner_lost_route. destruct (route_init _) as [x|] eqn:E; [|done].
  apply route_init_Ok in E as [-> Hv]. cbn. intros [= _ <-].
  eapply prim_frame; [apply (write_update d r); [done|done|exact Hv|by split_and!]|done].
Qed.

(** ** Every transaction is a sequence of steps *)

Ltac bind_inv H :=
  let x := fresh "x" in let Hx := fresh "Hx" in
  rewrite res_bind_Ok in H; destruct H as (x & Hx & H).

Lemma incarnation_continues r r' :
  same_sandbox_route_incarnation r r' = true → (deleting r → sr_delete_operation_id r' = sr_delete_operation_id r) →
  continues r r'.
Proof.
  unfold same_sandbox_route_incarnation, continues. rewrite !andb_true_iff, !bool_decide_eq_true, Z.eqb_eq.
  naive_solver.
Qed.

Lemma not_deleting r : nonempty (sr_delete_operation_id r) = false → ¬ deleting r.
Proof. unfold deleting. congruence. Qed.

Lemma rows_of d id r : store_inv d → sandboxes d !! id = Some r → sandboxes d !! sr_sandbox_id r = Some r.
Proof. intros Hi H. by destruct (row_id _ _ _ Hi H) as [-> _]. Qed.

Lemma lifecycle_row_self r s u a b c e f n k :
  let stored := with_epoch (with_snapshot (with_state r s u) a b c e f) n k in lifecycle_row stored r = stored.
Proof. by destruct r. Qed.

Lemma set_state_prim d route expected state ne ae su now o d' :
  store_inv d → set_sandbox_state_if_current d route expected state ne ae su now = Ok (o, d') → prim d d'.
Proof.
  intros Hi H. unfold set_sandbox_state_if_current in H. bind_inv H. bind_inv H.
  apply get_row in Hx0 as ->; [|done]. destruct (sandboxes d !! sr_sandbox_id route) as [r|] eqn:Er;
    [|simplify_eq; by apply prim_core].
  destruct (_ || _) eqn:Hg; [simplify_eq; by apply prim_core|].
  destruct (opt_or x _) as [epoch activity]. bind_inv H.
  apply route_init_Ok in Hx0 as [-> Hv]. injection H as _ <-. unfold write_sandbox_lifecycle.
  set (stored := with_epoch _ _ _) in *.
  assert (lifecycle_row stored r = stored) as Hst by apply lifecycle_row_self.
  eapply prim_frame; [|apply write_dependency_core].
  assert (sr_sandbox_id stored = sr_sandbox_id r) as -> by done.
  apply rows_of in Er; [|done]. apply alter_update; [done|by rewrite Hst|rewrite Hst; by split_and!].
Qed.

Lemma reserve_wake_prim now result d request result' d' :
  store_inv d → reserve_wake now (result, d) request = Ok (result', d') → prim d d'.
Proof.
  destruct request as [route pid]. intros Hi H. cbn in H. bind_inv H.
  apply get_row in Hx as ->; [|done]. destruct (sandboxes d !! sr_sandbox_id route) as [r|] eqn:Er;
    [|simplify_eq; by apply prim_core].
  destruct (_ || _); [simplify_eq; by apply prim_core|]. bind_inv H.
  apply route_init_Ok in Hx as [-> Hv]. injection H as _ <-. apply rows_of in Er; [|done].
  eapply prim_frame; [apply (alter_update d r (λ row, with_state row "waking" now)); [done|done|by split_and!]|done].
Qed.

(** A loop whose body is a sequence of steps from any store. *)
Lemma foldl_prims {A B} (f : A → B → res A) (π : A → db) l a a' :
  (∀ acc x acc', store_inv (π acc) → f acc x = Ok acc' → rtc prim (π acc) (π acc')) →
  store_inv (π a) → res_foldl f a l = Ok a' → rtc prim (π a) (π a').
Proof.
  intros Hf. revert a. induction l as [|x l IH]; intros a Hi H; simpl in H; [by simplify_eq|].
  bind_inv H. pose proof (Hf _ _ _ Hi Hx) as Hs. etrans; [exact Hs|]. eapply IH; [|done].
  by eapply prims_inv.
Qed.

Lemma reserve_wakes_prims d reqs now res d' :
  store_inv d → reserve_sandbox_wakes d reqs now = Ok (res, d') → rtc prim d d'.
Proof.
  intros Hi H. apply (foldl_prims (reserve_wake now) snd reqs ([], d) (res, d')); [|done|done].
  intros [r1 d1] x [r2 d2] Hi1 H1. apply rtc_once. by eapply reserve_wake_prim.
Qed.

Lemma begin_detach_prim d route cold now o d' :
  store_inv d → begin_sandbox_detach d route cold now = Ok (o, d') → prim d d'.
Proof.
  intros Hi H. unfold begin_sandbox_detach in H. bind_inv H. apply get_row in Hx as ->; [|done].
  destruct (sandboxes d !! sr_sandbox_id route) as [r|] eqn:Er; [|simplify_eq; by apply prim_core].
  repeat (case_match; [simplify_eq; by apply prim_core|]). bind_inv H.
  apply route_init_Ok in Hx as [-> Hv]. injection H as _ <-. apply rows_of in Er; [|done].
  eapply prim_frame; [apply (write_update d r); [done|done|exact Hv|by split_and!]|done].
Qed.

Lemma complete_detach_prim d route now o d' :
  store_inv d → complete_sandbox_detach d route now = Ok (o, d') → prim d d'.
Proof.
  intros Hi H. unfold complete_sandbox_detach in H. bind_inv H. apply get_row in Hx as ->; [|done].
  destruct (sandboxes d !! sr_sandbox_id route) as [r|] eqn:Er; [|simplify_eq; by apply prim_core].
  repeat (case_match; [simplify_eq; by apply prim_core|]). bind_inv H. destruct x as [stored d1].
  injection H as _ <-. eapply detach_prim; [done|by eapply rows_of|done].
Qed.

Lemma confirm_observation_prim d route adoption now o d' :
  store_inv d → confirm_sandbox_observation d route adoption now = Ok (o, d') → prim d d'.
Proof.
  intros Hi H. unfold confirm_sandbox_observation in H. bind_inv H. apply get_row in Hx as ->; [|done].
  destruct (sandboxes d !! sr_sandbox_id route) as [r|] eqn:Er; [|simplify_eq; by apply prim_core].
  destruct (_ || _) eqn:Hg; [simplify_eq; by apply prim_core|]. bind_inv H. destruct x as [stored d1].
  injection H as _ <-. unfold upsert_sandbox in Hx. bind_inv Hx. apply get_row in Hx0 as ->; [|done].
  rewrite Er in Hx. apply orb_false_iff in Hg as [Hdel%not_deleting Hsame%negb_false_iff].
  destruct (negb (route_update_is_current _ _ _)); [simplify_eq; by apply prim_core|].
  bind_inv Hx. apply route_init_Ok in Hx0 as [-> Hv]. injection Hx as _ <-.
  pose proof (incarnation_continues r route Hsame ltac:(done)) as (C1 & C2 & C3 & C4 & _).
  apply rows_of in Er; [|done].
  eapply prim_frame; [apply (write_update d r); [done|done|exact Hv|by split_and!]|done].
Qed.

(** ** A direct [upsert_sandbox] *)

(** The same incarnation, whatever the recorded delete *)
Definition same_identity (r r' : SandboxRoute) : Prop :=
  sr_sandbox_id r' = sr_sandbox_id r ∧ sr_generation r' = sr_generation r ∧
  sr_create_operation_id r' = sr_create_operation_id r ∧ sr_spec_hash r' = sr_spec_hash r.

(** The observation [route] is written back as [stored]. *)
Record written_back (d d' : db) (route stored : SandboxRoute) : Prop := {
  wb_valid : valid stored;
  wb_identity : same_identity route stored;
  wb_delete : sr_delete_operation_id stored = sr_delete_operation_id route;
  wb_row : ∀ r, sandboxes d !! sr_sandbox_id route = Some r → same_identity r stored;
  wb_sandboxes : sandboxes d' = <[sr_sandbox_id route := stored]> (sandboxes d);
  wb_hwm : sandbox_generation_hwm d' = hwm_upsert (sr_sandbox_id route) (sr_generation route) (sandbox_generation_hwm d);
  wb_losses : sandbox_losses d' = sandbox_losses d;
  wb_migrations : sandbox_migrations d' = sandbox_migrations d
}.

Lemma write_written_back d route r' :
  valid r' → same_identity route r' → sr_delete_operation_id r' = sr_delete_operation_id route →
  (∀ r, sandboxes d !! sr_sandbox_id route = Some r → same_identity r r') →
  written_back d (on_pending (delete (sr_sandbox_id route)) (write_sandbox r' d)) route r'.
Proof.
  intros Hv Hs Hd Hr. destruct (write_sandbox_tables r' d Hv) as (E1 & E2 & E3 & E4).
  pose proof Hs as (Hid & Hg & _). rewrite Hid in E1, E2. rewrite Hg in E2. by split.
Qed.

Lemma upsert_cases d route adoption now stored d' :
  store_inv d → upsert_sandbox d route adoption now = Ok (stored, d') →
  (d' = d ∧ sandboxes d !! sr_sandbox_id route = Some stored ∧ route_update_is_current stored route adoption = false) ∨
  written_back d d' route stored.
Proof.
  intros Hi H. unfold upsert_sandbox in H. bind_inv H. apply get_row in Hx as ->; [|done].
  destruct (sandboxes d !! sr_sandbox_id route) as [r|] eqn:Er.
  - destruct (route_update_is_current r route adoption) eqn:Ec; simpl in H; [|left; by simplify_eq].
    right. bind_inv H. apply route_init_Ok in Hx as [-> Hv]. injection H as <- <-.
    apply write_written_back; [done|done|done|]. rewrite Er. intros ? [= <-]. unfold route_update_is_current in Ec.
    destruct (same_sandbox_route_incarnation r route) eqn:Es; [|done].
    unfold same_sandbox_route_incarnation in Es. rewrite !andb_true_iff, !bool_decide_eq_true, Z.eqb_eq in Es.
    unfold same_identity. simpl. naive_solver.
  - right. bind_inv H. apply route_init_Ok in Hx as [-> Hv]. injection H as <- <-.
    apply write_written_back; [done|done|done|]. by rewrite Er.
Qed.

Lemma hwm_upsert_spec d d' id g :
  sandbox_generation_hwm d' = hwm_upsert id g (sandbox_generation_hwm d) → 1 ≤ g →
  ∀ k, high_water d' k = if bool_decide (k = id) then Z.max g (high_water d id) else high_water d k.
Proof.
  unfold high_water, hwm_upsert. intros -> Hg k. case_bool_decide as E; [subst|by rewrite lookup_insert_ne].
  rewrite lookup_insert_eq. destruct (_ !! id) as [h|]; simpl; [destruct (Z.ltb_spec g h); lia|lia].
Qed.
Lemma written_back_high_water d d' route stored :
  written_back d d' route stored →
  ∀ k, high_water d' k = if bool_decide (k = sr_sandbox_id route)
                         then Z.max (sr_generation route) (high_water d k) else high_water d k.
Proof.
  intros H k. destruct (valid_facts _ (wb_valid _ _ _ _ H)) as [Hg _]. destruct (wb_identity _ _ _ _ H) as (_ & Eg & _).
  rewrite (hwm_upsert_spec d d' _ _ (wb_hwm _ _ _ _ H)) by lia. case_bool_decide; by subst.
Qed.

Lemma written_back_inv d d' route stored : store_inv d → written_back d d' route stored → store_inv d'.
Proof.
  intros [Hr Hl Hm Ho] H. pose proof (written_back_high_water _ _ _ _ H) as Hh.
  assert (∀ k, high_water d k ≤ high_water d' k) as Hle by (intros k; rewrite Hh; case_bool_decide; lia).
  destruct H as [Hv (Eid & Eg & _) _ _ E _ L M]. split; rewrite ?M; try done.
  - intros id r. rewrite E. intros [[<- <-]|[_ Hin]]%lookup_insert_Some.
    + split_and!; [done|done|]. rewrite Hh, bool_decide_eq_true_2 by done. lia.
    + destruct (Hr _ _ Hin) as (? & ? & ?). specialize (Hle id). split_and!; [done|done|lia].
  - intros id l. rewrite L. intros Hin. specialize (Hl _ _ Hin). specialize (Hle id). lia.
Qed.

Lemma claim_core r now us d o d' : claim_prepared_capacity r now us d = Ok (o, d') → same_core d d'.
Proof.
  unfold claim_prepared_capacity. intros H. bind_inv H. destruct x as [|p ps]; [by simplify_eq|].
  case_match; [by simplify_eq|]. bind_inv H. by simplify_eq.
Qed.

Lemma allocate_prim d a hash op now us r p d' :
  store_inv d → allocate_create a hash op now us d = Ok (r, p, d') → prim d d'.
Proof.
  intros Hi H. unfold allocate_create in H. bind_inv H. apply get_row in Hx as ->; [|done].
  destruct (sandboxes d !! al_sandbox_id a) as [e|] eqn:Er.
  { rewrite raise_if_Ok in H. destruct H as [_ H]. simplify_eq. by apply prim_core. }
  bind_inv H. apply route_init_Ok in Hx as [-> Hv]. bind_inv H. destruct x as [o d1]. injection H as _ _ <-.
  set (stored := mkRoute _ _ _ _ _ _ _ _ _ _ _ _ _ _ _ _ _ _ _ _ _) in *.
  eapply prim_frame; [apply (write_fresh d stored); [done|cbn; lia|]|].
  - intros r0. cbn. by rewrite Er.
  - apply claim_core in Hx. eapply same_core_trans; [|exact Hx]. done.
Qed.

Lemma retarget_prim d route a op now o d' :
  store_inv d → retarget_create route a op now d = Ok (o, d') → prim d d'.
Proof.
  intros Hi H. unfold retarget_create in H. bind_inv H. apply get_row in Hx as ->; [|done].
  destruct (sandboxes d !! sr_sandbox_id route) as [r|] eqn:Er; [|simplify_eq; by apply prim_core].
  destruct (_ || _) eqn:Hg; [simplify_eq; by apply prim_core|]. bind_inv H.
  apply route_init_Ok in Hx as [-> Hv]. injection H as _ <-. rewrite !orb_false_iff in Hg.
  destruct Hg as [[Hdel%not_deleting _] _]. destruct (row_id _ _ _ Hi Er) as [Hid _].
  apply write_fresh; [done|cbn; rewrite Hid; lia|]. cbn. rewrite Hid, Er. intros r0 [= <-]. done.
Qed.

Lemma reserve_intents_prims d members g now us out d' :
  store_inv d → reserve_create_intents d members g now us = Ok (out, d') → rtc prim d d'.
Proof.
  intros Hi H. unfold reserve_create_intents in H. bind_inv H.
  apply (foldl_prims (reserve_member now us) snd members ([], d) (out, d')); [|done|done].
  intros [acc d1] [[a hash] op] [acc' d2] Hi1 H1. cbn in H1.
  destruct (allocate_create a hash op now us d1) as [[[r p] d3]|e] eqn:Ea.
  - simplify_eq. apply rtc_once. by eapply allocate_prim.
  - destruct e; simplify_eq. apply rtc_refl.
Qed.

Lemma retarget_intents_prims d moves g now out d' :
  store_inv d → retarget_create_intents d moves g now = Ok (out, d') → rtc prim d d'.
Proof.
  intros Hi H. unfold retarget_create_intents in H. bind_inv H.
  apply (foldl_prims (retarget_member now) snd moves ([], d) (out, d')); [|done|done].
  intros [acc d1] [[r a] op] [acc' d2] Hi1 H1. cbn in H1. bind_inv H1. destruct x0 as [o d3].
  simplify_eq. apply rtc_once. by eapply retarget_prim.
Qed.

Lemma confirm_creates_prims d routes g now out d' :
  store_inv d → confirm_creates d routes g now = Ok (out, d') → rtc prim d d'.
Proof.
  intros Hi H. apply (foldl_prims (confirm_member g now) snd routes ([], d) (out, d')); [|done|done].
  intros [acc d1] r [acc' d2] Hi1 H1. cbn in H1. bind_inv H1. destruct x as [o d3].
  apply confirm_observation_prim in Hx; [|done]. apply rtc_once.
  destruct o; simplify_eq; [|done]. eapply prim_frame; [done|]. by destruct (nonempty g).
Qed.

Lemma prepare_delete_prim d id uuid now o d' :
  store_inv d → prepare_sandbox_delete d id uuid now = Ok (o, d') → prim d d'.
Proof.
  intros Hi H. unfold prepare_sandbox_delete in H. bind_inv H. apply get_row in Hx as ->; [|done].
  destruct (sandboxes d !! id) as [r|] eqn:Er; [|simplify_eq; by apply prim_core].
  bind_inv H. destruct x as [stored d1]. injection H as _ <-.
  destruct (nonempty (sr_delete_operation_id r)) eqn:Hd.
  - simplify_eq. by apply prim_core.
  - bind_inv Hx. apply route_init_Ok in Hx0 as [-> Hv]. injection Hx as <- <-.
    apply rows_of in Er; [|done]. apply not_deleting in Hd.
    eapply prim_frame; [apply (write_update d r); [done|done|exact Hv|by split_and!]|done].
Qed.

Lemma delete_if_current_prim d id g c del now o d' :
  store_inv d → delete_sandbox_if_current d id g c del now = Ok (o, d') → prim d d'.
Proof.
  intros Hi H. unfold delete_sandbox_if_current in H. bind_inv H. apply get_row in Hx as ->; [|done].
  destruct (sandboxes d !! id) as [r|]; [|simplify_eq; by apply prim_core].
  repeat (case_match; [simplify_eq; by apply prim_core|]). injection H as _ <-.
  destruct (delete_sandbox_route _ _ _ _ _) eqn:E. by eapply delete_route_prim.
Qed.

(** ** Loops over selected rows *)

Definition local (id : string) (d d' : db) : Prop :=
  ∀ j, j ≠ id → sandboxes d' !! j = sandboxes d !! j.
Definition present (d : db) (r : SandboxRoute) : Prop := sandboxes d !! sr_sandbox_id r = Some r.

Lemma fold_rows_prims {A} (f : A → SandboxRoute → res A) (π : A → db) l a a' :
  (∀ acc r acc', store_inv (π acc) → present (π acc) r → f acc r = Ok acc' →
     prim (π acc) (π acc') ∧ local (sr_sandbox_id r) (π acc) (π acc')) →
  store_inv (π a) → NoDup (sr_sandbox_id <$> l) → Forall (present (π a)) l →
  res_foldl f a l = Ok a' → rtc prim (π a) (π a').
Proof.
  intros Hf. revert a. induction l as [|r l IH]; intros a Hi Hnd Hp H; simpl in H; [by simplify_eq|].
  bind_inv H. csimpl in Hnd. apply NoDup_cons in Hnd as [Hnin Hnd].
  apply Forall_cons in Hp as [Hr Hp]. destruct (Hf _ _ _ Hi Hr Hx) as [Hs Hl].
  eapply rtc_l; [exact Hs|]. eapply IH; [by eapply prim_inv|done| |done].
  rewrite Forall_forall in *. intros r' Hr'. unfold present. rewrite Hl; [by apply Hp|].
  intros Heq. apply Hnin. rewrite <- Heq. by apply list_elem_of_fmap_2.
Qed.

Lemma select_elem P d r : store_inv d → r ∈ select_sandboxes P d → present d r ∧ P r = true ∧ valid r.
Proof.
  intros Hi. unfold select_sandboxes. rewrite sorted_by_perm, list_elem_of_filter.
  intros [HP Hin]. apply list_elem_of_fmap in Hin as ([id r'] & -> & Hin).
  apply elem_of_map_to_list in Hin. destruct (row_id _ _ _ Hi Hin) as [Hid Hv].
  simpl in *. unfold present. by rewrite Hid.
Qed.

Lemma select_NoDup P d : store_inv d → NoDup (sr_sandbox_id <$> select_sandboxes P d).
Proof.
  intros Hi. unfold select_sandboxes. rewrite sorted_by_perm.
  assert (sr_sandbox_id <$> (map_to_list (sandboxes d)).*2 = (map_to_list (sandboxes d)).*1) as E.
  { rewrite <- list_fmap_compose. apply list_fmap_ext. intros i [id r] Hin. simpl.
    apply list_elem_of_lookup_2, elem_of_map_to_list in Hin. by destruct (row_id _ _ _ Hi Hin). }
  pose proof (NoDup_fst_map_to_list (sandboxes d)) as Hnd. rewrite <- E in Hnd.
  eapply sublist_NoDup; [exact Hnd|]. apply fmap_sublist, sublist_filter.
Qed.

Lemma read_rows_valid rows out : Forall valid rows → read_rows rows = Ok out → out = rows.
Proof.
  unfold read_rows. enough (∀ acc, Forall valid rows →
    res_foldl (λ acc row, let! r := route_init row in Ok (acc ++ [r])) acc rows = Ok out → out = acc ++ rows) as H.
  { intros Hv Ho. by apply (H [] Hv Ho). }
  induction rows as [|r rows IH]; intros acc Hv H; simpl in H; [simplify_eq; by rewrite app_nil_r|].
  apply Forall_cons in Hv as [Hr Hv]. rewrite Hr in H. simpl in H. apply IH in H; [|done].
  by rewrite <- app_assoc in H.
Qed.

Lemma read_selected P d out : store_inv d → read_rows (select_sandboxes P d) = Ok out → out = select_sandboxes P d.
Proof.
  intros Hi. apply read_rows_valid. rewrite Forall_forall. intros r Hr. by apply (select_elem P d).
Qed.

Lemma write_local r d : local (sr_sandbox_id r) d (write_sandbox r d).
Proof.
  intros j Hj. unfold write_sandbox. cbn. destruct (write_dependency_core r
    (on_dependencies (λ m,
    match m !! sr_sandbox_id r with
    | Some (g, _) => if g =? sr_generation r then m else delete (sr_sandbox_id r) m
    | None => m
    end) (on_sandboxes <[sr_sandbox_id r :=
      with_epoch r (sr_node_epoch r) (Z.max 0 (sr_activity_epoch r))]> d))) as (-> & _).
  cbn. by rewrite lookup_insert_ne.
Qed.

Lemma delete_route_local r e l now d : local (sr_sandbox_id r) d (delete_sandbox_route r e l now d).2.
Proof.
  intros j Hj. unfold delete_sandbox_route. destruct (sandboxes d !! sr_sandbox_id r); [|done].
  destruct (_ && _); [|done]. cbn. destruct (nonempty e); cbn; by rewrite lookup_delete_ne.
Qed.

Lemma detach_local r u now d r' d' : detach_owner_lost_route r u now d = Ok (r', d') → local (sr_sandbox_id r) d d'.
Proof.
  unfold detach_owner_lost_route. destruct (route_init _) as [x|] eqn:E; [|done].
  apply route_init_Ok in E as [-> _]. cbn. intros [= _ <-]. intros j Hj.
  exact (write_local (with_worker r "detached" EmptyString 0 u) d j Hj).
Qed.

Lemma retire_row_step retired parked ne ae ob now acc r acc' :
  store_inv acc.2 → present acc.2 r → retire_row retired parked ne ae ob now acc r = Ok acc' →
  prim acc.2 acc'.2 ∧ local (sr_sandbox_id r) acc.2 acc'.2.
Proof.
  destruct acc as [[lost dels] d]. simpl. intros Hi Hr H. destruct (row_id _ _ _ Hi Hr) as [_ Hv].
  rewrite Hv in H. simpl in H. destruct (negb _); [simplify_eq; split; [by apply prim_core|done]|].
  assert (∀ x y, delete_sandbox_route r "node_lost" REBOOTED_LOSS_REASON now d = (x, y) →
    prim d y ∧ local (sr_sandbox_id r) d y) as Hdel.
  { intros b y E. split; [by eapply delete_route_prim|].
    pose proof (delete_route_local r "node_lost" REBOOTED_LOSS_REASON now d) as Hl. by rewrite E in Hl. }
  assert (∀ x y, detach_owner_lost_route r ob now d = Ok (x, y) → prim d y ∧ local (sr_sandbox_id r) d y) as Hdet.
  { intros x y E. split; [by eapply detach_prim|by eapply detach_local]. }
  destruct (sandbox_owner_loss_disposition r);
    [| |simplify_eq; split; [by apply prim_core|done]]; (destruct (_ && _) eqn:Ha;
    [bind_inv H; apply route_init_Ok in Hx as [-> Hva]; simplify_eq; split;
      [eapply prim_frame; [apply (write_update d r); [done|done|exact Hva|by split_and!]|done]
      |exact (write_local (with_epoch (with_state r "parked" ob) ne (Z.max 0 ae)) d)]|]).
  - bind_inv H. destruct x as [r' d1]. simplify_eq. by eapply Hdet.
  - destruct (delete_sandbox_route _ _ _ _ _) as [b d1] eqn:E. simplify_eq. by eapply Hdel.
Qed.

Lemma retire_prims d j ret ne ae inv ob now lost dels d' :
  store_inv d → retire_node_epochs d j ret ne ae inv ob now = Ok (lost, dels, d') → rtc prim d d'.
Proof.
  intros Hi H. unfold retire_node_epochs in H. destruct (_ || _); [by simplify_eq|].
  eapply (fold_rows_prims _ snd _ ([], [], d) (lost, dels, d')); [|done|by apply select_NoDup| |exact H].
  - intros acc r acc'. apply retire_row_step.
  - rewrite Forall_forall. intros r Hr. by eapply (select_elem _ d).
Qed.

Lemma deletes_prims l e reason now d :
  rtc prim d (foldl (λ d r, (delete_sandbox_route r e reason now d).2) d l).
Proof.
  revert d. induction l as [|r l IH]; intros d; simpl; [done|]. eapply rtc_l; [|apply IH].
  destruct (delete_sandbox_route _ _ _ _ _) eqn:E. by eapply delete_route_prim.
Qed.

Lemma settle_lost_prims routes e now d removed d' :
  store_inv d → NoDup (sr_sandbox_id <$> routes) → Forall (present d) routes →
  settle_lost routes e now d = Ok (removed, d') → rtc prim d d'.
Proof.
  intros Hi Hnd Hp H. unfold settle_lost in H. bind_inv H. injection H as _ <-.
  etrans; [|apply deletes_prims]. eapply (fold_rows_prims _ id); [|done| | |exact Hx].
  - intros d1 r d2 Hi1 Hr H1. bind_inv H1. destruct x0 as [r' d3]. simplify_eq.
    split; [by eapply detach_prim|by eapply detach_local].
  - eapply sublist_NoDup; [exact Hnd|]. apply fmap_sublist, sublist_filter.
  - rewrite Forall_forall in *. intros r [_ Hr]%list_elem_of_filter. by apply Hp.
Qed.

Lemma present_id_inj d r r' : present d r → present d r' → sr_sandbox_id r = sr_sandbox_id r' → r = r'.
Proof. unfold present. congruence. Qed.

Lemma NoDup_fmap_present d l : Forall (present d) l → NoDup l → NoDup (sr_sandbox_id <$> l).
Proof.
  intros Hp. induction 1 as [|r l Hnin Hnd IH]; csimpl; [constructor|].
  apply Forall_cons in Hp as [Hr Hp]. constructor; [|by apply IH].
  intros (r' & He & Hin)%list_elem_of_fmap. rewrite Forall_forall in Hp.
  assert (r = r') as ->; [|done]. eapply present_id_inj; eauto.
Qed.

Lemma jobs_NoDup d targets :
  store_inv d → NoDup targets →
  NoDup (mjoin ((λ j, select_sandboxes (λ r, bool_decide (sr_job_id r = j)) d) <$> targets)).
Proof.
  intros Hi. induction 1 as [|j js Hnin Hnd IH]; csimpl; [constructor|].
  apply NoDup_app. split_and!; [|intros r Hr Hin|done].
  - eapply NoDup_fmap_1, select_NoDup; done.
  - apply select_elem in Hr as (_ & Hj & _); [|done]. apply bool_decide_eq_true in Hj.
    apply list_elem_of_join in Hin as (l & Hl & Hin). apply list_elem_of_fmap in Hin as (j' & -> & Hj').
    apply select_elem in Hl as (_ & Hl & _); [|done]. apply bool_decide_eq_true in Hl. congruence.
Qed.

Lemma delete_jobs_prims d jobs e now removed d' :
  store_inv d → delete_sandboxes_for_jobs_with_error d jobs e now = Ok (removed, d') → rtc prim d d'.
Proof.
  intros Hi H. unfold delete_sandboxes_for_jobs_with_error in H.
  set (targets := sorted_by _ _) in H. bind_inv H.
  assert (NoDup targets) as Hnd by (unfold targets; rewrite sorted_by_perm; apply NoDup_remove_dups).
  assert (∀ r, r ∈ mjoin ((λ j, select_sandboxes (λ r, bool_decide (sr_job_id r = j)) d) <$> targets) →
    present d r ∧ valid r) as Hel.
  { intros r (l & Hl & Hin)%list_elem_of_join. apply list_elem_of_fmap in Hin as (j & -> & _).
    apply select_elem in Hl; tauto. }
  apply read_rows_valid in Hx as ->; [|rewrite Forall_forall; intros r Hr; by apply Hel].
  assert (Forall (present d) (mjoin ((λ j, select_sandboxes (λ r, bool_decide (sr_job_id r = j)) d) <$> targets)))
    as Hp by (rewrite Forall_forall; intros r Hr; by apply Hel).
  eapply settle_lost_prims; [done| |exact Hp|exact H].
  eapply NoDup_fmap_present; [exact Hp|]. by apply jobs_NoDup.
Qed.

Lemma delete_stale_prims d jobs nodes older now removed d' :
  store_inv d → delete_stale_sandboxes d jobs nodes older now = Ok (removed, d') → rtc prim d d'.
Proof.
  intros Hi H. unfold delete_stale_sandboxes in H. bind_inv H. apply read_selected in Hx as ->; [|done].
  bind_inv H. apply res_filter_Ok in Hx as [_ ->]. eapply settle_lost_prims; [done| | |exact H].
  - eapply sublist_NoDup; [by apply (select_NoDup (λ _, true))|]. apply fmap_sublist, sublist_filter.
  - rewrite Forall_forall. intros r [_ Hr]%list_elem_of_filter. by apply (select_elem (λ _, true) d).
Qed.

(** ** Migrations *)

Lemma write_migration_prim m d d' : write_sandbox_migration m d = Ok d' → prim d d'.
Proof.
  unfold write_sandbox_migration. rewrite raise_if_Ok. intros [Ha [= <-]].
  split; [by apply rows_same|]. apply (migs_write _ _ m); [|done]. intros E. by rewrite E in Ha.
Qed.

Lemma begin_migration_prim d s i n j u now m d' :
  store_inv d → begin_sandbox_migration d s i n j u now = Ok (m, d') → prim d d'.
Proof.
  intros Hi H. unfold begin_sandbox_migration in H. rewrite raise_if_Ok in H. destruct H as [_ H].
  destruct (sandbox_migrations d !! strip i); [simplify_eq; by apply prim_core|].
  rewrite raise_if_Ok in H. destruct H as [_ H]. bind_inv H. destruct x as [r|]; [|done].
  rewrite raise_if_Ok in H. destruct H as [_ H]. bind_inv H. simplify_eq. by eapply write_migration_prim.
Qed.

Lemma advance_migration_prim d i ex ph mu now o d' :
  advance_sandbox_migration d i ex ph mu now = Ok (o, d') → prim d d'.
Proof.
  unfold advance_sandbox_migration. rewrite raise_if_Ok. intros [_ H].
  destruct (sandbox_migrations d !! strip i); [|simplify_eq; by apply prim_core].
  destruct (negb _); [simplify_eq; by apply prim_core|]. bind_inv H. simplify_eq.
  by eapply write_migration_prim.
Qed.

Lemma mark_waking_prim d r now d' : store_inv d → present d r → mark_waking r now d = Ok d' → prim d d'.
Proof.
  intros Hi Hr H. unfold mark_waking in H. bind_inv H. apply route_init_Ok in Hx as [-> Hv]. simplify_eq.
  apply (write_update d r); [done|done|exact Hv|by split_and!].
Qed.

Lemma complete_migration_prims d i wake now o d' :
  store_inv d → complete_sandbox_migration d i wake now = Ok (o, d') → rtc prim d d'.
Proof.
  intros Hi H. unfold complete_sandbox_migration in H.
  destruct (sandbox_migrations d !! strip i) as [m|]; [|by simplify_eq]. bind_inv H.
  apply get_row in Hx as ->; [|done].
  destruct (sandboxes d !! mg_sandbox_id m) as [r|] eqn:Er; [|case_bool_decide; by simplify_eq].
  apply rows_of in Er; [|done]. case_bool_decide.
  - destruct (_ && _); [|by simplify_eq]. bind_inv H. simplify_eq. apply rtc_once. by eapply mark_waking_prim.
  - destruct (_ || _); [by simplify_eq|]. bind_inv H. bind_inv H. simplify_eq.
    apply write_migration_prim in Hx0. eapply rtc_r; [|exact Hx0].
    destruct wake; [|by simplify_eq]. apply rtc_once. by eapply mark_waking_prim.
Qed.

Lemma orphans_prims l d :
  Forall (λ m, active m = false) l →
  rtc prim d (foldl (λ d m, on_migrations <[mg_migration_id m := m]> d) d l).
Proof.
  intros Hl. revert d. induction Hl as [|m l Hm _ IH]; intros d; simpl; [done|].
  eapply rtc_l; [|apply IH]. split; [by apply rows_same|]. apply (migs_write _ _ m); [congruence|done].
Qed.

Lemma terminalize_prims d n now out d' :
  terminalize_orphaned_sandbox_migrations d n now = Ok (out, d') → rtc prim d d'.
Proof.
  unfold terminalize_orphaned_sandbox_migrations. rewrite raise_if_Ok. intros [_ [= <- <-]].
  apply orphans_prims. rewrite Forall_fmap. by apply Forall_true.
Qed.

Lemma route_migration_prims parse str d i now o d' :
  store_inv d → route_sandbox_migration parse str d i now = Ok (o, d') → rtc prim d d'.
Proof.
  intros Hi H. unfold route_sandbox_migration in H.
  destruct (sandbox_migrations d !! strip i) as [m|]; [|by simplify_eq]. bind_inv H.
  apply get_row in Hx as ->; [|done].
  destruct (sandboxes d !! mg_sandbox_id m) as [r|] eqn:Er; [|by simplify_eq].
  apply rows_of in Er; [|done]. case_bool_decide; [by simplify_eq|].
  destruct (_ || _); [by simplify_eq|]. bind_inv H. destruct x as [[[dg rp] tg]|]; [|by simplify_eq].
  bind_inv H. apply route_init_Ok in Hx0 as [-> Hv]. bind_inv H. simplify_eq.
  apply write_migration_prim in Hx0. eapply rtc_l; [|by apply rtc_once].
  eapply prim_frame; [apply (write_update d r); [done|done|exact Hv|by split_and!]|done].
Qed.

(** ** Inventory *)

Lemma valid_touch r a u : valid r → 0 ≤ a → valid (with_times (with_epoch r (sr_node_epoch r) a) (sr_created_at r) u).
Proof.
  unfold valid. intros H Ha. apply Z.ltb_ge in Ha. destruct r.
  unfold route_init, is_portable_parked_route in *. cbn in *. apply raise_if_Ok in H as [? H].
  apply raise_if_Ok. split; [done|]. destruct sr_spec; try done.
  repeat (let E := fresh in apply raise_if_Ok in H as [E H]).
  by repeat (apply raise_if_Ok; split; [assumption|]).
Qed.

Lemma touch_prims ids a u d : store_inv d → rtc prim d (touch ids a u d).
Proof.
  unfold touch. revert d. induction ids as [|id ids IH]; intros d Hi; simpl; [done|].
  set (f := λ r, with_times _ _ _).
  assert (prim d (on_sandboxes (alter f id) d)) as Hs.
  { destruct (sandboxes d !! id) as [r|] eqn:Er.
    - destruct (row_id _ _ _ Hi Er) as [<- Hv].
      apply alter_update; [done|apply valid_touch; [done|lia]|by split_and!].
    - apply prim_core. split_and!; try done. cbn. apply map_eq. intros j.
      destruct (decide (id = j)) as [<-|?]; [by rewrite lookup_alter_eq, Er|by rewrite lookup_alter_ne]. }
  eapply rtc_l; [exact Hs|]. apply IH. by eapply prim_inv.
Qed.

(** The projected routes stand for the stored rows. *)
Definition pass_ok (st : pass_state) : Prop :=
  store_inv (ps_db st) ∧
  ∀ id e, ps_existing st !! id = Some e → sr_sandbox_id e = id ∧
    ∃ row, sandboxes (ps_db st) !! id = Some row ∧ continues row e.

Lemma continues_refl r : continues r r.
Proof. by split_and!. Qed.
Lemma continues_trans r1 r2 r3 : continues r1 r2 → continues r2 r3 → continues r1 r3.
Proof.
  intros (A1 & A2 & A3 & A4 & A5) (B1 & B2 & B3 & B4 & B5). split_and!; try congruence.
  intros Hd. rewrite B5, A5; [done|done|]. unfold deleting. by rewrite A5.
Qed.

Lemma write_dependencies_core rows d : same_core d (write_storage_dependencies rows d).
Proof.
  unfold write_storage_dependencies. revert d.
  induction rows as [|[[id g] s] rows IH]; intros d; simpl; [done|].
  eapply same_core_trans; [|apply IH]. done.
Qed.

Lemma same_core_inv d d' : store_inv d → same_core d d' → store_inv d'.
Proof. intros Hi Hc. eapply prim_inv; [done|by apply prim_core]. Qed.

Lemma candidate_spec existing item state v n j u ne ae ob c :
  inventory_candidate existing item state v n j u ne ae ob = Ok c →
  valid c ∧ sr_sandbox_id c = sr_sandbox_id existing ∧
  sr_delete_operation_id c = sr_delete_operation_id existing ∧ sr_worker_state c = sr_worker_state existing ∧
  sr_state c = state.
Proof.
  unfold inventory_candidate. intros [Hc Hv]%route_init_Ok. rewrite <-Hc in Hv. split; [exact Hv|]. clear Hv.
  destruct existing. rewrite Hc. repeat split.
Qed.

Lemma update_current_continues e c adoption :
  route_update_is_current e c adoption = true → sr_delete_operation_id c = sr_delete_operation_id e →
  continues e c.
Proof.
  unfold route_update_is_current. intros H Hd. destruct (same_sandbox_route_incarnation e c) eqn:E; [|done].
  by apply incarnation_continues.
Qed.

Lemma reconcile_item_prims parse pub n j u ne ae ob unique st item st' :
  pass_ok st → reconcile_item parse pub n j u ne ae ob unique st item = Ok st' →
  pass_ok st' ∧ rtc prim (ps_db st) (ps_db st').
Proof.
  intros [Hi He] H. unfold reconcile_item in H.
  destruct (ps_existing st !! inv_sandbox_id item) as [e|] eqn:Ee; [|simplify_eq; by split].
  destruct (item_route_state item) as [state|]; [|simplify_eq; by split].
  bind_inv H. bind_inv H. apply candidate_spec in Hx0 as (Hv & Hid & Hdel & _ & _).
  destruct (_ || _) eqn:Hcur; [simplify_eq; by split|]. apply orb_false_iff in Hcur as [_ Hcur%negb_false_iff].
  pose proof (update_current_continues _ _ _ Hcur Hdel) as Hc.
  destruct (He _ _ Ee) as [Hide (row & Hrow & Hrc)].
  assert (continues row x0) as Hrx by (by eapply continues_trans).
  destruct (row_id _ _ _ Hi Hrow) as [Hidr _].
  bind_inv H. destruct (if route_eqb x1 e then _ else _) as [d1 touched] eqn:Ed.
  bind_inv H. destruct (if negb unique && _ then _ else _) as [d2 deps] eqn:Ed2. injection H as <-. cbn.
  assert (prim (ps_db st) d1 ∧ ∃ row', sandboxes d1 !! inv_sandbox_id item = Some row' ∧ continues row' x0 ∧
            local (inv_sandbox_id item) (ps_db st) d1) as (Hp & row' & Hr' & Hc' & Hl).
  { destruct (route_eqb x1 e); simplify_eq.
    - split; [by apply prim_core|]. exists row. by split_and!.
    - split; [apply (write_update _ row); [done|by rewrite Hidr|done|done]|].
      exists x0. destruct (write_sandbox_tables x0 (ps_db st) Hv) as (E1 & _).
      rewrite Hid, Hide in E1. split_and!; [by rewrite E1, lookup_insert_eq|apply continues_refl|].
      rewrite <- Hide, <- Hid. apply write_local. }
  assert (same_core d1 d2) as Hcore.
  { destruct (negb unique && _); simplify_eq; [apply write_dependencies_core|done]. }
  assert (prim (ps_db st) d2) as Hp2 by (by eapply prim_frame).
  split; [|by apply rtc_once]. split; cbn; [by eapply prim_inv|]. destruct Hcore as (-> & _).
  intros id e'. rewrite Hid, Hide. intros [[<- <-]|[Hne Hin]]%lookup_insert_Some.
  - split; [congruence|]. by exists row'.
  - destruct (He _ _ Hin) as [? (row2 & Hrow2 & ?)]. split; [done|]. exists row2.
    split; [|done]. by rewrite Hl by done.
Qed.

Lemma reconcile_absent_step ne ae ob now dt acc r acc' :
  store_inv acc.2 → present acc.2 r → reconcile_absent ne ae ob now dt acc r = Ok acc' →
  prim acc.2 acc'.2 ∧ local (sr_sandbox_id r) acc.2 acc'.2.
Proof.
  destruct acc as [removed d]. simpl. intros Hi Hr H.
  destruct (_ || _); [simplify_eq; split; [by apply prim_core|done]|]. bind_inv H.
  destruct (match dt with Some _ => _ | None => _ end); [simplify_eq; split; [by apply prim_core|done]|].
  assert (∀ b y, delete_sandbox_route r EmptyString EmptyString now d = (b, y) →
    prim d y ∧ local (sr_sandbox_id r) d y) as Hdel.
  { intros b y E. split; [by eapply delete_route_prim|].
    pose proof (delete_route_local r EmptyString EmptyString now d) as Hl. by rewrite E in Hl. }
  destruct (sandbox_owner_loss_disposition r).
  - bind_inv H. destruct x0 as [r' d1]. simplify_eq. split; [by eapply detach_prim|by eapply detach_local].
  - destruct (delete_sandbox_route _ _ _ _ _) as [b d1] eqn:E. simplify_eq. by eapply Hdel.
  - destruct (delete_sandbox_route _ _ _ _ _) as [b d1] eqn:E. simplify_eq. by eapply Hdel.
Qed.

Lemma reconcile_items_prims parse pub n j u ne ae ob unique items st st' :
  pass_ok st → res_foldl (reconcile_item parse pub n j u ne ae ob unique) st items = Ok st' →
  pass_ok st' ∧ rtc prim (ps_db st) (ps_db st').
Proof.
  revert st. induction items as [|i items IH]; intros st Hst H; simpl in H; [by simplify_eq|].
  bind_inv H. apply reconcile_item_prims in Hx as [Hx Hs]; [|done].
  destruct (IH _ Hx H) as [? ?]. split; [done|]. by etrans.
Qed.

Lemma pending_fold_core ids d : same_core d (foldl (λ d id, on_pending (delete id) d) d ids).
Proof. revert d. induction ids as [|i ids IH]; intros d; simpl; [done|]. eapply same_core_trans; [|apply IH]. done. Qed.

Lemma reconcile_prims parse pub d url obs n j rep ob ne ae complete now removed stale d' :
  store_inv d →
  reconcile_sandboxes_for_node parse pub d url obs n j rep ob ne ae complete now = Ok (removed, stale, d') →
  rtc prim d d'.
Proof.
  intros Hi H. unfold reconcile_sandboxes_for_node in H. rewrite raise_if_Ok in H. destruct H as [_ H].
  bind_inv H. clear Hx. bind_inv H. apply read_selected in Hx as ->; [|done]. bind_inv H.
  apply reconcile_items_prims in Hx as [[Hi1 _] Hs1].
  2: { split; [done|]. cbn. intros id e Hin. apply elem_of_list_to_map_2 in Hin.
       apply list_elem_of_fmap in Hin as (r & [= -> ->] & Hr).
       apply select_elem in Hr as (Hr & _); [|done]. split; [done|]. exists r. split; [done|apply continues_refl]. }
  cbn in Hs1. set (d1 := foldl _ _ (ps_accepted x0)) in H.
  assert (prim (ps_db x0) d1) as Hs2.
  { apply prim_core. eapply same_core_trans; [apply write_dependencies_core|apply pending_fold_core]. }
  assert (store_inv d1) as Hi2 by (by eapply prim_inv). bind_inv H. apply read_selected in Hx as ->; [|done].
  bind_inv H. destruct x1 as [rm d2]. injection H as _ _ <-.
  assert (rtc prim d1 d2) as Hs3.
  { destruct complete; [|by simplify_eq].
    eapply (fold_rows_prims _ snd _ ([], d1) (rm, d2)); [|done|by apply select_NoDup| |exact Hx].
    - intros acc r acc'. apply reconcile_absent_step.
    - rewrite Forall_forall. intros r Hr. by eapply (select_elem _ d1). }
  etrans; [exact Hs1|]. eapply rtc_l; [exact Hs2|]. etrans; [exact Hs3|].
  apply touch_prims. by eapply prims_inv.
Qed.
