(* ===== verification/RouteAuthority.v ===== *)
(** * What the route store guarantees

    Stores reached from the empty one by the store's transactions, in any order and
    with any arguments, and the claims about them. *)
From S2P Require Import Prelude PyFloat Json PyString Resources Bytes PyTime ManagedProcess.
From S2P Require Import PlacementAccounting Routes RouteStore Programs Demands RoutingSnapshot RouteRecovery RouteMigrations RouteSafety.
From stdpp Require Import gmap strings.
From Stdlib Require Import QArith.
Local Close Scope Q_scope.
Local Open Scope py_scope.
Local Open Scope Z_scope.

Section authority.
Context (parse : dict string json → res descriptor).
Context (publication : dict string json → res (dict string json)).
Context (py_str : json → string).
Context (julianday : string → option Q).

(** The transactions that leave the routes alone: the program requests, processes
    and execs of a sandbox, and the demand for capacity.  A lookup made before the
    transaction ([d0]) may be of an older store. *)
Inductive side_step (d d' : db) : Prop :=
| sd_program d0 route id ro t conn now row changed :
    upsert_program_request_transition_with_change d0 d route id ro t conn now = Ok (row, changed, d') → side_step d d'
| sd_managed d0 route record out : upsert_managed_process d0 d route record = Ok (out, d') → side_step d d'
| sd_exec route now : upsert_exec d route now = Ok d' → side_step d d'
| sd_delete_exec id : d' = (delete_exec d id).2 → side_step d d'
| sd_pending id r now g op h f : upsert_pending d id r now g op h f = Ok d' → side_step d d'
| sd_clear id : d' = clear_pending d id → side_step d d'
| sd_consume items now out : consume_pending_demand d items now = Ok (out, d') → side_step d d'
| sd_image id tag now : d' = upsert_pending_image_build d id tag now → side_step d d'
| sd_clear_image id : d' = clear_pending_image_build d id → side_step d d'
| sd_consume_images items now out : consume_pending_image_builds d items now = Ok (out, d') → side_step d d'
| sd_warmup id image r n ttl image_id now out :
    upsert_image_warmup d id image r n ttl image_id now = Ok (out, d') → side_step d d'
| sd_mark d0 id node image image_id now out :
    mark_image_warmup_node d0 d id node image image_id now = Ok (out, d') → side_step d d'
| sd_delete_warmup id : d' = (delete_image_warmup d id).2 → side_step d d'
| sd_prepared id r n ttl image now out :
    upsert_prepared_capacity d id r n ttl image now = Ok (out, d') → side_step d d'
| sd_delete_prepared id out : delete_prepared_capacity d id = Ok (out, d') → side_step d d'
| sd_builder id n ttl now out : upsert_prepared_builder d id n ttl now = Ok (out, d') → side_step d d'
| sd_delete_builder id : d' = (delete_prepared_builder d id).2 → side_step d d'
| sd_consume_builders items now : d' = (consume_prepared_builders d items now).2 → side_step d d'
| sd_demand now dm : pending_demand julianday d now = Ok (dm, d') → side_step d d'
| sd_pending_demand id r now g op h f s dm :
    upsert_pending_with_demand julianday d id r now g op h f = Ok (s, dm, d') → side_step d d'
| sd_load execs now st : load julianday d execs now = Ok (st, d') → side_step d d'
| sd_active_pending now out : active_pending d now = Ok (out, d') → side_step d d'
| sd_active_images now out : active_image_builds d now = Ok (out, d') → side_step d d'
| sd_active_prepared now out : active_prepared d now = Ok (out, d') → side_step d d'
| sd_active_builders now : d' = (active_prepared_builders d now).2 → side_step d d'.

(** One committed transaction other than a direct [upsert_sandbox]; one that raises
    leaves the store as it was. *)
Inductive fenced_step (d d' : db) : Prop :=
| st_set_state route expected state ne ae su now o :
    set_sandbox_state_if_current d route expected state ne ae su now = Ok (o, d') → fenced_step d d'
| st_wakes requests now out : reserve_sandbox_wakes d requests now = Ok (out, d') → fenced_step d d'
| st_confirm_wake route ne ae program now o p :
    confirm_sandbox_wake d route ne ae program now = Ok (o, p, d') → fenced_step d d'
| st_begin_detach route cold now o : begin_sandbox_detach d route cold now = Ok (o, d') → fenced_step d d'
| st_complete_detach route now o : complete_sandbox_detach d route now = Ok (o, d') → fenced_step d d'
| st_observation route adoption now o :
    confirm_sandbox_observation d route adoption now = Ok (o, d') → fenced_step d d'
| st_allocate a hash op uuid now us r p :
    allocate_sandbox_create_with_pending d a hash op uuid now us = Ok (r, p, d') → fenced_step d d'
| st_retarget route a op now o : retarget_create route a op now d = Ok (o, d') → fenced_step d d'
| st_reserve_group members g now us out :
    reserve_create_intents d members g now us = Ok (out, d') → fenced_step d d'
| st_retarget_group moves g now out : retarget_create_intents d moves g now = Ok (out, d') → fenced_step d d'
| st_confirm_group routes g now out : confirm_creates d routes g now = Ok (out, d') → fenced_step d d'
| st_ensure_group g h spec n now out : ensure_sandbox_group d g h spec n now = Ok (out, d') → fenced_step d d'
| st_delete_group g now : d' = (delete_sandbox_group d g now).2 → fenced_step d d'
| st_prepare_delete id uuid now o : prepare_sandbox_delete d id uuid now = Ok (o, d') → fenced_step d d'
| st_delete_current id g c del now o :
    delete_sandbox_if_current d id g c del now = Ok (o, d') → fenced_step d d'
| st_delete id now : d' = delete_sandbox d id now → fenced_step d d'
| st_retire job retired ne ae inv ob now lost dels :
    retire_node_epochs d job retired ne ae inv ob now = Ok (lost, dels, d') → fenced_step d d'
| st_jobs jobs e now out : delete_sandboxes_for_jobs_with_error d jobs e now = Ok (out, d') → fenced_step d d'
| st_stale jobs nodes older now out :
    delete_stale_sandboxes d jobs nodes older now = Ok (out, d') → fenced_step d d'
| st_reconcile url obs n j rep ob ne ae complete now removed stale :
    reconcile_sandboxes_for_node parse publication d url obs n j rep ob ne ae complete now
      = Ok (removed, stale, d') → fenced_step d d'
| st_begin_migration s i n j u now m : begin_sandbox_migration d s i n j u now = Ok (m, d') → fenced_step d d'
| st_advance i expected phase mu now o :
    advance_sandbox_migration d i expected phase mu now = Ok (o, d') → fenced_step d d'
| st_complete i wake now o : complete_sandbox_migration d i wake now = Ok (o, d') → fenced_step d d'
| st_route i now o : route_sandbox_migration parse py_str d i now = Ok (o, d') → fenced_step d d'
| st_orphans n now out : terminalize_orphaned_sandbox_migrations d n now = Ok (out, d') → fenced_step d d'
| st_side : side_step d d' → fenced_step d d'.

(** Any committed transaction.  [upsert_sandbox] is public too: wake placement calls it
    with an observation it read before. *)
Inductive store_step (d d' : db) : Prop :=
| st_fenced : fenced_step d d' → store_step d d'
| st_upsert route adoption now stored :
    upsert_sandbox d route adoption now = Ok (stored, d') → store_step d d'.

Definition reachable (d : db) : Prop := rtc store_step empty_db d.

Lemma program_core d0 d route id ro t conn now row changed d' :
  upsert_program_request_transition_with_change d0 d route id ro t conn now = Ok (row, changed, d') → same_core d d'.
Proof.
  unfold upsert_program_request_transition_with_change. intros [_ [_ H]%raise_if_Ok]%raise_if_Ok.
  apply res_bind_Ok in H as (prev & _ & H). apply res_bind_Ok in H as (st & _ & H). destruct st; [by simplify_eq|].
  apply res_bind_Ok in H as (e & _ & H). unfold write_program_request in H. apply res_bind_Ok in H as ([r u] & _ & H).
  destruct e, u; try by simplify_eq.
  all: apply res_bind_Ok in H as (? & _ & [= _ _ <-]); done.
Qed.
Lemma managed_core d0 d route record out d' :
  upsert_managed_process d0 d route record = Ok (out, d') → same_core d d'.
Proof.
  unfold upsert_managed_process. intros [_ H]%raise_if_Ok. apply res_bind_Ok in H as (_ & _ & H).
  apply raise_if_Ok in H as [_ H]. apply res_bind_Ok in H as (c & _ & H).
  assert (write_managed_process d route record = Ok (out, d') → same_core d d') as Hw.
  { unfold write_managed_process. clear H. intros (? & _ & [_ H]%raise_if_Ok)%res_bind_Ok.
    apply res_bind_Ok in H as (e & _ & H). destruct e as [e|]; [|by simplify_eq]. apply raise_if_Ok in H as [_ H].
    destruct (_ =? _); [|by simplify_eq]. apply raise_if_Ok in H as [_ H]. destruct (outdated _ _); by simplify_eq. }
  destruct c as [c|]; [|by auto]. case_bool_decide; [by simplify_eq|by auto].
Qed.
Lemma fold_core {A B} (f : B * db → A → B * db) l :
  (∀ acc x, same_core acc.2 (f acc x).2) → ∀ acc, same_core acc.2 (foldl f acc l).2.
Proof.
  intros Hf. induction l as [|x l IH]; intros acc; simpl; [done|]. eapply same_core_trans; [apply Hf|apply IH].
Qed.
Lemma consume_core d items now out d' : consume_pending_demand d items now = Ok (out, d') → same_core d d'.
Proof.
  unfold consume_pending_demand, active_pending. intros ([rows d1] & Ha & H)%res_bind_Ok.
  apply res_bind_Ok in Ha as (ex & _ & [= <- <-]). destruct (filter _ _); [by simplify_eq|].
  injection H as H. set (d1 := on_pending _ d) in H. apply (same_core_trans _ d1); [done|].
  change d' with (out, d').2. rewrite <-H. apply (fold_core consume_one _) with (acc := ([], d1)). intros [acc d0] x. simpl.
  destruct (pending d0 !! _); [destruct (_ && _)|]; done.
Qed.
Lemma consume_images_core d items now out d' : consume_pending_image_builds d items now = Ok (out, d') → same_core d d'.
Proof.
  unfold consume_pending_image_builds, active_image_builds. intros ([rows d1] & Ha & H)%res_bind_Ok.
  apply res_bind_Ok in Ha as (ex & _ & [= <- <-]). destruct (filter _ _); [by simplify_eq|].
  injection H as H. set (d1 := on_image_builds _ d) in H. apply (same_core_trans _ d1); [done|].
  change d' with (out, d').2. rewrite <-H. apply (fold_core consume_image_build _) with (acc := ([], d1)). intros [acc d0] x. simpl.
  destruct (image_builds d0 !! _); [destruct (_ && _)|]; done.
Qed.
Lemma consume_builders_core d items now : same_core d (consume_prepared_builders d items now).2.
Proof.
  unfold consume_prepared_builders, active_prepared_builders. destruct (builder_from_row <$> _); [done|].
  set (d1 := on_builders _ d). apply (same_core_trans _ d1); [done|].
  apply (fold_core consume_builder _) with (acc := ([], d1)). intros [acc d0] x. simpl.
  destruct (prepared_builders d0 !! _); [destruct (_ && _)|]; done.
Qed.
Lemma prune_prim d now d' : prune_expired julianday d now = Ok d' → prim d d'.
Proof.
  unfold prune_expired. intros (c1 & _ & H)%res_bind_Ok. apply res_bind_Ok in H as (c2 & _ & [= <-]).
  split; [|by apply migs_keep]. apply rows_keep; [done..|]. simpl. apply map_filter_subseteq.
Qed.

Lemma demand_prim d now dm d' : pending_demand julianday d now = Ok (dm, d') → prim d d'.
Proof.
  unfold pending_demand. intros (d1 & H1 & H)%res_bind_Ok. apply res_bind_Ok in H as (? & _ & [= _ <-]).
  by eapply prune_prim.
Qed.
Lemma side_prim d d' : side_step d d' → prim d d'.
Proof.
  destruct 1 as [????????? H|???? H|?? H|? ->|??????? H|? ->|??? H|??? ->|? ->|??? H|???????? H|??????? H|? ->|??????? H
    |?? H|????? H|? ->|?? ->|?? H|????????? H|??? H|?? H|?? H|?? H|? ->]; try (by apply prim_core).
  - eapply prim_core, program_core, H.
  - eapply prim_core, managed_core, H.
  - unfold upsert_exec in H. apply raise_if_Ok in H as [_ [= <-]]. by apply prim_core.
  - unfold upsert_pending, upsert_pending_unlocked in H. apply res_bind_Ok in H as ([s d1] & H & [= <-]).
    apply res_bind_Ok in H as (? & _ & [= _ <-]). by apply prim_core.
  - eapply prim_core, consume_core, H.
  - eapply prim_core, consume_images_core, H.
  - unfold upsert_image_warmup in H. apply raise_if_Ok in H as [_ [_ H]%raise_if_Ok]. apply res_bind_Ok in H as (? & _ & H).
    apply res_bind_Ok in H as (? & _ & [= _ <-]). by apply prim_core.
  - unfold mark_image_warmup_node in H. apply prim_core. destruct (_ || _); [by simplify_eq|]. destruct (warmup_target _ _ _ _); [|by simplify_eq].
    case_bool_decide; [by simplify_eq|]. destruct (warmup_target d _ _ _); [|by simplify_eq]. case_bool_decide; [by simplify_eq|].
    apply res_bind_Ok in H as (? & _ & [= _ <-]). done.
  - unfold delete_image_warmup. apply prim_core. by destruct (negb _).
  - unfold upsert_prepared_capacity in H. apply raise_if_Ok in H as [_ H]. apply res_bind_Ok in H as (? & _ & H).
    apply res_bind_Ok in H as (? & _ & H). apply res_bind_Ok in H as (? & _ & H). apply res_bind_Ok in H as (? & _ & [= _ <-]).
    by apply prim_core.
  - unfold delete_prepared_capacity in H. apply res_bind_Ok in H as (? & _ & [= _ <-]). by apply prim_core.
  - unfold upsert_prepared_builder in H. apply res_bind_Ok in H as (? & _ & [= _ <-]). by apply prim_core.
  - apply prim_core, consume_builders_core.
  - by eapply demand_prim.
  - unfold upsert_pending_with_demand in H. apply res_bind_Ok in H as ([s1 d1] & H1 & H).
    apply res_bind_Ok in H as ([dm1 d2] & H2 & [= _ _ <-]). eapply prim_after_core; [|by eapply demand_prim].
    unfold upsert_pending_unlocked in H1. apply res_bind_Ok in H1 as (? & _ & [= _ <-]). done.
  - unfold load in H. apply res_bind_Ok in H as (d1 & H1 & H). apply res_bind_Ok in H as (? & _ & [= _ <-]).
    by eapply prune_prim.
  - unfold active_pending in H. apply res_bind_Ok in H as (? & _ & [= _ <-]). by apply prim_core.
  - unfold active_image_builds in H. apply res_bind_Ok in H as (? & _ & [= _ <-]). by apply prim_core.
  - unfold active_prepared in H. apply res_bind_Ok in H as (? & _ & [= _ <-]). by apply prim_core.
Qed.

Lemma fenced_step_prims d d' : store_inv d → fenced_step d d' → rtc prim d d'.
Proof.
  intros Hi Hs. destruct Hs as [???????? H|??? H|??????? H|???? H|??? H|???? H|???????? H|????? H|????? H|???? H|???? H
    |?????? H|?? H|???? H|?????? H|?? H|????????? H|???? H|????? H|???????????? H|??????? H|?????? H|???? H|??? H|??? H|H].
  - eapply rtc_once, set_state_prim; eauto.
  - eapply reserve_wakes_prims; eauto.
  - unfold confirm_sandbox_wake in H. apply res_bind_Ok in H as ([u d1] & H1 & H). apply set_state_prim in H1; [|done].
    apply rtc_once. destruct u as [r|]; [|by simplify_eq]. destruct program as [[[rq ro] t]|]; [|by simplify_eq].
    apply res_bind_Ok in H as ([[row ch] d2] & H2 & [= _ _ <-]). eapply prim_frame; [done|]. by eapply program_core.
  - eapply rtc_once, begin_detach_prim; eauto.
  - eapply rtc_once, complete_detach_prim; eauto.
  - eapply rtc_once, confirm_observation_prim; eauto.
  - unfold allocate_sandbox_create_with_pending in H. apply raise_if_Ok in H as [_ H].
    eapply rtc_once, allocate_prim; eauto.
  - eapply rtc_once, retarget_prim; eauto.
  - eapply reserve_intents_prims; eauto.
  - eapply retarget_intents_prims; eauto.
  - eapply confirm_creates_prims; eauto.
  - unfold ensure_sandbox_group in H. apply raise_if_Ok in H as [_ [= _ <-]]. by apply rtc_once, prim_core.
  - subst. by apply rtc_once, prim_core.
  - eapply rtc_once, prepare_delete_prim; eauto.
  - eapply rtc_once, delete_if_current_prim; eauto.
  - subst. apply rtc_once, delete_id_prim.
  - eapply retire_prims; eauto.
  - eapply delete_jobs_prims; eauto.
  - eapply delete_stale_prims; eauto.
  - eapply reconcile_prims; eauto.
  - eapply rtc_once, begin_migration_prim; eauto.
  - eapply rtc_once, advance_migration_prim; eauto.
  - eapply complete_migration_prims; eauto.
  - eapply route_migration_prims; eauto.
  - eapply terminalize_prims; eauto.
  - by apply rtc_once, side_prim.
Qed.

Lemma store_step_inv d d' : store_inv d → store_step d d' → store_inv d'.
Proof.
  intros Hi [Hs|route adoption now stored H].
  - by eapply prims_inv, fenced_step_prims.
  - destruct (upsert_cases _ _ _ _ _ _ Hi H) as [(-> & _)|Hw]; [done|by eapply written_back_inv].
Qed.
Lemma steps_inv d d' : store_inv d → rtc store_step d d' → store_inv d'.
Proof. intros Hi Hs. induction Hs; eauto using store_step_inv. Qed.

Lemma reachable_inv_store d : reachable d → store_inv d.
Proof. apply steps_inv, empty_inv. Qed.

Lemma store_step_high_water d d' id : store_inv d → store_step d d' → high_water d id ≤ high_water d' id.
Proof.
  intros Hi [Hs|route adoption now stored H].
  - apply fenced_step_prims in Hs; [|done]. clear Hi. induction Hs as [|d1 d2 d3 [H1 _] _ IH]; [done|].
    pose proof (rows_step_high_water _ _ id H1). lia.
  - destruct (upsert_cases _ _ _ _ _ _ Hi H) as [(-> & _)|Hw]; [done|].
    rewrite (written_back_high_water _ _ _ _ Hw). case_bool_decide; lia.
Qed.
Lemma steps_high_water d d' id : store_inv d → rtc store_step d d' → high_water d id ≤ high_water d' id.
Proof.
  intros Hi Hs. induction Hs as [|d1 d2 d3 H1 _ IH]; [done|].
  pose proof (store_step_high_water _ _ id Hi H1). specialize (IH (store_step_inv _ _ Hi H1)). lia.
Qed.

(** C2. The invariant of the route store, over every transaction including a direct
    [upsert_sandbox]: in every reachable store each row is filed under its id and
    passes the record's validation (in particular a detaching or detached route is a
    fully published park), no generation, live or lost, exceeds the id's high-water
    mark, and a sandbox has at most one active migration.  A loss may be as recent as
    the live route only after an [upsert_sandbox] wrote the lost incarnation back:
    every other transaction keeps recorded losses older than the live routes. *)
Theorem route_store_invariant d :
  reachable d →
  (∀ id r, sandboxes d !! id = Some r →
     sr_sandbox_id r = id ∧ route_init r = Ok r ∧ sr_generation r ≤ high_water d id ∧
     (sr_worker_state r ≠ "attached" → is_portable_parked_route r = true)) ∧
  (∀ id l, sandbox_losses d !! id = Some l → sl_generation l ≤ high_water d id) ∧
  (∀ k1 k2 m1 m2, sandbox_migrations d !! k1 = Some m1 → sandbox_migrations d !! k2 = Some m2 →
     active m1 = true → active m2 = true → mg_sandbox_id m1 = mg_sandbox_id m2 → k1 = k2) ∧
  (losses_older d → ∀ d', rtc fenced_step d d' → losses_older d').
Proof.
  intros Hd%reachable_inv_store. pose proof Hd as [Hr Hl _ Hone]. split_and!; [|done|done|].
  - intros id r H. destruct (Hr _ _ H) as (? & Hv & ?). split_and!; try done.
    intros Hw. apply valid_facts in Hv as (_ & _ & [?|?]); done.
  - clear Hr Hl Hone. intros Ho d' Hs. induction Hs as [|d1 d2 d3 H1 _ IH]; [done|].
    pose proof (fenced_step_prims _ _ Hd H1) as Hp. apply IH; [by eapply prims_inv|by eapply prims_older].
Qed.

(** ** What a history makes of a row *)

(** Within one transaction that is not a direct upsert *)
Lemma prims_row d d' id r' :
  store_inv d → rtc prim d d' → sandboxes d' !! id = Some r' →
  (∃ r, sandboxes d !! id = Some r ∧ continues r r') ∨ high_water d id < sr_generation r'.
Proof.
  intros Hi Hs. revert r'. apply (rtc_ind_r (λ d', high_water d id ≤ high_water d' id ∧
    ∀ r', sandboxes d' !! id = Some r' →
      (∃ r, sandboxes d !! id = Some r ∧ continues r r') ∨ high_water d id < sr_generation r') d) in Hs; [by apply Hs| |].
  { split; [done|]. intros r' H. left. exists r'. split; [done|apply continues_refl]. }
  intros d1 d2 Hs1 [H1 _] [Hh IH]. pose proof (rows_step_high_water _ _ id H1) as Hhw. split; [lia|]. intros r'.
  destruct H1 as [E _ _|r0 r1 H0 _ Hc E _ _|r1 _ Hlt _ E _ _|i E _ _]; rewrite E; [apply IH|..].
  - intros [[Hid <-]|[_ H]]%lookup_insert_Some; [|by apply IH]. rewrite Hid in H0.
    destruct (IH _ H0) as [(r & Hr & Hk)|?]; [left; exists r; split; [done|by eapply continues_trans]|right].
    destruct Hc as (_ & Hg & _). lia.
  - intros [[Hid <-]|[_ H]]%lookup_insert_Some; [|by apply IH]. right. rewrite Hid in Hlt. lia.
  - intros [_ H]%lookup_delete_Some. by apply IH.
Qed.

Lemma continues_identity r r' : continues r r' → same_identity r r'.
Proof. intros (? & ? & ? & ? & _). by split_and!. Qed.
Lemma same_identity_trans r1 r2 r3 : same_identity r1 r2 → same_identity r2 r3 → same_identity r1 r3.
Proof. intros (? & ? & ? & ?) (? & ? & ? & ?). split_and!; congruence. Qed.

(** The history from [d] to [d'] holds a direct [upsert_sandbox] that wrote the row of
    [id], at a store and with an observation of which [P] holds. *)
Definition upserted (P : db → SandboxRoute → Prop) (id : string) (d d' : db) : Prop :=
  ∃ d1 d2 route adoption now stored,
    rtc store_step d d1 ∧ upsert_sandbox d1 route adoption now = Ok (stored, d2) ∧ rtc store_step d2 d' ∧
    sr_sandbox_id route = id ∧ sandboxes d2 !! id = Some stored ∧ P d1 route.

Lemma upserted_later P id d d1 d2 : upserted P id d d1 → store_step d1 d2 → upserted P id d d2.
Proof.
  intros (e1 & e2 & route & ad & now & st & H1 & H2 & H3 & ?) Hs. exists e1, e2, route, ad, now, st.
  split_and!; try done; [by eapply rtc_r|naive_solver..].
Qed.

(** [K] is kept by every transaction but an upsert for which [P] holds. *)
Lemma history_row (K : SandboxRoute → SandboxRoute → Prop) (P : db → SandboxRoute → Prop) r d d' :
  (∀ x, K r x → sr_generation x = sr_generation r) → K r r →
  (∀ x y, K r x → continues x y → K r y) →
  (∀ d1 route x stored, K r x → sandboxes d1 !! sr_sandbox_id r = Some x → same_identity x stored →
     sr_delete_operation_id stored = sr_delete_operation_id route → K r stored ∨ P d1 route) →
  (∀ d1 route, sandboxes d1 !! sr_sandbox_id r = None → P d1 route) →
  store_inv d → sandboxes d !! sr_sandbox_id r = Some r → rtc store_step d d' →
  ∀ r', sandboxes d' !! sr_sandbox_id r = Some r' →
    K r r' ∨ sr_generation r < sr_generation r' ∨ upserted P (sr_sandbox_id r) d d'.
Proof.
  intros HK Hrefl Hc Hup Hnone Hi Hr Hs. set (id := sr_sandbox_id r) in *.
  assert (sr_generation r ≤ high_water d id) as Hg by (destruct (inv_rows d Hi _ _ Hr) as (_ & _ & ?); done).
  revert d' Hs. apply (rtc_ind_r (λ d', ∀ r', sandboxes d' !! id = Some r' →
    K r r' ∨ sr_generation r < sr_generation r' ∨ upserted P id d d') d).
  { rewrite Hr. intros r' [= <-]. by left. }
  intros d1 d2 H1 Hs1 IH r' Hr'. pose proof (steps_inv _ _ Hi H1) as Hi1. pose proof (steps_high_water _ _ id Hi H1) as Hw.
  destruct Hs1 as [Hf|route ad now stored Hu].
  - destruct (prims_row _ _ _ _ Hi1 (fenced_step_prims _ _ Hi1 Hf) Hr') as [(x & Hx & Hxc)|Hlt]; [|right; left; lia].
    destruct (IH _ Hx) as [Hk|[Hlt|Hu]]; [left; by eapply Hc|right; left; destruct Hxc as (_ & ? & _); lia|right; right].
    by eapply upserted_later, st_fenced.
  - destruct (upsert_cases _ _ _ _ _ _ Hi1 Hu) as [(-> & _)|Hw1].
    { destruct (IH _ Hr') as [?|[?|?]]; [by left|by right; left|right; right]. by eapply upserted_later, st_upsert. }
    destruct (decide (sr_sandbox_id route = id)) as [Eid|Hne].
    + pose proof (wb_sandboxes _ _ _ _ Hw1) as E. rewrite Eid in E. rewrite E, lookup_insert_eq in Hr'. injection Hr' as ->.
      assert (P d1 route → upserted P id d d2) as Hup'.
      { intros HP. exists d1, d2, route, ad, now, r'. split_and!; try done. by rewrite E, lookup_insert_eq. }
      destruct (sandboxes d1 !! id) as [x|] eqn:Ex; [|right; right; by apply Hup', Hnone].
      assert (same_identity x r') as Hxi by (apply (wb_row _ _ _ _ Hw1); by rewrite Eid).
      destruct (IH _ eq_refl) as [Hk|[Hlt|Hu']].
      * destruct (Hup d1 route x r' Hk Ex Hxi (wb_delete _ _ _ _ Hw1)) as [?|?]; [by left|right; right; by apply Hup'].
      * right; left. destruct Hxi as (_ & ? & _). lia.
      * right; right. by eapply upserted_later, st_upsert.
    + rewrite (wb_sandboxes _ _ _ _ Hw1), lookup_insert_ne in Hr' by done.
      destruct (IH _ Hr') as [?|[?|?]]; [by left|by right; left|right; right]. by eapply upserted_later, st_upsert.
Qed.

(** C3. Generations fence incarnations, over every history.  A transaction other than
    a direct [upsert_sandbox] either keeps the incarnation an id has (generation,
    create operation and spec hash) or gives it a generation above every one the id
    ever had.  So after any history the route of an id is the same incarnation or has
    a strictly larger generation, unless an [upsert_sandbox] of the history wrote an
    observation while the id had no route: that is the one way back. *)
Theorem generation_never_reused d d' id r :
  reachable d → rtc store_step d d' → sandboxes d !! id = Some r →
  (∀ d'' r'', fenced_step d' d'' → sandboxes d'' !! id = Some r'' →
     (∃ x, sandboxes d' !! id = Some x ∧ same_identity x r'') ∨ sr_generation r < sr_generation r'') ∧
  (∀ r', sandboxes d' !! id = Some r' →
     same_identity r r' ∨ sr_generation r < sr_generation r' ∨
     upserted (λ d1 _, sandboxes d1 !! id = None) id d d').
Proof.
  intros Hi%reachable_inv_store Hs Hr. destruct (inv_rows d Hi _ _ Hr) as (<- & _ & Hg). split.
  - intros d'' r'' Hf Hr''. pose proof (steps_inv _ _ Hi Hs) as Hi'. pose proof (steps_high_water _ _ (sr_sandbox_id r) Hi Hs).
    destruct (prims_row _ _ _ _ Hi' (fenced_step_prims _ _ Hi' Hf) Hr'') as [(x & Hx & Hc)|?]; [left|right; lia].
    exists x. split; [done|by apply continues_identity].
  - apply (history_row same_identity (λ d1 _, sandboxes d1 !! sr_sandbox_id r = None)); try done.
    + intros x (_ & ? & _). done.
    + intros x y Hx Hc%continues_identity. by eapply same_identity_trans.
    + intros d1 route x stored Hx _ Hxs _. left. by eapply same_identity_trans.
Qed.


(** C40. [upsert_sandbox] itself does not look for a recorded delete, nor for a row at
    all: on a reachable store, an observation that passes the record's validation and
    is current for the row (or finds no row) is stored with the delete operation it
    carries.  So one that was read before a delete was recorded clears the recorded
    delete, and after the delete completed it puts the deleted incarnation back. *)
Theorem upsert_undoes_delete d observed adoption now :
  reachable d → route_init observed = Ok observed →
  (∀ r, sandboxes d !! sr_sandbox_id observed = Some r → route_update_is_current r observed adoption = true) →
  ∃ stored d', upsert_sandbox d observed adoption now = Ok (stored, d') ∧
    sandboxes d' !! sr_sandbox_id observed = Some stored ∧ same_identity observed stored ∧
    sr_delete_operation_id stored = sr_delete_operation_id observed ∧ sandbox_losses d' = sandbox_losses d.
Proof.
  intros Hi%reachable_inv_store Hv Hcur.
  assert (∃ stored d', upsert_sandbox d observed adoption now = Ok (stored, d')) as (stored & d' & H).
  { unfold upsert_sandbox, get_sandbox_unlocked. destruct (sandboxes d !! sr_sandbox_id observed) as [r|] eqn:Er.
    - destruct (row_id _ _ _ Hi Er) as [_ Hvr]. rewrite Hvr. cbn [res_bind]. rewrite (Hcur _ eq_refl). cbn [negb].
      rewrite valid_touched by done. cbn [res_bind]. by eexists _, _.
    - cbn [res_bind]. rewrite valid_touched by done. cbn [res_bind]. by eexists _, _. }
  exists stored, d'. split; [done|]. destruct (upsert_cases _ _ _ _ _ _ Hi H) as [(_ & Hr & Hc)|Hw].
  - by rewrite (Hcur _ Hr) in Hc.
  - destruct Hw as [_ Hid Hd _ E _ L _]. split_and!; try done. by rewrite E, lookup_insert_eq.
Qed.

(** C7. Stale arguments change nothing: when the stored route of an id is not the
    incarnation (or owner) the caller holds, or is gone, a worker receipt, a wake
    reservation, both detach phases, a retargeted create and a lifecycle update
    report it and leave the store as it was; only a lifecycle update with malformed
    arguments raises instead. *)
Theorem stale_incarnation_fenced d route a op cold adoption pid now expected state ne ae su :
  reachable d →
  (∀ r, sandboxes d !! sr_sandbox_id route = Some r → same_sandbox_route_incarnation r route = false) →
  confirm_sandbox_observation d route adoption now = Ok (None, d) ∧
  reserve_sandbox_wake d route pid now = Ok (None, d) ∧
  begin_sandbox_detach d route cold now = Ok (None, d) ∧
  complete_sandbox_detach d route now = Ok (None, d) ∧
  retarget_create route a op now d = Ok (None, d) ∧
  set_sandbox_state_if_current d route expected state ne ae su now =
    (let! _ := lifecycle_proof expected state ne ae in Ok (None, d)).
Proof.
  intros Hi%reachable_inv_store Hst.
  assert (get_sandbox_unlocked d (sr_sandbox_id route) = Ok (sandboxes d !! sr_sandbox_id route)) as Hget.
  { unfold get_sandbox_unlocked. destruct (sandboxes d !! sr_sandbox_id route) as [r|] eqn:Er; [|done].
    destruct (row_id _ _ _ Hi Er) as [_ ->]. done. }
  unfold confirm_sandbox_observation, reserve_sandbox_wake, reserve_sandbox_wakes, begin_sandbox_detach,
    complete_sandbox_detach, retarget_create, set_sandbox_state_if_current.
  cbn [res_foldl reserve_wake]. rewrite Hget. cbn [res_bind].
  destruct (sandboxes d !! sr_sandbox_id route) as [r|] eqn:Er;
    [rewrite (Hst r eq_refl), ?orb_true_r; cbn [negb orb]; rewrite ?orb_true_r|];
    cbn [res_bind dset dget]; rewrite ?decide_True by done; split_and!; try done;
    by destruct (lifecycle_proof expected state ne ae).
Qed.

(** C8. Routing a migration is atomic: when it commits, the journal was staged and
    the route was the migration's incarnation at its source with no delete
    recorded; afterwards the same incarnation is parked and attached at the
    destination, the journal is routed, no exec session of the sandbox is left, and
    every other route and journal is unchanged. *)
Theorem migration_routes_atomically d i now m r' m' d' :
  reachable d → sandbox_migrations d !! strip i = Some m → mg_phase m ≠ "routed" →
  route_sandbox_migration parse py_str d i now = Ok (Some (m', r'), d') →
  mg_phase m = "staged" ∧
  (∃ r, sandboxes d !! mg_sandbox_id m = Some r ∧ at_source r m = true ∧
        sr_generation r' = sr_generation r ∧ sr_create_operation_id r' = sr_create_operation_id r) ∧
  at_destination r' m = true ∧ sr_state r' = "parked" ∧ sr_worker_state r' = "attached" ∧
  mg_phase m' = "routed" ∧
  sandboxes d' = <[mg_sandbox_id m := r']> (sandboxes d) ∧
  sandbox_migrations d' = <[mg_migration_id m := m']> (sandbox_migrations d) ∧
  (∀ s e, exec_sessions d' !! s = Some e → er_sandbox_id e ≠ mg_sandbox_id m).
Proof.
  intros Hi%reachable_inv_store Hm Hph H. unfold route_sandbox_migration in H. rewrite Hm in H.
  bind_inv H. apply get_row in Hx as ->; [|done].
  destruct (sandboxes d !! mg_sandbox_id m) as [r|] eqn:Er; [|done].
  destruct (row_id _ _ _ Hi Er) as [Hid _].
  rewrite bool_decide_false in H by done. destruct (_ || _) eqn:Hg; [done|].
  apply orb_false_iff in Hg as [Hst%negb_false_iff Hsrc%negb_false_iff]. apply bool_decide_eq_true in Hst.
  bind_inv H. destruct x as [[[dg rp] tg]|]; [|done]. bind_inv H. apply route_init_Ok in Hx0 as [-> Hv].
  bind_inv H. unfold write_sandbox_migration in Hx0. apply raise_if_Ok in Hx0 as [_ [= <-]].
  set (w := with_snapshot _ _ _ _ _ _) in *. injection H as <- <- <-.
  destruct (write_sandbox_tables w d Hv) as (E1 & _ & _ & E4).
  split_and!; try done.
  - exists r. by split_and!.
  - unfold at_source in Hsrc. rewrite !andb_true_iff, !bool_decide_eq_true in Hsrc.
    destruct Hsrc as [[[[[[? ?] ?] ?] ?] ?] ?]. unfold at_destination. cbn.
    rewrite !andb_true_iff, !bool_decide_eq_true. done.
  - etrans; [exact E1|]. by rewrite <- Hid.
  - by rewrite <- E4.
  - cbn. intros s e He%map_lookup_filter_Some. by destruct He as [_ He].
Qed.

(** ** Retiring a boot *)

Lemma fold_rows_post {A} (f : A → SandboxRoute → res A) (π : A → db) (Q : db → string → Prop) l a a' :
  (∀ acc r acc', store_inv (π acc) → present (π acc) r → f acc r = Ok acc' →
     prim (π acc) (π acc') ∧ local (sr_sandbox_id r) (π acc) (π acc') ∧ Q (π acc') (sr_sandbox_id r)) →
  (∀ d1 d2 id, sandboxes d1 !! id = sandboxes d2 !! id → Q d1 id → Q d2 id) →
  store_inv (π a) → NoDup (sr_sandbox_id <$> l) → Forall (present (π a)) l → res_foldl f a l = Ok a' →
  ∀ id, if bool_decide (id ∈ sr_sandbox_id <$> l) then Q (π a') id
        else sandboxes (π a') !! id = sandboxes (π a) !! id.
Proof.
  intros Hf HQ. revert a. induction l as [|r l IH]; intros a Hi Hnd Hp H id; simpl in H.
  { simplify_eq. by rewrite bool_decide_false by apply not_elem_of_nil. }
  bind_inv H. csimpl in *. apply NoDup_cons in Hnd as [Hnin Hnd]. apply Forall_cons in Hp as [Hr Hp].
  destruct (Hf _ _ _ Hi Hr Hx) as (Hs & Hl & Hq).
  assert (Forall (present (π x)) l) as Hp'.
  { rewrite Forall_forall in *. intros r' Hr'. unfold present. rewrite Hl; [by apply Hp|].
    intros Heq. apply Hnin. rewrite <- Heq. by apply list_elem_of_fmap_2. }
  specialize (IH x (prim_inv _ _ Hi Hs) Hnd Hp' H id).
  destruct (decide (id = sr_sandbox_id r)) as [->|Hne].
  - rewrite bool_decide_true by left. rewrite bool_decide_false in IH by done. by eapply HQ; [symmetry|].
  - rewrite (bool_decide_ext _ (id ∈ sr_sandbox_id <$> l)) by (rewrite elem_of_cons; tauto).
    destruct (bool_decide _); [done|]. rewrite IH. by apply Hl.
Qed.

(** After its row was settled, an id that a retired boot still owns is deleting. *)
Definition settled (retired : list string) (d : db) (id : string) : Prop :=
  ∀ r', sandboxes d !! id = Some r' → sr_node_epoch r' ∈ retired → deleting r'.

Lemma retire_row_settles retired parked ne ae ob now acc r acc' :
  (ne ∉ retired) → (EmptyString ∉ retired) →
  store_inv acc.2 → present acc.2 r → retire_row retired parked ne ae ob now acc r = Ok acc' →
  settled retired acc'.2 (sr_sandbox_id r).
Proof.
  destruct acc as [[lost dels] d]. simpl. intros Hne Hemp Hi Hr H. destruct (row_id _ _ _ Hi Hr) as [_ Hv].
  rewrite Hv in H. simpl in H. intros r' Hr' Hin.
  case_bool_decide as Hret; simpl in H; [|simplify_eq; rewrite Hr in Hr'; by simplify_eq].
  assert (∀ w d1, valid w → sr_sandbox_id w = sr_sandbox_id r → (sr_node_epoch w ∉ retired) →
    sandboxes d1 = sandboxes (write_sandbox w d) → sandboxes d1 !! sr_sandbox_id r = Some r' → False) as Hw.
  { intros w d1 Hvw Hid Hep E. destruct (write_sandbox_tables w d Hvw) as (E1 & _).
    rewrite E, E1, Hid, lookup_insert_eq. intros [= ->]. done. }
  unfold sandbox_owner_loss_disposition in H. destruct (nonempty (sr_delete_operation_id r)) eqn:Hd.
  { simplify_eq. cbn in Hr'. rewrite Hr in Hr'. by simplify_eq. }
  exfalso. destruct (is_portable_parked_route r); (destruct (_ && _) eqn:Ha;
    [bind_inv H; apply route_init_Ok in Hx as [-> Hva]; simplify_eq; by refine (Hw _ _ Hva _ _ _ Hr')|]).
  - bind_inv H. destruct x as [w d1]. unfold detach_owner_lost_route in Hx. bind_inv Hx.
    apply route_init_Ok in Hx0 as [-> Hva]. simplify_eq. by refine (Hw _ _ Hva _ _ _ Hr').
  - unfold delete_sandbox_route in H. rewrite Hr in H.
    rewrite Z.eqb_refl, !bool_decide_true in H by done. cbn in H. simplify_eq. cbn in Hr'.
    by rewrite lookup_delete_eq in Hr'.
Qed.

(** Retiring boots settles every route they owned: afterwards a route of the
    job that still carries a retired boot is one with a recorded delete; all others
    were adopted by the new boot, detached with their published park, or recorded
    as lost. *)
Theorem retire_settles_boots d job retired ne ae inv ob now lost dels d' id r' :
  reachable d → job ≠ EmptyString → ne ≠ EmptyString →
  retire_node_epochs d job retired ne ae inv ob now = Ok (lost, dels, d') →
  sandboxes d' !! id = Some r' → sr_job_id r' = job →
  sr_node_epoch r' ∈ retired → sr_node_epoch r' ≠ ne → sr_node_epoch r' ≠ EmptyString →
  sr_delete_operation_id r' ≠ EmptyString.
Proof.
  intros Hi%reachable_inv_store Hj Hne H Hr' Hjob Hin Hnn Hnz. unfold retire_node_epochs in H.
  set (ret := filter _ retired) in H.
  assert (sr_node_epoch r' ∈ ret) as Hret by (by apply list_elem_of_filter).
  rewrite (bool_decide_false (ret = [])) in H by (intros E; rewrite E in Hret; by apply not_elem_of_nil in Hret).
  unfold nonempty in H. rewrite !bool_decide_false in H by done. cbn [negb orb] in H.
  assert (settled ret d' id → sr_delete_operation_id r' ≠ EmptyString) as Hfin.
  { intros Hs. specialize (Hs _ Hr' Hret). unfold deleting, nonempty in Hs.
    apply negb_true_iff, bool_decide_eq_false in Hs. done. }
  assert (ne ∉ ret) as Hn1 by (unfold ret; rewrite list_elem_of_filter; tauto).
  assert (EmptyString ∉ ret) as Hn2 by (unfold ret; rewrite list_elem_of_filter; tauto).
  assert (Hpost := λ Hf, fold_rows_post _ snd (settled ret) _ ([], [], d) (lost, dels, d') Hf
    ltac:(intros d1 d2 i E HQ r1; rewrite <- E; apply HQ) Hi
    (select_NoDup (λ r, bool_decide (sr_job_id r = job)) d Hi)
    ltac:(rewrite Forall_forall; intros r Hr; by eapply (select_elem _ d)) H id).
  assert (if bool_decide (id ∈ sr_sandbox_id <$> select_sandboxes (λ r, bool_decide (sr_job_id r = job)) d)
          then settled ret d' id else sandboxes d' !! id = sandboxes d !! id) as Hp.
  { apply Hpost. intros acc r acc' H1 H2 H3. destruct (retire_row_step _ _ _ _ _ _ _ _ _ H1 H2 H3).
    split_and!; try done. exact (retire_row_settles _ _ _ _ _ _ _ _ _ Hn1 Hn2 H1 H2 H3). }
  clear Hpost. case_bool_decide as Hsel; [by apply Hfin|].
  exfalso. apply Hsel. rewrite Hp in Hr'. destruct (row_id _ _ _ Hi Hr') as [Hid _]. rewrite <- Hid.
  apply list_elem_of_fmap_2. unfold select_sandboxes. rewrite sorted_by_perm, list_elem_of_filter.
  split; [by apply bool_decide_eq_true|]. apply (list_elem_of_fmap_2 snd _ (id, r')).
  by apply elem_of_map_to_list.
Qed.

End authority.

(** ** A delayed observation of a detaching route *)

Lemma route_init_raises r : ¬ valid r → ∃ e, route_init r = Raise e.
Proof.
  intros Hn. destruct (route_init r) as [r'|e] eqn:E; [|by exists e].
  apply route_init_Ok in E as [_ ?]. done.
Qed.

Lemma running_not_portable r : sr_state r = "running" → is_portable_parked_route r = false.
Proof. unfold is_portable_parked_route, state_or_unknown. by intros ->. Qed.

Lemma candidate_detached_raises existing item v n j u ne ae ob :
  sr_worker_state existing ≠ "attached" →
  ∃ e, inventory_candidate existing item "running" v n j u ne ae ob = Raise e.
Proof.
  intros Hw. apply route_init_raises. intros (_ & _ & [Ha|Hp])%valid_facts; [done|].
  by rewrite running_not_portable in Hp.
Qed.

(** C39. One delayed observation rejects a whole inventory: when a worker's first
    observation says running of a sandbox whose route is by now detaching or
    detached, reconciliation raises while it builds the candidate route, before any
    of the freshness and ownership tests that would ignore the observation, so the
    rest of the inventory is not applied either. *)
Theorem delayed_running_rejects_inventory parse pub str jd d r item rest url n j rep ob ne ae complete now :
  reachable parse pub str jd d →
  sandboxes d !! inv_sandbox_id item = Some r → sr_worker_state r ≠ "attached" →
  item_route_state item = Some "running" →
  ∃ e, reconcile_sandboxes_for_node parse pub d url (item :: rest) n j rep ob ne ae complete now = Raise e.
Proof.
  intros Hi%reachable_inv_store Hr Hw Hs. unfold reconcile_sandboxes_for_node.
  destruct (_ || _ || _); cbn [raise_if]; [by eexists|].
  destruct (parse_iso_datetime ob) as [dt|e]; cbn [res_bind]; [|by eexists].
  destruct (read_rows _) as [rows|e] eqn:Erows; cbn [res_bind]; [|by eexists].
  apply read_selected in Erows as ->; [|done].
  set (existing := list_to_map _). cbn [res_foldl].
  assert (existing !! inv_sandbox_id item = Some r) as Hex.
  { apply elem_of_list_to_map_1.
    - rewrite <- list_fmap_compose. apply (select_NoDup _ d Hi).
    - apply list_elem_of_fmap. exists r. destruct (row_id _ _ _ Hi Hr) as [Hid Hv].
      split; [by rewrite Hid|]. unfold select_sandboxes. rewrite sorted_by_perm, list_elem_of_filter.
      split; [apply bool_decide_eq_true; rewrite Hid; left|].
      apply (list_elem_of_fmap_2 snd _ (inv_sandbox_id item, r)). by apply elem_of_map_to_list. }
  unfold reconcile_item at 1. cbn [ps_existing]. rewrite Hex, Hs. unfold validated_snapshot.
  rewrite bool_decide_false by done. cbn [andb res_bind].
  destruct (candidate_detached_raises r item None (strip n) (strip j) (strip url) ne ae ob Hw) as [e ->].
  by exists e.
Qed.

(** ** Concrete stores *)

Definition db_parked : db :=
  db_of (set_sandbox_state_if_current db_created (row_of db_created "s") ["creating"] "parked"
           (Some "boot1") (Some 1)
           (mkSnapUpd (Some "storage-native-v1") (Some "sha256:d") (Some "repo") (Some "tag")
              (Some [("schema", JStr "storage-native-v1")])) "t2").
Definition db_detaching : db := db_of (begin_sandbox_detach db_parked (row_of db_parked "s") false "t3").
Definition db_deleting : db := db_of (prepare_sandbox_delete db_parked "s" "1" "t4").
Definition db_deleted : db :=
  db_of (delete_sandbox_if_current db_deleting "s" 1 EmptyString EmptyString "t5").

Definition demo_parse (s : dict string json) : res descriptor := Raise (ValueError "unsupported").
Definition demo_publication (s : dict string json) : res (dict string json) := Ok s.
Definition demo_str (j : json) : string := EmptyString.
Abbreviation demo_reach := (reachable demo_parse demo_publication demo_str demo_julianday).
Abbreviation demo_fenced_step := (fenced_step demo_parse demo_publication demo_str demo_julianday).
Abbreviation demo_store_step := (store_step demo_parse demo_publication demo_str demo_julianday).

Lemma demo_created : demo_reach db_created.
Proof.
  apply rtc_once. apply st_fenced. eapply (st_allocate _ _ _ _ _ _ demo_allocation demo_hash (Some "create-1") EmptyString "t1" 1).
  vm_compute. reflexivity.
Qed.
Lemma demo_step_parked : demo_store_step db_created db_parked.
Proof.
  apply st_fenced. eapply (st_set_state _ _ _ _ _ _ (row_of db_created "s") ["creating"] "parked" (Some "boot1") (Some 1)
    (mkSnapUpd (Some "storage-native-v1") (Some "sha256:d") (Some "repo") (Some "tag")
       (Some [("schema", JStr "storage-native-v1")])) "t2"). vm_compute. reflexivity.
Qed.
Lemma demo_parked : demo_reach db_parked.
Proof. eapply rtc_r; [apply demo_created|apply demo_step_parked]. Qed.
Lemma demo_detaching : demo_reach db_detaching.
Proof.
  eapply rtc_r; [apply demo_parked|]. apply st_fenced. eapply (st_begin_detach _ _ _ _ _ _ (row_of db_parked "s") false "t3").
  vm_compute. reflexivity.
Qed.
Lemma demo_deleting : demo_reach db_deleting.
Proof. eapply rtc_r; [apply demo_parked|]. apply st_fenced. eapply (st_prepare_delete _ _ _ _ _ _ "s" "1" "t4"). vm_compute. reflexivity. Qed.

Definition db_retired : db :=
  db_of3 (retire_node_epochs db_deleting "j" ["boot1"] "boot2" 0 (Some []) "t6" "t6").
Definition db_planned : db :=
  db_of (begin_sandbox_migration db_parked (row_of db_parked "s") "m" "n2" "j2" "http://n2/" "t6").
Definition db_staged : db :=
  db_of (advance_sandbox_migration db_planned "m" ["planned"] "staged"
    (mkMigUpd (Some "storage-native-v1") None
       (Some [("publication", JObj [("manifest_digest", JStr "sha256:d"); ("repository", JStr "repo");
                                    ("tag", JStr "tag")])]) None None) "t7").

Lemma demo_step_retired : demo_store_step db_deleting db_retired.
Proof.
  apply st_fenced. eapply (st_retire _ _ _ _ _ _ "j" ["boot1"] "boot2" 0 (Some []) "t6" "t6"). vm_compute. reflexivity.
Qed.
Lemma demo_staged : demo_reach db_staged.
Proof.
  eapply rtc_r; [eapply rtc_r; [apply demo_parked|]|].
  - apply st_fenced. eapply (st_begin_migration _ _ _ _ _ db_planned (row_of db_parked "s") "m" "n2" "j2" "http://n2/" "t6").
    vm_compute. reflexivity.
  - apply st_fenced. eapply (st_advance _ _ _ _ _ db_staged "m" ["planned"] "staged"
      (mkMigUpd (Some "storage-native-v1") None
       (Some [("publication", JObj [("manifest_digest", JStr "sha256:d"); ("repository", JStr "repo");
                                    ("tag", JStr "tag")])]) None None) "t7"). vm_compute. reflexivity.
Qed.

Lemma route_store_invariant_witness :
  sr_worker_state (row_of db_detaching "s") = "detaching" ∧
  is_portable_parked_route (row_of db_detaching "s") = true.
Proof.
  split; [by vm_compute|].
  apply (proj1 (route_store_invariant demo_parse demo_publication demo_str demo_julianday db_detaching
    demo_detaching) "s" (row_of db_detaching "s")); by vm_compute.
Defined.

Lemma generation_never_reused_witness :
  (∀ d'' r'', demo_fenced_step db_parked d'' →
     sandboxes d'' !! "s" = Some r'' →
     (∃ x, sandboxes db_parked !! "s" = Some x ∧ same_identity x r'') ∨ 1 < sr_generation r'') ∧
  (same_identity (row_of db_created "s") (row_of db_parked "s") ∨ 1 < sr_generation (row_of db_parked "s") ∨
   upserted demo_parse demo_publication demo_str demo_julianday (λ d1 _, sandboxes d1 !! "s" = None) "s" db_created db_parked).
Proof.
  destruct (generation_never_reused demo_parse demo_publication demo_str demo_julianday db_created db_parked
    "s" (row_of db_created "s") demo_created (rtc_once _ _ demo_step_parked) ltac:(by vm_compute)) as [H1 H2].
  split; [exact H1|exact (H2 (row_of db_parked "s") ltac:(by vm_compute))].
Defined.


Definition late_route : SandboxRoute := with_identity (row_of db_parked "s") 7 "create-1" demo_hash.
Lemma late_route_stale r :
  sandboxes db_parked !! sr_sandbox_id late_route = Some r → same_sandbox_route_incarnation r late_route = false.
Proof.
  assert (sandboxes db_parked !! sr_sandbox_id late_route = Some (row_of db_parked "s")) as -> by (by vm_compute).
  intros H. apply Some_inj in H as <-. by vm_compute.
Qed.

Lemma stale_incarnation_fenced_witness :
  confirm_sandbox_observation db_parked late_route true "t9" = Ok (None, db_parked).
Proof.
  exact (proj1 (stale_incarnation_fenced demo_parse demo_publication demo_str demo_julianday db_parked
    late_route demo_allocation "create-2" false true EmptyString "t9" ["parked"] "running" None None
    keep_snapshot demo_parked late_route_stale)).
Defined.

Definition journal_of (d : db) (id : string) : SandboxMigration :=
  default (mkMigration EmptyString EmptyString EmptyString EmptyString EmptyString EmptyString EmptyString
             EmptyString EmptyString 0 EmptyString EmptyString EmptyString EmptyString [] false EmptyString
             EmptyString EmptyString) (sandbox_migrations d !! id).
Definition db_routed : db := db_of (route_sandbox_migration demo_parse demo_str db_staged "m" "t8").

Lemma migration_routes_atomically_witness :
  mg_phase (journal_of db_staged "m") = "staged" ∧
  at_destination (row_of db_routed "s") (journal_of db_staged "m") = true.
Proof.
  destruct (migration_routes_atomically demo_parse demo_publication demo_str demo_julianday db_staged "m" "t8"
    (journal_of db_staged "m") (row_of db_routed "s") (journal_of db_routed "m") db_routed demo_staged)
    as (H0 & _ & H1 & _); [by vm_compute|by vm_compute|by vm_compute|].
  exact (conj H0 H1).
Defined.

Lemma retire_settles_boots_witness : sr_delete_operation_id (row_of db_retired "s") ≠ EmptyString.
Proof.
  refine (retire_settles_boots demo_parse demo_publication demo_str demo_julianday db_deleting "j" ["boot1"]
    "boot2" 0 (Some []) "t6" "t6" [] [row_of db_deleting "s"] db_retired "s" (row_of db_retired "s")
    demo_deleting _ _ _ _ _ _ _ _);
    [done|done|by vm_compute|by vm_compute|by vm_compute| |by vm_compute|by vm_compute].
  apply (bool_decide_unpack _). by vm_compute.
Defined.

Definition running_item : SandboxInventoryEntry :=
  mkInv "s" 1 "create-1" demo_hash "running" rq_zero EmptyString EmptyString EmptyString EmptyString [] None None None.

Lemma delayed_running_rejects_inventory_witness :
  match reconcile_sandboxes_for_node demo_parse demo_publication db_detaching "http://n" [running_item]
    "n" "j" ["s"] "t0" "boot1" 0 true "t9" with
  | Raise _ => True
  | Ok _ => False
  end.
Proof.
  destruct (delayed_running_rejects_inventory demo_parse demo_publication demo_str demo_julianday db_detaching
    (row_of db_detaching "s") running_item [] "http://n" "n" "j" ["s"] "t0" "boot1" 0 true "t9"
    demo_detaching) as [e ->]; [by vm_compute|by vm_compute|by vm_compute|done].
Defined.

Lemma upsert_undoes_delete_witness :
  sr_delete_operation_id (row_of db_deleting "s") = "delete-1" ∧
  ∃ stored d', upsert_sandbox db_deleting (row_of db_parked "s") true "t9" = Ok (stored, d') ∧
    sandboxes d' !! "s" = Some stored ∧ sr_delete_operation_id stored = EmptyString.
Proof.
  split; [by vm_compute|].
  destruct (upsert_undoes_delete demo_parse demo_publication demo_str demo_julianday db_deleting (row_of db_parked "s")
    true "t9" demo_deleting) as (stored & d' & H1 & H2 & _ & H3 & _).
  - by vm_compute.
  - intros r. assert (sandboxes db_deleting !! sr_sandbox_id (row_of db_parked "s") = Some (row_of db_deleting "s")) as -> by (by vm_compute).
    intros E. apply Some_inj in E as <-. by vm_compute.
  - exists stored, d'. split; [exact H1|]. split; [exact H2|exact H3].
Defined.
