(* ===== verification/RouteRefinement.v ===== *)
(** * The route store refines an incarnation registry

    The specification is a small state machine over what callers rely on: which
    incarnation of each sandbox id is live, the highest generation an id ever had,
    the generation of its last recorded loss, and which migrations hold a sandbox.
    Every transaction of the store but [upsert_sandbox] is simulated by a sequence of
    its steps; a direct [upsert_sandbox] is the one step that writes an observed
    incarnation back. *)
From S2P Require Import Prelude PyFloat Json PyString Resources Bytes.
From S2P Require Import PlacementAccounting Routes RouteStore RouteRecovery RouteMigrations RouteSafety RouteAuthority.
From stdpp Require Import gmap strings.
From Stdlib Require Import QArith.
Local Close Scope Q_scope.
Local Open Scope Z_scope.

(** ** The specification *)

(** An incarnation of a sandbox id, with the delete recorded for it *)
Record incarnation := mkInc {
  in_generation : Z;
  in_operation : string;
  in_spec_hash : string;
  in_delete : string
}.

Record registry := mkRegistry {
  rg_live : gmap string incarnation;
  rg_mark : gmap string Z;
  rg_lost : gmap string Z;
  rg_leases : gmap string string
}.
Definition rg_init : registry := mkRegistry ∅ ∅ ∅ ∅.

Definition mark_of (g : registry) (id : string) : Z := default 0 (rg_mark g !! id).

(** What may happen to the incarnations *)
Inductive live_step (g g' : registry) : Prop :=
| live_keep : rg_live g' = rg_live g → rg_mark g' = rg_mark g → rg_lost g' ⊆ rg_lost g → live_step g g'
| live_begin id i :
    mark_of g id < in_generation i → (∀ j, rg_live g !! id = Some j → in_delete j = EmptyString) →
    rg_live g' = <[id := i]> (rg_live g) → rg_mark g' = <[id := in_generation i]> (rg_mark g) →
    rg_lost g' = rg_lost g → live_step g g'
| live_delete id i delete_operation :
    rg_live g !! id = Some i → in_delete i = EmptyString →
    rg_live g' = <[id := mkInc (in_generation i) (in_operation i) (in_spec_hash i) delete_operation]> (rg_live g) →
    rg_mark g' = rg_mark g → rg_lost g' = rg_lost g → live_step g g'
| live_end id :
    rg_live g' = delete id (rg_live g) → rg_mark g' = rg_mark g →
    (rg_lost g' = rg_lost g ∨
     ∃ i, rg_live g !! id = Some i ∧ rg_lost g' = <[id := in_generation i]> (rg_lost g)) → live_step g g'.

(** What may happen to the migrations that hold a sandbox: one takes a sandbox no
    other holds, or some let go. *)
Inductive lease_step (g g' : registry) : Prop :=
| lease_take migration sandbox :
    (∀ other, rg_leases g !! other = Some sandbox → other = migration) →
    rg_leases g' = <[migration := sandbox]> (rg_leases g) → lease_step g g'
| lease_shrink : rg_leases g' ⊆ rg_leases g → lease_step g g'.

Record registry_step (g g' : registry) : Prop := { rs_live : live_step g g'; rs_lease : lease_step g g' }.

(** An observed incarnation is written back: over the row of that incarnation, with
    the delete the observation carries, or where no incarnation is live. *)
Record observe_step (id : string) (i : incarnation) (g g' : registry) : Prop := {
  os_same : ∀ j, rg_live g !! id = Some j →
    in_generation i = in_generation j ∧ in_operation i = in_operation j ∧ in_spec_hash i = in_spec_hash j;
  os_live : rg_live g' = <[id := i]> (rg_live g);
  os_mark : rg_mark g' = <[id := Z.max (in_generation i) (mark_of g id)]> (rg_mark g);
  os_lost : rg_lost g' = rg_lost g;
  os_leases : rg_leases g' = rg_leases g
}.
Definition any_step (g g' : registry) : Prop := registry_step g g' ∨ ∃ id i, observe_step id i g g'.

(** ** The abstraction *)

Definition incarnation_of (r : SandboxRoute) : incarnation :=
  mkInc (sr_generation r) (sr_create_operation_id r) (sr_spec_hash r) (sr_delete_operation_id r).
Definition lease_of (m : SandboxMigration) : option string :=
  if active m then Some (mg_sandbox_id m) else None.
Definition abstraction (d : db) : registry :=
  mkRegistry (incarnation_of <$> sandboxes d) (sandbox_generation_hwm d)
    (sl_generation <$> sandbox_losses d) (omap lease_of (sandbox_migrations d)).

Lemma mark_of_abstraction d id : mark_of (abstraction d) id = high_water d id.
Proof. done. Qed.

Lemma not_deleting_empty r : ¬ deleting r → sr_delete_operation_id r = EmptyString.
Proof. unfold deleting, nonempty. case_bool_decide; [done|]. by intros []. Qed.

Lemma rows_step_live d d' : rows_step d d' → live_step (abstraction d) (abstraction d').
Proof.
  intros [E Eh El|r r' H0 _ (_ & Hg & Hc & Hh & Hd) E Eh El|r' _ Hlt Hnd E Eh El|id E Eh El].
  - apply live_keep; simpl; [congruence|done|by apply map_fmap_mono].
  - destruct (decide (deleting r)) as [Hdel|Hdel].
    + apply live_keep; simpl; [|done|by rewrite El]. rewrite E, fmap_insert. apply insert_id.
      rewrite lookup_fmap, H0. simpl. unfold incarnation_of. by rewrite Hg, Hc, Hh, (Hd Hdel).
    + eapply (live_delete _ _ (sr_sandbox_id r) (incarnation_of r) (sr_delete_operation_id r')); simpl.
      * by rewrite lookup_fmap, H0.
      * by apply not_deleting_empty.
      * rewrite E, fmap_insert. f_equal. unfold incarnation_of. congruence.
      * done.
      * by rewrite El.
  - apply (live_begin _ _ (sr_sandbox_id r') (incarnation_of r')); simpl; [done| | |done|by rewrite El].
    + intros j. rewrite lookup_fmap, fmap_Some. intros (r & Hr & ->). simpl.
      by apply not_deleting_empty, Hnd.
    + by rewrite E, fmap_insert.
  - apply (live_end _ _ id); simpl; [by rewrite E, fmap_delete|done|].
    destruct El as [->|(r & l & Hr & Hl & ->)]; [by left|right].
    exists (incarnation_of r). by rewrite lookup_fmap, Hr, fmap_insert, Hl.
Qed.

Lemma migs_step_lease d d' :
  migs_step d d' → lease_step (abstraction d) (abstraction d').
Proof.
  intros [E|m Hfree E|f Hf E].
  - apply lease_shrink. simpl. by rewrite E.
  - destruct (active m) eqn:Ea.
    + apply (lease_take _ _ (mg_migration_id m) (mg_sandbox_id m)); simpl.
      * intros k. rewrite lookup_omap_Some. intros (x & Hx & Hk). revert Hx. unfold lease_of.
        destruct (active x) eqn:Ex; [|done]. intros [= Hs].
        destruct (decide (k = mg_migration_id m)) as [|Hne]; [done|].
        by destruct (other_active_false m d k x (Hfree eq_refl) Hk Hne Ex).
      * rewrite E. apply omap_insert_Some. unfold lease_of. by rewrite Ea.
    + apply lease_shrink. simpl. rewrite E, omap_insert_None by (unfold lease_of; by rewrite Ea).
      apply delete_subseteq.
  - apply lease_shrink. simpl. rewrite E. apply map_subseteq_spec. intros k s.
    rewrite !lookup_omap_Some. intros (x & Hx & Hk). rewrite lookup_fmap, fmap_Some in Hk.
    destruct Hk as (y & Hy & ->). exists y. split; [|done]. revert Hx. unfold lease_of.
    destruct (Hf y) as (_ & -> & Hact). destruct (active (f y)); [|done]. by rewrite Hact.
Qed.

Lemma prim_registry d d' : prim d d' → registry_step (abstraction d) (abstraction d').
Proof. intros [Hr Hm]. split; [by apply rows_step_live|by apply migs_step_lease]. Qed.

Lemma prims_registry d d' : rtc prim d d' → rtc registry_step (abstraction d) (abstraction d').
Proof. induction 1; [done|]. eapply rtc_l; [by apply prim_registry|done]. Qed.

Lemma written_back_observe d d' route stored :
  written_back d d' route stored →
  observe_step (sr_sandbox_id route) (incarnation_of stored) (abstraction d) (abstraction d').
Proof.
  intros [Hv (_ & Hg & _) _ Hr E Hm L M]. apply valid_facts in Hv as (H1 & _). split; simpl.
  - intros j. rewrite lookup_fmap, fmap_Some. intros (r & Hlr & ->). destruct (Hr _ Hlr) as (_ & ? & ? & ?). done.
  - by rewrite E, fmap_insert.
  - rewrite Hm, Hg. unfold hwm_upsert, mark_of. simpl. rewrite Hg in H1. f_equal.
    destruct (sandbox_generation_hwm d !! sr_sandbox_id route) as [h|]; simpl; [|lia].
    destruct (Z.ltb_spec (sr_generation route) h); lia.
  - by rewrite L.
  - by rewrite M.
Qed.

Section refinement.
Context (parse : dict string json → res descriptor).
Context (publication : dict string json → res (dict string json)).
Context (py_str : json → string) (julianday : string → option Q).

Lemma upsert_observe d route adoption now stored d' :
  store_inv d → upsert_sandbox d route adoption now = Ok (stored, d') →
  d' = d ∨ observe_step (sr_sandbox_id route) (incarnation_of stored) (abstraction d) (abstraction d').
Proof.
  intros Hi H. destruct (upsert_cases _ _ _ _ _ _ Hi H) as [(-> & _)|Hw]; [by left|right].
  by apply written_back_observe.
Qed.

Lemma store_step_any d d' :
  store_inv d → store_step parse publication py_str julianday d d' → rtc any_step (abstraction d) (abstraction d').
Proof.
  intros Hi [Hf|route adoption now stored H].
  - eapply (rtc_subrel registry_step); [|by eapply prims_registry, fenced_step_prims]. intros g g' ?. by left.
  - destruct (upsert_observe _ _ _ _ _ _ Hi H) as [->|Ho]; [done|]. apply rtc_once. right. by eexists _, _.
Qed.

(** C1. The route store refines the incarnation registry: the empty store is its
    initial state, every reachable store is reached by the registry's steps, and every
    transaction on it, whatever its arguments, is a sequence of registry steps on the
    abstraction.  In them a new incarnation always gets a generation above the mark of
    its id and never replaces one whose delete is recorded; a live incarnation keeps
    its generation, operation and spec hash and can only gain a delete, never lose or
    change it; a loss carries the generation of the incarnation it ends; and a
    migration takes a sandbox only if no other holds it.  The exception is a direct
    [upsert_sandbox]: it does nothing, or writes the incarnation it observed back over
    the live one of the same generation, operation and spec hash, or where none is
    live, never lowering the mark. *)
Theorem route_store_refines d :
  reachable parse publication py_str julianday d →
  abstraction empty_db = rg_init ∧ rtc any_step rg_init (abstraction d) ∧
  (∀ d', fenced_step parse publication py_str julianday d d' → rtc registry_step (abstraction d) (abstraction d')) ∧
  (∀ route adoption now stored d', upsert_sandbox d route adoption now = Ok (stored, d') →
     d' = d ∨ observe_step (sr_sandbox_id route) (incarnation_of stored) (abstraction d) (abstraction d')).
Proof.
  intros Hd. pose proof (reachable_inv_store _ _ _ _ _ Hd) as Hi.
  assert (abstraction empty_db = rg_init) as E0 by (unfold abstraction; simpl; by rewrite !fmap_empty, omap_empty).
  split_and!; [done| | |].
  - rewrite <-E0. unfold reachable in Hd. pose proof empty_inv as H0. revert H0. clear Hi E0.
    induction Hd as [|d1 d2 d3 H1 _ IH]; [done|]. intros Hi. etrans; [by eapply store_step_any|].
    apply IH. by eapply store_step_inv.
  - intros d' Hs. by eapply prims_registry, fenced_step_prims.
  - intros route adoption now stored d' H. by eapply upsert_observe.
Qed.
End refinement.

Lemma route_store_refines_witness :
  rg_live (abstraction db_parked) !! "s" = Some (mkInc 1 "create-1" demo_hash EmptyString) ∧
  rtc any_step rg_init (abstraction db_parked) ∧
  ∀ d', demo_fenced_step db_parked d' → rtc registry_step (abstraction db_parked) (abstraction d').
Proof.
  split; [by vm_compute|].
  destruct (route_store_refines _ _ _ _ db_parked demo_parked) as (_ & H1 & H2 & _). exact (conj H1 H2).
Defined.
