(* ===== verification/WakeAdmission.v ===== *)
(** * Same-owner wake admission (ucloud_sandboxes/wake_admission.py)

    [reserve_batch] revalidates every requested wake against the owner's placement
    view, projects each accepted one into that view, and commits the batch.  The
    callbacks the class is built with are parameters: [read_owner] and
    [read_placement], which may raise, and [can_admit]; [utc_now] is one clock
    reading. *)
From S2P Require Import Prelude PyFloat Json PyString Resources Bytes.
From S2P Require Import PlacementAccounting Routes RouteStore Demands RouteRecovery RouteMigrations RouteSafety RouteAuthority.
From stdpp Require Import gmap strings.
From Stdlib Require Import QArith.
Local Close Scope Q_scope.
Local Open Scope py_scope.
Local Open Scope Z_scope.

Definition QUARANTINE_EPOCH : string := "ucloud-sandboxes/controller-quarantine-epoch".

Record WakeOwnerView := mkView { vw_owner : NodeHeartbeat; vw_occupants : list PlacementRecord }.

Definition same_incarnation (a b : SandboxRoute) : bool :=
  bool_decide (sr_sandbox_id a = sr_sandbox_id b) && (sr_generation a =? sr_generation b)
  && bool_decide (sr_create_operation_id a = sr_create_operation_id b)
  && bool_decide (sr_spec_hash a = sr_spec_hash b).
Definition same_owner (a b : SandboxRoute) : bool :=
  same_incarnation a b && bool_decide (sr_node_id a = sr_node_id b)
  && bool_decide (sr_job_id a = sr_job_id b) && bool_decide (sr_node_url a = sr_node_url b).

(** The first route of an id among the occupants *)
Fixpoint find_route (id : string) (occ : list PlacementRecord) : option SandboxRoute :=
  match occ with
  | [] => None
  | Route r :: occ => if bool_decide (sr_sandbox_id r = id) then Some r else find_route id occ
  | Reserved _ :: occ => find_route id occ
  end.

(** The occupants with an accepted wake projected *)
Definition project_waking (waking : SandboxRoute) (occ : list PlacementRecord) : list PlacementRecord :=
  (λ p, match p with
        | Route r => if bool_decide (sr_sandbox_id r = sr_sandbox_id waking) then Route waking else Route r
        | Reserved x => Reserved x
        end) <$> occ.

(** What a wake asks of its owner: CPU and memory, no disk *)
Definition wake_demand (r : SandboxRoute) : ResourceQuantity :=
  mkRQ (vcpu (sr_resources r)) (memory_mb (sr_resources r)) 0.

Section admission.
Context (read_owner : string → res (option NodeHeartbeat)).
Context (read_placement : NodeHeartbeat → res (list PlacementRecord)).
Context (can_admit : NodeHeartbeat → list PlacementRecord → ResourceQuantity → bool).
Context (heartbeat_ttl_seconds : Z) (consolidation_enabled : bool).

Definition owner_ready (now_us : Z) (owner : NodeHeartbeat) : bool :=
  nonempty (node_url_text owner) && negb (draining owner)
  && (admission_open owner || bool_decide (dget (labels owner) QUARANTINE_EPOCH = Some (node_epoch owner)))
  && bool_decide ("sandbox" ∈ capabilities owner) && Resources.is_fresh owner now_us heartbeat_ttl_seconds.

Record batch_state := mkBatch {
  bt_views : dict string (option WakeOwnerView);
  bt_admitted : dict string SandboxRoute;
  bt_decisions : list (option SandboxRoute)
}.

(** Reading an owner's view, once per batch *)
Definition read_view (job : string) : res (option WakeOwnerView) :=
  let! owner := read_owner job in
  match owner with
  | Some owner => let! occupants := read_placement owner in Ok (Some (mkView owner occupants))
  | None => Ok None
  end.

(** A parked route that may be woken in place *)
Definition wake_admissible (d : db) (now_us : Z) (view : WakeOwnerView) (current : SandboxRoute) : bool :=
  bool_decide (sr_state current = "parked") && bool_decide (sr_worker_state current = "attached")
  && negb (has_active_migration (sr_sandbox_id current) d) && owner_ready now_us (vw_owner view)
  && negb (is_portable_parked_route current && consolidation_enabled)
  && can_admit (vw_owner view) (vw_occupants view) (wake_demand current).

(** One request: the loop body of [reserve_batch]; [replace] validates the
    projected route. *)
Definition batch_request (d : db) (now_us : Z) (st : batch_state) (requested : SandboxRoute) :
    res batch_state :=
  let job := sr_job_id requested in
  let! views := match dget (bt_views st) job with
                | Some _ => Ok (bt_views st)
                | None => let! view := read_view job in Ok (dset (bt_views st) job view)
                end in
  let keep := Ok (mkBatch views (bt_admitted st) (bt_decisions st ++ [None])) in
  match default None (dget views job) with
  | None => keep
  | Some view =>
      match find_route (sr_sandbox_id requested) (vw_occupants view) with
      | None => keep
      | Some current =>
          if negb (same_owner current requested) || nonempty (sr_delete_operation_id current) then keep
          else if bool_decide (sr_state current ∈ ["running"; "waking"])
          then Ok (mkBatch views (bt_admitted st) (bt_decisions st ++ [Some current]))
          else if wake_admissible d now_us view current then
            let! waking := route_init (with_state current "waking" (sr_updated_at current)) in
            Ok (mkBatch (dset views job (Some (mkView (vw_owner view)
                           (project_waking waking (vw_occupants view)))))
                  (dset (bt_admitted st) (sr_sandbox_id current) current)
                  (bt_decisions st ++ [Some waking]))
          else keep
      end
  end.

(** The decisions once committed: an admitted id answers with its committed row. *)
Definition committed_decision (admitted : dict string SandboxRoute)
    (committed : dict string (option SandboxRoute)) (decision : option SandboxRoute) : option SandboxRoute :=
  match decision with
  | Some r => if bool_decide (is_Some (dget admitted (sr_sandbox_id r)))
              then default None (dget committed (sr_sandbox_id r)) else Some r
  | None => None
  end.

(** [reserve_batch], up to its commit and the commit; [d] is the store when the
    active migrations are read, and when the wakes are committed. *)
Definition decide_batch (d : db) (requested : list SandboxRoute) (now_us : Z) : res batch_state :=
  res_foldl (batch_request d now_us) (mkBatch [] [] []) requested.
Definition commit_batch (d : db) (st : batch_state) (now : string) : res (list (option SandboxRoute) * db) :=
  let! '(committed, d) := reserve_sandbox_wakes d
    ((λ r, (r, wake_pending_demand_id (sr_sandbox_id r))) <$> dvals (bt_admitted st)) now in
  Ok (committed_decision (bt_admitted st) committed <$> bt_decisions st, d).
Definition reserve_batch (d : db) (requested : list SandboxRoute) (now : string) (now_us : Z) :
    res (list (option SandboxRoute) * db) :=
  let! st := decide_batch d requested now_us in
  commit_batch d st now.

(** ** Admission chains *)

(** Wakes admitted one after another on an owner, each a parked route of the
    occupants with the earlier ones already waking, and admitted against these. *)
Inductive admits (owner : NodeHeartbeat) : list PlacementRecord → list SandboxRoute →
    list PlacementRecord → Prop :=
| admits_nil occ : admits owner occ [] occ
| admits_snoc occ rs mid r w :
    admits owner occ rs mid → find_route (sr_sandbox_id r) mid = Some r →
    sr_state r = "parked" → sr_worker_state r = "attached" →
    w = with_state r "waking" (sr_updated_at r) → can_admit owner mid (wake_demand r) = true →
    admits owner occ (rs ++ [r]) (project_waking w mid).

Definition view_ok (now_us : Z) (admitted : dict string SandboxRoute) (job : string) (v : WakeOwnerView) : Prop :=
  read_owner job = Ok (Some (vw_owner v)) ∧
  ∃ placed rs, read_placement (vw_owner v) = Ok placed ∧ admits (vw_owner v) placed rs (vw_occupants v) ∧
    ∀ r, r ∈ dvals admitted → sr_job_id r = job → r ∈ rs ∧ owner_ready now_us (vw_owner v) = true.

Definition batch_ok (now_us : Z) (st : batch_state) : Prop :=
  NoDup (dkeys (bt_admitted st)) ∧ Forall (λ ir, ir.1 = sr_sandbox_id ir.2) (bt_admitted st) ∧
  (∀ job v, dget (bt_views st) job = Some (Some v) → view_ok now_us (bt_admitted st) job v) ∧
  (∀ r, r ∈ dvals (bt_admitted st) → ∃ v, dget (bt_views st) (sr_job_id r) = Some (Some v)).

Lemma dvals_dset {K V} `{EqDecision K} (d : dict K V) k v x : x ∈ dvals (dset d k v) → x = v ∨ x ∈ dvals d.
Proof.
  unfold dvals. induction d as [|[k' v'] d IH]; simpl; [set_solver|].
  destruct (decide (k = k')); csimpl; rewrite !elem_of_cons; naive_solver.
Qed.

Lemma same_owner_job a b : same_owner a b = true → sr_job_id a = sr_job_id b ∧ sr_sandbox_id a = sr_sandbox_id b.
Proof. unfold same_owner, same_incarnation. rewrite !andb_true_iff, !bool_decide_eq_true. naive_solver. Qed.

Lemma find_route_id id occ r : find_route id occ = Some r → sr_sandbox_id r = id.
Proof.
  induction occ as [|[r'|x] occ IH]; simpl; [done| |done]. case_bool_decide; [|done]. by intros [= <-].
Qed.

Lemma batch_read_view now_us st job view :
  batch_ok now_us st → dget (bt_views st) job = None → read_view job = Ok view →
  batch_ok now_us (mkBatch (dset (bt_views st) job view) (bt_admitted st) (bt_decisions st)).
Proof.
  intros (H1 & H2 & H3 & H4) Hnone Hview. split_and!; cbn; [done|done| |].
  - intros job' v. destruct (decide (job = job')) as [<-|Hne]; [|rewrite dget_dset_ne by done; apply H3].
    rewrite dget_dset_eq. intros [= ->]. unfold read_view in Hview.
    apply res_bind_Ok in Hview as ([owner|] & Eo & Hview); [|done].
    apply res_bind_Ok in Hview as (occ & Ep & [= <-]).
    split; [done|]. exists occ, []. split; [done|]. split; [constructor|]. cbn. intros r Hr Hj.
    destruct (H4 r Hr) as [v Hv]. rewrite Hj in Hv. congruence.
  - intros r Hr. destruct (H4 r Hr) as [v Hv]. exists v. rewrite dget_dset_ne; [done|congruence].
Qed.

Lemma batch_decide now_us st x :
  batch_ok now_us st → batch_ok now_us (mkBatch (bt_views st) (bt_admitted st) (bt_decisions st ++ [x])).
Proof. done. Qed.

Lemma batch_admit d now_us st v current :
  batch_ok now_us st → dget (bt_views st) (sr_job_id current) = Some (Some v) →
  find_route (sr_sandbox_id current) (vw_occupants v) = Some current →
  wake_admissible d now_us v current = true →
  batch_ok now_us (mkBatch
    (dset (bt_views st) (sr_job_id current) (Some (mkView (vw_owner v)
       (project_waking (with_state current "waking" (sr_updated_at current)) (vw_occupants v)))))
    (dset (bt_admitted st) (sr_sandbox_id current) current) (bt_decisions st)).
Proof.
  intros (H1 & H2 & H3 & H4) Hv Hf Ha. unfold wake_admissible in Ha.
  rewrite !andb_true_iff, !bool_decide_eq_true in Ha. destruct Ha as [[[[[Hs Hw] _] Hready] _] Hadm].
  split_and!; cbn; [by apply NoDup_dset|by apply Forall_dset| |].
  - intros job' v'. destruct (decide (sr_job_id current = job')) as [<-|Hne].
    + rewrite dget_dset_eq. intros [= <-]. destruct (H3 _ _ Hv) as [Ho (occ & rs & Hp & Hrs & Hin)].
      split; [done|]. exists occ, (rs ++ [current]). cbn. split; [done|]. split; [by eapply admits_snoc|].
      intros r [-> |Hr]%dvals_dset Hj; rewrite elem_of_app, list_elem_of_singleton; [tauto|].
      destruct (Hin r Hr Hj). tauto.
    + rewrite dget_dset_ne by done. intros Hv'. destruct (H3 _ _ Hv') as [Ho (occ & rs & Hp & Hrs & Hin)].
      split; [done|]. exists occ, rs. split_and!; [done|done|]. intros r [-> |Hr]%dvals_dset Hj; [done|by apply Hin].
  - intros r Hr. destruct (decide (sr_job_id current = sr_job_id r)) as [<-|Hne];
      [rewrite dget_dset_eq; by eexists|rewrite dget_dset_ne by done].
    apply dvals_dset in Hr as [->|Hr]; [done|by apply H4].
Qed.

Lemma batch_request_ok d now_us st requested st' :
  batch_ok now_us st → batch_request d now_us st requested = Ok st' → batch_ok now_us st'.
Proof.
  intros Hok H. unfold batch_request in H. set (job := sr_job_id requested) in *.
  apply res_bind_Ok in H as (views & Hviews & H).
  assert (batch_ok now_us (mkBatch views (bt_admitted st) (bt_decisions st))) as Hok'.
  { destruct (dget (bt_views st) job) eqn:E; [injection Hviews as <-; by destruct st|].
    apply res_bind_Ok in Hviews as (view & Hv & [= <-]). by apply batch_read_view. }
  clear Hviews. pose proof (batch_decide _ _ None Hok') as Hkeep. cbn in Hkeep.
  destruct (dget views job) as [[v|]|] eqn:Ev; cbn [from_option id] in H; [|by simplify_eq|by simplify_eq].
  destruct (find_route _ _) as [current|] eqn:Hf; [|by simplify_eq].
  destruct (negb (same_owner current requested)) eqn:Hso; cbn [orb] in H; [by simplify_eq|].
  apply negb_false_iff in Hso. apply same_owner_job in Hso as [Hj _].
  destruct (nonempty _); [by simplify_eq|]. case_bool_decide; [by simplify_eq|].
  destruct (wake_admissible d now_us v current) eqn:Ha; [|by simplify_eq].
  bind_inv H. apply route_init_Ok in Hx as [-> _]. simplify_eq. unfold job in *. rewrite <- Hj in *.
  rewrite <- (find_route_id _ _ _ Hf) in Hf.
  exact (batch_admit d now_us (mkBatch views (bt_admitted st) (bt_decisions st)) v current Hok' Ev Hf Ha).
Qed.

Lemma batch_requests_ok d now_us requested st st' :
  batch_ok now_us st → res_foldl (batch_request d now_us) st requested = Ok st' → batch_ok now_us st'.
Proof.
  revert st. induction requested as [|r rs IH]; intros st Hok H; simpl in H; [by simplify_eq|].
  bind_inv H. eapply IH; [|done]. by eapply batch_request_ok.
Qed.

(** A wake reservation changes a row only to waking, and only for a request that
    holds its incarnation. *)
Lemma reserve_wake_row now acc request acc' id :
  store_inv acc.2 → reserve_wake now acc request = Ok acc' →
  sandboxes acc'.2 !! id = sandboxes acc.2 !! id ∨
  ∃ r, sandboxes acc.2 !! id = Some r ∧ sandboxes acc'.2 !! id = Some (with_state r "waking" now) ∧
       same_sandbox_route_incarnation r request.1 = true.
Proof.
  destruct acc as [result d], request as [route pid]. simpl. intros Hi H. bind_inv H.
  apply get_row in Hx as ->; [|done]. destruct (sandboxes d !! sr_sandbox_id route) as [r|] eqn:Er;
    [|simplify_eq; by left].
  destruct (_ || _) eqn:Hg; [simplify_eq; by left|]. rewrite !orb_false_iff in Hg.
  destruct Hg as [[[_ Hs%negb_false_iff] _] _]. bind_inv H. apply route_init_Ok in Hx as [-> _].
  simplify_eq. cbn. destruct (row_id _ _ _ Hi Er) as [Hid _]. rewrite Hid.
  destruct (decide (id = sr_sandbox_id route)) as [->|Hne]; [right|left; by rewrite lookup_alter_ne].
  exists r. split_and!; [done|by rewrite lookup_alter_eq, Er|done].
Qed.

Lemma reserve_wakes_row now reqs acc acc' id r :
  store_inv acc.2 → sandboxes acc.2 !! id = Some r →
  res_foldl (reserve_wake now) acc reqs = Ok acc' →
  ∃ r', sandboxes acc'.2 !! id = Some r' ∧
    (r' = r ∨ (sr_state r' = "waking" ∧ ∃ q, q ∈ reqs ∧ same_sandbox_route_incarnation r q.1 = true)).
Proof.
  intros Hi Hr H. revert acc r Hi Hr H. induction reqs as [|q reqs IH]; intros acc r Hi Hr H; simpl in H.
  { simplify_eq. exists r. tauto. }
  bind_inv H. assert (store_inv x.2) as Hi'.
  { destruct acc, x. eapply prim_inv; [exact Hi|]. by eapply reserve_wake_prim. }
  destruct (reserve_wake_row _ _ _ _ id Hi Hx) as [E|(r0 & E0 & E & Hs)].
  - rewrite Hr in E. destruct (IH _ _ Hi' E H) as (r' & ? & Hc). exists r'. split; [done|].
    destruct Hc as [?|(? & q' & ? & ?)]; [tauto|right]. split; [done|]. exists q'. split; [by right|done].
  - rewrite Hr in E0. simplify_eq. destruct (IH _ _ Hi' E H) as (r' & ? & Hc). exists r'. split; [done|]. right.
    split; [destruct Hc as [->|[? _]]; done|]. exists q. split; [left|done].
Qed.

(** ** The answers of a batch *)

(** An answer [c] to the request [q]: the incarnation asked for, on the owner asked
    for, with no delete; it was admitted in this batch, or is a route of its owner's
    placement that runs or wakes already. *)
Definition answers (st : batch_state) (c q : SandboxRoute) : Prop :=
  same_owner c q = true ∧ nonempty (sr_delete_operation_id c) = false ∧
  (is_Some (dget (bt_admitted st) (sr_sandbox_id c)) ∨
   sr_state c ∈ ["running"; "waking"] ∧
   ∃ view placed, dget (bt_views st) (sr_job_id q) = Some (Some view) ∧
     read_placement (vw_owner view) = Ok placed ∧ Route c ∈ placed).

Record decided (requested : list SandboxRoute) (st : batch_state) : Prop := {
  de_views : ∀ job v, dget (bt_views st) job = Some (Some v) →
    ∃ placed, read_placement (vw_owner v) = Ok placed ∧
      ∀ r, Route r ∈ vw_occupants v → Route r ∈ placed ∨ is_Some (dget (bt_admitted st) (sr_sandbox_id r));
  de_admitted : ∀ id c, dget (bt_admitted st) id = Some c →
    sr_sandbox_id c = id ∧ ∃ q, q ∈ requested ∧ same_owner c q = true;
  de_answers : Forall2 (λ o q, ∀ c, o = Some c → answers st c q) (bt_decisions st) requested
}.

Lemma find_route_elem id occ r : find_route id occ = Some r → Route r ∈ occ.
Proof.
  induction occ as [|[r'|x] occ IH]; simpl; [done| |intros H; right; auto].
  case_bool_decide; [intros [= <-]; by left|intros Hf; right; auto].
Qed.
Lemma project_elem w occ r : Route r ∈ project_waking w occ → r = w ∨ Route r ∈ occ.
Proof.
  unfold project_waking. rewrite list_elem_of_fmap. intros ([x|x] & E & Hx); [|done].
  case_bool_decide; injection E as ->; auto.
Qed.
Lemma admitted_mono {V} (adm : dict string V) k v id : is_Some (dget adm id) → is_Some (dget (dset adm k v) id).
Proof. destruct (decide (k = id)) as [->|]; [rewrite dget_dset_eq; by eexists|by rewrite dget_dset_ne]. Qed.

(** One more request, decided [o] *)
Lemma decided_snoc requested st st' q o :
  decided requested st →
  (∀ job v, dget (bt_views st') job = Some (Some v) →
    ∃ placed, read_placement (vw_owner v) = Ok placed ∧
      ∀ r, Route r ∈ vw_occupants v → Route r ∈ placed ∨ is_Some (dget (bt_admitted st') (sr_sandbox_id r))) →
  (∀ id c, dget (bt_admitted st') id = Some c → dget (bt_admitted st) id = Some c ∨
     sr_sandbox_id c = id ∧ same_owner c q = true) →
  (∀ c k, answers st c k → answers st' c k) →
  bt_decisions st' = bt_decisions st ++ [o] → (∀ c, o = Some c → answers st' c q) →
  decided (requested ++ [q]) st'.
Proof.
  intros [H1 H2 H3] Hv Ha Hm Hd Ho. split; [done| |].
  - intros id c [Hc|[Hi Hs]]%Ha.
    + destruct (H2 _ _ Hc) as [Hi (k & Hk & Hs)]. split; [done|]. exists k. split; [apply elem_of_app; by left|done].
    + split; [done|]. exists q. split; [apply elem_of_app; right; by left|done].
  - rewrite Hd. apply Forall2_app; [|by constructor]. eapply Forall2_impl; [exact H3|]. simpl. intros x k Hx c Hc. eauto.
Qed.

(** Reading a view keeps the others, and its routes are placed. *)
Lemma read_views_decided requested st job views :
  decided requested st →
  match dget (bt_views st) job with
  | Some _ => Ok (bt_views st)
  | None => let! view := read_view job in Ok (dset (bt_views st) job view)
  end = Ok views →
  (∀ job v, dget views job = Some (Some v) → ∃ placed, read_placement (vw_owner v) = Ok placed ∧
     ∀ r, Route r ∈ vw_occupants v → Route r ∈ placed ∨ is_Some (dget (bt_admitted st) (sr_sandbox_id r))) ∧
  ∀ job v, dget (bt_views st) job = Some (Some v) → dget views job = Some (Some v).
Proof.
  intros Hd Hviews. destruct (dget (bt_views st) job) eqn:E; [injection Hviews as <-; split; [apply Hd|done]|].
  apply res_bind_Ok in Hviews as (view & Hview & [= <-]). split.
  - intros j v. destruct (decide (job = j)) as [<-|]; [|rewrite dget_dset_ne by done; apply Hd].
    rewrite dget_dset_eq. intros [= ->]. unfold read_view in Hview.
    apply res_bind_Ok in Hview as ([ow|] & _ & Hview); [|done]. apply res_bind_Ok in Hview as (occ & Ep & [= <-]).
    exists occ. split; [done|]. simpl. auto.
  - intros j v Hj. rewrite dget_dset_ne; [done|congruence].
Qed.

Lemma batch_request_decided d now_us requested st q st' :
  decided requested st → batch_request d now_us st q = Ok st' → decided (requested ++ [q]) st'.
Proof.
  intros Hd H. unfold batch_request in H. apply res_bind_Ok in H as (views & Hviews & H).
  destruct (read_views_decided _ _ _ _ Hd Hviews) as [Hv Hmono].
  clear Hviews. assert (∀ adm ds c k, (∀ id, is_Some (dget (bt_admitted st) id) → is_Some (dget adm id)) →
    answers st c k → answers (mkBatch views adm ds) c k) as Hans.
  { intros adm ds c k Hadm (A1 & A2 & A3). split_and!; [done|done|]. destruct A3 as [A3|(A3 & v & pl & A4 & A5)]; simpl; eauto 10. }
  assert (∀ o, (∀ c, o = Some c → answers (mkBatch views (bt_admitted st) (bt_decisions st ++ [o])) c q) →
    decided (requested ++ [q]) (mkBatch views (bt_admitted st) (bt_decisions st ++ [o]))) as Hkeep.
  { intros o Ho. eapply decided_snoc; [exact Hd|exact Hv|by left| |done|done]. intros c k. by apply Hans. }
  destruct (dget views (sr_job_id q)) as [[v|]|] eqn:Ev; cbn [from_option id] in H; [|simplify_eq; by apply Hkeep..].
  destruct (find_route _ _) as [current|] eqn:Hf; [|simplify_eq; by apply Hkeep].
  destruct (negb (same_owner current q) || nonempty _) eqn:Hg; [simplify_eq; by apply Hkeep|].
  apply orb_false_iff in Hg as [Hso%negb_false_iff Hdel]. destruct (Hv _ _ Ev) as (pl & Hpl & Hocc).
  case_bool_decide as Hst.
  { simplify_eq. apply Hkeep. intros c [= <-]. split_and!; [done|done|]. simpl.
    destruct (Hocc _ (find_route_elem _ _ _ Hf)) as [Hin|Hin]; [right|by left]. split; [done|]. by exists v, pl. }
  destruct (wake_admissible d now_us v current); [|simplify_eq; by apply Hkeep].
  apply res_bind_Ok in H as (w & [-> _]%route_init_Ok & [= <-]).
  eapply decided_snoc; [exact Hd| | |intros c k Hc|done|].
  - simpl. intros job v'. destruct (decide (sr_job_id q = job)) as [<-|].
    + rewrite dget_dset_eq. intros [= <-]. exists pl. split; [done|]. simpl. intros r [->|Hr]%project_elem.
      * right. rewrite dget_dset_eq. by eexists.
      * destruct (Hocc _ Hr); [by left|right]. by apply admitted_mono.
    + rewrite dget_dset_ne by done. intros Hj. destruct (Hv _ _ Hj) as (p' & ? & Hp'). exists p'. split; [done|].
      intros r [?|?]%Hp'; [by left|right; by apply admitted_mono].
  - simpl. intros id c. destruct (decide (sr_sandbox_id current = id)) as [<-|]; [|rewrite dget_dset_ne by done; by left].
    rewrite dget_dset_eq. intros [= <-]. by right.
  - destruct Hc as (A1 & A2 & A3). split_and!; [done|done|]. simpl.
    destruct A3 as [A3|(A3 & v' & p' & A4%Hmono & A5)]; [left; by apply admitted_mono|right; split; [done|]].
    destruct (decide (sr_job_id q = sr_job_id k)) as [E|]; [|rewrite dget_dset_ne by done; eauto].
    rewrite <-E in *. rewrite dget_dset_eq. eexists _, p'. split; [done|]. simpl. simplify_eq. done.
  - intros c [= <-]. split_and!; [done|done|left]. simpl. rewrite dget_dset_eq. by eexists.
Qed.

Lemma decide_batch_decided d now_us requested st : decide_batch d requested now_us = Ok st → decided requested st.
Proof.
  unfold decide_batch. intros H. assert (decided [] (mkBatch [] [] [])) as Hd by (split; [done|done|constructor]).
  change requested with ([] ++ requested). revert H Hd. generalize (mkBatch [] [] []). generalize (@nil SandboxRoute).
  induction requested as [|q qs IH]; intros done_ st0 H Hd; simpl in H; [injection H as <-; by rewrite app_nil_r|].
  apply res_bind_Ok in H as (st1 & H1 & H). rewrite cons_middle, app_assoc. eapply IH; [exact H|].
  by eapply batch_request_decided.
Qed.

(** Committing wakes of different sandboxes: an id answers with its new row. *)
Lemma reserve_wake_other now acc q acc' id :
  reserve_wake now acc q = Ok acc' → id ≠ sr_sandbox_id q.1 →
  sandboxes acc'.2 !! id = sandboxes acc.2 !! id ∧ dget acc'.1 id = dget acc.1 id.
Proof.
  destruct acc as [result d], q as [r pid]. simpl. intros (c & Hc & H)%res_bind_Ok Hne.
  destruct c as [c|]; [destruct (_ || _) eqn:Hg|];
    [injection H as <-; simpl; by rewrite dget_dset_ne| |injection H as <-; simpl; by rewrite dget_dset_ne].
  rewrite !orb_false_iff, !negb_false_iff in Hg. destruct Hg as [[[_ Hs] _] _].
  apply res_bind_Ok in H as (st & [-> _]%route_init_Ok & [= <-]). simpl. rewrite dget_dset_ne by done. split; [|done].
  unfold same_sandbox_route_incarnation in Hs. rewrite !andb_true_iff, !bool_decide_eq_true in Hs.
  destruct Hs as [[[[[[-> _] _] _] _] _] _]. by rewrite lookup_alter_ne.
Qed.
Lemma reserve_wakes_other now reqs acc acc' id :
  res_foldl (reserve_wake now) acc reqs = Ok acc' → id ∉ ((λ q, sr_sandbox_id q.1) <$> reqs) →
  sandboxes acc'.2 !! id = sandboxes acc.2 !! id ∧ dget acc'.1 id = dget acc.1 id.
Proof.
  revert acc. induction reqs as [|q reqs IH]; intros acc H Hid; simpl in H; [by injection H as <-|].
  apply res_bind_Ok in H as (a1 & H1 & H). csimpl in Hid. apply not_elem_of_cons in Hid as [Hne Hid].
  destruct (reserve_wake_other _ _ _ _ _ H1 Hne) as [<- <-]. by apply IH.
Qed.
Lemma reserve_wake_live now acc q acc' w :
  reserve_wake now acc q = Ok acc' → dget acc'.1 (sr_sandbox_id q.1) = Some (Some w) →
  sandboxes acc'.2 !! sr_sandbox_id q.1 = Some w ∧ sr_state w = "waking" ∧
  nonempty (sr_delete_operation_id w) = false ∧ same_incarnation w q.1 = true.
Proof.
  destruct acc as [result d], q as [r pid]. simpl. intros (c & Hc & H)%res_bind_Ok Hw.
  destruct c as [c|]; [destruct (_ || _) eqn:Hg|].
  - injection H as <-. simpl in Hw. by rewrite dget_dset_eq in Hw.
  - apply res_bind_Ok in H as (st & [-> _]%route_init_Ok & [= <-]). simpl in *. rewrite dget_dset_eq in Hw.
    injection Hw as <-. unfold get_sandbox_unlocked in Hc. destruct (sandboxes d !! sr_sandbox_id r) as [row|] eqn:E; [|done].
    apply res_bind_Ok in Hc as (c' & [-> _]%route_init_Ok & [= ->]).
    rewrite !orb_false_iff, !negb_false_iff in Hg. destruct Hg as [[[_ Hs] _] Hdel].
    unfold same_sandbox_route_incarnation in Hs. rewrite !andb_true_iff, !bool_decide_eq_true in Hs.
    destruct Hs as [[[[[[E1 E2] E3] E4] _] _] _]. split_and!; [by rewrite E1, lookup_alter_eq, E|done|done|].
    unfold same_incarnation. simpl. by rewrite E1, E3, E4, E2, !bool_decide_eq_true_2.
  - injection H as <-. simpl in Hw. by rewrite dget_dset_eq in Hw.
Qed.
Lemma reserve_wakes_live now reqs acc acc' id w :
  NoDup ((λ q, sr_sandbox_id q.1) <$> reqs) → res_foldl (reserve_wake now) acc reqs = Ok acc' →
  dget acc.1 id = None → dget acc'.1 id = Some (Some w) →
  ∃ q, q ∈ reqs ∧ sr_sandbox_id q.1 = id ∧ sandboxes acc'.2 !! id = Some w ∧ sr_state w = "waking" ∧
    nonempty (sr_delete_operation_id w) = false ∧ same_incarnation w q.1 = true.
Proof.
  revert acc. induction reqs as [|q reqs IH]; intros acc Hnd H Hn Hw; simpl in H; [simplify_eq; congruence|].
  apply res_bind_Ok in H as (a1 & H1 & H). csimpl in Hnd. apply NoDup_cons in Hnd as [Hq Hnd].
  destruct (decide (id = sr_sandbox_id q.1)) as [->|Hne].
  - destruct (reserve_wakes_other _ _ _ _ _ H Hq) as [E1 E2]. rewrite E2 in Hw.
    destruct (reserve_wake_live _ _ _ _ _ H1 Hw) as (R1 & R2 & R3 & R4). exists q. rewrite E1.
    split_and!; [by left|done..].
  - destruct (reserve_wake_other _ _ _ _ _ H1 Hne) as [_ E]. rewrite Hn in E.
    destruct (IH _ Hnd H E Hw) as (k & Hk & Hr). exists k. split; [by right|done].
Qed.

(** The answer to a request of a batch is the row that its commit left waking, of an
    incarnation some request of the batch for the same id asked for; or a route of
    the owner's placement that ran or woke already. *)
Lemma batch_answer d0 now_us requested st d now ds d' i q r :
  decide_batch d0 requested now_us = Ok st → commit_batch d st now = Ok (ds, d') →
  requested !! i = Some q → ds !! i = Some (Some r) →
  nonempty (sr_delete_operation_id r) = false ∧
  ((sandboxes d' !! sr_sandbox_id q = Some r ∧ sr_state r = "waking" ∧
    ∃ k, k ∈ requested ∧ sr_sandbox_id k = sr_sandbox_id q ∧ same_incarnation r k = true) ∨
   (same_owner r q = true ∧ sr_state r ∈ ["running"; "waking"] ∧
    ∃ view placed, dget (bt_views st) (sr_job_id q) = Some (Some view) ∧
      read_placement (vw_owner view) = Ok placed ∧ Route r ∈ placed)).
Proof.
  intros Hst H Hq Hr. pose proof (decide_batch_decided _ _ _ _ Hst) as [_ Hadm Hans].
  assert (batch_ok now_us st) as (H1 & H2 & _).
  { eapply batch_requests_ok; [|exact Hst]. split_and!; cbn; try constructor; try done; intros ? []%elem_of_nil. }
  unfold commit_batch in H. apply res_bind_Ok in H as ([committed d1] & H & [= <- <-]).
  rewrite list_lookup_fmap, fmap_Some in Hr. destruct Hr as (o & Ho & Hr).
  pose proof (Forall2_lookup_lr _ _ _ _ _ _ Hans Ho Hq) as Hoq. simpl in Hoq.
  destruct o as [c|]; [|done]. destruct (Hoq c eq_refl) as (A1 & A2 & A3).
  destruct (same_owner_job _ _ A1) as [_ Eid]. simpl in Hr. case_bool_decide as Hin.
  - destruct (dget committed (sr_sandbox_id c)) as [[x|]|] eqn:Ec; [|done..]. injection Hr as ->. rewrite Eid in Ec.
    eapply reserve_wakes_live in H as (k & Hk & K1 & K2 & K3 & K4 & K5); [|clear H|done|exact Ec].
    + split; [done|left]. split_and!; [done|done|]. apply list_elem_of_fmap in Hk as (v & -> & Hv). simpl in *.
      unfold dvals in Hv. apply list_elem_of_fmap in Hv as ([id' v'] & -> & Hv).
      apply (dget_Some_2 _ _ _ H1), Hadm in Hv as [_ (k & Hk & Hs)]. simpl in *.
      destruct (same_owner_job _ _ Hs) as [_ Ek]. exists k. split_and!; [done|congruence|].
      unfold same_owner in Hs. rewrite !andb_true_iff in Hs. destruct Hs as [[[Hs _] _] _].
      unfold same_incarnation in *. rewrite !andb_true_iff, !bool_decide_eq_true, !Z.eqb_eq in *.
      destruct K5 as [[[-> ->] ->] ->]. done.
    + rewrite <-list_fmap_compose. unfold dvals. rewrite <-list_fmap_compose.
      replace (_ <$> bt_admitted st) with (dkeys (bt_admitted st)); [done|]. unfold dkeys. apply list_fmap_ext.
      intros j y Hy%list_elem_of_lookup_2. by apply (proj1 (Forall_forall _ _) H2).
  - injection Hr as ->. split; [done|right]. split; [done|]. by destruct A3 as [A3|A3].
Qed.

Context (parse : dict string json → res descriptor)
  (publication : dict string json → res (dict string json)) (py_str : json → string) (julianday : string → option Q).

(** [r] is a row whose state differs between the two stores. *)
Definition woken (d d' : db) (id : string) (r : SandboxRoute) : Prop :=
  sandboxes d !! id = Some r ∧ ∃ r', sandboxes d' !! id = Some r' ∧ sr_state r' ≠ sr_state r.

Lemma reserve_batch_woken d requested now now_us decisions d' :
  store_inv d → reserve_batch d requested now now_us = Ok (decisions, d') →
  ∃ st, batch_ok now_us st ∧ ∀ id r, woken d d' id r →
    (∃ r', sandboxes d' !! id = Some r' ∧ sr_state r' = "waking") ∧
    ∃ c, c ∈ dvals (bt_admitted st) ∧ same_sandbox_route_incarnation r c = true ∧ sr_job_id c = sr_job_id r.
Proof.
  intros Hi H. unfold reserve_batch, decide_batch, commit_batch in H. bind_inv H. exists x. split.
  { eapply batch_requests_ok; [|exact Hx].
    split_and!; cbn; try constructor; try done; intros ? Hin; by apply not_elem_of_nil in Hin. }
  bind_inv H. destruct x0 as [committed d1]. simplify_eq. intros id r (Hr & r' & Hr' & Hne).
  destruct (reserve_wakes_row now _ ([], d) (committed, d') id r Hi Hr Hx0) as (r0 & E & Hc). cbn in E.
  rewrite Hr' in E. simplify_eq. destruct Hc as [->|[Hw (q & Hq & Hs)]]; [done|].
  split; [by exists r0|]. apply list_elem_of_fmap in Hq as (c & -> & Hc). cbn in Hs. exists c. split_and!; [done|done|].
  unfold same_sandbox_route_incarnation in Hs. rewrite !andb_true_iff, !bool_decide_eq_true in Hs. naive_solver.
Qed.

(** C24. No wake without an admission, and one admission chain per owner: a batch
    changes a row's state only to waking, and all the rows it wakes on one owner, an
    owner that is ready, are incarnations of wakes of a single chain that starts from
    the owner's placement and in which every wake is a parked route admitted against
    that placement with all earlier wakes of the chain already projected.  Two wakes
    of a batch that the owner admits only one by one are never both committed. *)
Theorem wake_batch_admitted d requested now now_us decisions d' id r :
  reachable parse publication py_str julianday d →
  reserve_batch d requested now now_us = Ok (decisions, d') → woken d d' id r →
  (∃ r', sandboxes d' !! id = Some r' ∧ sr_state r' = "waking") ∧
  ∃ owner placed rs occ, read_owner (sr_job_id r) = Ok (Some owner) ∧ owner_ready now_us owner = true ∧
    read_placement owner = Ok placed ∧ admits owner placed rs occ ∧
    ∀ id0 r0, woken d d' id0 r0 → sr_job_id r0 = sr_job_id r →
      ∃ c, c ∈ rs ∧ same_sandbox_route_incarnation r0 c = true.
Proof.
  intros Hi%reachable_inv_store H Hr.
  destruct (reserve_batch_woken _ _ _ _ _ _ Hi H) as (st & (_ & _ & H3 & H4) & Hw).
  destruct (Hw _ _ Hr) as (Hst & c & Hc & _ & Hj). split; [done|]. destruct (H4 _ Hc) as [v Hv].
  destruct (H3 _ _ Hv) as [Ho (placed & rs & Hp & Hrs & Hin)]. rewrite <- Hj.
  exists (vw_owner v), placed, rs, (vw_occupants v). split_and!; [done|by destruct (Hin _ Hc eq_refl)|done|done|].
  intros id0 r0 Hr0 Hj0. destruct (Hw _ _ Hr0) as (_ & c0 & Hc0 & Hs0 & Hj').
  exists c0. split; [|done]. apply Hin; congruence.
Qed.

End admission.

Definition demo_owner : NodeHeartbeat :=
  mkHeartbeat "n" "j" 0 0 0 0 None false (Some "http://n") "v" ["sandbox"] (mkRQ (of_int 4) 16000 2000) true
    rq_zero [] None None "boot1" [] [] true rq_zero rq_zero true 0 EmptyString 0.
Definition demo_batch : res (list (option SandboxRoute) * db) :=
  reserve_batch (λ _, Ok (Some demo_owner)) (λ _, Ok [Route (row_of db_parked "s")])
    (λ _ _ q, memory_mb q <=? 1024) 60 false db_parked [row_of db_parked "s"; row_of db_parked "s"] "t9" 1000.
Definition db_waking : db := db_of demo_batch.
Definition demo_decisions : list (option SandboxRoute) :=
  match demo_batch with Ok (ds, _) => ds | Raise _ => [] end.

Lemma wake_batch_admitted_witness :
  (∃ r', sandboxes db_waking !! "s" = Some r' ∧ sr_state r' = "waking") ∧
  demo_decisions = [Some (row_of db_waking "s"); Some (row_of db_waking "s")].
Proof.
  split; [|by vm_compute].
  refine (proj1 (wake_batch_admitted (λ _, Ok (Some demo_owner)) (λ _, Ok [Route (row_of db_parked "s")])
    (λ _ _ q, memory_mb q <=? 1024) 60 false demo_parse demo_publication demo_str demo_julianday db_parked
    [row_of db_parked "s"; row_of db_parked "s"] "t9" 1000 demo_decisions db_waking "s"
    (row_of db_parked "s") demo_parked _ _)); [by vm_compute|].
  split; [by vm_compute|]. exists (row_of db_waking "s"). split; by vm_compute.
Defined.
