(* ===== verification/ScalePacking.v ===== *)
(** * Capacity projection and bin packing of the autoscaler (ucloud_sandboxes/policy.py)

    How much a node counts for, and [_nodes_for_unplaced_requests]: best-fit
    packing of the demanded shapes onto the fleet, counting the hypothetical
    nodes it has to add.  CPU and RAM are reusable, disk is consumed.  The packing
    loop is proved to terminate, and an answer of zero is proved to be backed by
    an explicit assignment of every request to a node that can hold it. *)
From S2P Require Import Prelude PyFloat Json PyString Resources Bytes ScaleModels.
From Stdlib Require Import QArith.
Local Close Scope Q_scope.
Local Open Scope Z_scope.

Definition node_job_id (n : SandboxNode) : string := instance_id (job n).

Definition ceil_div (value divisor : Z) : Z := (value + divisor - 1) / divisor.
Definition has_resources (v : ResourceQuantity) : bool :=
  fltb (of_int 0) (vcpu v) || (0 <? memory_mb v) || (0 <? disk_mb v).
Definition add_resources (l r : ResourceQuantity) : ResourceQuantity :=
  mkRQ (fadd (fmax (of_int 0) (vcpu l)) (fmax (of_int 0) (vcpu r)))
    (Z.max 0 (memory_mb l) + Z.max 0 (memory_mb r)) (Z.max 0 (disk_mb l) + Z.max 0 (disk_mb r)).
Definition subtract_resources (l r : ResourceQuantity) : ResourceQuantity :=
  mkRQ (fmax (of_int 0) (fsub (vcpu l) (vcpu r))) (Z.max 0 (memory_mb l - memory_mb r))
    (Z.max 0 (disk_mb l - disk_mb r)).
(** [replace(r, memory_mb=...)] *)
Definition with_memory (r : ResourceQuantity) (m : Z) : ResourceQuantity := mkRQ (vcpu r) m (disk_mb r).

(** The clamp of a float is finite. *)
Definition clamp_ratio (x : float) : Q := match clamp01 x with Fin q => q | _ => 0%Q end.
Definition scale_resources (v : ResourceQuantity) (weight : Q) : ResourceQuantity :=
  let w := clamp_ratio (Fin weight) in
  mkRQ (fmul (vcpu v) (Fin w)) (int_scaled (memory_mb v) w) (int_scaled (disk_mb v) w).

(** ** What a node counts as *)

Definition counts_as_pool_node (n : SandboxNode) : bool :=
  negb (is_final (job n) || is_lost (job n) || permanently_lost n).

(** In microseconds *)
Definition provisioning_age (n : SandboxNode) (now : Z) : option Z :=
  let reference := if is_running (job n)
                   then match pi_started_at (job n) with Some t => Some t | None => pi_created_at (job n) end
                   else pi_created_at (job n) in
  (λ r, Z.max 0 (now - r)) <$> reference.

Definition counts_as_active_provisioning (p : ScalePolicy) (now : Z) (n : SandboxNode) : bool :=
  if negb (is_provisioning n) then false
  else if negb (is_running (job n)) then true
  else
    let stale_after := Z.max 0 (stale_provisioning_after_seconds p) in
    (stale_after <=? 0) || match provisioning_age n now with
                           | None => true
                           | Some age => age <? stale_after * 1000000
                           end.

Definition counts_as_unreachable (p : ScalePolicy) (now : Z) (n : SandboxNode) : bool :=
  (is_running (job n) || is_unavailable (job n))
  && (negb (heartbeat_fresh n) || is_unavailable (job n))
  && negb (counts_as_active_provisioning p now n).

Definition provisioning_weight (n : SandboxNode) (p : ScalePolicy) (now : Z) : Q :=
  let weight := clamp_ratio (provisioning_capacity_weight p) in
  let stale := clamp_ratio (stale_provisioning_capacity_weight p) in
  let stale_after := Z.max 0 (stale_provisioning_after_seconds p) in
  if stale_after <=? 0 then weight
  else match provisioning_age n now with
       | None => if Qle_bool weight stale then weight else stale
       | Some age =>
           if stale_after * 1000000 <=? age
           then (if Qle_bool weight stale then weight else stale) else weight
       end.

Definition node_has_disk_quota (n : SandboxNode) : bool :=
  is_provisioning n || match heartbeat n with
                       | Some h => has_capability (capabilities h) DISK_QUOTA_CAPABILITY
                       | None => false
                       end.

Definition security_adjusted_resources (n : SandboxNode) (r : ResourceQuantity) : ResourceQuantity :=
  if match heartbeat n with Some h => negb (node_storage_pressure_allows h rq_zero) | None => false end
  then rq_zero
  else if (disk_mb r <=? 0) || node_has_disk_quota n then r
  else mkRQ (vcpu r) (memory_mb r) 0.

Definition physical_memory (n : SandboxNode) : Z :=
  match heartbeat n with
  | None => 0
  | Some h =>
      let actual := match runtime_metrics h with Some m => memory_total_mb m | None => 0 end in
      if 0 <? actual then Z.min (memory_mb (total_resources h)) actual else memory_mb (total_resources h)
  end.

Definition observed_default_shape (p : ScalePolicy) (n : SandboxNode) : bool :=
  is_schedulable n &&
  match heartbeat n with
  | Some h =>
      (memory_mb (total_resources h) =? memory_mb (default_node_resources p))
      && feqb (vcpu (total_resources h)) (vcpu (default_node_resources p))
      && match runtime_metrics h with Some m => 0 <? memory_total_mb m | None => false end
  | None => false
  end.
Definition forecast_node_memory (nodes : list SandboxNode) (p : ScalePolicy) : Z :=
  foldl Z.min (memory_mb (default_node_resources p))
    (physical_memory <$> filter (λ n, observed_default_shape p n = true) nodes).

Definition estimated_node_resources (n : SandboxNode) (p : ScalePolicy) : ResourceQuantity :=
  let maximum := default_node_resources p in
  let vcpu0 := of_int (default 0 (pi_cpu (job n))) in
  let memory0 := default 0 (pi_memory_gb (job n)) * 1024 in
  let disk0 := default 0 (pi_disk_gb (job n)) * 1024 in
  let c := if fleb vcpu0 (of_int 0) then vcpu maximum else vcpu0 in
  let m := if memory0 <=? 0 then memory_mb maximum else memory0 in
  let d := if disk0 <=? 0 then disk_mb maximum else disk0 in
  mkRQ (fmin c (vcpu maximum)) (Z.min m (memory_mb maximum)) (Z.min d (disk_mb maximum)).

Definition projected_provisioning_resources (n : SandboxNode) (p : ScalePolicy) (now : Z)
    (memory_capacity_mb : option Z) : ResourceQuantity :=
  let estimated :=
    let available := security_adjusted_resources n (estimated_node_resources n p) in
    match memory_capacity_mb with
    | Some m => with_memory available (Z.min (memory_mb available) m)
    | None => available
    end in
  let available :=
    match heartbeat n with
    | Some h =>
        if resources_known h then
          let available := security_adjusted_resources n (free_resources h) in
          match memory_capacity_mb with
          | Some m => with_memory available
              (Z.min (Z.min (memory_mb (security_adjusted_resources n (total_resources h)))
                        (physical_memory n)) m)
          | None => available
          end
        else estimated
    | None => estimated
    end in
  scale_resources available (provisioning_weight n p now).

Definition forecast_free_resources (n : SandboxNode) (h : NodeHeartbeat) : ResourceQuantity :=
  with_memory (security_adjusted_resources n (free_resources h))
    (Z.min (memory_mb (security_adjusted_resources n (total_resources h))) (physical_memory n)).

(** One node's share of [_projected_free_resources] *)
Definition projected_node (p : ScalePolicy) (now forecast_memory : Z) (n : SandboxNode) : ResourceQuantity :=
  if is_final (job n) then rq_zero
  else
    let provisioning := if is_provisioning n
                        then projected_provisioning_resources n p now (Some forecast_memory) else rq_zero in
    match heartbeat n with
    | Some h =>
        if is_schedulable n then
          let available := security_adjusted_resources n (free_resources h) in
          let physical := security_adjusted_resources n (total_resources h) in
          with_memory (reusable_dynamic_resources available physical)
            (Z.min (memory_mb physical) (physical_memory n))
        else provisioning
    | None => provisioning
    end.
Definition projected_free_resources (nodes : list SandboxNode) (p : ScalePolicy) (now : Z) : ResourceQuantity :=
  let forecast_memory := forecast_node_memory nodes p in
  foldl (λ total n, rq_add total (projected_node p now forecast_memory n)) rq_zero nodes.

(** ** Best-fit packing *)

(** (job id, available, total) *)
Abbreviation pack_bin := (string * ResourceQuantity * ResourceQuantity)%type.

(** Python's order on the key tuples *)
Definition fit_key_ltb (a b : Z * Z * float) : bool :=
  let '(a1, a2, a3) := a in
  let '(b1, b2, b3) := b in
  if a1 =? b1 then (if a2 =? b2 then fltb a3 b3 else a2 <? b2) else a1 <? b1.
Definition pressure_key_ltb (a b : float * Z * float) : bool :=
  let '(a1, a2, a3) := a in
  let '(b1, b2, b3) := b in
  if feqb a1 b1 then (if a2 =? b2 then fltb a3 b3 else a2 <? b2) else fltb a1 b1.

(** [min(l, key=...)]: the first element no other is below *)
Definition min_by {A} (ltb : A → A → bool) (l : list A) : option A :=
  match l with
  | [] => None
  | x :: l => Some (foldl (λ best y, if ltb y best then y else best) x l)
  end.

Definition pressure (default_bin : ResourceQuantity) (r : SandboxPlacementRequest) : float * Z * float :=
  let request := pr_resources r in
  let ratio (a b : Z) := if 0 <? b then int_div a b else of_int 0 in
  let c := if fltb (of_int 0) (vcpu default_bin) then fdiv (vcpu request) (vcpu default_bin) else of_int 0 in
  (fmax (fmax c (ratio (memory_mb request) (memory_mb default_bin)))
     (ratio (disk_mb request) (disk_mb default_bin)),
   memory_mb request + disk_mb request, vcpu request).

(** [sorted(requests, key=pressure, reverse=True)]: stable, largest first *)
Definition by_pressure (default_bin : ResourceQuantity) (l : list SandboxPlacementRequest) :
    list SandboxPlacementRequest :=
  sorted_by (λ x y, negb (pressure_key_ltb (pressure default_bin x) (pressure default_bin y))) l.

Definition node_bin (p : ScalePolicy) (now : Z) (n : SandboxNode) : option pack_bin :=
  if is_final (job n) then None
  else
    let provisioning :=
      if is_provisioning n then
        let available := projected_provisioning_resources n p now None in
        if has_resources available then Some (node_job_id n, available, default_node_resources p) else None
      else None in
    match heartbeat n with
    | Some h =>
        if is_schedulable n then
          let available := security_adjusted_resources n (free_resources h) in
          let total := security_adjusted_resources n (total_resources h) in
          Some (node_job_id n, reusable_dynamic_resources available total, total)
        else provisioning
    | None => provisioning
    end.
Definition node_bins (p : ScalePolicy) (now : Z) (nodes : list SandboxNode) : list pack_bin :=
  omap (node_bin p now) nodes.

Definition fits_bin (r : SandboxPlacementRequest) (b : pack_bin) : bool :=
  let '(job_id, available, total) := b in
  negb (bool_decide (job_id ∈ pr_excluded_job_ids r))
  && dynamic_request_fits (pr_resources r) available total.

Definition fit_key (r : SandboxPlacementRequest) (b : nat * pack_bin) : Z * Z * float :=
  let available := b.2.1.2 in
  let requested := pr_resources r in
  (disk_mb available - disk_mb requested, memory_mb available - memory_mb requested,
   fsub (vcpu available) (vcpu requested)).
Definition best_fit (r : SandboxPlacementRequest) (bins : list pack_bin) : option (nat * pack_bin) :=
  min_by (λ x y, fit_key_ltb (fit_key r x) (fit_key r y))
    (filter (λ b, fits_bin r b.2 = true) (imap pair bins)).

Definition batch_of (requested available : ResourceQuantity) (remaining : Z) : Z :=
  if 0 <? disk_mb requested then Z.min remaining (disk_mb available / disk_mb requested) else remaining.

(** [replace(requested, disk_mb=requested.disk_mb * n)] *)
Definition with_disk_times (r : ResourceQuantity) (n : Z) : ResourceQuantity :=
  mkRQ (vcpu r) (memory_mb r) (disk_mb r * n).

Record pack_state := mkPack {
  pk_bins : list pack_bin;
  pk_missing : Z;
  pk_remaining : Z;
  pk_stopped : bool
}.

(** The [while remaining > 0] loop of one request: every turn places at least one
    of its instances, so [remaining] turns are enough. *)
Fixpoint place_loop (fuel : nat) (p : ScalePolicy) (r : SandboxPlacementRequest) (st : pack_state) :
    pack_state :=
  match fuel with
  | O => st
  | S fuel =>
      if pk_stopped st || (pk_remaining st <=? 0) then st else
      let requested := pr_resources r in
      match best_fit r (pk_bins st) with
      | Some (i, (job_id, available, total)) =>
          let batch := batch_of requested available (pk_remaining st) in
          place_loop fuel p r
            (mkPack (<[i := (job_id, reserve_dynamic_resources available (with_disk_times requested batch), total)]>
                       (pk_bins st))
               (pk_missing st) (pk_remaining st - batch) false)
      | None =>
          let missing := pk_missing st + 1 in
          if max_nodes p <? missing then mkPack (pk_bins st) missing (pk_remaining st) true
          else
            let default_bin := default_node_resources p in
            let available := if dynamic_request_fits requested default_bin default_bin
                             then reserve_dynamic_resources default_bin requested else rq_zero in
            place_loop fuel p r
              (mkPack (pk_bins st ++ [(EmptyString, available, default_bin)]) missing (pk_remaining st - 1) false)
      end
  end.

(** One turn of the [for placement in ...] loop *)
Definition place_request (p : ScalePolicy) (st : pack_state) (r : SandboxPlacementRequest) : pack_state :=
  if pk_stopped st then st
  else place_loop (Z.to_nat (pr_count r)) p r (mkPack (pk_bins st) (pk_missing st) (pr_count r) false).

Definition pack_requests (p : ScalePolicy) (bins : list pack_bin) (requests : list SandboxPlacementRequest) :
    pack_state :=
  foldl (place_request p) (mkPack bins 0 0 false) (by_pressure (default_node_resources p) requests).

Definition nodes_for_unplaced_requests (nodes : list SandboxNode) (requests : list SandboxPlacementRequest)
    (p : ScalePolicy) (now : Z) : Z :=
  if bool_decide (requests = []) then 0
  else pk_missing (pack_requests p (node_bins p now nodes) requests).

(** ** The packing loop terminates *)

Lemma min_by_elem {A} (ltb : A → A → bool) l x : min_by ltb l = Some x → x ∈ l.
Proof.
  destruct l as [|y l]; [done|]. intros [= <-]. revert y.
  induction l as [|z l IH]; intros y; simpl; [set_solver|]. case_match; [set_solver|].
  specialize (IH y). set_solver.
Qed.

Lemma best_fit_spec r bins i b : best_fit r bins = Some (i, b) → bins !! i = Some b ∧ fits_bin r b = true.
Proof.
  intros [Hf Hin]%min_by_elem%list_elem_of_filter. split; [|done].
  apply elem_of_lookup_imap in Hin as (j & b' & [= -> ->] & Hb). done.
Qed.

Lemma fits_bin_inv r job available total :
  fits_bin r (job, available, total) = true →
  (job ∉ pr_excluded_job_ids r) ∧ is_valid (pr_resources r) = true ∧
  fleb (vcpu (pr_resources r)) (vcpu total) = true ∧ (memory_mb (pr_resources r) ≤ memory_mb total) ∧
  0 ≤ disk_mb (pr_resources r) ≤ disk_mb available.
Proof.
  unfold fits_bin, dynamic_request_fits. case_match eqn:Hv; [by rewrite andb_false_r|]. intros. bools.
  assert (0 ≤ disk_mb (pr_resources r)) by (unfold is_valid in *; bools; lia).
  by split_and!.
Qed.

Lemma batch_bounds requested available remaining :
  0 < remaining → 0 ≤ disk_mb requested ≤ disk_mb available →
  0 < batch_of requested available remaining ≤ remaining ∧
  disk_mb requested * batch_of requested available remaining ≤ disk_mb available.
Proof.
  intros Hr Hd. unfold batch_of. case_match; bools; [|split; [lia|nia]].
  assert (1 ≤ disk_mb available / disk_mb requested) by (apply Z.div_le_lower_bound; lia).
  pose proof (Z.mul_div_le (disk_mb available) (disk_mb requested)). split; [lia|]. nia.
Qed.

Lemma place_loop_ends fuel p r st :
  (Z.to_nat (pk_remaining st) ≤ fuel)%nat →
  let st' := place_loop fuel p r st in pk_stopped st' = true ∨ pk_remaining st' ≤ 0.
Proof.
  revert st. induction fuel as [|fuel IH]; intros st Hf; simpl; [right; lia|].
  destruct (pk_stopped st) eqn:Es; [by left|].
  destruct (Z.leb_spec (pk_remaining st) 0); simpl; [by right|].
  destruct (best_fit r (pk_bins st)) as [[i [[jid a] t]]|] eqn:Eb.
  - apply best_fit_spec in Eb as [_ (_ & _ & _ & _ & Hd)%fits_bin_inv].
    apply IH. simpl. pose proof (batch_bounds (pr_resources r) a (pk_remaining st) ltac:(lia) Hd). lia.
  - case_match; [by left|]. apply IH. simpl. lia.
Qed.

Lemma place_loop_missing fuel p r st :
  pk_missing st ≤ Z.max 0 (max_nodes p) → pk_stopped st = false →
  let st' := place_loop fuel p r st in
  pk_missing st ≤ pk_missing st' ∧
  pk_missing st' ≤ Z.max 0 (max_nodes p) + Z.b2z (pk_stopped st') ∧
  (pk_stopped st' = true → max_nodes p < pk_missing st').
Proof.
  revert st. induction fuel as [|fuel IH]; intros st Hm Hs; simpl; [rewrite Hs; simpl; lia|].
  rewrite Hs; simpl. destruct (Z.leb_spec (pk_remaining st) 0); [rewrite Hs; simpl; lia|].
  destruct (best_fit r (pk_bins st)) as [[i [[jid a] t]]|] eqn:Eb.
  - by refine (IH (mkPack _ _ _ _) _ _).
  - case_match; bools; simpl; [lia|].
    match goal with |- context [place_loop fuel p r ?s] => destruct (IH s) as (? & ? & ?) end;
      simpl in *; [lia|done|split; [lia|done]].
Qed.

(** What the fold over the requests keeps: the count of added nodes stays within
    one of [max_nodes], and only exceeds it when the fold was cut short. *)
Definition pack_ok (p : ScalePolicy) (st : pack_state) : Prop :=
  0 ≤ pk_missing st ≤ Z.max 0 (max_nodes p) + Z.b2z (pk_stopped st) ∧
  (pk_stopped st = true → max_nodes p < pk_missing st).

Lemma place_request_ok p st r :
  pack_ok p st → pack_ok p (place_request p st r) ∧ pk_missing st ≤ pk_missing (place_request p st r).
Proof.
  intros [Hm Hs]. unfold place_request. destruct (pk_stopped st) eqn:E.
  - split; [|lia]. split; rewrite E; [done|]. intros _. by apply Hs.
  - destruct (place_loop_missing (Z.to_nat (pr_count r)) p r (mkPack (pk_bins st) (pk_missing st) (pr_count r) false))
      as (? & ? & ?); simpl in *; [lia|done|]. split; [|lia]. split; [lia|done].
Qed.

Lemma place_requests_ok p st rs :
  pack_ok p st → pack_ok p (foldl (place_request p) st rs) ∧
  pk_missing st ≤ pk_missing (foldl (place_request p) st rs).
Proof.
  revert st. induction rs as [|r rs IH]; intros st Hok; simpl; [split; [done|lia]|].
  destruct (place_request_ok p st r Hok) as [Hok' ?]. destruct (IH _ Hok'). split; [done|lia].
Qed.

Lemma pack_init_ok p bins : pack_ok p (mkPack bins 0 0 false).
Proof. split; simpl; [lia|done]. Qed.

(** ** An answer of zero is an assignment *)

(** (bin index, request, number of its instances) *)
Abbreviation placement := (nat * SandboxPlacementRequest * Z)%type.

Definition assigned_disk (plan : list placement) (i : nat) : Z :=
  zsum ((λ e : placement, disk_mb (pr_resources e.1.2) * e.2) <$> filter (λ e : placement, e.1.1 = i) plan).
Definition assigned_count (plan : list placement) (r : SandboxPlacementRequest) : Z :=
  zsum (snd <$> filter (λ e : placement, e.1.2 = r) plan).
Definition demanded (requests : list SandboxPlacementRequest) (r : SandboxPlacementRequest) : Z :=
  zsum (pr_count <$> filter (λ x, x = r) requests).

(** A bin whose job is not excluded and whose shape holds the request *)
Definition shape_holds (r : SandboxPlacementRequest) (b : pack_bin) : Prop :=
  (b.1.1 ∉ pr_excluded_job_ids r) ∧ is_valid (pr_resources r) = true ∧
  fleb (vcpu (pr_resources r)) (vcpu b.2) = true ∧ (memory_mb (pr_resources r) ≤ memory_mb b.2).

Record assignment (bins : list pack_bin) (requests : list SandboxPlacementRequest) (plan : list placement) :
    Prop := {
  as_shape : ∀ i r n, (i, r, n) ∈ plan → 0 < n ∧ ∃ b, bins !! i = Some b ∧ shape_holds r b;
  as_disk : ∀ i b, bins !! i = Some b → assigned_disk plan i ≤ Z.max 0 (disk_mb b.1.2);
  as_count : ∀ r, assigned_count plan r = demanded requests r
}.

(** The bins after the placements of [plan] *)
Record charged (bins bins' : list pack_bin) (plan : list placement) : Prop := {
  ch_len : length bins' = length bins;
  ch_bin : ∀ i b b', bins !! i = Some b → bins' !! i = Some b' →
    b'.1.1 = b.1.1 ∧ b'.2 = b.2 ∧
    (assigned_disk plan i = 0 ∧ b' = b ∨
     0 ≤ disk_mb b'.1.2 ∧ disk_mb b'.1.2 = disk_mb b.1.2 - assigned_disk plan i);
  ch_shape : ∀ i r n, (i, r, n) ∈ plan → 0 < n ∧ ∃ b, bins !! i = Some b ∧ shape_holds r b
}.

Lemma assigned_disk_snoc plan i r n j :
  assigned_disk (plan ++ [(i, r, n)]) j =
  assigned_disk plan j + (if decide (i = j) then disk_mb (pr_resources r) * n else 0).
Proof.
  unfold assigned_disk. rewrite filter_app, fmap_app, zsum_app. f_equal.
  rewrite filter_cons. simpl. destruct (decide (i = j)); [|done]. cbn. lia.
Qed.
Lemma assigned_count_app plan plan' r :
  assigned_count (plan ++ plan') r = assigned_count plan r + assigned_count plan' r.
Proof. unfold assigned_count. by rewrite filter_app, fmap_app, zsum_app. Qed.

Lemma charged_place bins bins' plan i jid a t r n :
  charged bins bins' plan → bins' !! i = Some (jid, a, t) → fits_bin r (jid, a, t) = true →
  0 < n → disk_mb (pr_resources r) * n ≤ disk_mb a →
  charged bins (<[i := (jid, reserve_dynamic_resources a (with_disk_times (pr_resources r) n), t)]> bins')
    (plan ++ [(i, r, n)]).
Proof.
  intros [Hl Hb Hs] Hi (Hx & Hv & Hc & Hm & Hd)%fits_bin_inv Hn Hle.
  assert (is_Some (bins !! i)) as [b Hbi].
  { apply lookup_lt_is_Some. rewrite <-Hl. by eapply lookup_lt_Some. }
  destruct (Hb i b _ Hbi Hi) as (Hj & Ht & Hdisk). simpl in *. split.
  - by rewrite length_insert.
  - intros j c c' Hc1 Hc2. rewrite assigned_disk_snoc.
    destruct (decide (i = j)) as [<-|Hne].
    + rewrite list_lookup_insert_eq in Hc2 by (by eapply lookup_lt_Some). simplify_eq/=.
      split_and!; [done|done|]. right. rewrite Z.max_r by lia. split; [lia|].
      destruct Hdisk as [[-> <-]|[? ->]]; simpl; lia.
    + rewrite list_lookup_insert_ne in Hc2 by done. rewrite Z.add_0_r. by apply Hb.
  - intros j r' n' [?|[= -> -> ->]%list_elem_of_singleton]%elem_of_app; [by apply Hs|].
    split; [done|]. exists b. split; [done|]. destruct b as [[bj ba] bt]. simpl in *. subst. by split_and!.
Qed.

Lemma place_loop_plan fuel p r st bins plan :
  (Z.to_nat (pk_remaining st) ≤ fuel)%nat → pk_stopped st = false → charged bins (pk_bins st) plan →
  pk_missing (place_loop fuel p r st) = pk_missing st → pk_missing st = 0 →
  ∃ plan', charged bins (pk_bins (place_loop fuel p r st)) (plan ++ plan') ∧
    Forall (λ e, e.1.2 = r) plan' ∧ zsum (snd <$> plan') = Z.max 0 (pk_remaining st) ∧
    pk_stopped (place_loop fuel p r st) = false.
Proof.
  revert st plan. induction fuel as [|fuel IH]; intros st plan Hf Hs Hch Hm Hz; simpl in *.
  { exists []. rewrite app_nil_r. split_and!; try done. simpl. lia. }
  rewrite Hs in *; simpl in *. destruct (Z.leb_spec (pk_remaining st) 0).
  { exists []. rewrite app_nil_r. split_and!; try done. simpl. lia. }
  destruct (best_fit r (pk_bins st)) as [[i [[jid a] t]]|] eqn:Eb.
  - apply best_fit_spec in Eb as [Hi Hfit].
    pose proof (fits_bin_inv _ _ _ _ Hfit) as (_ & _ & _ & _ & Hd).
    destruct (batch_bounds (pr_resources r) a (pk_remaining st) ltac:(lia) Hd) as [Hb1 Hb2].
    set (n := batch_of (pr_resources r) a (pk_remaining st)) in *.
    match type of Hm with context [place_loop fuel p r ?s] =>
      destruct (IH s (plan ++ [(i, r, n)])) as (plan' & H1 & H2 & H3 & H4) end;
      simpl in *; [lia|done|apply charged_place; [done..|lia|done]|done|done|].
    exists ((i, r, n) :: plan'). rewrite <-app_assoc in H1. split_and!; [done|by constructor| |done].
    csimpl. rewrite H3. lia.
  - exfalso. case_match; bools; simpl in *; [lia|].
    match type of Hm with context [place_loop fuel p r ?s] =>
      destruct (place_loop_missing fuel p r s) as (Hge & _) end; simpl in *; [lia|done|lia].
Qed.

Lemma assigned_count_one plan r r' :
  Forall (λ e : placement, e.1.2 = r) plan →
  assigned_count plan r' = if decide (r = r') then zsum (snd <$> plan) else 0.
Proof.
  unfold assigned_count. induction 1 as [|[[i x] n] plan Hx _ IH]; [by destruct (decide _)|].
  simpl in Hx. subst x. rewrite filter_cons. simpl. destruct (decide (r = r')); csimpl; by rewrite IH.
Qed.

Lemma place_requests_plan p rs st bins plan :
  Forall (λ r, 0 ≤ pr_count r) rs → pack_ok p st → pk_stopped st = false → charged bins (pk_bins st) plan →
  pk_missing (foldl (place_request p) st rs) = 0 →
  ∃ plan', charged bins (pk_bins (foldl (place_request p) st rs)) (plan ++ plan') ∧
    ∀ r, assigned_count plan' r = demanded rs r.
Proof.
  intros Hc. revert st plan. induction Hc as [|r rs Hr _ IH]; intros st plan Hok Hs Hch Hm; simpl in *.
  { exists []. by rewrite app_nil_r. }
  destruct (place_request_ok p st r Hok) as [Hok' Hle].
  destruct (place_requests_ok p _ rs Hok') as [_ Hle'].
  destruct Hok as [[Hz _] _].
  assert (pk_missing (place_request p st r) = 0 ∧ pk_missing st = 0) as [Hm1 Hm0].
  { destruct Hok' as [[? _] _]. lia. }
  revert Hm1 Hok' Hm. unfold place_request. rewrite Hs. intros Hm1 Hok' Hm.
  edestruct (place_loop_plan (Z.to_nat (pr_count r)) p r
    (mkPack (pk_bins st) (pk_missing st) (pr_count r) false) bins plan) as (q1 & Hq1 & Hr1 & Hn1 & Hs1);
    simpl in *; [lia|done|done|lia|done|].
  edestruct (IH _ _ Hok' Hs1 Hq1 Hm) as (q2 & Hq2 & Hn2).
  exists (q1 ++ q2). rewrite app_assoc. split; [done|]. intros r'.
  rewrite assigned_count_app, Hn2, (assigned_count_one q1 r r' Hr1).
  unfold demanded. rewrite filter_cons. destruct (decide (r = r')); csimpl; [rewrite Hn1; lia|lia].
Qed.

Lemma charged_refl bins : charged bins bins [].
Proof.
  split; [done| |by intros ??? ?%elem_of_nil].
  intros i b b' ??. simplify_eq. split_and!; [done|done|]. by left.
Qed.

Lemma demanded_perm rs rs' r : rs ≡ₚ rs' → demanded rs r = demanded rs' r.
Proof. intros H. unfold demanded. by rewrite H. Qed.

Lemma pack_requests_ok p bins requests : pack_ok p (pack_requests p bins requests).
Proof. apply place_requests_ok, pack_init_ok. Qed.

Lemma pack_requests_assign p bins requests :
  Forall (λ r, 0 ≤ pr_count r) requests → pk_missing (pack_requests p bins requests) = 0 →
  ∃ plan, assignment bins requests plan.
Proof.
  intros Hc Hm. unfold pack_requests in *.
  set (sorted := by_pressure _ _) in *.
  assert (sorted ≡ₚ requests) as Hp by apply sorted_by_perm.
  destruct (place_requests_plan p sorted (mkPack bins 0 0 false) bins []) as (plan & Hch & Hn);
    [by rewrite Hp|apply pack_init_ok|done|apply charged_refl|exact Hm|].
  rewrite app_nil_l in Hch. exists plan. destruct Hch as [Hl Hb Hs]. split; [exact Hs| |].
  - intros i b Hi. assert (is_Some (pk_bins (foldl (place_request p) (mkPack bins 0 0 false) sorted) !! i)) as [b' Hb'].
    { apply lookup_lt_is_Some. rewrite Hl. by eapply lookup_lt_Some. }
    destruct (Hb i b b' Hi Hb') as (_ & _ & [[-> _]|[? ?]]); simpl in *; lia.
  - intros r. rewrite Hn. by apply demanded_perm.
Qed.

(** [_nodes_for_unplaced_requests] always answers, with at most one node more
    than [max_nodes] allows: every turn of its inner loop places at least one
    instance, so each request's loop ends with nothing left to place unless the
    count has already passed [max_nodes]. *)
Theorem packing_terminates p now nodes requests r st :
  pk_stopped st = false →
  (let st' := place_request p st r in pk_stopped st' = true ∨ pk_remaining st' ≤ 0) ∧
  0 ≤ nodes_for_unplaced_requests nodes requests p now ≤ Z.max 0 (max_nodes p) + 1.
Proof.
  intros Hs. split.
  - unfold place_request. rewrite Hs. by apply place_loop_ends.
  - unfold nodes_for_unplaced_requests. case_bool_decide; [lia|].
    destruct (pack_requests_ok p (node_bins p now nodes) requests) as [Hb _].
    destruct (pk_stopped (pack_requests _ _ _)); simpl in Hb; lia.
Qed.

Lemma unplaced_zero_assigns p now nodes requests :
  Forall (λ r, 0 < pr_count r) requests →
  nodes_for_unplaced_requests nodes requests p now = 0 →
  ∃ plan, assignment (node_bins p now nodes) requests plan.
Proof.
  intros Hc. unfold nodes_for_unplaced_requests. case_bool_decide as Hr.
  - intros _. subst. exists []. split; [by intros ??? ?%elem_of_nil| |done]. intros i b _. cbn. lia.
  - intros Hm. eapply pack_requests_assign; [|exact Hm]. eapply Forall_impl; [exact Hc|]. simpl. lia.
Qed.

(** C19. An answer of zero is backed by an assignment: every demanded instance sits
    on a fleet node its request does not exclude and whose shape holds it, and no
    node is given more disk than it has available. *)
Theorem packing_zero_assigns p now nodes requests :
  Forall (λ r, 0 < pr_count r) requests →
  nodes_for_unplaced_requests nodes requests p now = 0 →
  ∃ plan, assignment (node_bins p now nodes) requests plan.
Proof. apply unplaced_zero_assigns. Qed.

(** ** A concrete fleet *)

Definition demo_shape : ResourceQuantity := mkRQ (of_int 4) 16000 2000.
Definition demo_policy : ScalePolicy := default_policy 0 4 false demo_shape.
Definition demo_worker (id : string) (used : Z) : SandboxNode :=
  mkNode (mkInstance id RUNNING (Some 0) (Some 0) None None None [])
    (Some (mkHeartbeat id id 0 0 0 0 None false None "v" ["disk-quota"] demo_shape true
       (mkRQ (of_int 0) 0 used) [] None None "e" [] [] true rq_zero rq_zero true 0 EmptyString 0)) 0 true true false.
Definition demo_small : SandboxPlacementRequest := mkPR (mkRQ (of_int 1) 1000 600) 2 ["b"] EmptyString.
Definition demo_large : SandboxPlacementRequest := mkPR (mkRQ (of_int 2) 8000 1000) 1 [] EmptyString.

Lemma packing_terminates_witness :
  (let st' := place_request demo_policy (mkPack [] 0 0 false) demo_large in
   pk_stopped st' = true ∨ pk_remaining st' ≤ 0) ∧
  0 ≤ nodes_for_unplaced_requests [demo_worker "a" 0] [demo_small] demo_policy 0 ≤ 4 + 1.
Proof. exact (packing_terminates demo_policy 0 [demo_worker "a" 0] [demo_small] demo_large (mkPack [] 0 0 false) eq_refl). Defined.

Lemma packing_zero_assigns_witness :
  ∃ plan, assignment (node_bins demo_policy 0 [demo_worker "a" 0; demo_worker "b" 500])
    [demo_small; demo_large] plan.
Proof.
  apply packing_zero_assigns; [repeat constructor|]. vm_compute. reflexivity.
Defined.

(** A fleet that is too small for the same demand needs one more node. *)
Lemma demo_needs_node :
  nodes_for_unplaced_requests [demo_worker "a" 1000; demo_worker "b" 500] [demo_small; demo_large] demo_policy 0 = 1.
Proof. vm_compute. reflexivity. Qed.
