(* ===== verification/ScaleDown.v ===== *)
(** * Removing workers: stops and soft drains (ucloud_sandboxes/policy.py)

    Which nodes the autoscaler may stop: unreachable ones without work, ones with
    an incompatible agent or a failing host, and idle ones whose removal leaves
    enough capacity ([_stop_candidates]); and the one worker it empties by moving
    its parks ([plan_soft_drain]). *)
From S2P Require Import Prelude PyFloat Json PyString Resources Bytes ScaleModels.
From S2P Require Import Consolidation Routes ScalePacking.
From stdpp Require Import pretty.
Local Open Scope Z_scope.

Definition opt_else {A} (a b : option A) : option A := match a with Some x => Some x | None => b end.

(** [", ".join(l)] and the like *)
Fixpoint str_join (sep : string) (l : list string) : string :=
  match l with
  | [] => EmptyString
  | [x] => x
  | x :: l => x +:+ sep +:+ str_join sep l
  end.

(** ** Idle workers *)

Definition SOFT_DRAIN_IDLE_SECONDS : Z := 60.

Definition past_idle_grace (n : SandboxNode) (idle_seconds now : Z) : bool :=
  let idle_seconds := Z.max 0 idle_seconds in
  if idle_seconds =? 0 then true
  else
    let started := opt_else (pi_started_at (job n)) (pi_created_at (job n)) in
    let reference :=
      match heartbeat n with
      | Some h => match idle_since h with
                  | Some t => Some t
                  | None => if sn_active_sandboxes n =? 0 then Some (updated_at h) else started
                  end
      | None => started
      end in
    match reference with
    | None => false
    | Some r => idle_seconds * 1000000 <=? now - r
    end.

(** Capacity a surviving node reported itself *)
Definition known_free (n : SandboxNode) : ResourceQuantity :=
  match heartbeat n with
  | Some h => if resources_known h then forecast_free_resources n h else rq_zero
  | None => rq_zero
  end.
Definition reported_free_resources (nodes : list SandboxNode) : ResourceQuantity :=
  foldl (λ total n, rq_add total (known_free n)) rq_zero nodes.

Definition exact_node (n : SandboxNode) : bool :=
  is_schedulable n && match heartbeat n with Some h => resources_known h | None => false end.

Definition removal_fits (n : SandboxNode) (p : ScalePolicy) (now : Z)
    (remaining_free : ResourceQuantity) (remaining_nodes : list SandboxNode)
    (required : ResourceQuantity) (requests : list SandboxPlacementRequest) :
    option (ResourceQuantity * list SandboxNode) :=
  let after := subtract_resources remaining_free (known_free n) in
  if negb (fits_within required after) then None
  else
    let after_nodes := filter (λ m, node_job_id m ≠ node_job_id n) remaining_nodes in
    let exact := filter (λ m, exact_node m = true) after_nodes in
    if negb (nodes_for_unplaced_requests exact requests p now =? 0) then None
    else Some (after, after_nodes).

Record stop_state := mkStop {
  st_candidates : list SandboxNode;
  st_free : ResourceQuantity;
  st_nodes : list SandboxNode
}.

Definition idle_grace (p : ScalePolicy) (n : SandboxNode) : Z :=
  if is_soft_drained (heartbeat n) then Z.min (scale_down_idle_seconds p) SOFT_DRAIN_IDLE_SECONDS
  else scale_down_idle_seconds p.

(** One turn of the [for node in ready_nodes] loop *)
Definition stop_turn (p : ScalePolicy) (now : Z) (required : ResourceQuantity) (max_count : Z)
    (requests : list SandboxPlacementRequest) (st : stop_state) (n : SandboxNode) : stop_state :=
  if max_count <=? Z.of_nat (length (st_candidates st)) then st
  else if negb (is_idle n) then st
  else if negb (past_idle_grace n (idle_grace p n) now) then st
  else match removal_fits n p now (st_free st) (st_nodes st) required requests with
       | None => st
       | Some (free, nodes) => mkStop (st_candidates st ++ [n]) free nodes
       end.

Definition stop_candidates (ready : list SandboxNode) (p : ScalePolicy) (now : Z)
    (required : ResourceQuantity) (max_count : Z) (placement_nodes : list SandboxNode)
    (requests : list SandboxPlacementRequest) : list SandboxNode :=
  if max_count <=? 0 then []
  else st_candidates (foldl (stop_turn p now required max_count requests)
    (mkStop [] (reported_free_resources ready) placement_nodes) ready).

(** ** Unreachable and incompatible workers *)

Definition unreachable_node_reference (n : SandboxNode) : option Z :=
  match heartbeat n with
  | Some h => Some (freshness_at h)
  | None => opt_else (pi_started_at (job n)) (pi_created_at (job n))
  end.

Definition unreachable_node_stop_ready (n : SandboxNode) (p : ScalePolicy) (now : Z) : bool :=
  let timeout := Z.max 0 (unreachable_stop_after_seconds p) in
  if (timeout <=? 0) || negb (is_running (job n)) || heartbeat_fresh n
     || match unreachable_node_reference n with
        | None => true
        | Some r => now - r <? timeout * 1000000
        end
     || negb (sn_active_sandboxes n =? 0)
  then false
  else match heartbeat n with
       | None => true
       | Some h =>
           inventory_complete h && bool_decide (inventory h = []) && (active_workloads h =? 0)
           && rq_eqb (used_resources h) rq_zero && rq_eqb (reserved_resources h) rq_zero
           && rq_eqb (build_reserved_resources h) rq_zero
       end.

(** (time, job id), as the sort keys compare *)
Definition time_job_leb (a b : Z * string) : bool :=
  if a.1 =? b.1 then string_leb a.2 b.2 else a.1 <? b.1.

Definition unreachable_stop_candidates (nodes : list SandboxNode) (p : ScalePolicy) (now : Z) :
    list SandboxNode :=
  let key n := (default now (unreachable_node_reference n), node_job_id n) in
  sorted_by (λ a b, time_job_leb (key a) (key b))
    (filter (λ n, unreachable_node_stop_ready n p now = true) nodes).

(** (kept, cleared, reasons) *)
Abbreviation drain_state := (string * list string * list string)%type.

Section policy.

Definition retiring (now max_cpu_check_ms : Z) (n : SandboxNode) : bool :=
  negb (is_none (retiring_reason (heartbeat n) now max_cpu_check_ms)).

Definition incompatible_candidate (now max_cpu_check_ms : Z) (n : SandboxNode) : bool :=
  if is_final (job n) || (agent_version_compatible n && negb (retiring now max_cpu_check_ms n)) then false
  else (bool_decide (phase (job n) = PROVISIONING) && negb (agent_version_compatible n))
       || (is_running (job n) && heartbeat_fresh n && is_idle n).

Definition incompatible_stop_candidates (nodes : list SandboxNode) (now max_cpu_check_ms : Z) :
    list SandboxNode :=
  let key n := (default now (opt_else (pi_started_at (job n)) (pi_created_at (job n))), node_job_id n) in
  sorted_by (λ a b, time_job_leb (key a) (key b))
    (filter (λ n, incompatible_candidate now max_cpu_check_ms n = true) nodes).

(** ** Soft drain *)

Record SoftDrainPlan := mkDrain {
  dr_job_id : string;
  dr_selected : bool;
  dr_clear_job_ids : list string;
  dr_reason : string;
  dr_retiring : bool
}.

Definition RUNTIME_CPU_CAPABILITY_PREFIX : string := "runtime-cpu-features-sha256:".

Definition soft_drain_sandboxes (n : SandboxNode) : Z :=
  Z.max (sn_active_sandboxes n)
    match heartbeat n with Some h => Z.of_nat (length (inventory h)) | None => 0 end.

Definition cpu_identity (n : SandboxNode) : option string :=
  match filter (λ v, String.prefix RUNTIME_CPU_CAPABILITY_PREFIX v = true)
          (match heartbeat n with Some h => capabilities h | None => [] end) with
  | [v] => Some v
  | _ => None
  end.

Definition has_move_peer (ready : list SandboxNode) (n : SandboxNode) : bool :=
  match cpu_identity n with
  | None => true
  | Some identity =>
      existsb (λ other, negb (bool_decide (node_job_id other = node_job_id n))
                        && match cpu_identity other with
                           | None => true
                           | Some v => bool_decide (v = identity)
                           end) ready
  end.

Definition soft_drain_label (n : SandboxNode) : string :=
  default EmptyString (h ← heartbeat n; dget (labels h) SOFT_DRAIN_LABEL).

Definition serves_pending (pending_count : Z) (requests : list SandboxPlacementRequest) (n : SandboxNode) : bool :=
  if pending_count <=? 0 then false
  else match requests, heartbeat n with
       | [], _ | _, None => true
       | _, Some h =>
           let total := security_adjusted_resources n (total_resources h) in
           let available := reusable_dynamic_resources (security_adjusted_resources n (free_resources h)) total in
           existsb (λ r, negb (bool_decide (node_job_id n ∈ pr_excluded_job_ids r))
                         && dynamic_request_fits (pr_resources r) available total) requests
       end.

(** What [plan_soft_drain] computes about the fleet *)
Record drain_view := mkDrainView {
  dv_pool : list SandboxNode;
  dv_labelled : list SandboxNode;
  dv_capacity : list SandboxNode;
  dv_ready : list SandboxNode;
  dv_excess : bool
}.
Definition view_fleet (nodes : list SandboxNode) (p : ScalePolicy) : drain_view :=
  let pool := filter (λ n, counts_as_pool_node n = true) nodes in
  let capacity := filter (λ n, agent_version_compatible n || is_provisioning n = true) pool in
  mkDrainView pool (filter (λ n, is_soft_drained (heartbeat n) = true) pool) capacity
    (filter (λ n, is_schedulable n = true) capacity) (min_nodes p <? Z.of_nat (length pool)).

Definition surplus (v : drain_view) (p : ScalePolicy) (now : Z) (required : ResourceQuantity)
    (requests : list SandboxPlacementRequest) (n : SandboxNode) : bool :=
  match heartbeat n with
  | Some h =>
      if negb (resources_known h) then false
      else
        let held := subtract_resources (security_adjusted_resources n (total_resources h))
                      (security_adjusted_resources n (free_resources h)) in
        negb (is_none (removal_fits n p now (reported_free_resources (dv_ready v)) (dv_capacity v)
          (mkRQ (vcpu required) (memory_mb required) (Z.max 0 (disk_mb required) + disk_mb held)) requests))
  | None => false
  end.

(** (label, job id) of the labelled workers, the order they are examined in *)
Definition label_job_leb (a b : string * string) : bool :=
  if bool_decide (a.1 = b.1) then string_leb a.2 b.2 else string_leb a.1 b.1.

(** One turn of the loop over the labelled workers *)
Definition drain_turn (v : drain_view) (p : ScalePolicy) (now : Z) (required : ResourceQuantity)
    (requests : list SandboxPlacementRequest) (pending_count : Z) (st : drain_state) (n : SandboxNode) :
    drain_state :=
  let '(kept, clear, reasons) := st in
  let id := node_job_id n in
  if nonempty kept then (kept, clear ++ [id], reasons ++ [id +:+ " exceeds one soft-drained worker"])
  else if negb (bool_decide (id ∈ node_job_id <$> dv_ready v)) then (id, clear, reasons)
  else if negb (dv_excess v) || negb (surplus v p now required requests n)
  then (kept, clear ++ [id], reasons ++ [id +:+ " is no longer surplus"])
  else if serves_pending pending_count requests n
  then (kept, clear ++ [id], reasons ++ [id +:+ " can serve pending demand"])
  else if negb (has_move_peer (dv_ready v) n)
  then (kept, clear ++ [id], reasons ++ ["no other worker shares " +:+ id +:+ "'s CPU features"])
  else (id, clear, reasons).

(** [max(l, key=...)]: the first element none exceeds *)
Definition max_by {A} (ltb : A → A → bool) (l : list A) : option A := min_by (λ x y, ltb y x) l.

Definition heartbeat_rank (n : SandboxNode) : nat * string * string :=
  match heartbeat n with Some h => consolidation_rank h | None => (0%nat, EmptyString, EmptyString) end.

(** The workers a new selection may take *)
Definition drain_eligible (v : drain_view) (p : ScalePolicy) (now : Z) (required : ResourceQuantity)
    (requests : list SandboxPlacementRequest) (excluded : list string) : list SandboxNode :=
  let candidates := filter (λ n, negb (bool_decide (node_job_id n ∈ excluded)) && negb (is_idle n)
    && match heartbeat n with Some h => resources_known h | None => false end = true) (dv_ready v) in
  if (1 <? length candidates)%nat
  then filter (λ n, has_move_peer (dv_ready v) n && surplus v p now required requests n = true) candidates
  else [].

Definition drain_choice (eligible : list SandboxNode) : option (SandboxNode * Z) :=
  match eligible with
  | [] => None
  | n :: l =>
      let fewest := foldl Z.min (soft_drain_sandboxes n) (soft_drain_sandboxes <$> l) in
      (λ c, (c, fewest)) <$>
        max_by (λ a b, rank_ltb (heartbeat_rank a) (heartbeat_rank b))
          (filter (λ m, soft_drain_sandboxes m = fewest) eligible)
  end.

Definition plan_soft_drain (nodes : list SandboxNode) (p : ScalePolicy) (now : Z)
    (required : ResourceQuantity) (requests : list SandboxPlacementRequest) (pending_count : Z)
    (allow_select : bool) (excluded : list string) : SoftDrainPlan :=
  let v := view_fleet nodes p in
  let ids := node_job_id <$> dv_labelled v in
  if negb (drain_on_park_enabled p)
  then mkDrain EmptyString false ids (match ids with [] => EmptyString | _ => "drain on park is disabled" end) false
  else
    let failing := filter (λ n, retiring now (max_cpu_check_ms p) n = true) (dv_pool v) in
    let order a b :=
      if bool_decide (is_soft_drained (heartbeat a) = is_soft_drained (heartbeat b))
      then string_ltb (node_job_id a) (node_job_id b) else is_soft_drained (heartbeat a) in
    match min_by order failing with
    | Some chosen =>
        mkDrain (node_job_id chosen) (negb (is_soft_drained (heartbeat chosen)))
          (filter (λ id, id ≠ node_job_id chosen) ids)
          (node_job_id chosen +:+ " " +:+
             default EmptyString (retiring_reason (heartbeat chosen) now (max_cpu_check_ms p))) true
    | None =>
        let key n := (soft_drain_label n, node_job_id n) in
        let '(kept, clear, reasons) :=
          foldl (drain_turn v p now required requests pending_count) (EmptyString, [], [])
            (sorted_by (λ a b, label_job_leb (key a) (key b)) (dv_labelled v)) in
        if nonempty kept || negb allow_select || negb (dv_excess v) || (0 <? pending_count)
        then mkDrain kept false clear (str_join "; " reasons) false
        else match drain_choice (drain_eligible v p now required requests excluded) with
             | None => mkDrain EmptyString false clear (str_join "; " reasons) false
             | Some (chosen, fewest) =>
                 mkDrain (node_job_id chosen) true clear
                   (str_join "; " (reasons ++ ["selected " +:+ node_job_id chosen +:+ " (" +:+ pretty fewest
                                           +:+ " sandbox(es)); demand fits without it"])) false
             end
    end.
End policy.

(** ** Idle stops leave the demand served *)

Definition ids (l : list SandboxNode) : list string := node_job_id <$> l.
(** The workers of [l] that are not stopped *)
Definition survivors (l stopped : list SandboxNode) : list SandboxNode :=
  filter (λ n, node_job_id n ∉ ids stopped) l.

(** A worker whose heartbeat reports a sane shape *)
Definition sane_shape (n : SandboxNode) : Prop :=
  match heartbeat n with Some h => 0 ≤ memory_mb (total_resources h) | None => True end.

Lemma security_adjusted_disk n r : 0 ≤ disk_mb r → 0 ≤ disk_mb (security_adjusted_resources n r).
Proof. unfold security_adjusted_resources. intros. repeat case_match; simpl; lia. Qed.
Lemma security_adjusted_memory n r : 0 ≤ memory_mb r → 0 ≤ memory_mb (security_adjusted_resources n r).
Proof. unfold security_adjusted_resources. intros. repeat case_match; simpl; lia. Qed.
Lemma free_resources_disk h : 0 ≤ disk_mb (free_resources h).
Proof. unfold free_resources. simpl. repeat case_match; lia. Qed.

Lemma known_free_nonneg n : sane_shape n → 0 ≤ disk_mb (known_free n) ∧ 0 ≤ memory_mb (known_free n).
Proof.
  unfold sane_shape, known_free. destruct (heartbeat n) as [h|] eqn:Eh; [|simpl; lia]. intros Hm.
  destruct (resources_known h); [|simpl; lia]. simpl. split.
  - apply security_adjusted_disk, free_resources_disk.
  - pose proof (security_adjusted_memory n _ Hm). unfold physical_memory. rewrite Eh.
    destruct (runtime_metrics h); case_match; bools; lia.
Qed.

Lemma reported_free_sum l total :
  disk_mb (foldl (λ t n, rq_add t (known_free n)) total l) =
    disk_mb total + zsum ((λ n, disk_mb (known_free n)) <$> l) ∧
  memory_mb (foldl (λ t n, rq_add t (known_free n)) total l) =
    memory_mb total + zsum ((λ n, memory_mb (known_free n)) <$> l).
Proof.
  revert total. induction l as [|n l IH]; intros total; csimpl; [lia|].
  destruct (IH (rq_add total (known_free n))) as [-> ->]. cbn. lia.
Qed.

Lemma survivors_app l k stopped : survivors (l ++ k) stopped = survivors l stopped ++ survivors k stopped.
Proof. apply filter_app. Qed.
Lemma survivors_snoc l stopped n :
  survivors l (stopped ++ [n]) = filter (λ m, node_job_id m ≠ node_job_id n) (survivors l stopped).
Proof.
  unfold survivors, ids. rewrite list_filter_filter. apply list_filter_iff. intros m.
  rewrite fmap_app, elem_of_app. simpl. rewrite list_elem_of_singleton. tauto.
Qed.
Lemma survivors_fresh l stopped n :
  node_job_id n ∉ ids l → survivors l (stopped ++ [n]) = survivors l stopped.
Proof.
  intros Hn. rewrite survivors_snoc. apply filter_keep.
  intros m [_ Hm]%list_elem_of_filter Heq. apply Hn. rewrite <-Heq. by apply list_elem_of_fmap_2.
Qed.

Section idle_stops.
Context (p : ScalePolicy) (now : Z) (required : ResourceQuantity) (max_count : Z).
Context (requests : list SandboxPlacementRequest) (placement : list SandboxNode).

(** What the loop knows after the workers [done], with [todo] ahead. *)
Record stop_inv (done todo : list SandboxNode) (st : stop_state) : Prop := {
  si_sub : ∀ n, n ∈ st_candidates st → n ∈ done ∧ is_idle n = true ∧ past_idle_grace n (idle_grace p n) now = true;
  si_nodup : NoDup (ids (st_candidates st));
  si_len : Z.of_nat (length (st_candidates st)) ≤ Z.max 0 max_count;
  si_nodes : st_nodes st = survivors placement (st_candidates st);
  si_disk : disk_mb (st_free st) =
    zsum ((λ n, disk_mb (known_free n)) <$> survivors done (st_candidates st) ++ todo);
  si_memory : memory_mb (st_free st) =
    zsum ((λ n, memory_mb (known_free n)) <$> survivors done (st_candidates st) ++ todo);
  si_fits : st_candidates st ≠ [] → fits_within required (st_free st) = true ∧
    nodes_for_unplaced_requests (filter (λ m, exact_node m = true) (st_nodes st)) requests p now = 0
}.

Lemma removal_fits_inv n free nodes free' nodes' :
  removal_fits n p now free nodes required requests = Some (free', nodes') →
  free' = subtract_resources free (known_free n) ∧ nodes' = filter (λ m, node_job_id m ≠ node_job_id n) nodes ∧
  fits_within required free' = true ∧
  nodes_for_unplaced_requests (filter (λ m, exact_node m = true) nodes') requests p now = 0.
Proof. unfold removal_fits. intros H. cases. by split_and!. Qed.

Lemma stop_skip done n todo st :
  node_job_id n ∉ ids done → stop_inv done (n :: todo) st → stop_inv (done ++ [n]) todo st.
Proof.
  intros Hn [Hs Hd Hl Hno Hk Hm Hf].
  assert (survivors (done ++ [n]) (st_candidates st) = survivors done (st_candidates st) ++ [n]) as Heq.
  { rewrite survivors_app. f_equal. unfold survivors. rewrite filter_cons_True; [done|].
    intros (c & Heq & [Hc _]%Hs)%list_elem_of_fmap. apply Hn. rewrite Heq. by apply list_elem_of_fmap_2. }
  split; try done; [|by rewrite Heq, <-app_assoc..].
  intros c Hc. destruct (Hs c Hc) as (? & ? & ?). split_and!; try done. set_solver.
Qed.

Lemma stop_take done n todo st free nodes :
  Forall sane_shape (done ++ n :: todo) → node_job_id n ∉ ids done →
  Z.of_nat (length (st_candidates st)) < max_count → is_idle n = true →
  past_idle_grace n (idle_grace p n) now = true →
  removal_fits n p now (st_free st) (st_nodes st) required requests = Some (free, nodes) →
  stop_inv done (n :: todo) st → stop_inv (done ++ [n]) todo (mkStop (st_candidates st ++ [n]) free nodes).
Proof.
  intros Hsane Hn Hlt Hidle Hgrace (-> & -> & Hfit & Hpack)%removal_fits_inv [Hs Hd Hl Hno Hk Hm Hf].
  assert (node_job_id n ∉ ids (st_candidates st)) as Hfresh.
  { intros (c & Heq & [Hc _]%Hs)%list_elem_of_fmap. apply Hn. rewrite Heq. by apply list_elem_of_fmap_2. }
  assert (survivors (done ++ [n]) (st_candidates st ++ [n]) = survivors done (st_candidates st)) as Heq.
  { rewrite survivors_app, survivors_fresh by done. unfold survivors at 2.
    rewrite filter_cons_False, filter_nil, app_nil_r; [done|].
    intros H. apply H. unfold ids. rewrite fmap_app. set_solver. }
  assert (∀ f, (∀ m, m ∈ done ++ n :: todo → 0 ≤ f m) →
    Z.max 0 (zsum (f <$> survivors done (st_candidates st) ++ n :: todo) - f n) =
    zsum (f <$> survivors done (st_candidates st) ++ todo)) as Hsum.
  { intros f Hf0. rewrite !fmap_app, !zsum_app. csimpl.
    assert (0 ≤ zsum (f <$> survivors done (st_candidates st))).
    { apply zsum_nonneg, Forall_fmap, Forall_forall. intros m [_ ?]%list_elem_of_filter. apply Hf0. set_solver. }
    assert (0 ≤ zsum (f <$> todo)).
    { apply zsum_nonneg, Forall_fmap, Forall_forall. intros m ?. apply Hf0. set_solver. }
    lia. }
  rewrite Forall_forall in Hsane.
  split; simpl.
  - intros c [Hc|Hc]%elem_of_app; [destruct (Hs c Hc) as (? & ? & ?)|apply list_elem_of_singleton in Hc as ->];
      split_and!; try done; set_solver.
  - unfold ids in *. rewrite fmap_app. apply NoDup_app. split_and!; [done| |apply NoDup_singleton].
    simpl. intros x Hx ->%list_elem_of_singleton. done.
  - rewrite length_app. simpl. lia.
  - by rewrite survivors_snoc, <-Hno.
  - rewrite Heq, Hk. apply Hsum. intros m Hm'. by apply known_free_nonneg, Hsane.
  - rewrite Heq, Hm. apply Hsum. intros m Hm'. by apply known_free_nonneg, Hsane.
  - done.
Qed.

Lemma stop_turn_inv done n todo st :
  Forall sane_shape (done ++ n :: todo) → node_job_id n ∉ ids done → stop_inv done (n :: todo) st →
  stop_inv (done ++ [n]) todo (stop_turn p now required max_count requests st n).
Proof.
  intros Hsane Hn Hi. unfold stop_turn.
  destruct (Z.leb_spec max_count (Z.of_nat (length (st_candidates st)))); [by apply stop_skip|].
  destruct (is_idle n) eqn:Ei; simpl; [|by apply stop_skip].
  destruct (past_idle_grace _ _ _) eqn:Eg; simpl; [|by apply stop_skip].
  destruct (removal_fits _ _ _ _ _ _ _) as [[free nodes]|] eqn:Er; [|by apply stop_skip].
  by eapply stop_take.
Qed.

Lemma stop_turns_inv done todo st :
  Forall sane_shape (done ++ todo) → NoDup (ids (done ++ todo)) → stop_inv done todo st →
  stop_inv (done ++ todo) [] (foldl (stop_turn p now required max_count requests) st todo).
Proof.
  revert done st. induction todo as [|n todo IH]; intros done st Hs Hd Hi; simpl; [by rewrite app_nil_r|].
  rewrite (assoc_L (++) done [n] todo : done ++ n :: todo = (done ++ [n]) ++ todo) in *.
  apply IH; [done|done|]. apply stop_turn_inv; [by rewrite <-app_assoc in Hs| |done].
  intros Hin. unfold ids in *. rewrite <-app_assoc, fmap_app in Hd. csimpl in Hd.
  apply NoDup_app in Hd as (_ & Hd & _). eapply Hd; [exact Hin|]. set_solver.
Qed.
End idle_stops.

Lemma stop_turns_sub p now required max_count requests l st :
  ∃ k, st_candidates (foldl (stop_turn p now required max_count requests) st l) = st_candidates st ++ k ∧
    sublist k l ∧ Forall (λ n, is_idle n = true) k ∧
    (Z.of_nat (length (st_candidates st)) ≤ max_count → Z.of_nat (length (st_candidates st ++ k)) ≤ max_count).
Proof.
  revert st. induction l as [|n l IH]; intros st; simpl; [exists []; by rewrite app_nil_r|].
  destruct (IH (stop_turn p now required max_count requests st n)) as (k & -> & Hs & Hi & Hl).
  revert Hl. unfold stop_turn. repeat case_match; bools; simpl; intros Hl;
    try (exists k; split_and!; [done|by constructor|done|done]).
  exists (n :: k). rewrite <-app_assoc in *. split_and!; [done|by constructor|by constructor|].
  intros _. apply Hl. rewrite length_app. simpl. lia.
Qed.

Lemma stop_candidates_sub ready p now required max_count placement requests :
  let stopped := stop_candidates ready p now required max_count placement requests in
  sublist stopped ready ∧ Forall (λ n, is_idle n = true) stopped ∧ Z.of_nat (length stopped) ≤ Z.max 0 max_count.
Proof.
  intros stopped. subst stopped. unfold stop_candidates.
  destruct (Z.leb_spec max_count 0); [split_and!; [apply sublist_nil_l|constructor|simpl; lia]|].
  edestruct (stop_turns_sub p now required max_count requests ready) as (k & -> & Hs & Hi & Hl).
  simpl in *. split_and!; [done|done|lia].
Qed.

Lemma stop_init_inv p now required max_count requests placement ready :
  stop_inv p now required max_count requests placement [] ready
    (mkStop [] (reported_free_resources ready) placement).
Proof.
  destruct (reported_free_sum ready rq_zero) as [Hd Hm]. simpl in *.
  split; simpl; try done; [by intros n ?%elem_of_nil|constructor|lia|].
  symmetry. apply filter_keep. intros n _. by intros ?%elem_of_nil.
Qed.

Lemma stop_candidates_safe ready p now required max_count placement requests :
  NoDup (ids ready) → Forall sane_shape ready → Forall (λ r, 0 < pr_count r) requests →
  let stopped := stop_candidates ready p now required max_count placement requests in
  NoDup (ids stopped) ∧ Z.of_nat (length stopped) ≤ Z.max 0 max_count ∧
  (∀ n, n ∈ stopped → n ∈ ready ∧ is_idle n = true ∧ past_idle_grace n (idle_grace p n) now = true) ∧
  (stopped ≠ [] →
    (disk_mb required ≤ zsum ((λ n, disk_mb (known_free n)) <$> survivors ready stopped)) ∧
    (memory_mb required ≤ zsum ((λ n, memory_mb (known_free n)) <$> survivors ready stopped)) ∧
    ∃ plan, assignment (node_bins p now (filter (λ m, exact_node m = true) (survivors placement stopped)))
              requests plan).
Proof.
  intros Hd Hs Hr stopped. subst stopped. unfold stop_candidates.
  destruct (Z.leb_spec max_count 0); [split_and!; [constructor|simpl; lia|by intros n ?%elem_of_nil|done]|].
  pose proof (stop_turns_inv p now required max_count requests placement [] ready _ Hs Hd
    (stop_init_inv p now required max_count requests placement ready)) as [Hsub Hnd Hlen Hno Hk Hm Hf].
  split_and!; [done|done|done|]. intros Hne. destruct (Hf Hne) as [Hfit Hpack].
  rewrite app_nil_r, app_nil_l in Hk, Hm. unfold fits_within in Hfit. bools.
  split_and!; [by rewrite <-Hk|by rewrite <-Hm|].
  apply unplaced_zero_assigns; [done|]. by rewrite <-Hno.
Qed.

(** Stopping idle workers for lack of demand is safe: each stopped worker is
    ready, has no work and has been idle for its grace period, no worker is listed
    twice and no more than [max_count] are; and once all of them are gone the
    disk and memory the surviving ready workers reported still cover the required
    resources, and every placement request has a place on surviving workers of
    known capacity. *)
Theorem idle_stops_keep_demand ready p now required max_count placement requests :
  NoDup (ids ready) → Forall sane_shape ready → Forall (λ r, 0 < pr_count r) requests →
  let stopped := stop_candidates ready p now required max_count placement requests in
  NoDup (ids stopped) ∧ Z.of_nat (length stopped) ≤ Z.max 0 max_count ∧
  (∀ n, n ∈ stopped → n ∈ ready ∧ is_idle n = true ∧ past_idle_grace n (idle_grace p n) now = true) ∧
  (stopped ≠ [] →
    (disk_mb required ≤ zsum ((λ n, disk_mb (known_free n)) <$> survivors ready stopped)) ∧
    (memory_mb required ≤ zsum ((λ n, memory_mb (known_free n)) <$> survivors ready stopped)) ∧
    ∃ plan, assignment (node_bins p now (filter (λ m, exact_node m = true) (survivors placement stopped)))
              requests plan).
Proof. apply stop_candidates_safe. Qed.

(** ** At most one worker is soft-drained *)

Section soft_drain.
Context (v : drain_view) (p : ScalePolicy) (now : Z) (required : ResourceQuantity).
Context (requests : list SandboxPlacementRequest) (pending_count : Z).

(** What makes a labelled worker lose its label *)
Definition unfit (kept : string) (n : SandboxNode) : Prop :=
  kept ≠ EmptyString ∨ dv_excess v = false ∨ surplus v p now required requests n = false ∨
  serves_pending pending_count requests n = true ∨ has_move_peer (dv_ready v) n = false.

Record drain_inv (done : list SandboxNode) (st : drain_state) : Prop := {
  di_all : ∀ n, n ∈ done → node_job_id n ∈ st.1.2 ∨ (node_job_id n = st.1.1 ∧ st.1.1 ≠ EmptyString);
  di_clear : ∀ x, x ∈ st.1.2 → x ≠ EmptyString ∧ ∃ n, n ∈ done ∧ node_job_id n = x ∧ unfit st.1.1 n;
  di_kept : st.1.1 = EmptyString ∨ st.1.1 ∈ ids done;
  di_apart : st.1.1 ∉ st.1.2
}.

Lemma drain_clear done kept clear reasons reason n :
  node_job_id n ∉ ids done → node_job_id n ≠ EmptyString → unfit kept n →
  drain_inv done (kept, clear, reasons) →
  drain_inv (done ++ [n]) (kept, clear ++ [node_job_id n], reasons ++ [reason]).
Proof.
  intros Hn Hne Hu [Ha Hc Hk Hap]. simpl in *. split; simpl.
  - intros m [Hm|Hm]%elem_of_app; [destruct (Ha m Hm); set_solver|].
    apply list_elem_of_singleton in Hm as ->. left. set_solver.
  - intros x [Hx|Hx]%elem_of_app.
    + destruct (Hc x Hx) as (? & m & ? & ? & ?). split; [done|]. exists m. split_and!; [set_solver|done|done].
    + apply list_elem_of_singleton in Hx as ->. split; [done|]. exists n. split_and!; [set_solver|done|done].
  - destruct Hk; [by left|]. right. unfold ids in *. rewrite fmap_app. set_solver.
  - intros [?|Hx]%elem_of_app; [done|]. apply list_elem_of_singleton in Hx.
    destruct Hk as [Hk|Hk]; congruence.
Qed.

Lemma drain_keep done clear reasons n :
  node_job_id n ∉ ids done → node_job_id n ≠ EmptyString → drain_inv done (EmptyString, clear, reasons) →
  drain_inv (done ++ [n]) (node_job_id n, clear, reasons).
Proof.
  intros Hn Hne [Ha Hc Hk Hap]. simpl in *. split; simpl.
  - intros m [Hm|Hm]%elem_of_app; [|apply list_elem_of_singleton in Hm as ->; by right].
    destruct (Ha m Hm) as [?|[_ ?]]; [by left|done].
  - intros x Hx. destruct (Hc x Hx) as (? & m & ? & ? & ?). split; [done|]. exists m.
    split_and!; [set_solver|done|by left].
  - right. unfold ids. rewrite fmap_app. set_solver.
  - intros Hx. destruct (Hc _ Hx) as (_ & m & Hm & Heq & _). apply Hn. rewrite <-Heq. by apply list_elem_of_fmap_2.
Qed.

Lemma drain_turn_inv done n st :
  node_job_id n ∉ ids done → node_job_id n ≠ EmptyString → drain_inv done st →
  drain_inv (done ++ [n]) (drain_turn v p now required requests pending_count st n).
Proof.
  intros Hn Hne Hi. destruct st as [[kept clear] reasons]. unfold drain_turn, nonempty.
  destruct (decide (kept = EmptyString)) as [->|Hk].
  2:{ rewrite bool_decide_eq_false_2 by done. simpl. apply drain_clear; [done|done|by left|done]. }
  rewrite bool_decide_eq_true_2 by done. simpl.
  case_bool_decide; simpl; [|by apply drain_keep].
  destruct (dv_excess v) eqn:Ee; simpl; [|apply drain_clear; [done|done|unfold unfit; tauto|done]].
  destruct (surplus v p now required requests n) eqn:Es; simpl;
    [|apply drain_clear; [done|done|unfold unfit; tauto|done]].
  destruct (serves_pending pending_count requests n) eqn:Ep;
    [apply drain_clear; [done|done|unfold unfit; tauto|done]|].
  destruct (has_move_peer (dv_ready v) n) eqn:Em; simpl; [by apply drain_keep|].
  apply drain_clear; [done|done|unfold unfit; tauto|done].
Qed.

Lemma drain_turns_inv done todo st :
  NoDup (ids (done ++ todo)) → Forall (λ n, node_job_id n ≠ EmptyString) todo → drain_inv done st →
  drain_inv (done ++ todo) (foldl (drain_turn v p now required requests pending_count) st todo).
Proof.
  intros Hd Hne. revert done st Hd. induction Hne as [|n todo Hn _ IH]; intros done st Hd Hi; simpl;
    [by rewrite app_nil_r|].
  rewrite (assoc_L (++) done [n] todo : done ++ n :: todo = (done ++ [n]) ++ todo) in *.
  apply IH; [done|]. apply drain_turn_inv; [|done|done].
  intros Hin. unfold ids in *. rewrite <-app_assoc, fmap_app in Hd. csimpl in Hd.
  apply NoDup_app in Hd as (_ & Hd & _). eapply Hd; [exact Hin|]. set_solver.
Qed.

Lemma drain_init_inv : drain_inv [] (EmptyString, [], []).
Proof. split; simpl; [by intros ? ?%elem_of_nil|by intros ? ?%elem_of_nil|by left|by intros ?%elem_of_nil]. Qed.

Lemma drain_choice_elem eligible n fewest : drain_choice eligible = Some (n, fewest) → n ∈ eligible.
Proof.
  unfold drain_choice. destruct eligible as [|m l]; [done|].
  intros (c & [_ Hc]%min_by_elem%list_elem_of_filter & [= -> ->])%fmap_Some. done.
Qed.

Lemma surplus_assigns n :
  Forall (λ r, 0 < pr_count r) requests → surplus v p now required requests n = true →
  ∃ plan, assignment (node_bins p now (filter (λ m, exact_node m = true) (survivors (dv_capacity v) [n])))
            requests plan.
Proof.
  intros Hr. unfold surplus. destruct (heartbeat n) as [h|]; [|done]. destruct (resources_known h); [simpl|done].
  destruct (removal_fits _ _ _ _ _ _ _) as [[f l]|] eqn:E; [intros _|done].
  apply removal_fits_inv in E as (_ & -> & _ & Hz). apply unplaced_zero_assigns; [done|].
  rewrite (survivors_snoc _ [] n : survivors (dv_capacity v) [n] = _).
  unfold survivors at 1. rewrite (filter_keep (λ m, node_job_id m ∉ ids [])); [done|].
  intros m _. by intros ?%elem_of_nil.
Qed.
End soft_drain.

Lemma labelled_scan nodes p now required requests pending_count leb :
  NoDup (ids nodes) → Forall (λ n, node_job_id n ≠ EmptyString) nodes →
  let v := view_fleet nodes p in
  drain_inv v p now required requests pending_count (sorted_by leb (dv_labelled v))
    (foldl (drain_turn v p now required requests pending_count) (EmptyString, [], [])
       (sorted_by leb (dv_labelled v))).
Proof.
  intros Hd Hne v.
  assert (sublist (dv_labelled v) nodes) as Hsub.
  { unfold v, view_fleet. simpl. etrans; apply sublist_filter. }
  assert (sorted_by leb (dv_labelled v) ≡ₚ dv_labelled v) as Hp by apply sorted_by_perm.
  apply (drain_turns_inv v p now required requests pending_count []).
  - rewrite app_nil_l. unfold ids. rewrite Hp. eapply sublist_NoDup; [exact Hd|]. by apply fmap_sublist.
  - rewrite Hp. eapply Forall_forall. intros n Hn. rewrite Forall_forall in Hne. apply Hne.
    by eapply elem_of_sublist.
  - apply drain_init_inv.
Qed.

(** A worker chosen for a new drain is none of those that just lost their label. *)
Lemma selected_unlabelled nodes p now required requests pending_count excluded done st n :
  let v := view_fleet nodes p in
  NoDup (ids nodes) → drain_inv v p now required requests pending_count done st →
  (∀ m, m ∈ done ↔ m ∈ dv_labelled v) → st.1.1 = EmptyString → dv_excess v = true → pending_count ≤ 0 →
  n ∈ drain_eligible v p now required requests excluded →
  (node_job_id n ∉ st.1.2) ∧ n ∈ nodes ∧ is_soft_drained (heartbeat n) = false ∧ is_schedulable n = true ∧
  is_idle n = false ∧ (node_job_id n ∉ excluded) ∧ surplus v p now required requests n = true.
Proof.
  intros v Hd [Ha Hc Hk Hap] Hdone Hkept Hex Hpend. unfold drain_eligible. case_match; [|by intros ?%elem_of_nil].
  intros [[Hpeer Hsur]%andb_true_iff [Hcand Hready]%list_elem_of_filter]%list_elem_of_filter.
  assert (n ∈ nodes ∧ counts_as_pool_node n = true ∧ is_schedulable n = true) as (Hn & Hpool & Hs).
  { unfold v, view_fleet in Hready. simpl in Hready. rewrite !list_elem_of_filter in Hready. tauto. }
  bools. assert (node_job_id n ∉ st.1.2) as Hnc.
  { intros Hin. destruct (Hc _ Hin) as (_ & m & Hm & Heq & Hu).
    assert (m = n) as ->.
    { apply Hdone in Hm. unfold v, view_fleet in Hm. simpl in Hm. rewrite !list_elem_of_filter in Hm.
      eapply NoDup_fmap_eq; [exact Hd| |exact Hn|exact Heq]. tauto. }
    destruct Hu as [Hu|[Hu|[Hu|[Hu|Hu]]]]; try congruence.
    unfold serves_pending in Hu. destruct (Z.leb_spec pending_count 0); [done|lia]. }
  split_and!; try done. destruct (is_soft_drained (heartbeat n)) eqn:Esd; [|done].
  exfalso. destruct (Ha n) as [?|[_ ?]]; [|done|congruence].
  apply Hdone. unfold v, view_fleet. simpl. rewrite !list_elem_of_filter. tauto.
Qed.

(** C18. Soft draining empties at most one worker at a time.  After the plan is
    applied every labelled pool worker but the planned one has lost its label, and
    the planned one keeps its own; a newly selected worker was not labelled, and is
    either a failing host, or a busy ready worker taken while nothing is pending
    and the pool is above [min_nodes], whose removal leaves a place for every
    placement request on the surviving workers of known capacity. *)
Theorem soft_drain_single nodes p now required requests pending_count allow excluded :
  NoDup (ids nodes) → Forall (λ n, node_job_id n ≠ EmptyString) nodes →
  Forall (λ r, 0 < pr_count r) requests → drain_on_park_enabled p = true →
  let plan := plan_soft_drain nodes p now required requests pending_count allow excluded in
  (∀ n, n ∈ nodes → counts_as_pool_node n = true → is_soft_drained (heartbeat n) = true →
     node_job_id n ∈ dr_clear_job_ids plan ∨ node_job_id n = dr_job_id plan) ∧
  (dr_job_id plan ∉ dr_clear_job_ids plan) ∧
  (dr_selected plan = true → ∃ n, n ∈ nodes ∧ node_job_id n = dr_job_id plan ∧
     is_soft_drained (heartbeat n) = false ∧
     (retiring now (max_cpu_check_ms p) n = true ∨
      (is_schedulable n = true ∧ is_idle n = false ∧ (node_job_id n ∉ excluded) ∧ pending_count ≤ 0 ∧
       min_nodes p < Z.of_nat (length (dv_pool (view_fleet nodes p))) ∧
       ∃ q, assignment (node_bins p now (filter (λ m, exact_node m = true)
              (survivors (dv_capacity (view_fleet nodes p)) [n]))) requests q))).
Proof.
  intros Hd Hne Hr Hon plan. subst plan. unfold plan_soft_drain. rewrite Hon. cbn [negb].
  set (v := view_fleet nodes p).
  assert (∀ n, n ∈ nodes → counts_as_pool_node n = true → is_soft_drained (heartbeat n) = true →
    n ∈ dv_labelled v) as Hlab.
  { intros n ???. unfold v, view_fleet. simpl. rewrite !list_elem_of_filter. tauto. }
  destruct (min_by _ (filter (λ n, retiring now (max_cpu_check_ms p) n = true) _)) as [c|] eqn:Ec.
  - simpl. apply min_by_elem, list_elem_of_filter in Ec as [Hc [Hpool Hin]%list_elem_of_filter].
    split_and!.
    + intros n H1 H2 H3. destruct (decide (node_job_id n = node_job_id c)) as [|Hx]; [by right|left].
      apply list_elem_of_filter. split; [done|]. by apply list_elem_of_fmap_2, Hlab.
    + intros [Hx _]%list_elem_of_filter. done.
    + intros Hsel%negb_true_iff. exists c. split_and!; [done|done|done|by left].
  - set (sorted := sorted_by _ (dv_labelled v)).
    assert (sorted ≡ₚ dv_labelled v) as Hperm by apply sorted_by_perm.
    pose proof (labelled_scan nodes p now required requests pending_count _ Hd Hne : drain_inv v _ _ _ _ _ sorted _) as Hi.
    assert (∀ m, m ∈ sorted ↔ m ∈ dv_labelled v) as Hmem by (intros m; by rewrite Hperm).
    destruct (foldl _ _ sorted) as [[kept clear] reasons] eqn:Ef.
    assert (∀ n, n ∈ nodes → counts_as_pool_node n = true → is_soft_drained (heartbeat n) = true →
      node_job_id n ∈ clear ∨ (node_job_id n = kept ∧ kept ≠ EmptyString)) as Hall.
    { intros n ???. by apply (di_all _ _ _ _ _ _ _ _ Hi), Hmem, Hlab. }
    pose proof (di_apart _ _ _ _ _ _ _ _ Hi) as Hap. simpl in Hap.
    case_match eqn:Eb; [split_and!; [|done|done]; intros n ???; destruct (Hall n); tauto|].
    bools. unfold nonempty in *. bools. subst kept.
    destruct (drain_choice _) as [[n fewest]|] eqn:Eq; simpl;
      [|split_and!; [|done|done]; intros n ???; destruct (Hall n); tauto].
    apply drain_choice_elem in Eq.
    edestruct (selected_unlabelled nodes p) as (Hnc & Hn & Hsd & Hs & Hidle & Hexc & Hsur);
      [exact Hd|exact Hi|exact Hmem|done|done|lia|exact Eq|].
    split_and!; [intros m ???; destruct (Hall m); tauto|exact Hnc|]. intros _. exists n.
    split_and!; try done. right. split_and!; try done.
    + assert (dv_excess v = true) as Hx by done. unfold v, view_fleet in Hx. simpl in Hx. by bools.
    + exact (surplus_assigns v p now required requests n Hr Hsur).
Qed.

(** ** A concrete fleet *)

(** Both workers are idle past the grace period; only "a" may hold the request, so
    "b" is the one stopped. *)
Lemma idle_stops_keep_demand_witness :
  let ready := [demo_worker "a" 0; demo_worker "b" 0] in
  let stopped := stop_candidates ready demo_policy 700000000 rq_zero 1 ready [demo_small] in
  ids stopped = ["b"] ∧
  (disk_mb rq_zero ≤ zsum ((λ n, disk_mb (known_free n)) <$> survivors ready stopped)) ∧
  ∃ plan, assignment (node_bins demo_policy 700000000
    (filter (λ m, exact_node m = true) (survivors ready stopped))) [demo_small] plan.
Proof.
  destruct (idle_stops_keep_demand [demo_worker "a" 0; demo_worker "b" 0] demo_policy 700000000 rq_zero 1
    [demo_worker "a" 0; demo_worker "b" 0] [demo_small]) as (_ & _ & _ & H).
  - apply (bool_decide_unpack _). by vm_compute.
  - by repeat constructor.
  - by repeat constructor.
  - destruct H as (Hd & _ & Hp); [by vm_compute|]. split; [by vm_compute|]. split; [exact Hd|exact Hp].
Defined.

Definition demo_busy (id : string) (count : Z) : SandboxNode :=
  mkNode (mkInstance id RUNNING (Some 0) (Some 0) None None None [])
    (Some (mkHeartbeat id id 0 count 0 0 None false None "v" ["disk-quota"] demo_shape true
       (mkRQ (of_int 0) 0 500) [] None None "e" [] [] true rq_zero rq_zero true 0 EmptyString 0)) count true true false.

Lemma soft_drain_single_witness :
  let nodes := [demo_busy "a" 2; demo_busy "b" 1] in
  let plan := plan_soft_drain nodes demo_policy 0 rq_zero [] 0 true [] in
  dr_selected plan = true ∧ dr_job_id plan = "b" ∧
  (dr_job_id plan ∉ dr_clear_job_ids plan) ∧
  ∃ n, n ∈ nodes ∧ node_job_id n = dr_job_id plan ∧ is_soft_drained (heartbeat n) = false.
Proof.
  destruct (soft_drain_single [demo_busy "a" 2; demo_busy "b" 1] demo_policy 0 rq_zero [] 0 true [])
    as (_ & Hap & Hsel).
  - apply (bool_decide_unpack _). by vm_compute.
  - by repeat constructor.
  - constructor.
  - done.
  - split; [by vm_compute|]. split; [by vm_compute|]. split; [exact Hap|].
    destruct Hsel as (n & Hn & Hid & Hsd & _); [by vm_compute|]. by exists n.
Defined.
