(* ===== verification/Autoscaler.v ===== *)
(** * The autoscaler's decision (ucloud_sandboxes/policy.py, [evaluate_scale])

    One cycle of the autoscaler: classify the fleet, forecast the demand, and plan
    evictions, creates, idle stops and the soft drain.  The stages follow the
    function from top to bottom; each create stage asks [_create_budget] what the
    limits leave after the creates planned before it.  Reasons are the text the
    code writes; [format_g] and [format_percent] stand for the float formats
    [":g"] and [":.0%"] in it. *)
From S2P Require Import Prelude PyFloat Json PyString Resources Bytes ScaleModels.
From S2P Require Import Consolidation Routes ScalePacking ScaleDown.
From stdpp Require Import pretty.
Local Open Scope py_scope.
Local Open Scope Z_scope.

(** ** Pressure signals *)

Definition live_pressure_requires_capacity (p : ScalePolicy) (signals : option LiveScaleSignals) : bool :=
  match signals with
  | Some s =>
      live_pressure_enabled p && (live_pressure_min_samples p <=? pressure_samples s)
      && match latest_pressure_age_seconds s with
         | Some age => age <=? live_pressure_fresh_seconds p
         | None => false
         end
  | None => false
  end.

Definition create_pressure_requires_capacity (p : ScalePolicy) (signals : option LiveScaleSignals) : bool :=
  match signals with
  | Some s =>
      create_pressure_enabled p && (create_pressure_min_samples p <=? create_pressure_samples s)
      && (0 <? sandbox_create_limit s)
      && match latest_create_pressure_age_seconds s with
         | Some age => age <=? create_pressure_fresh_seconds p
         | None => false
         end
      && live_pressure_requires_capacity p signals
  | None => false
  end.

Definition any_idle (nodes : list SandboxNode) : bool := existsb is_idle nodes.

Definition startup_backlog_requires_capacity (p : ScalePolicy) (d : SandboxDemand)
    (ready : list SandboxNode) (signals : option LiveScaleSignals) : bool :=
  create_pressure_enabled p
  && (Z.max 1 (create_target_concurrency_per_node p) <=? pending_count d)
  && (Z.max 1 (create_pressure_window_seconds p) <=? oldest_capacity_pending_seconds d)
  && negb (bool_decide (ready = [])) && negb (any_idle ready)
  && match signals with
     | Some s => match latest_observation_age_seconds s with
                 | Some age => age <=? live_pressure_fresh_seconds p
                 | None => false
                 end
     | None => false
     end.

Definition latest_capacity_pressure_age (p : ScalePolicy) (signals : option LiveScaleSignals) : option Z :=
  match signals with
  | Some s => if live_pressure_enabled p then latest_pressure_age_seconds s else None
  | None => None
  end.

(** ** Plans and their limits *)

Definition planned_creates (actions : list ScaleAction) : Z := zsum (ac_count <$> actions_of "create" actions).
Definition planned_stop_job_ids (actions : list ScaleAction) : list string :=
  mjoin (ac_job_ids <$> actions_of "stop" actions).
Definition planned_stops (actions : list ScaleAction) : Z := zsum (ac_count <$> actions_of "stop" actions).

Definition create_budget (p : ScalePolicy) (total provisioning : Z) (actions : list ScaleAction) : Z :=
  let planned := planned_creates actions in
  let limit := Z.min (Z.max 0 (max_nodes p - total - planned)) (Z.max 0 (max_create_per_cycle p - planned)) in
  if 0 <? max_provisioning_nodes p
  then Z.min limit (Z.max 0 (max_provisioning_nodes p - provisioning - planned))
  else limit.

Definition create_limit_reason (p : ScalePolicy) (total provisioning : Z) (actions : list ScaleAction) : string :=
  let planned := planned_creates actions in
  if max_nodes p <=? total + planned then "max_nodes=" +:+ pretty (max_nodes p) +:+ " reached"
  else if max_create_per_cycle p <=? planned
  then "max_create_per_cycle=" +:+ pretty (max_create_per_cycle p) +:+ " reached"
  else if (0 <? max_provisioning_nodes p) && (max_provisioning_nodes p <=? provisioning + planned)
  then "max_provisioning_nodes=" +:+ pretty (max_provisioning_nodes p) +:+ " reached"
  else EmptyString.

(** (actions, reasons) *)
Abbreviation scale_plan := (list ScaleAction * list string)%type.

(** [min(needed, _create_budget(...))]: append a create, or, when [explain] holds
    and a limit is the cause, the reason it could not be made. *)
Definition try_create (p : ScalePolicy) (available provisioning needed : Z) (reason : string)
    (explain : bool) (blocked : string) (st : scale_plan) : scale_plan :=
  let '(actions, reasons) := st in
  let count := Z.min needed (create_budget p available provisioning actions) in
  if 0 <? count then (actions ++ [mkAction "create" count [] reason], reasons ++ [reason])
  else if explain then
    let limit := create_limit_reason p available provisioning actions in
    if nonempty limit then (actions, reasons ++ [blocked +:+ limit]) else st
  else st.

Definition append_stop (nodes : list SandboxNode) (reason : string) (st : scale_plan) : scale_plan :=
  match nodes with
  | [] => st
  | _ => (st.1 ++ [mkAction "stop" (Z.of_nat (length nodes)) (ids nodes) reason], st.2 ++ [reason])
  end.

(** ** Demand *)

Fixpoint res_sum {A} (f : A → res Z) (l : list A) : res Z :=
  match l with
  | [] => Ok 0
  | x :: l => let! a := f x in let! b := res_sum f l in Ok (a + b)
  end.

Definition schedulable_requests (maximum : ResourceQuantity) (l : list SandboxPlacementRequest) :
    list SandboxPlacementRequest := filter (λ r, fits_within (pr_resources r) maximum = true) l.

Definition placement_request_resources (l : list SandboxPlacementRequest) : ResourceQuantity :=
  match l with
  | [] => rq_zero
  | r :: k => mkRQ (foldl fmax (vcpu (pr_resources r)) ((λ x, vcpu (pr_resources x)) <$> k))
                (foldl Z.max (memory_mb (pr_resources r)) ((λ x, memory_mb (pr_resources x)) <$> k))
                (zsum ((λ x, disk_mb (pr_resources x) * pr_count x) <$> l))
  end.

Definition cold_memory_forecast (l : list SandboxPlacementRequest) (maximum : ResourceQuantity)
    (p : ScalePolicy) : res Z :=
  res_sum (λ r, let! m := ceil_ratio (memory_mb (pr_resources r)) (target_memory_utilization p) in
                Ok (Z.min (memory_mb maximum) m * pr_count r)) (schedulable_requests maximum l).

Definition resident_memory_forecast (p : ScalePolicy) (now : Z) (n : SandboxNode) : res Z :=
  match heartbeat n with
  | None => Ok 0
  | Some h =>
      let memory_of states :=
        zsum ((λ e, memory_mb (inv_resources e)) <$> filter (λ e, inv_state e ∈ states) (inventory h)) in
      let active := filter (λ e, inv_state e ∈ ["running"; "creating"; "waking"]) (inventory h) in
      let promises := Z.max (memory_mb (reserved_resources h)) (memory_of ["creating"; "waking"])
                      + memory_mb (build_reserved_resources h) in
      let forecast measured := ceil_ratio (measured + promises) (target_memory_utilization p) in
      let sampled :=
        match runtime_metrics h with
        | Some m =>
            let age := now - collected_at m in
            if ((0 <? memory_total_mb m) || (0 <? memory_working_set_mb m))
               && (0 <=? age) && (age <=? live_pressure_fresh_seconds p * 1000000)
            then Some (Z.max (memory_working_set_mb m) (Z.max 0 (memory_total_mb m - memory_available_mb m)))
            else None
        | None => None
        end in
      if is_idle n && bool_decide (inventory h = []) then forecast 0
      else match sampled with
           | Some measured => forecast measured
           | None =>
               if negb (inventory_complete h) || (Z.of_nat (length active) <? sn_active_sandboxes n)
               then let! m := ceil_ratio promises (target_memory_utilization p) in Ok (Z.max (physical_memory n) m)
               else forecast (memory_of ["running"])
           end
  end.

Definition nodes_for_resource_deficit (deficit : ResourceQuantity) (p : ScalePolicy) (memory_capacity_mb : Z) :
    res Z :=
  let defaults := default_node_resources p in
  let! c := if fltb (of_int 0) (vcpu deficit) && fltb (of_int 0) (vcpu defaults)
            then fceil (fdiv (vcpu deficit) (vcpu defaults)) else Ok 1 in
  let m := if (0 <? memory_mb deficit) && (0 <? memory_capacity_mb)
           then ceil_div (memory_mb deficit) memory_capacity_mb else 1 in
  let k := if (0 <? disk_mb deficit) && (0 <? disk_mb defaults)
           then ceil_div (disk_mb deficit) (disk_mb defaults) else 1 in
  Ok (Z.max (Z.max (Z.max 1 c) m) k).

(** ** The fleet, classified *)

Section evaluate.
Context (format_g format_percent : float → string).

Record fleet_view := mkFleetView {
  fl_pool : list SandboxNode;
  fl_capacity : list SandboxNode;
  fl_ready : list SandboxNode;
  fl_provisioning : Z;
  fl_unreachable : Z;
  fl_total : Z;
  fl_available : Z
}.

Definition classify (nodes : list SandboxNode) (p : ScalePolicy) (now : Z) : fleet_view :=
  let pool := filter (λ n, counts_as_pool_node n = true) nodes in
  let capacity := filter (λ n, (agent_version_compatible n || is_provisioning n)
                               && negb (retiring now (max_cpu_check_ms p) n) = true) pool in
  let count f := Z.of_nat (length (filter (λ n, f n = true) pool)) in
  let unreachable := count (counts_as_unreachable p now) in
  let total := Z.of_nat (length pool) in
  mkFleetView pool capacity (filter (λ n, is_schedulable n = true) capacity)
    (count (counts_as_active_provisioning p now)) unreachable total (Z.max 0 (total - unreachable)).

(** ** Evictions *)

(** The unreachable and incompatible nodes this cycle stops *)
Definition evictions (nodes : list SandboxNode) (p : ScalePolicy) (now : Z) :
    list SandboxNode * list SandboxNode :=
  let stop_budget := Z.max 0 (max_stop_per_cycle p) in
  let unreachable := take (Z.to_nat stop_budget) (unreachable_stop_candidates nodes p now) in
  let rest := filter (λ n, node_job_id n ∉ ids unreachable) nodes in
  (unreachable,
   take (Z.to_nat (Z.max 0 (stop_budget - Z.of_nat (length unreachable))))
     (incompatible_stop_candidates rest now (max_cpu_check_ms p))).

Definition UNREACHABLE_REASON : string := "unreachable empty sandbox node(s) exceeded the eviction lease".
Definition INCOMPATIBLE_REASON : string :=
  "idle sandbox node(s) have incompatible agent version or rebooted repeatedly".

(** ** Demand against capacity *)

(** (desired resources, schedulable requests, unschedulable count) *)
Definition forecast_demand (v : fleet_view) (d : SandboxDemand) (p : ScalePolicy) (now : Z) :
    res (ResourceQuantity * list SandboxPlacementRequest * Z) :=
  let maximum := default_node_resources p in
  let all := placement_requests d ++ prepared_placement_requests d in
  let unschedulable :=
    zsum (pr_count <$> filter (λ r, fits_within (pr_resources r) maximum = false) all) in
  let pending := match placement_requests d with
                 | [] => dm_pending_resources d
                 | l => placement_request_resources (schedulable_requests maximum l)
                 end in
  let prepared := placement_request_resources (schedulable_requests maximum (prepared_placement_requests d)) in
  let! pending_memory :=
    match placement_requests d with
    | [] => ceil_ratio (memory_mb pending) (target_memory_utilization p)
    | l => cold_memory_forecast l maximum p
    end in
  let! prepared_memory := cold_memory_forecast (prepared_placement_requests d) maximum p in
  let! resident := res_sum (resident_memory_forecast p now) (fl_ready v) in
  let demand := add_resources (with_memory pending pending_memory) (with_memory prepared prepared_memory) in
  let demand := with_memory demand (memory_mb demand + resident) in
  Ok (add_resources demand (warm_resources p), schedulable_requests maximum all, unschedulable).

(** [scale_up_capacity]: (projected free, deficit, nodes the packing lacks) *)
Definition scale_up_capacity (v : fleet_view) (p : ScalePolicy) (now : Z) (desired : ResourceQuantity)
    (requests : list SandboxPlacementRequest) (withheld : string) : ResourceQuantity * ResourceQuantity * Z :=
  let scale_nodes := filter (λ n, node_job_id n ≠ withheld) (fl_capacity v) in
  let projected := projected_free_resources scale_nodes p now in
  (projected, subtract_resources desired projected, nodes_for_unplaced_requests scale_nodes requests p now).

Definition short_of (desired deficit : ResourceQuantity) (placement_nodes : Z) : bool :=
  (0 <? placement_nodes) || (has_resources desired && has_resources deficit).

Definition resource_label (r : ResourceQuantity) : string :=
  format_g (vcpu r) +:+ "vcpu/" +:+ pretty (memory_mb r) +:+ "MB/" +:+ pretty (disk_mb r) +:+ "MB".

(** ** Create stages *)

Definition min_stage (p : ScalePolicy) (v : fleet_view) (st : scale_plan) : scale_plan :=
  if fl_available v <? min_nodes p
  then try_create p (fl_available v) (fl_provisioning v) (min_nodes p - fl_available v)
         ("below min_nodes=" +:+ pretty (min_nodes p)) true
         ("cannot satisfy min_nodes=" +:+ pretty (min_nodes p) +:+ ": ") st
  else st.

Definition deficit_stage (p : ScalePolicy) (v : fleet_view) (forecast_memory : Z)
    (desired projected deficit : ResourceQuantity) (placement_nodes : Z) (st : scale_plan) : res scale_plan :=
  if short_of desired deficit placement_nodes then
    let! deficit_nodes := if has_resources deficit then nodes_for_resource_deficit deficit p forecast_memory
                          else Ok 0 in
    let reason :=
      if deficit_nodes <? placement_nodes
      then pretty placement_nodes +:+ " additional node(s) required because "
           +:+ "pending sandbox shapes do not fit any single projected node"
      else "projected free resources " +:+ resource_label projected +:+ " below desired " +:+ resource_label desired in
    Ok (try_create p (fl_available v) (fl_provisioning v)
          (Z.max 0 (Z.max deficit_nodes placement_nodes - planned_creates st.1)) reason true
          ("cannot create for resource deficit " +:+ resource_label deficit +:+ ": ") st)
  else Ok st.

Definition backlog_stage (p : ScalePolicy) (v : fleet_view) (d : SandboxDemand) (pending_backlog_nodes : Z)
    (st : scale_plan) : scale_plan :=
  if 0 <? pending_backlog_nodes then
    let target := Z.min (max_nodes p) (fl_available v + pending_backlog_nodes) in
    try_create p (fl_available v) (fl_provisioning v)
      (Z.max 0 (target - fl_available v - planned_creates st.1))
      (pretty (pending_count d) +:+ " pressure-confirmed pending request(s) require "
       +:+ pretty pending_backlog_nodes +:+ " additional create pipeline node(s); targeting "
       +:+ pretty target +:+ " node(s)")
      (fl_available v + planned_creates st.1 <? target)
      "cannot create for pending request backlog: " st
  else st.

Definition exceeds (x : option float) (bound : float) : bool :=
  match x with Some y => fleb bound y | None => false end.
Definition live_pressure_reason (p : ScalePolicy) (signals : option LiveScaleSignals) : string :=
  match signals with
  | None => "sustained live node pressure exceeds target headroom"
  | Some s =>
      let item (x : option float) (bound : float) (name : string) (format : float → string) :=
        if exceeds x bound then [name +:+ format (default NaN x)] else [] in
      let values :=
        item (cpu_utilization s) (target_cpu_utilization p) "cpu=" format_percent
        ++ item (memory_utilization s) (target_memory_utilization p) "memory=" format_percent
        ++ item (sig_memory_psi_full_avg10 s) (max_memory_psi_full_avg10 p) "memory-psi=" format_g
        ++ item (sig_io_psi_full_avg10 s) (max_io_psi_full_avg10 p) "io-psi=" format_g
        ++ item (storage_queue_utilization s) (target_storage_queue_utilization p) "storage-queue=" format_percent
        ++ item (image_materialization_queue_utilization s) (target_storage_queue_utilization p)
             "image-materialization=" format_percent in
      let suffix := match values with [] => EmptyString | _ => " (" +:+ str_join ", " values +:+ ")" end in
      "sustained live pressure across " +:+ pretty (pressure_samples s) +:+ " sample(s)" +:+ suffix
  end.

Definition pressure_stage (p : ScalePolicy) (v : fleet_view) (signals : option LiveScaleSignals)
    (pressure create_pressure : bool) (st : scale_plan) : scale_plan :=
  if pressure && negb create_pressure && negb (bool_decide (fl_ready v = [])) then
    let target := Z.min (max_nodes p) (Z.of_nat (length (fl_ready v)) + max_create_per_cycle p) in
    try_create p (fl_available v) (fl_provisioning v)
      (Z.max 0 (target - fl_available v - planned_creates st.1)) (live_pressure_reason p signals) true
      "cannot create for live pressure: " st
  else st.

Definition create_pressure_stage (p : ScalePolicy) (v : fleet_view) (d : SandboxDemand)
    (signals : option LiveScaleSignals) (forecast_memory : Z) (desired : ResourceQuantity)
    (backlog create_pressure : bool) (st : scale_plan) : res scale_plan :=
  if create_pressure && negb (any_idle (fl_ready v)) then
    match signals with
    | None => Raise (AssertionError EmptyString)
    | Some s =>
        let ready := Z.of_nat (length (fl_ready v)) in
        let baseline := Z.max ready (min_nodes p) in
        let! baseline :=
          if has_resources desired then
            let! n := nodes_for_resource_deficit desired p forecast_memory in Ok (Z.max baseline n)
          else if 0 <? fl_available v then Ok (Z.max baseline 1)
          else Ok baseline in
        let concurrency := Z.max 1 (create_target_concurrency_per_node p) in
        let pipeline := ceil_div (Z.max 1 (sandbox_create_limit s)) concurrency in
        let pipeline := if backlog then Z.max pipeline (ready + ceil_div (pending_count d) concurrency)
                        else pipeline in
        let pipeline := Z.max pipeline
          (baseline + Z.min (max_create_per_cycle p) (create_pressure_max_headroom_nodes p)) in
        let target := Z.min (max_nodes p)
          (Z.max baseline (Z.min pipeline (baseline + Z.max 0 (create_pressure_max_headroom_nodes p)))) in
        let reason :=
          if backlog
          then pretty (pending_count d) +:+ " capacity request(s) queued for "
               +:+ pretty (oldest_capacity_pending_seconds d) +:+ "s; targeting "
               +:+ pretty target +:+ " temporary startup node(s)"
          else "sandbox create pipeline saturated at " +:+ pretty (sandbox_create_limit s)
               +:+ " concurrent request(s); targeting " +:+ pretty target
               +:+ " temporary node(s) after " +:+ pretty (sandbox_create_rejections s)
               +:+ " recent rejection(s)" in
        Ok (try_create p (fl_available v) (fl_provisioning v)
              (Z.max 0 (target - fl_available v - planned_creates st.1)) reason
              (fl_available v + planned_creates st.1 <? target)
              "cannot create temporary sandbox-create headroom: " st)
    end
  else Ok st.

(** ** Scale down *)

Definition node_free_resources (p : ScalePolicy) (n : SandboxNode) : ResourceQuantity :=
  let estimated := security_adjusted_resources n (estimated_node_resources n p) in
  match heartbeat n with
  | Some h => if resources_known h then forecast_free_resources n h else estimated
  | None => estimated
  end.
Definition ready_free_resources (p : ScalePolicy) (nodes : list SandboxNode) : ResourceQuantity :=
  foldl (λ total n, rq_add total (node_free_resources p n)) rq_zero nodes.

Definition stop_reason (ready : list SandboxNode) (p : ScalePolicy) (required : ResourceQuantity)
    (job_ids : list string) : string :=
  if has_resources required then
    let remaining := ready_free_resources p (filter (λ n, node_job_id n ∉ job_ids) ready) in
    "idle resources remain above desired demand after stopping " +:+ str_join ", " job_ids
    +:+ ": remaining=" +:+ resource_label remaining +:+ ", desired=" +:+ resource_label required
  else "idle node exceeds min_nodes=" +:+ pretty (min_nodes p) +:+ " with no pending resource demand".

Definition pressure_cooldown (p : ScalePolicy) (signals : option LiveScaleSignals) : bool :=
  (live_pressure_enabled p || create_pressure_enabled p) && negb (is_none signals)
  && match latest_capacity_pressure_age p signals with
     | Some age => age <? pressure_scale_down_cooldown_seconds p
     | None => false
     end.

(** The nodes stopped because the demand fits without them *)
Definition idle_stops (p : ScalePolicy) (v : fleet_view) (now : Z) (desired : ResourceQuantity)
    (requests : list SandboxPlacementRequest) (idle_seconds : Z) (cooldown : bool) (actions : list ScaleAction) :
    list SandboxNode :=
  let excess := fl_total v - min_nodes p in
  let stop_budget := Z.max 0 (max_stop_per_cycle p - planned_stops actions) in
  if cooldown then []
  else if (0 <? excess) && (0 <? stop_budget)
  then stop_candidates (fl_ready v) (with_scale_down_idle p idle_seconds) now desired (Z.min excess stop_budget)
         (fl_capacity v) requests
  else [].

Definition down_stage (p : ScalePolicy) (v : fleet_view) (now : Z) (signals : option LiveScaleSignals)
    (desired : ResourceQuantity) (requests : list SandboxPlacementRequest) (idle_seconds : Z)
    (st : scale_plan) : scale_plan :=
  let cooldown := pressure_cooldown p signals in
  if cooldown
  then (st.1, st.2 ++ ["recent live pressure retains ready capacity during cooldown"])
  else
    let stopped := idle_stops p v now desired requests idle_seconds cooldown st.1 in
    append_stop stopped (stop_reason (fl_ready v) p desired (ids stopped)) st.

Definition recent_creates (signals : option LiveScaleSignals) (idle_seconds : Z) : bool :=
  match signals with
  | Some s => match latest_schedule_age_seconds s with
              | Some age => age <? idle_seconds
              | None => false
              end
  | None => false
  end.

(** [effective_scale_down_idle_seconds] *)
Definition effective_idle_seconds (p : ScalePolicy) (signals : option LiveScaleSignals) : res Z :=
  match signals with
  | Some s =>
      match provisioning_p95_seconds s with
      | Some p95 =>
          if live_pressure_enabled p then
            let! c := fceil (fmul p95 (fmax (of_int 0) (provisioning_scale_down_multiplier p))) in
            Ok (Z.max (scale_down_idle_seconds p) c)
          else Ok (scale_down_idle_seconds p)
      | None => Ok (scale_down_idle_seconds p)
      end
  | None => Ok (scale_down_idle_seconds p)
  end.

(** ** The decision *)

(** The create stages in order *)
Definition create_stages (p : ScalePolicy) (v : fleet_view) (d : SandboxDemand)
    (signals : option LiveScaleSignals) (forecast_memory : Z) (desired projected deficit : ResourceQuantity)
    (placement_nodes pending_backlog_nodes : Z) (pressure backlog create_pressure : bool) (st : scale_plan) :
    res scale_plan :=
  let st := min_stage p v st in
  let! st := deficit_stage p v forecast_memory desired projected deficit placement_nodes st in
  let st := backlog_stage p v d pending_backlog_nodes st in
  let st := pressure_stage p v signals pressure create_pressure st in
  create_pressure_stage p v d signals forecast_memory desired backlog create_pressure st.

(** The soft drain and capacity after reopening a drained worker that is needed:
    (plan, projected, deficit, missing nodes, released) *)
Definition reopen_drained (v : fleet_view) (p : ScalePolicy) (now : Z) (desired : ResourceQuantity)
    (requests : list SandboxPlacementRequest) (drain : SoftDrainPlan) :
    SoftDrainPlan * (ResourceQuantity * ResourceQuantity * Z) * bool :=
  let c := scale_up_capacity v p now desired requests (dr_job_id drain) in
  if nonempty (dr_job_id drain) && negb (dr_retiring drain) && short_of desired c.1.2 c.2
  then (mkDrain EmptyString false (dr_clear_job_ids drain ++ [dr_job_id drain])
          (dr_job_id drain +:+ " is needed for current demand") false,
        scale_up_capacity v p now desired requests EmptyString, true)
  else (drain, c, false).

(** The reasons and actions before any create *)
Definition opening_plan (nodes : list SandboxNode) (d : SandboxDemand) (p : ScalePolicy) (now unschedulable : Z) :
    scale_plan :=
  let '(unreachable, incompatible) := evictions nodes p now in
  let reasons :=
    (if 0 <? unschedulable
     then [pretty unschedulable +:+ " placement request(s) exceed the configured schedulable node shape"
           +:+ " and were excluded from create demand"] else [])
    ++ (if 0 <? suppressed_pending_count d
        then [pretty (suppressed_pending_count d) +:+ " non-capacity pending failure(s) excluded from fleet demand"]
        else []) in
  append_stop incompatible INCOMPATIBLE_REASON (append_stop unreachable UNREACHABLE_REASON ([], reasons)).

(** The selection of a new soft drain, once nothing is missing *)
Definition select_drain (nodes : list SandboxNode) (p : ScalePolicy) (now : Z) (d : SandboxDemand)
    (signals : option LiveScaleSignals) (desired : ResourceQuantity) (requests : list SandboxPlacementRequest)
    (idle_seconds : Z) (released : bool) (actions : list ScaleAction) (drain : SoftDrainPlan) : SoftDrainPlan :=
  if negb (pressure_cooldown p signals) && negb (recent_creates signals idle_seconds)
     && negb (nonempty (dr_job_id drain)) && negb released
  then
    let selected := plan_soft_drain nodes p now desired requests (pending_count d) true
                      (planned_stop_job_ids actions) in
    mkDrain (dr_job_id selected) (dr_selected selected)
      (from_keys (dr_clear_job_ids drain ++ dr_clear_job_ids selected)) (dr_reason selected) (dr_retiring selected)
  else drain.

Definition evaluate_scale (nodes : list SandboxNode) (d : SandboxDemand) (p : ScalePolicy) (now : Z)
    (signals : option LiveScaleSignals) : res ScaleDecision :=
  let v := classify nodes p now in
  let! idle_seconds := effective_idle_seconds p signals in
  let pressure := live_pressure_requires_capacity p signals && negb (any_idle (fl_ready v)) in
  let backlog := startup_backlog_requires_capacity p d (fl_ready v) signals in
  let create_pressure := backlog || create_pressure_requires_capacity p signals in
  let pending_backlog_nodes :=
    if pressure && (0 <? pending_count d)
    then ceil_div (Z.max 0 (pending_count d)) (Z.max 1 (create_target_concurrency_per_node p)) else 0 in
  let! '(desired, requests, unschedulable) := forecast_demand v d p now in
  let drain := plan_soft_drain nodes p now desired requests (pending_count d) false [] in
  let '(drain, (projected, deficit, placement_nodes), released) := reopen_drained v p now desired requests drain in
  let! st := create_stages p v d signals (forecast_node_memory nodes p) desired projected deficit placement_nodes
               pending_backlog_nodes pressure backlog create_pressure (opening_plan nodes d p now unschedulable) in
  let settled := (planned_creates st.1 =? 0) && negb (has_resources deficit) && (placement_nodes =? 0) in
  let st := if settled then down_stage p v now signals desired requests idle_seconds st else st in
  let drain := if settled
               then select_drain nodes p now d signals desired requests idle_seconds released st.1 drain else drain in
  let reasons := if nonempty (dr_reason drain) then st.2 ++ ["soft-drain: " +:+ dr_reason drain] else st.2 in
  let reasons := if bool_decide (st.1 = []) && bool_decide (reasons = [])
                 then ["current pool matches demand and policy"] else reasons in
  Ok (mkDecision st.1 (Z.of_nat (length (fl_ready v))) (fl_provisioning v) (fl_total v) reasons (fl_unreachable v)
        (dm_pending_resources d) (suppressed_pending_resources d) (pending_count d) (suppressed_pending_count d)
        (prepared_resources d) desired projected deficit signals pressure create_pressure idle_seconds
        (dr_job_id drain) (dr_selected drain) (dr_clear_job_ids drain)).
End evaluate.

(** ** Creates stay within the limits *)

Lemma actions_of_app kind l k : actions_of kind (l ++ k) = actions_of kind l ++ actions_of kind k.
Proof. apply filter_app. Qed.
Lemma planned_creates_app l k : planned_creates (l ++ k) = planned_creates l + planned_creates k.
Proof. unfold planned_creates. by rewrite actions_of_app, fmap_app, zsum_app. Qed.
Lemma planned_stops_app l k : planned_stops (l ++ k) = planned_stops l + planned_stops k.
Proof. unfold planned_stops. by rewrite actions_of_app, fmap_app, zsum_app. Qed.
Lemma planned_ids_app l k : planned_stop_job_ids (l ++ k) = planned_stop_job_ids l ++ planned_stop_job_ids k.
Proof. unfold planned_stop_job_ids. by rewrite actions_of_app, fmap_app, join_app. Qed.

Lemma planned_create_one n reason :
  planned_creates [mkAction "create" n [] reason] = n ∧ planned_stops [mkAction "create" n [] reason] = 0 ∧
  planned_stop_job_ids [mkAction "create" n [] reason] = [].
Proof.
  unfold planned_creates, planned_stops, planned_stop_job_ids, actions_of.
  rewrite (filter_cons_True (λ a, ac_kind a = "create")), (filter_cons_False (λ a, ac_kind a = "stop")) by done.
  cbn. split_and!; [lia|done|done].
Qed.
Lemma planned_stop_one n job_ids reason :
  planned_creates [mkAction "stop" n job_ids reason] = 0 ∧ planned_stops [mkAction "stop" n job_ids reason] = n ∧
  planned_stop_job_ids [mkAction "stop" n job_ids reason] = job_ids.
Proof.
  unfold planned_creates, planned_stops, planned_stop_job_ids, actions_of.
  rewrite (filter_cons_True (λ a, ac_kind a = "stop")), (filter_cons_False (λ a, ac_kind a = "create")) by done.
  cbn. split_and!; [done|lia|by rewrite app_nil_r].
Qed.

(** The planned creates respect every limit of the policy. *)
Definition within (p : ScalePolicy) (available provisioning : Z) (actions : list ScaleAction) : Prop :=
  let planned := planned_creates actions in
  0 ≤ planned ∧ planned ≤ Z.max 0 (max_nodes p - available) ∧ planned ≤ Z.max 0 (max_create_per_cycle p) ∧
  (0 < max_provisioning_nodes p → planned ≤ Z.max 0 (max_provisioning_nodes p - provisioning)).

(** What a create stage may do to a plan *)
Definition create_step (p : ScalePolicy) (available provisioning : Z) (st st' : scale_plan) : Prop :=
  planned_stop_job_ids st'.1 = planned_stop_job_ids st.1 ∧ planned_stops st'.1 = planned_stops st.1 ∧
  (within p available provisioning st.1 → within p available provisioning st'.1).

#[export] Instance create_step_preorder p a q : PreOrder (create_step p a q).
Proof.
  split; [by intros st; split_and!|]. intros x y z (A1 & A2 & A3) (B1 & B2 & B3).
  split_and!; [congruence|congruence|auto].
Qed.

Lemma try_create_step p a q needed reason explain blocked st :
  create_step p a q st (try_create p a q needed reason explain blocked st).
Proof.
  destruct st as [actions reasons]. unfold try_create.
  destruct (Z.ltb_spec 0 (Z.min needed (create_budget p a q actions))) as [Hpos|]; [|by repeat case_match].
  destruct (planned_create_one (Z.min needed (create_budget p a q actions)) reason) as (Hc & Hs & Hi).
  unfold create_step. cbn [fst]. rewrite planned_ids_app, planned_stops_app, Hs, Hi, app_nil_r.
  split_and!; [done|lia|]. unfold within. rewrite planned_creates_app, Hc. intros (W1 & W2 & W3 & W4).
  revert Hpos. clear Hc Hs Hi. unfold create_budget. cbv zeta.
  destruct (Z.ltb_spec 0 (max_provisioning_nodes p)) as [Hp|Hp]; intros Hpos;
    [specialize (W4 Hp)|]; split_and!; lia.
Qed.

Lemma append_stop_spec nodes reason st :
  planned_creates (append_stop nodes reason st).1 = planned_creates st.1 ∧
  planned_stops (append_stop nodes reason st).1 = planned_stops st.1 + Z.of_nat (length nodes) ∧
  planned_stop_job_ids (append_stop nodes reason st).1 = planned_stop_job_ids st.1 ++ ids nodes.
Proof.
  destruct nodes as [|n nodes]; [cbn; rewrite app_nil_r; split_and!; [done|lia|done]|].
  unfold append_stop. cbn [fst].
  destruct (planned_stop_one (Z.of_nat (length (n :: nodes))) (ids (n :: nodes)) reason) as (Hc & Hs & Hi).
  rewrite planned_creates_app, planned_stops_app, planned_ids_app, Hc, Hs, Hi. split_and!; [lia|done|done].
Qed.

Section stages.
Context (format_g format_percent : float → string).

Lemma create_stages_step p v d signals fm desired projected deficit pn backlog_nodes pr bl cp st st' :
  create_stages format_g format_percent p v d signals fm desired projected deficit pn backlog_nodes pr bl cp st
    = Ok st' → create_step p (fl_available v) (fl_provisioning v) st st'.
Proof.
  unfold create_stages. intros (st1 & H1 & H2)%res_bind_Ok.
  trans (min_stage p v st); [unfold min_stage; case_match; [apply try_create_step|done]|].
  trans st1.
  { revert H1. unfold deficit_stage. case_match; [|by intros [= <-]].
    intros (n & _ & [= <-])%res_bind_Ok. apply try_create_step. }
  trans (backlog_stage p v d backlog_nodes st1); [unfold backlog_stage; case_match; [apply try_create_step|done]|].
  trans (pressure_stage format_g format_percent p v signals pr cp (backlog_stage p v d backlog_nodes st1));
    [unfold pressure_stage; case_match; [apply try_create_step|done]|].
  revert H2. unfold create_pressure_stage. case_match; [|by intros [= <-]]. destruct signals as [s|]; [|done].
  intros (n & _ & [= <-])%res_bind_Ok. apply try_create_step.
Qed.

Lemma opening_spec nodes d p now u :
  let e := evictions nodes p now in
  let st := opening_plan nodes d p now u in
  planned_creates st.1 = 0 ∧ planned_stops st.1 = Z.of_nat (length e.1) + Z.of_nat (length e.2) ∧
  planned_stop_job_ids st.1 = ids e.1 ++ ids e.2.
Proof.
  intros e st. unfold st, opening_plan. fold e. destruct e as [un inc]. cbn [fst snd].
  edestruct (append_stop_spec inc INCOMPATIBLE_REASON) as (-> & -> & ->).
  edestruct (append_stop_spec un UNREACHABLE_REASON) as (-> & -> & ->). done.
Qed.

Lemma down_stage_spec p v now signals desired requests idle st :
  let stopped := idle_stops p v now desired requests idle (pressure_cooldown p signals) st.1 in
  let st' := down_stage format_g p v now signals desired requests idle st in
  planned_creates st'.1 = planned_creates st.1 ∧ planned_stop_job_ids st'.1 = planned_stop_job_ids st.1 ++ ids stopped.
Proof.
  intros stopped st'. unfold st', down_stage, stopped, idle_stops.
  destruct (pressure_cooldown p signals); cbn [fst]; [by rewrite app_nil_r|].
  edestruct append_stop_spec as (-> & _ & ->). done.
Qed.

(** What a decision consists of *)
Lemma evaluate_inv nodes d p now signals dec :
  evaluate_scale format_g format_percent nodes d p now signals = Ok dec →
  let v := classify nodes p now in
  let e := evictions nodes p now in
  within p (fl_available v) (fl_provisioning v) (sd_actions dec) ∧
  ∃ stopped requests unschedulable,
    forecast_demand v d p now = Ok (sd_desired_resources dec, requests, unschedulable) ∧
    planned_stop_job_ids (sd_actions dec) = ids e.1 ++ ids e.2 ++ ids stopped ∧
    (stopped ≠ [] → planned_creates (sd_actions dec) = 0) ∧
    (stopped = [] ∨ ∃ actions, planned_stops actions = Z.of_nat (length e.1) + Z.of_nat (length e.2) ∧
       stopped = idle_stops p v now (sd_desired_resources dec) requests
         (sd_effective_scale_down_idle_seconds dec) (pressure_cooldown p signals) actions).
Proof.
  unfold evaluate_scale. intros (idle & _ & H)%res_bind_Ok. apply res_bind_Ok in H as ([[desired requests] un] & Hd & H).
  destruct (reopen_drained _ _ _ _ _ _) as [[drain [[projected deficit] pn]] released].
  apply res_bind_Ok in H as (st & Hst & H). apply create_stages_step in Hst as (Hi & Hs & Hw).
  destruct (opening_spec nodes d p now un) as (Hc0 & Hs0 & Hi0). rewrite Hs0 in Hs. rewrite Hi0 in Hi.
  assert (within p (fl_available (classify nodes p now)) (fl_provisioning (classify nodes p now)) st.1)
    as Hwithin.
  { apply Hw. unfold within. rewrite Hc0. split_and!; lia. }
  injection H as <-. cbn [sd_actions sd_desired_resources sd_effective_scale_down_idle_seconds]. cbv zeta.
  destruct ((planned_creates st.1 =? 0) && _ && _) eqn:Eset.
  - bools. destruct (down_stage_spec p (classify nodes p now) now signals desired requests idle st) as [Dc Di].
    split; [unfold within in *; by rewrite Dc|].
    exists (idle_stops p (classify nodes p now) now desired requests idle (pressure_cooldown p signals) st.1).
    exists requests, un. split_and!; [done|by rewrite Di, Hi, app_assoc|by rewrite Dc|]. right. exists st.1. done.
  - split; [done|]. exists [], requests, un. split_and!; [done|by rewrite Hi, app_nil_r|done|by left].
Qed.
End stages.

(** C17. The creates of a decision respect every limit of the policy at once:
    together with the nodes that are up and reachable they do not exceed
    [max_nodes], they do not exceed [max_create_per_cycle], and with the nodes
    still provisioning they do not exceed [max_provisioning_nodes] when it is set,
    whichever of the five create stages asked for them. *)
Theorem scale_creates_within_limits format_g format_percent nodes d p now signals dec :
  evaluate_scale format_g format_percent nodes d p now signals = Ok dec →
  let v := classify nodes p now in
  0 ≤ creates dec ∧ creates dec ≤ Z.max 0 (max_nodes p - fl_available v) ∧
  creates dec ≤ Z.max 0 (max_create_per_cycle p) ∧
  (0 < max_provisioning_nodes p → creates dec ≤ Z.max 0 (max_provisioning_nodes p - fl_provisioning v)).
Proof. intros [Hw _]%evaluate_inv. exact Hw. Qed.

(** ** Stops are few, distinct and without work *)

(** No sandbox and no other work is known on the node. *)
Definition workless (n : SandboxNode) : Prop :=
  sn_active_sandboxes n = 0 ∧ match heartbeat n with Some h => active_workloads h = 0 | None => True end.

Lemma is_idle_workless n : is_idle n = true → workless n.
Proof. unfold is_idle, workless. intros. bools. destruct (heartbeat n); done. Qed.

Lemma unreachable_ready_inv n p now :
  unreachable_node_stop_ready n p now = true → workless n ∧ heartbeat_fresh n = false.
Proof.
  unfold unreachable_node_stop_ready, workless. case_match; [done|]. bools. destruct (heartbeat n); [|done].
  intros. bools. done.
Qed.

Lemma incompatible_inv now ms n :
  incompatible_candidate now ms n = true →
  (workless n ∨ (phase (job n) = PROVISIONING ∧ agent_version_compatible n = false)) ∧
  (agent_version_compatible n = false ∨ retiring now ms n = true).
Proof.
  unfold incompatible_candidate. case_match eqn:E; [done|]. bools. intros Hc%orb_true_iff. split.
  - destruct Hc as [?|?]; bools; [by right|left; by apply is_idle_workless].
  - rewrite andb_false_iff, negb_false_iff in *. done.
Qed.

Lemma idle_stops_sub p v now desired requests idle cooldown actions :
  let stopped := idle_stops p v now desired requests idle cooldown actions in
  sublist stopped (fl_ready v) ∧ Forall (λ n, is_idle n = true) stopped ∧
  Z.of_nat (length stopped) ≤ Z.max 0 (fl_total v - min_nodes p) ∧
  (stopped ≠ [] → Z.of_nat (length stopped) + planned_stops actions ≤ max_stop_per_cycle p).
Proof.
  intros stopped. subst stopped. unfold idle_stops.
  destruct cooldown; [split_and!; [apply sublist_nil_l|constructor|simpl; lia|done]|].
  destruct (Z.ltb_spec 0 (fl_total v - min_nodes p)), (Z.ltb_spec 0 (Z.max 0 (max_stop_per_cycle p - planned_stops actions)));
    simpl; try (split_and!; [apply sublist_nil_l|constructor|simpl; lia|done]).
  edestruct stop_candidates_sub as (Hs & Hi & Hl). split_and!; [exact Hs|exact Hi|lia|lia].
Qed.

Lemma sorted_ids_NoDup leb (P : SandboxNode → Prop) `{∀ n, Decision (P n)} nodes :
  NoDup (ids nodes) → NoDup (ids (sorted_by leb (filter P nodes))).
Proof.
  intros Hd. unfold ids. rewrite sorted_by_perm. eapply sublist_NoDup; [exact Hd|].
  apply fmap_sublist, sublist_filter.
Qed.

(** What the evictions contain *)
Lemma evictions_spec nodes p now :
  NoDup (ids nodes) →
  let e := evictions nodes p now in
  NoDup (ids e.1 ++ ids e.2) ∧ Z.of_nat (length e.1) + Z.of_nat (length e.2) ≤ Z.max 0 (max_stop_per_cycle p) ∧
  (∀ n, n ∈ e.1 → n ∈ nodes ∧ unreachable_node_stop_ready n p now = true) ∧
  (∀ n, n ∈ e.2 → n ∈ nodes ∧ incompatible_candidate now (max_cpu_check_ms p) n = true).
Proof.
  intros Hd e. unfold e, evictions. cbn [fst snd]. set (un := take _ (unreachable_stop_candidates _ _ _)).
  assert (∀ n, n ∈ un → n ∈ nodes ∧ unreachable_node_stop_ready n p now = true) as Hu.
  { intros n [i Hi]%list_elem_of_lookup. apply lookup_take_Some in Hi as [Hi _].
    apply list_elem_of_lookup_2 in Hi. unfold unreachable_stop_candidates in Hi.
    rewrite sorted_by_perm, list_elem_of_filter in Hi. tauto. }
  assert (length un ≤ Z.to_nat (Z.max 0 (max_stop_per_cycle p)))%nat by apply firstn_le_length.
  set (inc := take _ (incompatible_stop_candidates _ _ _)).
  assert (∀ n, n ∈ inc → (node_job_id n ∉ ids un) ∧ n ∈ nodes ∧
    incompatible_candidate now (max_cpu_check_ms p) n = true) as Hc.
  { intros n [i Hi]%list_elem_of_lookup. apply lookup_take_Some in Hi as [Hi _].
    apply list_elem_of_lookup_2 in Hi. unfold incompatible_stop_candidates in Hi.
    rewrite sorted_by_perm, !list_elem_of_filter in Hi. tauto. }
  assert (length inc ≤ Z.to_nat (Z.max 0 (Z.max 0 (max_stop_per_cycle p) - Z.of_nat (length un))))%nat
    by apply firstn_le_length.
  split_and!; [|lia|done|intros n Hn; by destruct (Hc n Hn)].
  apply NoDup_app. split_and!.
  - eapply sublist_NoDup; [|apply fmap_sublist, sublist_take]. by apply sorted_ids_NoDup.
  - intros x Hx (n & -> & Hn)%list_elem_of_fmap. destruct (Hc n Hn); done.
  - eapply sublist_NoDup; [|apply fmap_sublist, sublist_take]. apply sorted_ids_NoDup.
    eapply sublist_NoDup; [exact Hd|]. apply fmap_sublist, sublist_filter.
Qed.

Lemma ready_facts nodes p now n :
  n ∈ fl_ready (classify nodes p now) →
  n ∈ nodes ∧ heartbeat_fresh n = true ∧ agent_version_compatible n = true ∧
  retiring now (max_cpu_check_ms p) n = false.
Proof.
  unfold classify. cbn [fl_ready]. rewrite !list_elem_of_filter. intros (Hs & Hc & _ & Hn).
  unfold is_schedulable, is_ready in Hs. bools. done.
Qed.

(** C12. The stops of a decision are distinct, at most [max_stop_per_cycle], and
    each names a node of the fleet without work: no active sandbox, no image
    build, create or reservation in its last heartbeat; or a machine that is still
    provisioning and runs an agent version the controller cannot use. *)
Theorem scale_stops_workless format_g format_percent nodes d p now signals dec :
  NoDup (ids nodes) →
  evaluate_scale format_g format_percent nodes d p now signals = Ok dec →
  NoDup (stops dec) ∧ Z.of_nat (length (stops dec)) ≤ Z.max 0 (max_stop_per_cycle p) ∧
  ∀ id, id ∈ stops dec → ∃ n, n ∈ nodes ∧ node_job_id n = id ∧
    (workless n ∨ (phase (job n) = PROVISIONING ∧ agent_version_compatible n = false)).
Proof.
  intros Hd [_ (stopped & requests & un & _ & Hi & _ & Hs)]%evaluate_inv.
  change (stops dec) with (planned_stop_job_ids (sd_actions dec)). rewrite Hi. clear Hi.
  destruct (evictions_spec nodes p now Hd) as (Hnd & Hlen & Hu & Hc).
  set (e := evictions nodes p now) in *.
  assert (sublist stopped (fl_ready (classify nodes p now)) ∧ Forall (λ n, is_idle n = true) stopped ∧
    Z.of_nat (length e.1) + Z.of_nat (length e.2) + Z.of_nat (length stopped) ≤ Z.max 0 (max_stop_per_cycle p))
    as (Hsub & Hidle & Hl).
  { destruct Hs as [->|(actions & Ha & ->)]; [split_and!; [apply sublist_nil_l|by apply Forall_nil|cbn [length]; lia]|].
    edestruct idle_stops_sub as (Hs & Hi & _ & Hb). split_and!; [exact Hs|exact Hi|].
    destruct (decide (idle_stops p (classify nodes p now) now (sd_desired_resources dec) requests
      (sd_effective_scale_down_idle_seconds dec) (pressure_cooldown p signals) actions = [])) as [->|Hne];
      [cbn [length]; lia|]. specialize (Hb Hne). lia. }
  assert (∀ n, n ∈ stopped → n ∈ fl_ready (classify nodes p now)) as Hready.
  { intros n Hn. by eapply elem_of_sublist. }
  rewrite app_assoc. split_and!.
  - apply NoDup_app. split_and!; [done| |].
    + intros x Hx (n & -> & (Hn & Hf & Hv & Hr)%Hready%ready_facts)%list_elem_of_fmap.
      apply elem_of_app in Hx as [(m & Heq & [Hm Hm']%Hu)%list_elem_of_fmap|(m & Heq & [Hm Hm']%Hc)%list_elem_of_fmap];
        assert (m = n) as -> by (by eapply NoDup_fmap_eq; [exact Hd|..]).
      * apply unreachable_ready_inv in Hm' as [_ ?]. congruence.
      * apply incompatible_inv in Hm' as [_ [?|?]]; congruence.
    + eapply sublist_NoDup; [exact Hd|]. apply fmap_sublist. etrans; [exact Hsub|].
      unfold classify. cbn [fl_ready]. etrans; [apply sublist_filter|]. etrans; apply sublist_filter.
  - rewrite !length_app. unfold ids. rewrite !length_fmap. lia.
  - intros x [[(n & -> & [Hn Hn']%Hu)%list_elem_of_fmap|(n & -> & [Hn Hn']%Hc)%list_elem_of_fmap]%elem_of_app
      |(n & -> & Hn)%list_elem_of_fmap]%elem_of_app; exists n; split_and!; try done.
    + left. by apply unreachable_ready_inv in Hn' as [? _].
    + by apply incompatible_inv in Hn' as [? _].
    + by apply Hready, ready_facts in Hn as [? _].
    + left. apply is_idle_workless. rewrite Forall_forall in Hidle. by apply Hidle.
Qed.

Lemma forecast_requests v d p now desired requests un :
  forecast_demand v d p now = Ok (desired, requests, un) →
  requests = schedulable_requests (default_node_resources p) (placement_requests d ++ prepared_placement_requests d).
Proof.
  unfold forecast_demand. intros H. repeat (apply res_bind_Ok in H as (? & _ & H)). by injection H as _ <- _.
Qed.

(** C11. Scaling down never undercuts the demand.  Apart from evictions, a cycle
    stops nodes only when it creates none; it leaves at least [min_nodes] of the
    pool; and the disk and memory the surviving ready nodes report still cover the
    desired resources, with a place for every schedulable request on the surviving
    nodes of known capacity. *)
Theorem scale_down_keeps_demand format_g format_percent nodes d p now signals dec :
  NoDup (ids nodes) → Forall sane_shape nodes →
  Forall (λ r, 0 < pr_count r) (placement_requests d ++ prepared_placement_requests d) →
  evaluate_scale format_g format_percent nodes d p now signals = Ok dec →
  let v := classify nodes p now in
  let e := evictions nodes p now in
  ∃ stopped, stops dec = ids e.1 ++ ids e.2 ++ ids stopped ∧
    (stopped ≠ [] → creates dec = 0 ∧ min_nodes p ≤ fl_total v - Z.of_nat (length stopped) ∧
       (disk_mb (sd_desired_resources dec) ≤
          zsum ((λ n, disk_mb (known_free n)) <$> survivors (fl_ready v) stopped)) ∧
       (memory_mb (sd_desired_resources dec) ≤
          zsum ((λ n, memory_mb (known_free n)) <$> survivors (fl_ready v) stopped)) ∧
       ∃ plan, assignment (node_bins p now (filter (λ m, exact_node m = true) (survivors (fl_capacity v) stopped)))
         (schedulable_requests (default_node_resources p)
            (placement_requests d ++ prepared_placement_requests d)) plan).
Proof.
  intros Hd Hs Hr [_ (stopped & requests & un & Hf & Hi & Hc & Hst)]%evaluate_inv v e.
  exists stopped. split; [exact Hi|]. intros Hne. split; [by apply Hc|].
  destruct Hst as [?|(actions & _ & Hst)]; [done|]. fold v in Hst.
  apply forecast_requests in Hf. rewrite <-Hf.
  assert (Forall (λ r, 0 < pr_count r) requests) as Hr' by (rewrite Hf; by apply Forall_filter).
  assert (sublist (fl_ready v) nodes) as Hsub.
  { unfold v, classify. cbn [fl_ready]. etrans; [apply sublist_filter|]. etrans; apply sublist_filter. }
  destruct (idle_stops_sub p v now (sd_desired_resources dec) requests (sd_effective_scale_down_idle_seconds dec)
    (pressure_cooldown p signals) actions) as (_ & _ & Hl & _).
  rewrite Hst in Hne. revert Hne Hl. rewrite Hst. unfold idle_stops. destruct (pressure_cooldown p signals); [done|].
  destruct (Z.ltb_spec 0 (fl_total v - min_nodes p)); [|simpl; intros []; reflexivity]. cbn [andb].
  case_match; [|intros []; reflexivity]. intros Hne Hl.
  split; [lia|].
  edestruct (stop_candidates_safe (fl_ready v)) as (_ & _ & _ & Hsafe); [| |exact Hr'|].
  - eapply sublist_NoDup; [exact Hd|]. by apply fmap_sublist.
  - apply Forall_forall. intros n Hn. rewrite Forall_forall in Hs. apply Hs. by eapply elem_of_sublist.
  - destruct (Hsafe Hne) as (? & ? & plan & ?). split_and!; [done|done|]. by exists plan.
Qed.

(** ** A concrete cycle *)

Definition demo_demand (requests : list SandboxPlacementRequest) : SandboxDemand :=
  mkDemand rq_zero rq_zero 0 0 0 0 requests [].
Definition demo_format (x : float) : string := EmptyString.
Definition demo_cycle (nodes : list SandboxNode) (requests : list SandboxPlacementRequest) : res ScaleDecision :=
  evaluate_scale demo_format demo_format nodes (demo_demand requests) demo_policy 700000000 None.

Definition demo_fleet : list SandboxNode := [demo_worker "a" 0; demo_worker "b" 0].
Definition demo_burst : list SandboxPlacementRequest := demo_small :: repeat demo_large 6.

(** Six large requests on two workers: two nodes are created, within the limit of
    two more that [max_nodes] leaves. *)
Lemma scale_creates_within_limits_witness :
  match demo_cycle demo_fleet demo_burst with
  | Ok dec => creates dec = 2 ∧ creates dec ≤ Z.max 0 (4 - 2)
  | Raise _ => False
  end.
Proof.
  destruct (demo_cycle demo_fleet demo_burst) as [dec|err] eqn:E.
  - split; [|exact (proj1 (proj2 (scale_creates_within_limits _ _ _ _ _ _ _ dec E)))].
    apply (f_equal (λ r, match r with Ok d => creates d | Raise _ => 0 end)) in E. rewrite <-E. by vm_compute.
  - by vm_compute in E.
Defined.

(** With one small request, which excludes "b", the idle worker "b" is stopped. *)
Lemma scale_stops_workless_witness :
  match demo_cycle demo_fleet [demo_small] with
  | Ok dec => stops dec = ["b"] ∧ ∃ n, n ∈ demo_fleet ∧ node_job_id n = "b" ∧
      (workless n ∨ (phase (job n) = PROVISIONING ∧ agent_version_compatible n = false))
  | Raise _ => False
  end.
Proof.
  destruct (demo_cycle demo_fleet [demo_small]) as [dec|err] eqn:E.
  - assert (stops dec = ["b"]) as Hs.
    { apply (f_equal (λ r, match r with Ok d => stops d | Raise _ => [] end)) in E. rewrite <-E. by vm_compute. }
    split; [exact Hs|].
    refine (proj2 (proj2 (scale_stops_workless _ _ _ _ _ _ _ dec _ E)) "b" _).
    + apply (bool_decide_unpack _). by vm_compute.
    + rewrite Hs. apply list_elem_of_here.
  - by vm_compute in E.
Defined.

Lemma scale_down_keeps_demand_witness :
  match demo_cycle demo_fleet [demo_small] with
  | Ok dec => ∃ stopped, stops dec = ids stopped ∧ stopped ≠ [] ∧ creates dec = 0 ∧
      (disk_mb (sd_desired_resources dec) ≤
         zsum ((λ n, disk_mb (known_free n)) <$> survivors demo_fleet stopped))
  | Raise _ => False
  end.
Proof.
  destruct (demo_cycle demo_fleet [demo_small]) as [dec|err] eqn:E.
  - destruct (scale_down_keeps_demand demo_format demo_format demo_fleet (demo_demand [demo_small])
      demo_policy 700000000 None dec ltac:(apply (bool_decide_unpack _); by vm_compute)
      ltac:(repeat constructor; done) ltac:(repeat constructor) E) as (stopped & Hs & Hdown).
    exists stopped. change (ids _ ++ ids _ ++ ids stopped) with (ids stopped) in Hs.
    assert (stops dec = ["b"]) as Hb.
    { apply (f_equal (λ r, match r with Ok d => stops d | Raise _ => [] end)) in E. rewrite <-E. by vm_compute. }
    assert (stopped ≠ []) as Hne by (intros ->; by rewrite Hb in Hs).
    destruct (Hdown Hne) as (Hc & _ & Hd & _). split; [exact Hs|]. split; [exact Hne|]. split; [exact Hc|exact Hd].
  - by vm_compute in E.
Defined.
