(* ===== verification/UsageHistory.v ===== *)
(** * Remembered memory usage (ucloud_sandboxes/usage_history.py)

    What earlier sandboxes of an image and shape used, so that demand for sandboxes
    that do not run yet is sized from evidence.  Times are instants of [time.time()]
    in microseconds; [format_g] is the [:g] format of a float. *)
From S2P Require Import Prelude PyFloat PyString Json Resources Bytes ManagedProcess Routes ScaleModels.
From stdpp Require Import gmap strings pretty.
From Stdlib Require Import Ascii QArith Qround.
Local Close Scope Q_scope.
Local Open Scope Z_scope.

(** ** Image identities (managed_registry.py) *)

Definition normalize_manifest_digest (digest : string) : string :=
  let normalized := lower (strip digest) in
  if String.prefix "sha256:" normalized
     && sha256_text (String.substring 7 (String.length normalized - 7) normalized)
  then normalized else EmptyString.
Definition manifest_digest_from_image_ref (image_ref : string) : string :=
  match rpartition "@" (strip image_ref) with
  | None => EmptyString
  | Some (_, raw_digest) => normalize_manifest_digest raw_digest
  end.
Definition canonical_image_digest_ref (image_ref digest : string) : string :=
  let normalized := normalize_manifest_digest (str_or digest (manifest_digest_from_image_ref image_ref)) in
  let image := before_first "@" (strip image_ref) in
  if negb (nonempty image) || negb (nonempty normalized) then EmptyString
  else
    let '(prefix, separator, last) :=
      match rpartition "/" image with Some (p, l) => (p, "/", l) | None => (EmptyString, EmptyString, image) end in
    let last := match rpartition ":" last with Some (name, _) => name | None => last end in
    if negb (nonempty last) then EmptyString
    else (if nonempty prefix then prefix +:+ separator +:+ last else last) +:+ "@" +:+ normalized.

(** ** The history *)

Definition FORECAST_MARGIN : Q := 5 # 4.
Definition RETENTION : Z := 30 * 24 * 3600 * 1000000.
(** [3600] seconds: how often a timestamp is refreshed *)
Definition REFRESH : Z := 3600 * 1000000.

Definition image_identity (image : string) : string :=
  str_or (canonical_image_digest_ref image EmptyString) (strip image).

Record UsageObservation := mkUsage { uo_memory_mb : Z; uo_updated_at : Z }.
Record UsageHistory := mkHistory {
  uh_entries : gmap (string * string) UsageObservation;
  uh_dirty : bool
}.
Definition history_init : UsageHistory := mkHistory ∅ false.

Section history.
Context (format_g : float → string).

Definition shape_key (r : ResourceQuantity) : string :=
  format_g (vcpu r) +:+ ":" +:+ pretty (memory_mb r) +:+ ":" +:+ pretty (disk_mb r).
Definition usage_key (image : string) (r : ResourceQuantity) : string * string := (image_identity image, shape_key r).

Definition observe (h : UsageHistory) (image : string) (resources : ResourceQuantity) (memory_mb now : Z) : UsageHistory :=
  let key := usage_key image resources in
  if negb (nonempty key.1) || (memory_mb <=? 0) then h
  else
    let write m := mkHistory (<[key := mkUsage m now]> (uh_entries h)) true in
    match uh_entries h !! key with
    | Some previous =>
        if now - uo_updated_at previous <? RETENTION then
          let m := Z.max memory_mb (uo_memory_mb previous) in
          if (m =? uo_memory_mb previous) && (now - uo_updated_at previous <? REFRESH) then h else write m
        else write memory_mb
    | None => write memory_mb
    end.

(** [max(item.memory_mb for item in matches)], [None] for no match *)
Definition peak (P : string * string → bool) (live : gmap (string * string) UsageObservation) : option Z :=
  match filter (λ kv, P kv.1 = true) (map_to_list live) with
  | [] => None
  | x :: l => Some (foldl Z.max (uo_memory_mb x.2) (uo_memory_mb ∘ snd <$> l))
  end.
Definition forecast_memory_mb (h : UsageHistory) (image : string) (resources : ResourceQuantity) (now : Z) : option Z :=
  let identity := image_identity image in
  let shape := shape_key resources in
  let live := filter (λ kv, now - uo_updated_at kv.2 < RETENTION) (uh_entries h) in
  let found := match peak (λ k, bool_decide (k = (identity, shape))) live with
               | Some p => Some p
               | None => match peak (λ k, nonempty identity && bool_decide (k.1 = identity)) live with
                         | Some p => Some p
                         | None => peak (λ k, bool_decide (k.2 = shape)) live
                         end
               end in
  (λ p, Z.min (memory_mb resources) (Qceiling (inject_Z p * FORECAST_MARGIN))) <$> found.

Definition prune (h : UsageHistory) (now : Z) : UsageHistory :=
  let kept := filter (λ kv, now - uo_updated_at kv.2 < RETENTION) (uh_entries h) in
  mkHistory kept (uh_dirty h || negb (size kept =? size (uh_entries h))%nat).

(** [images_by_sandbox] maps an incarnation to its image. *)
Definition record_inventory_usage (h : UsageHistory) (heartbeats : list NodeHeartbeat)
    (images_by_sandbox : gmap (string * Z) string) (now : Z) : UsageHistory :=
  foldl (λ h hb, foldl (λ h entry,
    match bool_decide (inv_state entry = "running"), inv_memory_observation entry with
    | true, Some o =>
        let image := default EmptyString (images_by_sandbox !! (inv_sandbox_id entry, inv_generation entry)) in
        if nonempty image
        then observe h image (inv_resources entry) (Qceiling (inject_Z (mo_memory_bytes o) / inject_Z 1048576)) now
        else h
    | _, _ => h
    end) h (inventory hb)) h heartbeats.

(** ** Demand sized from the history *)

Definition forecast_request (h : UsageHistory) (initial_disk_claim_mb now : Z) (r : SandboxPlacementRequest) :
    SandboxPlacementRequest :=
  let resources := pr_resources r in
  let memory := forecast_memory_mb h (pr_image r) resources now in
  let disk := if 0 <? initial_disk_claim_mb then Z.min (disk_mb resources) initial_disk_claim_mb else disk_mb resources in
  let forecasted := mkRQ (vcpu resources) (default (memory_mb resources) memory) disk in
  if rq_eqb forecasted resources then r else mkPR forecasted (pr_count r) (pr_excluded_job_ids r) (pr_image r).
Definition demand_with_usage_forecast (d : SandboxDemand) (h : UsageHistory) (initial_disk_claim_mb now : Z) :
    SandboxDemand :=
  mkDemand (dm_pending_resources d) (suppressed_pending_resources d) (pending_count d) (suppressed_pending_count d)
    (oldest_pending_seconds d) (oldest_capacity_pending_seconds d)
    (forecast_request h initial_disk_claim_mb now <$> placement_requests d)
    (forecast_request h initial_disk_claim_mb now <$> prepared_placement_requests d).
End history.

(** ** Peaks *)

Lemma foldl_max x l : ∀ y, y ∈ x :: l → y ≤ foldl Z.max x l.
Proof.
  revert x. induction l as [|z l IH]; intros x y; simpl.
  - by intros ->%list_elem_of_singleton.
  - intros [->|[->|Hy]%elem_of_cons]%elem_of_cons.
    + etrans; [|apply (IH (Z.max x z)); left]. lia.
    + etrans; [|apply (IH (Z.max x z)); left]. lia.
    + apply IH. by right.
Qed.
Lemma peak_above P live k o : live !! k = Some o → P k = true → ∃ p, peak P live = Some p ∧ uo_memory_mb o ≤ p.
Proof.
  intros Hk HP. unfold peak.
  assert ((k, o) ∈ filter (λ kv, P kv.1 = true) (map_to_list live)) as Hin.
  { apply list_elem_of_filter. split; [done|]. by apply elem_of_map_to_list. }
  destruct (filter _ _) as [|x l]; [by apply elem_of_nil in Hin|]. eexists. split; [done|]. apply foldl_max.
  change (uo_memory_mb x.2 :: (uo_memory_mb ∘ snd <$> l)) with (uo_memory_mb ∘ snd <$> x :: l).
  apply list_elem_of_fmap. exists (k, o). done.
Qed.
Lemma margin_above p q : 0 ≤ p → p ≤ q → p ≤ Qceiling (inject_Z p * FORECAST_MARGIN) ≤ Qceiling (inject_Z q * FORECAST_MARGIN).
Proof.
  intros Hp Hq. split.
  - rewrite <-(Qceiling_Z p) at 1. apply Qceiling_resp_le. rewrite <-(Qmult_1_r (inject_Z p)) at 1.
    rewrite !(Qmult_comm (inject_Z p)). apply Qmult_le_compat_r; [done|]. by rewrite <-(Zle_Qle 0).
  - apply Qceiling_resp_le, Qmult_le_compat_r; [by rewrite <-Zle_Qle|done].
Qed.

Section remembered.
Context (format_g : float → string).

(** A forecast never exceeds the request, and never changes its CPU. *)
Lemma forecast_memory_le h image r now m : forecast_memory_mb format_g h image r now = Some m → m ≤ memory_mb r.
Proof. unfold forecast_memory_mb. destruct (match peak _ _ with Some _ => _ | None => _ end); intros [= <-]. lia. Qed.
Lemma forecast_request_le h claim now r :
  let f := forecast_request format_g h claim now r in
  vcpu (pr_resources f) = vcpu (pr_resources r) ∧ memory_mb (pr_resources f) ≤ memory_mb (pr_resources r) ∧
  disk_mb (pr_resources f) ≤ disk_mb (pr_resources r) ∧ pr_count f = pr_count r ∧
  pr_excluded_job_ids f = pr_excluded_job_ids r.
Proof.
  unfold forecast_request. destruct (rq_eqb _ _); [done|]. simpl. split_and!; try done.
  - destruct (forecast_memory_mb _ _ _ _ _) eqn:E; simpl; [by apply forecast_memory_le in E|done].
  - destruct (0 <? claim); lia.
Qed.

(** ** A peak is remembered *)

(** The entry of [key] holds a peak of at least [m], recorded after [t] less the
    refresh interval *)
Definition remembers (h : UsageHistory) (key : string * string) (m t : Z) : Prop :=
  ∃ o, uh_entries h !! key = Some o ∧ m ≤ uo_memory_mb o ∧ t - REFRESH < uo_updated_at o.

(** What happens to a history in the course of the cycles *)
Inductive usage_event := Observed (image : string) (r : ResourceQuantity) (memory_mb : Z) | Pruned.
Definition usage_step (h : UsageHistory) (e : Z * usage_event) : UsageHistory :=
  match e.2 with
  | Observed image r m => observe format_g h image r m e.1
  | Pruned => prune h e.1
  end.

Lemma observe_remembers h image r m t : 0 < m → image_identity image ≠ EmptyString →
  remembers (observe format_g h image r m t) (usage_key format_g image r) m t.
Proof.
  intros Hm Hi. unfold observe. set (key := usage_key format_g image r).
  assert (negb (nonempty key.1) || (m <=? 0) = false) as ->.
  { apply orb_false_iff. split; [|by apply Z.leb_gt]. simpl. unfold nonempty. by rewrite bool_decide_eq_false_2. }
  assert (∀ x, m ≤ x → remembers (mkHistory (<[key := mkUsage x t]> (uh_entries h)) true) key m t) as Hw.
  { intros x Hx. exists (mkUsage x t). simpl. rewrite lookup_insert_eq. unfold REFRESH. split_and!; [done|done|lia]. }
  destruct (uh_entries h !! key) as [o|] eqn:E; [|apply Hw; lia].
  destruct (t - _ <? RETENTION); [|apply Hw; lia]. destruct (_ && _) eqn:Ec; [|apply Hw; lia].
  bools. exists o. split_and!; [done|lia|lia].
Qed.
Lemma step_remembers h key m t e : remembers h key m t → t ≤ e.1 < t + RETENTION - REFRESH →
  remembers (usage_step h e) key m t.
Proof.
  intros (o & Ho & Hm & Ht) He. destruct e as [now [image r x|]]; unfold usage_step; cbn [fst snd] in *.
  - unfold observe. destruct (_ || _); [by exists o|].
    destruct (decide (usage_key format_g image r = key)) as [->|Hne].
    + rewrite Ho. destruct (Z.ltb_spec (now - uo_updated_at o) RETENTION); [|lia].
      destruct (_ && _); [by exists o|]. eexists. simpl. rewrite lookup_insert_eq. unfold REFRESH in *.
      split_and!; [done|simpl; lia|simpl; lia].
    + assert (∀ v, remembers (mkHistory (<[usage_key format_g image r := v]> (uh_entries h)) true) key m t) as Hw.
      { intros v. exists o. simpl. by rewrite lookup_insert_ne. }
      destruct (uh_entries h !! usage_key format_g image r); [|apply Hw]. destruct (_ <? _); [|apply Hw]. destruct (_ && _); [by exists o|apply Hw].
  - exists o. unfold prune. simpl. split_and!; [|done|done]. apply map_lookup_filter_Some. split; [done|]. simpl. lia.
Qed.
Lemma steps_remember l : ∀ h key m t, remembers h key m t → Forall (λ e, t ≤ e.1 < t + RETENTION - REFRESH) l →
  remembers (foldl usage_step h l) key m t.
Proof.
  induction l as [|e l IH]; intros h key m t Hh Hl; [done|]. apply Forall_cons in Hl as [He Hl]. simpl.
  apply IH; [by apply step_remembers|done].
Qed.
Lemma forecast_remembers h image r m t now : 0 ≤ m → remembers h (usage_key format_g image r) m t →
  now < t + RETENTION - REFRESH → ∃ f, forecast_memory_mb format_g h image r now = Some f ∧
    Z.min (memory_mb r) (Qceiling (inject_Z m * FORECAST_MARGIN)) ≤ f.
Proof.
  intros Hm (o & Ho & Hle & Ht) Hn. unfold forecast_memory_mb.
  set (live := filter _ (uh_entries h)).
  assert (live !! usage_key format_g image r = Some o) as Hl.
  { apply map_lookup_filter_Some. split; [done|]. simpl. lia. }
  destruct (peak_above (λ k, bool_decide (k = (image_identity image, shape_key format_g r))) live _ o Hl) as (p & -> & Hp).
  { by apply bool_decide_eq_true. }
  eexists. split; [done|]. destruct (margin_above m p); lia.
Qed.

(** Usage that was seen is provisioned for: after a sandbox of an image and
    shape was observed with some memory, and whatever is observed and pruned in the
    following 30 days less an hour, demand for that image and shape is sized with at
    least that memory and the margin, unless the request itself is smaller; and the
    forecast never exceeds the request. *)
Theorem usage_peak_remembered h image r m t events now :
  0 < m → image_identity image ≠ EmptyString → Forall (λ e, t ≤ e.1 < t + RETENTION - REFRESH) events →
  now < t + RETENTION - REFRESH →
  ∃ f, forecast_memory_mb format_g (foldl usage_step (observe format_g h image r m t) events) image r now = Some f ∧
    Z.min (memory_mb r) (Qceiling (inject_Z m * FORECAST_MARGIN)) ≤ f ≤ memory_mb r.
Proof.
  intros Hm Hi He Hn.
  destruct (forecast_remembers (foldl usage_step (observe format_g h image r m t) events) image r m t now)
    as (f & Hf & Hle); [lia| |done|].
  - apply steps_remember; [|done]. by apply observe_remembers.
  - exists f. split; [done|]. split; [done|]. by eapply forecast_memory_le.
Qed.
End remembered.

Lemma usage_peak_remembered_witness :
  let fmt := λ _ : float, "4" in
  let r := mkRQ (of_int 4) 8192 1024 in
  let h := foldl (usage_step fmt) (observe fmt history_init "hub/app:v1" r 3000 0)
             [(REFRESH, Observed "hub/app:v1" r 100); (2 * REFRESH, Pruned)] in
  forecast_memory_mb fmt h "hub/app:v1" r (3 * REFRESH) = Some 3750 ∧
  ∃ f, forecast_memory_mb fmt h "hub/app:v1" r (3 * REFRESH) = Some f ∧ 3750 ≤ f.
Proof.
  intros fmt r h. split; [by vm_compute|].
  destruct (usage_peak_remembered fmt history_init "hub/app:v1" r 3000 0
    [(REFRESH, Observed "hub/app:v1" r 100); (2 * REFRESH, Pruned)] (3 * REFRESH)) as (f & Hf & Hl & _);
    [done|by vm_compute|apply (bool_decide_unpack _); by vm_compute|done|].
  exists f. split; [exact Hf|exact Hl].
Defined.
