(* ===== verification/AutoscalerState.v ===== *)
(** * The autoscaler's journal (ucloud_sandboxes/autoscaler_state.py)

    The local journal of provider operations, the planning slots that number the
    incarnations of an intent, the drain intents and the attempt times of pending
    deletes.  A transaction of the store is a function from the tables to a result
    and the new tables; a raised error leaves the tables as they were.  Times are the
    microsecond columns, as [_datetime_to_us] computes them; [uuid5_hex] is the hex
    text of [uuid5(NAMESPACE_URL, name)] and a fresh [uuid4().hex] is an argument. *)
From S2P Require Import Prelude PyFloat PyString Json Resources Bytes.
From stdpp Require Import gmap strings pretty sorting.
From Stdlib Require Import Ascii.
Local Open Scope py_scope.
Local Open Scope Z_scope.

Definition PROVIDER_OPERATION_LABEL : string := "ucloud-sandboxes/provider-operation".
Definition DEPLOYMENT_LABEL : string := "ucloud-sandboxes/deployment".

(** [OPERATION_KINDS], [OPERATION_STATES], [PROVIDER_ROLES], [DRAIN_INTENT_STATES] *)
Inductive op_kind := create | stop.
Inductive op_state := op_prepared | op_uncertain | op_accepted | op_settled | op_failed.
Inductive op_role := sandbox_role | builder_role.
Inductive intent_state := drain_active | drain_canceling.

#[export] Instance op_kind_eq_dec : EqDecision op_kind.
Proof. solve_decision. Defined.
#[export] Instance op_state_eq_dec : EqDecision op_state.
Proof. solve_decision. Defined.
#[export] Instance op_role_eq_dec : EqDecision op_role.
Proof. solve_decision. Defined.
#[export] Instance intent_state_eq_dec : EqDecision intent_state.
Proof. solve_decision. Defined.
#[export] Instance op_kind_countable : Countable op_kind.
Proof.
  by refine (inj_countable' (λ k, match k with create => true | stop => false end)
              (λ b : bool, if b then create else stop) _); intros [].
Defined.

Definition kind_text (k : op_kind) : string := match k with create => "create" | stop => "stop" end.
Definition role_text (r : op_role) : string :=
  match r with sandbox_role => "sandbox" | builder_role => "builder" end.
Definition state_text (s : op_state) : string :=
  match s with
  | op_prepared => "prepared" | op_uncertain => "uncertain" | op_accepted => "accepted"
  | op_settled => "settled" | op_failed => "failed"
  end.

(** ** Validation *)

Definition required (label value : string) : res string :=
  let cleaned := strip value in
  raise_if (negb (nonempty cleaned)) (ValueError (label +:+ " is required")) (Ok cleaned).
Definition operation_kind (value : string) : res op_kind :=
  let kind := strip value in
  if bool_decide (kind = "create") then Ok create
  else if bool_decide (kind = "stop") then Ok stop
  else Raise (ValueError ("invalid provider operation kind: " +:+ kind)).
Definition provider_role (value : string) : res op_role :=
  let role := strip value in
  if bool_decide (role = "sandbox") then Ok sandbox_role
  else if bool_decide (role = "builder") then Ok builder_role
  else Raise (ValueError ("invalid provider operation role: " +:+ role)).
Definition clean_job_ids (values : list string) : list string :=
  from_keys (filter (λ v, nonempty v = true) (strip <$> values)).
Definition split_intent_key (intent_key : string) : string * N :=
  match rpartition "#" intent_key with
  | Some (base, raw_incarnation) =>
      match decimal raw_incarnation with
      | Some n => if (2 <=? n)%N then (base, n) else (intent_key, 1%N)
      | None => (intent_key, 1%N)
      end
  | None => (intent_key, 1%N)
  end.
(** The key [allocate_operation_intent_key] returns for an incarnation *)
Definition intent_key_of (base : string) (incarnation : N) : string :=
  if bool_decide (incarnation = 1%N) then base else base +:+ "#" +:+ pretty incarnation.

(** ** Tables *)

Record ProviderOperation := mkOperation {
  op_id : string;
  op_intent_key : string;
  op_kind_of : op_kind;
  op_deployment_id : string;
  op_role_of : op_role;
  op_state_of : op_state;
  op_request : dict string json;
  op_response : dict string json;
  op_target_job_ids : list string;
  op_created_at_us : Z;
  op_updated_at_us : Z;
  op_last_error : string
}.

(** A slot's state: reserved by planning, or the state of its operation *)
Record operation_slot := mkSlot {
  slot_incarnation : N;
  slot_state : option op_state;
  slot_updated_at_us : Z
}.

Record DrainIntent := mkDrainIntent {
  di_deployment_id : string;
  di_job_id : string;
  di_role : string;
  di_token : string;
  di_state : intent_state;
  di_created_at_us : Z;
  di_updated_at_us : Z
}.

Record autoscaler_db := mkAutoscaler {
  provider_operations : gmap string ProviderOperation;
  operation_slots : gmap (string * op_kind * string) operation_slot;
  drain_intents : gmap (string * string) DrainIntent;
  pending_delete_attempts : gmap (string * string * string) Z
}.
Definition empty_autoscaler : autoscaler_db := mkAutoscaler ∅ ∅ ∅ ∅.

Definition with_operations (d : autoscaler_db) ops :=
  mkAutoscaler ops (operation_slots d) (drain_intents d) (pending_delete_attempts d).
Definition with_slots (d : autoscaler_db) sl :=
  mkAutoscaler (provider_operations d) sl (drain_intents d) (pending_delete_attempts d).
Definition with_drains (d : autoscaler_db) dr :=
  mkAutoscaler (provider_operations d) (operation_slots d) dr (pending_delete_attempts d).
Definition with_attempts (d : autoscaler_db) at_ :=
  mkAutoscaler (provider_operations d) (operation_slots d) (drain_intents d) at_.

Inductive outcome_state := out_accepted | out_failed | out_uncertain | out_recovered | out_retry
  | out_conflict | out_unresolved.
Inductive outcome_source := inventory_recovery | prepared_replay | planned | journal.
Record ProviderOperationOutcome := mkOutcome {
  out_operation_id : string;
  out_kind : op_kind;
  out_role : op_role;
  out_state : outcome_state;
  out_job_ids : list string;
  out_source : outcome_source;
  out_error : string
}.
#[export] Instance outcome_state_eq_dec : EqDecision outcome_state.
Proof. solve_decision. Defined.

(** [__post_init__]: an operation in the state [prepared] or [settled] is no outcome. *)
Definition outcome_of_state (s : op_state) : res outcome_state :=
  match s with
  | op_accepted => Ok out_accepted
  | op_failed => Ok out_failed
  | op_uncertain => Ok out_uncertain
  | _ => Raise (ValueError ("invalid provider outcome state: " +:+ state_text s))
  end.
Definition from_operation (op : ProviderOperation) (source : outcome_source) (state : option outcome_state)
    (job_ids : option (list string)) (error : option string) : res ProviderOperationOutcome :=
  let! _ := required "operation_id" (op_id op) in
  let! st := (match state with Some s => Ok s | None => outcome_of_state (op_state_of op) end) in
  Ok (mkOutcome (op_id op) (op_kind_of op) (op_role_of op) st
        (default (op_target_job_ids op) job_ids) source (default (op_last_error op) error)).

(** ** Rows *)

Definition operation_row (d : autoscaler_db) (operation_id : string) : res ProviderOperation :=
  match provider_operations d !! operation_id with
  | Some op => Ok op
  | None => Raise (KeyError ("provider operation not found: " +:+ operation_id))
  end.
Definition drain_row (d : autoscaler_db) (deployment_id job_id : string) : res DrainIntent :=
  match drain_intents d !! (deployment_id, job_id) with
  | Some i => Ok i
  | None => Raise (KeyError ("drain intent not found: " +:+ deployment_id +:+ "/" +:+ job_id))
  end.
(** The upsert of [operation_slots], guarded by the incarnation *)
Definition update_slot_state (d : autoscaler_db) (deployment_id : string) (kind : op_kind)
    (intent_key : string) (state : op_state) (now_us : Z) : autoscaler_db :=
  let '(base_key, incarnation) := split_intent_key intent_key in
  let key := (deployment_id, kind, base_key) in
  match operation_slots d !! key with
  | Some s =>
      if (slot_incarnation s <=? incarnation)%N
      then with_slots d (<[key := mkSlot incarnation (Some state) now_us]> (operation_slots d))
      else d
  | None => with_slots d (<[key := mkSlot incarnation (Some state) now_us]> (operation_slots d))
  end.

(** ** Drain intents *)

Definition intent_state_text (s : intent_state) : string :=
  match s with drain_active => "active" | drain_canceling => "canceling" end.
Definition prepare_drain_intent (deployment_id job_id role fresh : string) (now_us : Z) (d : autoscaler_db)
    : res (DrainIntent * autoscaler_db) :=
  let! deployment := required "deployment_id" deployment_id in
  let! job := required "job_id" job_id in
  let! role_value := required "role" role in
  match drain_intents d !! (deployment, job) with
  | None =>
      let token := "drain-" +:+ fresh in
      if bool_decide (map_Exists (λ _ i, di_token i = token) (drain_intents d))
      then Raise (IntegrityError "UNIQUE constraint failed: drain_intents.token")
      else let intent := mkDrainIntent deployment job role_value token drain_active now_us now_us in
           Ok (intent, with_drains d (<[(deployment, job) := intent]> (drain_intents d)))
  | Some intent =>
      raise_if (negb (bool_decide (di_role intent = role_value)))
        (OperationConflictError ("drain role changed for job " +:+ job))
        (raise_if (negb (bool_decide (di_state intent = drain_active)))
           (OperationStateError ("drain intent for job " +:+ job +:+ " is " +:+ intent_state_text (di_state intent)))
           (let intent' := mkDrainIntent (di_deployment_id intent) (di_job_id intent) (di_role intent) (di_token intent)
                             (di_state intent) (di_created_at_us intent) now_us in
            Ok (intent', with_drains d (<[(deployment, job) := intent']> (drain_intents d)))))
  end.
Definition drain_leb (x y : DrainIntent) : bool :=
  (di_created_at_us x <? di_created_at_us y) ||
  ((di_created_at_us x =? di_created_at_us y) && string_leb (di_job_id x) (di_job_id y)).
Definition pending_drain_intents (deployment_id : string) (d : autoscaler_db) : res (list DrainIntent) :=
  let! deployment := required "deployment_id" deployment_id in
  Ok (sorted_by drain_leb
        (filter (λ i, di_deployment_id i = deployment) ((map_to_list (drain_intents d)).*2))).
Definition begin_drain_cancellation (deployment_id job_id : string) (now_us : Z) (d : autoscaler_db)
    : res (DrainIntent * autoscaler_db) :=
  let! deployment := required "deployment_id" deployment_id in
  let! job := required "job_id" job_id in
  let! intent := drain_row d deployment job in
  match di_state intent with
  | drain_active =>
      let intent' := mkDrainIntent (di_deployment_id intent) (di_job_id intent) (di_role intent) (di_token intent)
                       drain_canceling (di_created_at_us intent) now_us in
      Ok (intent', with_drains d (<[(deployment, job) := intent']> (drain_intents d)))
  | drain_canceling => Ok (intent, d)
  end.
Definition retire_drain_intent (deployment_id job_id : string) (d : autoscaler_db)
    : res (option DrainIntent * autoscaler_db) :=
  let! deployment := required "deployment_id" deployment_id in
  let! job := required "job_id" job_id in
  match drain_intents d !! (deployment, job) with
  | None => Ok (None, d)
  | Some intent => Ok (Some intent, with_drains d (delete (deployment, job) (drain_intents d)))
  end.
Definition get_drain_intent (d : autoscaler_db) (deployment_id job_id : string) : option DrainIntent :=
  drain_intents d !! (deployment_id, job_id).

(** ** Pending deletes *)

(** [{key: index for index, key in enumerate(pending)}] *)
Definition pending_order (pending : list (string * string)) : dict (string * string) Z :=
  foldl (λ m ik, dset m ik.2 ik.1) [] (imap (λ i k, (Z.of_nat i, k)) pending).
Definition attempted_at (d : autoscaler_db) (deployment : string) (key : string * string) : Z :=
  default (-1) (pending_delete_attempts d !! (deployment, key.1, key.2)).
Definition rotation_leb (d : autoscaler_db) (deployment : string) (order : dict (string * string) Z)
    (x y : string * string) : bool :=
  let ax := attempted_at d deployment x in
  let ay := attempted_at d deployment y in
  (ax <? ay) || ((ax =? ay) && (default 0 (dget order x) <=? default 0 (dget order y))).
Definition rotate_pending_deletes (deployment_id : string) (pending recorded : list (string * string))
    (budget now_us : Z) (d : autoscaler_db) : res (list (string * string) * autoscaler_db) :=
  let! deployment := required "deployment_id" deployment_id in
  let order := pending_order pending in
  let selected := sorted_by (rotation_leb d deployment order) (dkeys order) in
  let picked := take (Z.to_nat (Z.max 0 budget)) selected in
  let kept := filter (λ kv : string * string * string * Z,
                kv.1.1.1 ≠ deployment ∨ (kv.1.1.2, kv.1.2) ∈ recorded) (pending_delete_attempts d) in
  Ok (picked, with_attempts d
        (foldl (λ m key, <[(deployment, key.1, key.2) := now_us]> m) kept picked)).

(** ** Provider operations *)

Definition op_terminal (s : op_state) : bool := match s with op_settled | op_failed => true | _ => false end.

Definition allocate_operation_intent_key (deployment_id kind base_key : string) (now_us : Z) (d : autoscaler_db)
    : res (string * autoscaler_db) :=
  let! deployment := required "deployment_id" deployment_id in
  let! k := operation_kind kind in
  let! base := required "base_key" base_key in
  let key := (deployment, k, base) in
  match operation_slots d !! key with
  | None => Ok (intent_key_of base 1, with_slots d (<[key := mkSlot 1 None now_us]> (operation_slots d)))
  | Some s =>
      if match slot_state s with Some st => op_terminal st | None => false end
      then let incarnation := (slot_incarnation s + 1)%N in
           Ok (intent_key_of base incarnation,
               with_slots d (<[key := mkSlot incarnation None now_us]> (operation_slots d)))
      else Ok (intent_key_of base (slot_incarnation s), d)
  end.

Definition op_leb (x y : ProviderOperation) : bool :=
  (op_created_at_us x <? op_created_at_us y) ||
  ((op_created_at_us x =? op_created_at_us y) && string_leb (op_id x) (op_id y)).
Definition all_operations (d : autoscaler_db) : list ProviderOperation :=
  (map_to_list (provider_operations d)).*2.
(** [states] empty means any state, as in the code. *)
Definition list_operations (d : autoscaler_db) (kind : option op_kind) (states : list op_state)
    : list ProviderOperation :=
  sorted_by op_leb (filter (λ op, (kind = None ∨ kind = Some (op_kind_of op)) ∧
                                  (states = [] ∨ op_state_of op ∈ states)) (all_operations d)).

(** [str(expected)] of the tuple of expected states *)
Definition tuple_text (l : list op_state) : string :=
  let quoted := (λ s, "'" +:+ state_text s +:+ "'") <$> l in
  match quoted with
  | [x] => "(" +:+ x +:+ ",)"
  | _ => "(" +:+ String.concat ", " quoted +:+ ")"
  end.
Definition transition_operation (operation_id : string) (expected : list op_state) (new_state : op_state)
    (response : option (dict string json)) (target_job_ids : option (list string)) (last_error : option string)
    (now_us : Z) (d : autoscaler_db) : res (ProviderOperation * autoscaler_db) :=
  let! op := operation_row d operation_id in
  raise_if (negb (bool_decide (op_state_of op ∈ expected)))
    (OperationStateError ("operation " +:+ operation_id +:+ " is " +:+ state_text (op_state_of op)
       +:+ "; expected " +:+ tuple_text expected))
    (let op' := mkOperation (op_id op) (op_intent_key op) (op_kind_of op) (op_deployment_id op) (op_role_of op)
                  new_state (op_request op) (default (op_response op) response)
                  (match target_job_ids with Some l => clean_job_ids l | None => op_target_job_ids op end)
                  (op_created_at_us op) now_us (default (op_last_error op) last_error) in
     let d1 := with_operations d (<[op_id op := op']> (provider_operations d)) in
     Ok (op', update_slot_state d1 (op_deployment_id op) (op_kind_of op) (op_intent_key op) new_state now_us)).

Definition begin_provider_call (operation_id : string) (now_us : Z) (d : autoscaler_db) :=
  transition_operation operation_id [op_prepared] op_uncertain None None None now_us d.
Definition mark_operation_accepted (operation_id : string) (response : dict string json)
    (target_job_ids : list string) (now_us : Z) (d : autoscaler_db) :=
  transition_operation operation_id [op_uncertain] op_accepted (Some response) (Some target_job_ids)
    (Some EmptyString) now_us d.
Definition mark_operation_uncertain (operation_id error : string) (now_us : Z) (d : autoscaler_db) :=
  transition_operation operation_id [op_uncertain] op_uncertain None None (Some error) now_us d.
Definition mark_operation_failed (operation_id error : string) (response : option (dict string json)) (now_us : Z)
    (d : autoscaler_db) :=
  transition_operation operation_id [op_uncertain] op_failed response None (Some error) now_us d.
Definition suppress_prepared_operation (operation_id reason : string) (now_us : Z) (d : autoscaler_db) :=
  transition_operation operation_id [op_prepared] op_failed None None (Some reason) now_us d.

(** *** What the inventory shows *)

Record inventory_index := mkIndex {
  ix_labels : dict (string * string) (list string);
  ix_observed : list string;
  ix_final : list string
}.
Definition label_of (i : ProviderInstance) (label : string) : string :=
  strip (default EmptyString (dget (pi_labels i) label)).
Definition index_instance (ix : inventory_index) (i : ProviderInstance) : inventory_index :=
  let operation_id := label_of i PROVIDER_OPERATION_LABEL in
  let deployment_id := label_of i DEPLOYMENT_LABEL in
  let job_id := strip (instance_id i) in
  if negb (nonempty job_id) then ix
  else
    let key := (operation_id, deployment_id) in
    mkIndex
      (if nonempty operation_id && nonempty deployment_id
       then dset (ix_labels ix) key (default [] (dget (ix_labels ix) key) ++ [job_id]) else ix_labels ix)
      (ix_observed ix ++ [job_id])
      (if is_final i then ix_final ix ++ [job_id] else ix_final ix).
Definition index_inventory (instances : list ProviderInstance) : inventory_index :=
  foldl index_instance (mkIndex [] [] []) instances.

(** One uncertain or accepted create against the inventory *)
Definition reconcile_create (ix : inventory_index) (now_us : Z)
    (acc : list ProviderOperationOutcome * autoscaler_db) (op : ProviderOperation)
    : res (list ProviderOperationOutcome * autoscaler_db) :=
  let '(results, d) := acc in
  if bool_decide (op_state_of op = op_accepted) then
    if negb (bool_decide (op_target_job_ids op = []))
       && forallb (λ j, bool_decide (j ∈ ix_observed ix)) (op_target_job_ids op)
    then let! r := transition_operation (op_id op) [op_accepted] op_settled None None None now_us d in Ok (results, r.2)
    else Ok (results, d)
  else
    let job_ids := clean_job_ids (default [] (dget (ix_labels ix) (op_id op, op_deployment_id op))) in
    let! sd := (match job_ids with
      | [_] => let! r := transition_operation (op_id op) [op_uncertain] op_settled
                           (Some [("recoveredFromJobInventory", JBool true)]) (Some job_ids) (Some EmptyString)
                           now_us d in Ok (out_recovered, r.2)
      | _ :: _ :: _ => Ok (out_conflict, d)
      | [] => Ok (out_unresolved, d)
      end) in
    let! out := from_operation op inventory_recovery (Some sd.1) (Some job_ids) (Some EmptyString) in
    Ok (results ++ [out], sd.2).
(** One uncertain or accepted stop *)
Definition reconcile_stop (ix : inventory_index) (now_us : Z)
    (acc : list ProviderOperationOutcome * autoscaler_db) (op : ProviderOperation)
    : res (list ProviderOperationOutcome * autoscaler_db) :=
  let '(results, d) := acc in
  let has_targets := negb (bool_decide (op_target_job_ids op = [])) in
  if bool_decide (op_state_of op = op_accepted) then
    let active_targets := filter (λ j, j ∈ ix_observed ix ∧ j ∉ ix_final ix) (op_target_job_ids op) in
    if has_targets && bool_decide (active_targets = []) then
      let! r := transition_operation (op_id op) [op_accepted] op_settled None None None now_us d in
      let! out := from_operation op inventory_recovery (Some out_recovered) None (Some EmptyString) in
      Ok (results ++ [out], r.2)
    else Ok (results, d)
  else
    let all_final := has_targets && forallb (λ j, bool_decide (j ∈ ix_final ix)) (op_target_job_ids op) in
    let response := dset (op_response op) "providerCallStarted" (JBool true) in
    let response := if all_final then dset response "recoveredFromFinalJobInventory" (JBool true) else response in
    let! r := transition_operation (op_id op) [op_uncertain] (if all_final then op_settled else op_prepared) (Some response)
                None (Some (if all_final then EmptyString else op_last_error op)) now_us d in
    let! out := from_operation op inventory_recovery (Some (if all_final then out_recovered else out_retry))
                  None (Some EmptyString) in
    Ok (results ++ [out], r.2).
Definition reconcile_provider_inventory (instances : list ProviderInstance) (now_us : Z) (d : autoscaler_db)
    : res (list ProviderOperationOutcome * autoscaler_db) :=
  let ix := index_inventory instances in
  let! creates := res_foldl (reconcile_create ix now_us) ([], d)
                    (list_operations d (Some create) [op_uncertain; op_accepted]) in
  res_foldl (reconcile_stop ix now_us) creates (list_operations creates.2 (Some stop) [op_uncertain; op_accepted]).

(** *** History *)

Definition history_leb (x y : ProviderOperation) : bool :=
  (op_updated_at_us y <? op_updated_at_us x) ||
  ((op_updated_at_us x =? op_updated_at_us y) && string_leb (op_id y) (op_id x)).
Definition terminal_rows (d : autoscaler_db) : list ProviderOperation :=
  filter (λ op, op_terminal (op_state_of op) = true) (all_operations d).
Definition compact_terminal_history (keep : Z) (d : autoscaler_db) : nat * autoscaler_db :=
  let retain := Z.to_nat (Z.max 0 keep) in
  let dropped := op_id <$> drop retain (sorted_by history_leb (terminal_rows d)) in
  let d' := with_operations d (filter (λ kv, kv.1 ∉ dropped) (provider_operations d)) in
  ((length (terminal_rows d) - length (terminal_rows d'))%nat, d').

(** *** Preparing *)
Section uuid.
Variable uuid5_hex : string → string.

Definition operation_name (deployment : string) (kind : op_kind) (key : string) : string :=
  "ucloud-sandboxes/provider-operation/" +:+ deployment +:+ "/" +:+ kind_text kind +:+ "/" +:+ key.
Definition stable_id (deployment : string) (kind : op_kind) (key : string) : string :=
  "provider-" +:+ uuid5_hex (operation_name deployment kind key).
Definition stable_provider_operation_id (deployment_id kind intent_key : string) : res string :=
  let! deployment := required "deployment_id" deployment_id in
  let! k := operation_kind kind in
  let! key := required "intent_key" intent_key in
  Ok (stable_id deployment k key).
Definition prepare_operation (intent_key kind deployment_id : string) (request : dict string json) (role : string)
    (target_job_ids : list string) (now_us : Z) (d : autoscaler_db) : res (ProviderOperation * autoscaler_db) :=
  let! key := required "intent_key" intent_key in
  let! k := operation_kind kind in
  let! deployment := required "deployment_id" deployment_id in
  let! r := provider_role role in
  let job_ids := clean_job_ids target_job_ids in
  let operation_id := stable_id deployment k key in
  match provider_operations d !! operation_id with
  | Some existing =>
      if negb (bool_decide (op_intent_key existing = key)) || negb (bool_decide (op_kind_of existing = k))
         || negb (bool_decide (op_deployment_id existing = deployment))
         || negb (bool_decide (op_role_of existing = r))
         || negb (json_eqb (JObj (op_request existing)) (JObj request))
         || negb (bool_decide (op_target_job_ids existing = job_ids))
      then Raise (OperationConflictError ("provider operation intent changed: " +:+ key))
      else Ok (existing, d)
  | None =>
      let op := mkOperation operation_id key k deployment r op_prepared request [] job_ids now_us now_us EmptyString in
      let d1 := with_operations d (<[operation_id := op]> (provider_operations d)) in
      Ok (op, update_slot_state d1 deployment k key op_prepared now_us)
  end.
End uuid.

(** ** Intent keys *)

Lemma required_Ok label v b : required label v = Ok b ↔ b = strip v ∧ b ≠ EmptyString.
Proof.
  unfold required, raise_if, nonempty. rewrite negb_involutive. case_bool_decide as E.
  - split; [done|]. by intros [-> ?].
  - split; [|by intros [-> _]]. by intros [= <-].
Qed.
Lemma split_base base : rpartition "#" base = None → split_intent_key base = (base, 1%N).
Proof. intros E. unfold split_intent_key. by rewrite E. Qed.
Lemma split_key_of base n :
  split_intent_key base = (base, 1%N) → (1 ≤ n)%N → split_intent_key (intent_key_of base n) = (base, n).
Proof.
  intros Hb Hn. unfold intent_key_of. case_bool_decide as E; [by subst|].
  unfold split_intent_key. change ("#" +:+ pretty n) with (String "#"%char (pretty n)).
  pose proof (decimal_pretty n) as Hd. rewrite rpartition_at.
  - rewrite Hd. assert ((2 <=? n)%N = true) as -> by (apply N.leb_le; lia). done.
  - unfold decimal in Hd. destruct (nonempty _); [|done]. by eapply digits_no_char; [|exact Hd].
Qed.
Lemma strip_key_of base n : strip base = base → base ≠ EmptyString →
  strip (intent_key_of base n) = intent_key_of base n ∧ intent_key_of base n ≠ EmptyString.
Proof.
  intros Hs Hb. unfold intent_key_of. case_bool_decide; [done|].
  pose proof (decimal_pretty n) as Hd. unfold decimal in Hd. destruct (nonempty _) eqn:En; [|done].
  split; [|by destruct base]. unfold strip. rewrite rstrip_app; [| |done].
  - apply lstrip_app; [|done]. rewrite <-Hs. unfold strip. apply lstrip_idem.
  - change ("#" +:+ pretty n) with (String "#"%char EmptyString +:+ pretty n).
    apply rstrip_app; [by eapply rstrip_digits|].
    unfold nonempty in En. by rewrite negb_true_iff, bool_decide_eq_false in En.
Qed.

(** ** One submission per incarnation *)

Definition slot_live (s : option op_state) : bool :=
  match s with Some op_prepared | Some op_uncertain | Some op_accepted => true | _ => false end.
(** The incarnation an operation is of, in canonical form *)
Definition is_incarnation (key base : string) (n : N) : Prop :=
  split_intent_key key = (base, n) ∧ key = intent_key_of base n.

Section journal_inv.
Variable uuid5_hex : string → string.

(** [begun]: the create intents (deployment, key) whose provider call has begun. *)
Record journal_ok (d : autoscaler_db) (begun : list (string * string)) : Prop := mkJournalOk {
  jo_id : ∀ i op, provider_operations d !! i = Some op →
    i = op_id op ∧ i = stable_id uuid5_hex (op_deployment_id op) (op_kind_of op) (op_intent_key op);
  jo_row : ∀ i op, provider_operations d !! i = Some op → op_kind_of op = create →
    ∃ base n s, is_incarnation (op_intent_key op) base n ∧
      operation_slots d !! (op_deployment_id op, create, base) = Some s ∧ (n ≤ slot_incarnation s)%N ∧
      (n = slot_incarnation s → slot_state s = Some (op_state_of op)) ∧
      ((n < slot_incarnation s)%N → op_terminal (op_state_of op) = true);
  jo_slot : ∀ dep base s, operation_slots d !! (dep, create, base) = Some s → slot_live (slot_state s) = true →
    ∃ i op, provider_operations d !! i = Some op ∧ op_deployment_id op = dep ∧ op_kind_of op = create ∧
      is_incarnation (op_intent_key op) base (slot_incarnation s);
  jo_pos : ∀ dep base s, operation_slots d !! (dep, create, base) = Some s → (1 ≤ slot_incarnation s)%N;
  jo_begun : ∀ dep key, (dep, key) ∈ begun →
    ∃ base n s, is_incarnation key base n ∧ operation_slots d !! (dep, create, base) = Some s ∧
      (n ≤ slot_incarnation s)%N ∧
      (n = slot_incarnation s → slot_state s ≠ None ∧ slot_state s ≠ Some op_prepared)
}.

Lemma incarnation_unique key b n b' n' : is_incarnation key b n → is_incarnation key b' n' → b = b' ∧ n = n'.
Proof. intros [H _] [H' _]. rewrite H in H'. by injection H'. Qed.

(** A non-terminal create row is the current incarnation of its slot. *)
Lemma row_current d begun i op : journal_ok d begun → provider_operations d !! i = Some op →
  op_kind_of op = create → op_terminal (op_state_of op) = false →
  ∃ base s, is_incarnation (op_intent_key op) base (slot_incarnation s) ∧
    operation_slots d !! (op_deployment_id op, create, base) = Some s ∧ slot_state s = Some (op_state_of op).
Proof.
  intros J Hi Hk Ht. destruct (jo_row _ _ J _ _ Hi Hk) as (b & n & s & Hinc & Hs & Hle & Heq & Hlt).
  destruct (decide (n = slot_incarnation s)) as [->|]; [exists b, s; auto|].
  rewrite Hlt in Ht by lia. done.
Qed.
Lemma not_begun d begun i op : journal_ok d begun → provider_operations d !! i = Some op →
  op_kind_of op = create → op_state_of op = op_prepared → (op_deployment_id op, op_intent_key op) ∉ begun.
Proof.
  intros J Hi Hk Hp Hb. destruct (row_current _ _ _ _ J Hi Hk) as (b & s & Hinc & Hs & Hst); [by rewrite Hp|].
  destruct (jo_begun _ _ J _ _ Hb) as (b' & n & s' & Hinc' & Hs' & _ & Hn).
  destruct (incarnation_unique _ _ _ _ _ Hinc Hinc') as [<- <-]. rewrite Hs in Hs'. injection Hs' as <-.
  destruct (Hn eq_refl) as [_ ?]. congruence.
Qed.

Lemma journal_ok_sub d b b' : journal_ok d b → b' ⊆ b → journal_ok d b'.
Proof. intros [? ? ? ? Hb] Hs. constructor; try done. intros dep key Hk. by apply Hb, Hs. Qed.
Lemma journal_ok_same d d' b : provider_operations d' = provider_operations d →
  operation_slots d' = operation_slots d → journal_ok d b → journal_ok d' b.
Proof. intros Ho Hs [? ? ? ? ?]. by constructor; rewrite ?Ho, ?Hs. Qed.
Lemma empty_autoscaler_ok : journal_ok empty_autoscaler [].
Proof. constructor; intros *; simpl; rewrite ?lookup_empty; [done..|]. by intros ?%elem_of_nil. Qed.

Lemma update_slot_operations d dep k key st now :
  provider_operations (update_slot_state d dep k key st now) = provider_operations d.
Proof. unfold update_slot_state. destruct (split_intent_key key). by repeat case_match. Qed.
Lemma update_slot_other d dep k key st now dep' b : k ≠ create →
  operation_slots (update_slot_state d dep k key st now) !! (dep', create, b)
  = operation_slots d !! (dep', create, b).
Proof.
  intros Hk. unfold update_slot_state. destruct (split_intent_key key).
  repeat case_match; try done; simpl; by rewrite lookup_insert_ne by congruence.
Qed.
Lemma update_slot_at d dep k key st now base s :
  split_intent_key key = (base, slot_incarnation s) → operation_slots d !! (dep, k, base) = Some s →
  operation_slots (update_slot_state d dep k key st now)
  = <[(dep, k, base) := mkSlot (slot_incarnation s) (Some st) now]> (operation_slots d).
Proof. intros Hk Hs. unfold update_slot_state. rewrite Hk, Hs. by rewrite N.leb_refl. Qed.

(** The current create row of a slot moves, or enters, together with the slot. *)
Lemma move_create d begun op s base st :
  journal_ok d begun → op_kind_of op = create →
  op_id op = stable_id uuid5_hex (op_deployment_id op) create (op_intent_key op) →
  is_incarnation (op_intent_key op) base (slot_incarnation s) →
  operation_slots d !! (op_deployment_id op, create, base) = Some s →
  (op_state_of op = op_prepared → (op_deployment_id op, op_intent_key op) ∉ begun) →
  (∀ o, provider_operations d !! op_id op = Some o →
     op_deployment_id o = op_deployment_id op ∧ op_intent_key o = op_intent_key op) →
  slot_state st = Some (op_state_of op) → slot_incarnation st = slot_incarnation s →
  journal_ok (mkAutoscaler (<[op_id op := op]> (provider_operations d))
                (<[(op_deployment_id op, create, base) := st]> (operation_slots d))
                (drain_intents d) (pending_delete_attempts d)) begun.
Proof.
  intros J Hk Hid Hinc Hs Hnb Hsame Hst Hsn. constructor; simpl.
  - intros i o [[<- <-]|[Hi Ho]]%lookup_insert_Some; [by rewrite Hk|by apply (jo_id _ _ J)].
  - intros i o [[<- <-]|[Hi Ho]]%lookup_insert_Some Hko.
    + exists base, (slot_incarnation s), st. rewrite lookup_insert_eq, Hsn. split_and!; [done..|lia].
    + destruct (jo_row _ _ J _ _ Ho Hko) as (b & n & s' & Hi' & Hs' & Hle & Heq & Hlt).
      destruct (decide ((op_deployment_id op, create, base) = (op_deployment_id o, create, b))) as [E|E].
      2:{ exists b, n, s'. by rewrite lookup_insert_ne. }
      injection E as E1 <-. rewrite E1 in Hs. rewrite Hs in Hs'. injection Hs' as <-.
      exists base, n, st. rewrite <-E1, lookup_insert_eq, Hsn. split_and!; [done..| |done].
      intros ->. destruct Hi. destruct (jo_id _ _ J _ _ Ho) as [_ ->].
      rewrite Hid, Hko, E1. destruct Hinc as [_ ->], Hi' as [_ ->]. done.
  - intros dep b s' [[E <-]|[E Hl]]%lookup_insert_Some Hlive.
    + injection E as <- <-. exists (op_id op), op. by rewrite lookup_insert_eq, Hsn.
    + destruct (jo_slot _ _ J _ _ _ Hl Hlive) as (i & o & Ho & Hd & Hko & Hkey).
      exists i, o. rewrite lookup_insert_ne; [done|]. intros <-. destruct (Hsame _ Ho) as [Hd' Hkey'].
      rewrite Hkey' in Hkey. destruct (incarnation_unique _ _ _ _ _ Hinc Hkey) as [<- _]. by rewrite <-Hd, Hd' in E.
  - intros dep b s' [[E <-]|[E Hl]]%lookup_insert_Some; [rewrite Hsn|]; by eapply (jo_pos _ _ J).
  - intros dep key Hb. destruct (jo_begun _ _ J _ _ Hb) as (b & n & s' & Hi' & Hs' & Hle & Hn).
    destruct (decide ((op_deployment_id op, create, base) = (dep, create, b))) as [E|E].
    2:{ exists b, n, s'. by rewrite lookup_insert_ne. }
    injection E as <- <-. rewrite Hs in Hs'. injection Hs' as <-.
    exists base, n, st. rewrite lookup_insert_eq, Hsn, Hst. split_and!; [done..|].
    intros ->. split; [done|]. intros [= Hp]. apply (Hnb Hp).
    destruct Hinc as [_ ->], Hi' as [_ ->]. done.
Qed.

(** A stop's row and slot are not a create's. *)
Lemma move_stop d begun op sl :
  journal_ok d begun → op_kind_of op = stop →
  op_id op = stable_id uuid5_hex (op_deployment_id op) stop (op_intent_key op) →
  (∀ o, provider_operations d !! op_id op = Some o → op_kind_of o = stop) →
  (∀ dep b, sl !! (dep, create, b) = operation_slots d !! (dep, create, b)) →
  journal_ok (mkAutoscaler (<[op_id op := op]> (provider_operations d)) sl
                (drain_intents d) (pending_delete_attempts d)) begun.
Proof.
  intros J Hk Hid Hsame Hsl. constructor; simpl; try (intros *; rewrite Hsl; apply J).
  - intros i o [[<- <-]|[Hi Ho]]%lookup_insert_Some; [by rewrite Hk|by apply (jo_id _ _ J)].
  - intros i o [[<- <-]|[Hi Ho]]%lookup_insert_Some Hko; [congruence|].
    setoid_rewrite Hsl. by eapply (jo_row _ _ J).
  - intros dep b s Hs Hl. rewrite Hsl in Hs. destruct (jo_slot _ _ J _ _ _ Hs Hl) as (i & o & Ho & Hr).
    exists i, o. rewrite lookup_insert_ne; [done|]. intros <-. apply Hsame in Ho. destruct Hr as (_ & Hko & _). congruence.
  - intros dep key Hb. setoid_rewrite Hsl. by apply (jo_begun _ _ J).
Qed.

Lemma journal_ok_add d begun i op : journal_ok d begun → provider_operations d !! i = Some op →
  op_kind_of op = create → op_state_of op ≠ op_prepared →
  journal_ok d ((op_deployment_id op, op_intent_key op) :: begun).
Proof.
  intros J Hi Hk Hp. constructor; try apply J. intros dep key [E|Hb]%elem_of_cons; [|by apply (jo_begun _ _ J)].
  injection E as -> ->. destruct (jo_row _ _ J _ _ Hi Hk) as (b & n & s & Hinc & Hs & Hle & Heq & _).
  exists b, n, s. split_and!; [done..|]. intros ->. rewrite Heq by done. split; congruence.
Qed.

(** What a transition does to a row *)
Lemma transition_Ok i expected new resp tgt err now d op' d' :
  transition_operation i expected new resp tgt err now d = Ok (op', d') →
  ∃ op, provider_operations d !! i = Some op ∧ op_state_of op ∈ expected ∧
    op_id op' = op_id op ∧ op_intent_key op' = op_intent_key op ∧ op_kind_of op' = op_kind_of op ∧
    op_deployment_id op' = op_deployment_id op ∧ op_role_of op' = op_role_of op ∧ op_state_of op' = new ∧
    d' = update_slot_state (with_operations d (<[op_id op := op']> (provider_operations d)))
           (op_deployment_id op) (op_kind_of op) (op_intent_key op) new now.
Proof.
  unfold transition_operation, operation_row. destruct (_ !! i) as [op|] eqn:Hi; [|done]. simpl.
  intros [Hst E]%raise_if_Ok. injection E as <- <-. exists op.
  rewrite negb_false_iff, bool_decide_eq_true in Hst. done.
Qed.
Lemma transition_ok i expected new resp tgt err now d op' d' begun :
  transition_operation i expected new resp tgt err now d = Ok (op', d') →
  (∀ s, s ∈ expected → op_terminal s = false) → (op_kind_of op' = create → new ≠ op_prepared) →
  journal_ok d begun →
  journal_ok d' (if bool_decide (op_kind_of op' = create) then (op_deployment_id op', op_intent_key op') :: begun else begun).
Proof.
  intros (op & Hi & Hst & Eid & Ekey & Ek & Ed & _ & Es & ->)%transition_Ok Ht Hnew J.
  destruct (jo_id _ _ J _ _ Hi) as [Ei Hid]. subst i.
  case_bool_decide as Hk.
  - pose proof Hk as Hk'. rewrite Ek in Hk.
    destruct (row_current _ _ _ _ J Hi Hk (Ht _ Hst)) as (base & s & Hinc & Hs & Hss).
    apply (journal_ok_add _ _ (op_id op') op'); [|rewrite update_slot_operations; simpl; by rewrite Eid, lookup_insert_eq|done|].
    2:{ rewrite Es. by apply Hnew. }
    eapply journal_ok_same; [..|apply (move_create d begun op' s base (mkSlot (slot_incarnation s) (Some new) now))];
      rewrite ?Eid, ?Ekey, ?Ed, ?Es; try done.
    + by rewrite update_slot_operations.
    + rewrite (update_slot_at _ _ _ _ _ _ base s); [by rewrite Hk|apply Hinc|]. simpl. by rewrite Hk.
    + by rewrite Hid, Hk.
    + intros E. by destruct (Hnew Hk').
    + rewrite Hi. by intros o [= <-].
  - assert (op_kind_of op = stop) as Hs by (rewrite Ek in Hk; by destruct (op_kind_of op)).
    eapply journal_ok_same; [..|apply (move_stop d begun op'
      (operation_slots (update_slot_state (with_operations d (<[op_id op := op']> (provider_operations d)))
           (op_deployment_id op) (op_kind_of op) (op_intent_key op) new now)))]; rewrite ?Eid, ?Ekey, ?Ed, ?Ek; try done.
    + by rewrite update_slot_operations.
    + by rewrite Hid, Hs.
    + rewrite Hi. by intros o [= <-].
    + intros dep b. by rewrite update_slot_other by congruence.
Qed.

(** An open slot: no create of its incarnation has begun without its row being there. *)
Definition open_slot (d : autoscaler_db) (dep base key : string) : Prop :=
  ∃ s, operation_slots d !! (dep, create, base) = Some s ∧ is_incarnation key base (slot_incarnation s) ∧
    match slot_state s with Some st => op_terminal st | None => false end = false.

(** Reserving a new incarnation of a slot whose operation is over *)
Lemma reserve_ok d begun dep base n now :
  journal_ok d begun →
  match operation_slots d !! (dep, create, base) with
  | Some s => n = (slot_incarnation s + 1)%N ∧ (∃ st, slot_state s = Some st ∧ op_terminal st = true)
  | None => n = 1%N
  end →
  journal_ok (with_slots d (<[(dep, create, base) := mkSlot n None now]> (operation_slots d))) begun.
Proof.
  intros J Hn.
  assert (∀ s', operation_slots d !! (dep, create, base) = Some s' → (slot_incarnation s' < n)%N) as Hlt.
  { intros s' E. rewrite E in Hn. destruct Hn as [-> _]. lia. }
  constructor; simpl; [apply (jo_id _ _ J)| | | |].
  - intros i op Hi Hk. destruct (jo_row _ _ J _ _ Hi Hk) as (b & m & s & Hinc & Hs & Hle & Heq & Hl).
    destruct (decide ((dep, create, base) = (op_deployment_id op, create, b))) as [E|E].
    2:{ exists b, m, s. by rewrite lookup_insert_ne. }
    injection E as -> ->. exists b, m, (mkSlot n None now). rewrite lookup_insert_eq. pose proof (Hlt _ Hs).
    split_and!; simpl; [done|done|lia|lia|]. intros _. destruct (decide (m = slot_incarnation s)) as [->|]; [|apply Hl; lia].
    rewrite Hs in Hn. destruct Hn as (_ & st & Hst & Ht). rewrite Heq in Hst by done. by injection Hst as ->.
  - intros dep' b s' [[E <-]|[E Hl]]%lookup_insert_Some Hlive; [done|]. by eapply (jo_slot _ _ J).
  - intros dep' b s' [[E <-]|[E Hl]]%lookup_insert_Some; [|by eapply (jo_pos _ _ J)]. simpl.
    destruct (operation_slots d !! _); [lia|lia].
  - intros dep' key Hb. destruct (jo_begun _ _ J _ _ Hb) as (b & m & s & Hinc & Hs & Hle & Hne).
    destruct (decide ((dep, create, base) = (dep', create, b))) as [E|E].
    2:{ exists b, m, s. by rewrite lookup_insert_ne. }
    injection E as -> ->. exists b, m, (mkSlot n None now). rewrite lookup_insert_eq. pose proof (Hlt _ Hs).
    split_and!; simpl; [done|done|lia|lia].
Qed.
Lemma allocate_ok dep base_key now d key d' begun :
  allocate_operation_intent_key dep "create" base_key now d = Ok (key, d') →
  split_intent_key (strip base_key) = (strip base_key, 1%N) → journal_ok d begun →
  journal_ok d' begun ∧ open_slot d' (strip dep) (strip base_key) key ∧
  strip key = key ∧ provider_operations d' = provider_operations d.
Proof.
  unfold allocate_operation_intent_key. intros (dp & [-> _]%required_Ok & E)%res_bind_Ok Hsp J.
  simpl in E. apply res_bind_Ok in E as (b & [-> Hne]%required_Ok & E).
  assert (∀ n, strip (intent_key_of (strip base_key) n) = intent_key_of (strip base_key) n) as Hst.
  { intros n. apply strip_key_of; [apply strip_idem|done]. }
  assert (∀ n, (1 ≤ n)%N → is_incarnation (intent_key_of (strip base_key) n) (strip base_key) n) as Hin.
  { intros n Hn. split; [by apply split_key_of|done]. }
  destruct (operation_slots d !! _) as [s|] eqn:Hs.
  - destruct (match slot_state s with Some st => op_terminal st | None => false end) eqn:Ht; injection E as <- <-.
    + split_and!; [|eexists; simpl; rewrite lookup_insert_eq; split; [done|split; [apply Hin; simpl; lia|done]]|apply Hst|done].
      apply reserve_ok; [done|]. rewrite Hs. split; [done|]. destruct (slot_state s); [eauto|done].
    + split_and!; [done| |apply Hst|done]. exists s. split_and!; [done| |done]. apply Hin. by eapply (jo_pos _ _ J).
  - injection E as <- <-. split_and!; [|eexists; simpl; rewrite lookup_insert_eq; split; [done|split; [by apply Hin|done]]|apply Hst|done].
    apply reserve_ok; [done|]. by rewrite Hs.
Qed.

(** A prepared operation is the one filed before, or a new row of its incarnation. *)
Lemma prepare_Ok key kind dep req role tgt now d op d' k :
  prepare_operation uuid5_hex key kind dep req role tgt now d = Ok (op, d') → operation_kind kind = Ok k →
  op_intent_key op = strip key ∧ op_deployment_id op = strip dep ∧ op_kind_of op = k ∧
  (d' = d ∧ provider_operations d !! stable_id uuid5_hex (strip dep) k (strip key) = Some op ∨
   op_state_of op = op_prepared ∧ op_id op = stable_id uuid5_hex (strip dep) k (strip key) ∧
   provider_operations d !! op_id op = None ∧
   d' = update_slot_state (with_operations d (<[op_id op := op]> (provider_operations d)))
          (strip dep) k (strip key) op_prepared now).
Proof.
  unfold prepare_operation. intros (ky & [-> _]%required_Ok & E)%res_bind_Ok Hk. rewrite Hk in E. simpl in E.
  apply res_bind_Ok in E as (dp & [-> _]%required_Ok & E). apply res_bind_Ok in E as (r & _ & E).
  destruct (_ !! _) as [o|] eqn:Ho.
  - destruct (_ || _) eqn:Hc in E; [done|]. injection E as <- <-.
    rewrite !orb_false_iff, !negb_false_iff, !bool_decide_eq_true in Hc. split_and!; [tauto..|]. by left.
  - injection E as <- <-. simpl. split_and!; [done..|]. by right.
Qed.
Lemma prepare_create_ok key dep req role tgt now d op d' begun base :
  prepare_operation uuid5_hex key "create" dep req role tgt now d = Ok (op, d') →
  open_slot d (strip dep) base (strip key) → journal_ok d begun → journal_ok d' begun.
Proof.
  intros E (s & Hs & Hinc & Ht) J. destruct (prepare_Ok _ _ _ _ _ _ _ _ _ _ _ E eq_refl) as (Ek & Ed & Eo & Hd).
  destruct Hd as [[-> _]|(Est & Eid & Hnone & ->)]; [done|].
  eapply journal_ok_same; [..|apply (move_create d begun op s base (mkSlot (slot_incarnation s) (Some op_prepared) now))];
    rewrite ?Ek, ?Ed; try done.
  - by rewrite update_slot_operations.
  - by rewrite (update_slot_at _ _ _ _ _ _ base s) by (done || apply Hinc).
  - intros _ Hb. destruct (jo_begun _ _ J _ _ Hb) as (b & n & s' & Hinc' & Hs' & Hle & Hn).
    destruct (incarnation_unique _ _ _ _ _ Hinc Hinc') as [<- <-]. rewrite Hs in Hs'. injection Hs' as <-.
    destruct (Hn eq_refl) as [Hn1 Hn2]. destruct (jo_slot _ _ J _ _ _ Hs) as (i & o & Ho & Hod & Hok & Hoi).
    { destruct (slot_state s) as [[]|]; done. }
    destruct (jo_id _ _ J _ _ Ho) as [_ Hi]. rewrite Hod, Hok in Hi.
    destruct Hoi as [_ Hoi], Hinc as [_ Hinc]. rewrite Hoi, <-Hinc in Hi. congruence.
  - by rewrite Hnone.
  - by rewrite Est.
Qed.
Lemma prepare_stop_ok key dep req role tgt now d op d' begun :
  prepare_operation uuid5_hex key "stop" dep req role tgt now d = Ok (op, d') →
  journal_ok d begun → journal_ok d' begun.
Proof.
  intros E J. destruct (prepare_Ok _ _ _ _ _ _ _ _ _ _ _ E eq_refl) as (Ek & Ed & Eo & Hd).
  destruct Hd as [[-> _]|(Est & Eid & Hnone & ->)]; [done|].
  eapply journal_ok_same; [..|apply (move_stop d begun op
      (operation_slots (update_slot_state (with_operations d (<[op_id op := op]> (provider_operations d)))
           (strip dep) stop (strip key) op_prepared now)))]; rewrite ?Ek, ?Ed; try done.
  - by rewrite update_slot_operations.
  - by rewrite Hnone.
  - intros dep' b. by rewrite update_slot_other.
Qed.
Lemma compact_ok keep d begun : journal_ok d begun → journal_ok (compact_terminal_history keep d).2 begun.
Proof.
  intros J. unfold compact_terminal_history. simpl.
  set (dropped := op_id <$> _). constructor; simpl; try apply J.
  - intros i op [Hi _]%map_lookup_filter_Some. by apply (jo_id _ _ J).
  - intros i op [Hi _]%map_lookup_filter_Some. by apply (jo_row _ _ J i).
  - intros dep base s Hs Hl. destruct (jo_slot _ _ J _ _ _ Hs Hl) as (i & op & Hi & Hd & Hk & Hinc).
    exists i, op. split_and!; try done. apply map_lookup_filter_Some. split; [done|]. simpl.
    intros (o & Eo & Ho)%list_elem_of_fmap.
    assert (o ∈ terminal_rows d) as [Ht Hin]%list_elem_of_filter.
    { rewrite <-(sorted_by_perm history_leb), <-(take_drop (Z.to_nat (Z.max 0 keep)) (sorted_by _ _)).
      apply elem_of_app. by right. }
    apply list_elem_of_fmap in Hin as ([j o'] & -> & Hj%elem_of_map_to_list). simpl in *.
    destruct (jo_id _ _ J _ _ Hj) as [Ej _]. rewrite <-Ej in Eo. subst j. rewrite Hi in Hj. injection Hj as <-.
    destruct (jo_row _ _ J _ _ Hi Hk) as (b & n & s' & Hinc' & Hs' & _ & Heq & _).
    destruct (incarnation_unique _ _ _ _ _ Hinc Hinc') as [<- <-]. rewrite Hd, Hs in Hs'. injection Hs' as <-.
    rewrite Heq in Hl by done. by destruct (op_state_of op).
Qed.

(** Steps that begin no provider call and keep every row's kind *)
Definition quiet (d d' : autoscaler_db) (begun : list (string * string)) : Prop :=
  journal_ok d' begun ∧ ∀ i, op_kind_of <$> provider_operations d' !! i = op_kind_of <$> provider_operations d !! i.

Lemma transition_quiet i expected new resp tgt err now d op' d' begun :
  transition_operation i expected new resp tgt err now d = Ok (op', d') →
  (∀ s, s ∈ expected → op_terminal s = false) →
  (op_kind_of <$> provider_operations d !! i = Some create → new ≠ op_prepared) →
  journal_ok d begun → quiet d d' begun.
Proof.
  intros E Ht Hn J. pose proof E as (op & Hi & Hst & Eid & Ekey & Ek & Ed & _ & Es & ->)%transition_Ok. split.
  - eapply journal_ok_sub; [eapply transition_ok; [exact E|done| |exact J]|].
    + intros Hk. apply Hn. rewrite Hi. simpl. congruence.
    + case_bool_decide; set_solver.
  - intros j. rewrite update_slot_operations. simpl. destruct (jo_id _ _ J _ _ Hi) as [<- _].
    destruct (decide (i = j)) as [<-|]; [rewrite lookup_insert_eq, Hi; simpl; congruence|by rewrite lookup_insert_ne].
Qed.
Lemma quiet_trans d1 d2 d3 b : quiet d1 d2 b → quiet d2 d3 b → quiet d1 d3 b.
Proof. intros [_ K1] [J K2]. split; [done|]. intros i. by rewrite K2. Qed.

Lemma reconcile_create_quiet ix now acc op acc' begun :
  reconcile_create ix now acc op = Ok acc' → journal_ok acc.2 begun → quiet acc.2 acc'.2 begun.
Proof.
  destruct acc as [rs d]. simpl. unfold reconcile_create. intros E J.
  assert (quiet d d begun) as Hr by (by split).
  destruct (bool_decide (op_state_of op = op_accepted)).
  - destruct (_ && _) in E; [|by injection E as <-].
    apply res_bind_Ok in E as ([o d1] & E & [= <-]). simpl.
    eapply transition_quiet; [exact E|set_solver|done|done].
  - apply res_bind_Ok in E as ([st d1] & E & E2). apply res_bind_Ok in E2 as (out & _ & [= <-]). simpl.
    destruct (clean_job_ids _) as [|j [|]] in E; [by injection E as <- <-| |by injection E as <- <-].
    apply res_bind_Ok in E as ([o d2] & E & [= <- <-]). simpl.
    eapply transition_quiet; [exact E|set_solver|done|done].
Qed.
Lemma reconcile_stop_quiet ix now acc op acc' begun :
  reconcile_stop ix now acc op = Ok acc' → op_kind_of <$> provider_operations acc.2 !! op_id op = Some stop →
  journal_ok acc.2 begun → quiet acc.2 acc'.2 begun.
Proof.
  destruct acc as [rs d]. simpl. unfold reconcile_stop. intros E Hk J.
  assert (quiet d d begun) as Hr by (by split).
  destruct (bool_decide (op_state_of op = op_accepted)).
  - destruct (_ && _) in E; [|by injection E as <-].
    apply res_bind_Ok in E as ([o d1] & E & E2). apply res_bind_Ok in E2 as (out & _ & [= <-]). simpl.
    eapply transition_quiet; [exact E|set_solver|done|done].
  - apply res_bind_Ok in E as ([o d1] & E & E2). apply res_bind_Ok in E2 as (out & _ & [= <-]). simpl.
    eapply transition_quiet; [exact E|set_solver|by rewrite Hk|done].
Qed.
Lemma elem_of_list_operations d k states op :
  op ∈ list_operations d k states ↔ (∃ i, provider_operations d !! i = Some op) ∧
    (k = None ∨ k = Some (op_kind_of op)) ∧ (states = [] ∨ op_state_of op ∈ states).
Proof.
  unfold list_operations, all_operations. rewrite sorted_by_perm, list_elem_of_filter, list_elem_of_fmap.
  split.
  - intros [Hc ([i o] & -> & Hi%elem_of_map_to_list)]. eauto.
  - intros [[i Hi] Hc]. split; [done|]. exists (i, op). by rewrite elem_of_map_to_list.
Qed.
Lemma reconcile_quiet instances now d results d' begun :
  reconcile_provider_inventory instances now d = Ok (results, d') → journal_ok d begun → quiet d d' begun.
Proof.
  unfold reconcile_provider_inventory. intros ([r1 d1] & E1 & E2)%res_bind_Ok J. simpl in E2.
  assert (quiet d d1 begun) as Q1.
  { eapply (res_foldl_inv _ (λ a, quiet d a.2 begun)) in E1; [done| |by split].
    intros a op a' _ Qa E. eapply quiet_trans; [exact Qa|]. eapply reconcile_create_quiet; [exact E|apply Qa]. }
  assert (quiet d1 d' begun) as Q2; [|by eapply quiet_trans].
  eapply (res_foldl_inv _ (λ a, quiet d1 a.2 begun)) in E2; [done| |split; [apply Q1|done]].
  intros a op a' Hop Qa E. eapply quiet_trans; [exact Qa|]. eapply reconcile_stop_quiet; [exact E| |apply Qa].
  apply elem_of_list_operations in Hop as ([i Hi] & [?|Hk] & _); [done|]. injection Hk as Hk.
  destruct Qa as [_ Ka]. rewrite Ka. destruct Q1 as [J1 _]. destruct (jo_id _ _ J1 _ _ Hi) as [<- _].
  rewrite Hi. simpl. congruence.
Qed.
End journal_inv.

(** ** Transitions on listed rows *)

(** Rows are filed under their own, non-blank ids. *)
Definition ids_ok (d : autoscaler_db) : Prop :=
  ∀ i op, provider_operations d !! i = Some op → i = op_id op ∧ strip (op_id op) ≠ EmptyString.

Lemma update_slot_drains d dep k key st now :
  drain_intents (update_slot_state d dep k key st now) = drain_intents d.
Proof. unfold update_slot_state. destruct (split_intent_key key). by repeat case_match. Qed.

(** A row in an expected state moves; no other row does. *)
Lemma transition_total op expected new resp tgt err now d :
  ids_ok d → provider_operations d !! op_id op = Some op → op_state_of op ∈ expected →
  ∃ op' d', transition_operation (op_id op) expected new resp tgt err now d = Ok (op', d') ∧
    op_id op' = op_id op ∧ op_intent_key op' = op_intent_key op ∧ op_kind_of op' = op_kind_of op ∧
    op_deployment_id op' = op_deployment_id op ∧ op_role_of op' = op_role_of op ∧ op_state_of op' = new ∧
    provider_operations d' = <[op_id op := op']> (provider_operations d) ∧ drain_intents d' = drain_intents d ∧
    ids_ok d'.
Proof.
  intros Hid Hop Hst. unfold transition_operation, operation_row. rewrite Hop. simpl.
  rewrite bool_decide_eq_true_2 by done. simpl. do 2 eexists. split; [done|]. simpl.
  rewrite update_slot_operations, update_slot_drains. simpl. split_and!; [done..|].
  intros j o. rewrite update_slot_operations. simpl.
  intros [[<- <-]|[Hj Ho]]%lookup_insert_Some; [|by apply Hid]. by destruct (Hid _ _ Hop).
Qed.
Lemma from_operation_total op source st job_ids err : strip (op_id op) ≠ EmptyString →
  (st = None → op_state_of op ∈ [op_accepted; op_failed; op_uncertain]) →
  ∃ out, from_operation op source st job_ids err = Ok out ∧
    out_operation_id out = op_id op ∧ out_kind out = op_kind_of op ∧ out_role out = op_role_of op.
Proof.
  intros Hid Hst. unfold from_operation.
  rewrite (proj2 (required_Ok _ _ _) (conj eq_refl Hid)). simpl. destruct st as [s|]; simpl; [eauto|].
  specialize (Hst eq_refl). destruct (op_state_of op); simpl; eauto; set_solver.
Qed.

(** The steps of a loop, one related to the next *)
Fixpoint chain {A B} (R : A → B → A → Prop) (a : A) (l : list B) (a' : A) : Prop :=
  match l with
  | [] => a' = a
  | x :: l => ∃ a1, R a x a1 ∧ chain R a1 l a'
  end.
(** A loop over listed rows, each turn of which changes its own row only *)
Lemma rows_loop {A} (db : A → autoscaler_db) (f : A → ProviderOperation → res A)
    (R : A → ProviderOperation → A → Prop) l a :
  (∀ a op, op ∈ l → ids_ok (db a) → provider_operations (db a) !! op_id op = Some op →
     ∃ a', f a op = Ok a' ∧ R a op a' ∧ ids_ok (db a') ∧
       ∀ j, j ≠ op_id op → provider_operations (db a') !! j = provider_operations (db a) !! j) →
  NoDup (op_id <$> l) → (∀ op, op ∈ l → provider_operations (db a) !! op_id op = Some op) → ids_ok (db a) →
  ∃ a', res_foldl f a l = Ok a' ∧ chain R a l a' ∧ ids_ok (db a') ∧
    ∀ j, j ∉ (op_id <$> l) → provider_operations (db a') !! j = provider_operations (db a) !! j.
Proof.
  revert a. induction l as [|op l IH]; intros a Hf Hnd Hl Hid; simpl; [by exists a|].
  rewrite fmap_cons in Hnd. apply NoDup_cons in Hnd as [Hni Hnd].
  destruct (Hf a op) as (a1 & E & HR & Hid1 & Hfr); [by left|done|apply Hl; by left|]. rewrite E. simpl.
  destruct (IH a1) as (a' & E' & Hc & Hid' & Hfr'); [|done| |done|].
  - intros b o Ho. apply Hf. by right.
  - intros o Ho. rewrite Hfr; [apply Hl; by right|]. intros Eo. apply Hni. rewrite <-Eo. by apply list_elem_of_fmap_2.
  - exists a'. split_and!; [done|by exists a1|done|]. intros j Hj.
    rewrite Hfr', Hfr; [done|set_solver|set_solver].
Qed.
Lemma listed_rows d k states : ids_ok d →
  NoDup (op_id <$> list_operations d k states) ∧
  ∀ op, op ∈ list_operations d k states → provider_operations d !! op_id op = Some op.
Proof.
  intros Hid. assert (∀ op, op ∈ list_operations d k states → provider_operations d !! op_id op = Some op) as Hl.
  { intros op [[i Hi] _]%elem_of_list_operations. by destruct (Hid _ _ Hi) as [<- _]. }
  split; [|done]. unfold list_operations. rewrite sorted_by_perm.
  eapply sublist_NoDup; [|apply fmap_sublist, sublist_filter]. unfold all_operations.
  rewrite <-list_fmap_compose. assert (op_id ∘ snd <$> map_to_list (provider_operations d)
    = (map_to_list (provider_operations d)).*1) as ->; [|apply NoDup_fst_map_to_list].
  apply list_fmap_ext. intros i [j o] Hj%list_elem_of_lookup_2%elem_of_map_to_list. simpl.
  by destruct (Hid _ _ Hj) as [<- _].
Qed.

Lemma journal_ids_ok uuid5_hex d begun : journal_ok uuid5_hex d begun → ids_ok d.
Proof.
  intros J i op Hi. destruct (jo_id _ _ _ J _ _ Hi) as [Ei Es]. split; [done|]. rewrite <-Ei, Es.
  unfold stable_id, strip. generalize (uuid5_hex (operation_name (op_deployment_id op) (op_kind_of op) (op_intent_key op))).
  intros u. change ("provider-" +:+ u) with (String "p" ("rovider-" +:+ u)). cbn [rstrip].
  replace (is_space "p") with false by done. rewrite andb_false_r. cbn [lstrip].
  by replace (is_space "p") with false by done.
Qed.

(** One turn of recovery succeeds and changes its own row only. *)
Definition own_row (f : list ProviderOperationOutcome * autoscaler_db → ProviderOperation →
    res (list ProviderOperationOutcome * autoscaler_db)) (op : ProviderOperation) : Prop :=
  ∀ a, ids_ok a.2 → provider_operations a.2 !! op_id op = Some op →
  ∃ a', f a op = Ok a' ∧ True ∧ ids_ok a'.2 ∧
    ∀ j, j ≠ op_id op → provider_operations a'.2 !! j = provider_operations a.2 !! j.
Lemma reconcile_create_own ix now op : op_state_of op ∈ [op_uncertain; op_accepted] → own_row (reconcile_create ix now) op.
Proof.
  intros Hst [rs d] Hid Hrow. simpl in *. unfold reconcile_create. destruct (Hid _ _ Hrow) as [_ Hne].
  case_bool_decide as Ha.
  - destruct (_ && _); [|by exists (rs, d)].
    destruct (transition_total op [op_accepted] op_settled None None None now d Hid Hrow)
      as (o & d' & -> & _ & _ & _ & _ & _ & _ & Hr & _ & Hid'); [set_solver|].
    eexists. split_and!; [done|done|done|]. intros j Hj. simpl. rewrite Hr. by rewrite lookup_insert_ne.
  - set (job_ids := clean_job_ids _). destruct job_ids as [|x [|y l]] eqn:Ej; simpl.
    2:{ destruct (transition_total op [op_uncertain] op_settled (Some [("recoveredFromJobInventory", JBool true)])
          (Some [x]) (Some EmptyString) now d Hid Hrow) as (o & d' & -> & _ & _ & _ & _ & _ & _ & Hr & _ & Hid'); [set_solver|].
        simpl. destruct (from_operation_total op inventory_recovery (Some out_recovered) (Some [x]) (Some EmptyString) Hne)
          as (out & -> & _); [done|]. simpl.
        eexists. split_and!; [done|done|done|]. intros j Hj. simpl. rewrite Hr. by rewrite lookup_insert_ne. }
    all: edestruct (from_operation_total op inventory_recovery) as (out & -> & _); [exact Hne|done|]; simpl; eexists; done.
Qed.
Lemma reconcile_stop_own ix now op : op_state_of op ∈ [op_uncertain; op_accepted] → own_row (reconcile_stop ix now) op.
Proof.
  intros Hst [rs d] Hid Hrow. simpl in *. unfold reconcile_stop. destruct (Hid _ _ Hrow) as [_ Hne].
  case_bool_decide as Ha.
  - destruct (_ && _); [|by exists (rs, d)].
    destruct (transition_total op [op_accepted] op_settled None None None now d Hid Hrow)
      as (o & d' & -> & _ & _ & _ & _ & _ & _ & Hr & _ & Hid'); [set_solver|]. simpl.
    edestruct (from_operation_total op inventory_recovery) as (out & -> & _); [exact Hne|done|]. simpl.
    eexists. split_and!; [done|done|done|]. intros j Hj. simpl. rewrite Hr. by rewrite lookup_insert_ne.
  - edestruct (transition_total op [op_uncertain]) as (o & d' & E & _ & _ & _ & _ & _ & _ & Hr & _ & Hid');
      [exact Hid|exact Hrow|set_solver|]. rewrite E. simpl.
    edestruct (from_operation_total op inventory_recovery) as (out & -> & _); [exact Hne|done|]. simpl.
    eexists. split_and!; [done|done|done|]. intros j Hj. simpl. rewrite Hr. by rewrite lookup_insert_ne.
Qed.
(** A recovery loop over a listing of the journal succeeds. *)
Lemma recovery_loop f k states rs d : (∀ op, op ∈ list_operations d k states → own_row f op) → ids_ok d →
  ∃ a', res_foldl f (rs, d) (list_operations d k states) = Ok a' ∧ ids_ok a'.2.
Proof.
  intros Hf Hid. destruct (listed_rows d k states Hid) as [Hnd Hl].
  destruct (rows_loop snd f (λ _ _ _, True) (list_operations d k states) (rs, d)) as (a' & E & _ & Hid' & _);
    [|done|done|done|by exists a'].
  intros a op Hop Ha Hrow. by apply (Hf op Hop a).
Qed.
Lemma reconcile_total instances now d : ids_ok d →
  ∃ results d', reconcile_provider_inventory instances now d = Ok (results, d') ∧ ids_ok d'.
Proof.
  intros Hid. unfold reconcile_provider_inventory.
  destruct (recovery_loop (reconcile_create (index_inventory instances) now) (Some create) [op_uncertain; op_accepted] [] d)
    as ([r1 d1] & -> & Hid1); [|done|].
  { intros op Hop. apply reconcile_create_own. apply elem_of_list_operations in Hop. set_solver. }
  simpl. destruct (recovery_loop (reconcile_stop (index_inventory instances) now) (Some stop) [op_uncertain; op_accepted] r1 d1)
    as ([r2 d2] & E & Hid2); [|done|eauto].
  intros op Hop. apply reconcile_stop_own. apply elem_of_list_operations in Hop. set_solver.
Qed.

(** ** Every pending delete gets its turn *)

(** Successive rotations, each with its eligible intents and its time *)
Fixpoint rotate_rounds (deployment_id : string) (recorded : list (string * string)) (budget : Z)
    (rounds : list (list (string * string) * Z)) (d : autoscaler_db)
    : res (list (list (string * string)) * autoscaler_db) :=
  match rounds with
  | [] => Ok ([], d)
  | (pending, now_us) :: rounds =>
      let! r := rotate_pending_deletes deployment_id pending recorded budget now_us d in
      let! rs := rotate_rounds deployment_id recorded budget rounds r.2 in
      Ok (r.1 :: rs.1, rs.2)
  end.

Lemma pending_order_acc l (acc : dict (string * string) Z) n : NoDup (dkeys acc ++ l) →
  foldl (λ m ik, dset m ik.2 ik.1) acc (imap (λ i k, (Z.of_nat (n + i), k)) l)
  = acc ++ imap (λ i k, (k, Z.of_nat (n + i))) l.
Proof.
  revert acc n. induction l as [|x l IH]; intros acc n Hn; simpl; [by rewrite app_nil_r|].
  assert (x ∉ dkeys acc) as Hx by (apply NoDup_app in Hn as (_ & Hn & _); intros H; apply (Hn x H); by left).
  rewrite dset_fresh by done. rewrite (imap_ext _ (λ i k, (Z.of_nat (S n + i), k))) by (intros; simpl; do 2 f_equal; lia).
  rewrite IH.
  - rewrite <-app_assoc. simpl. do 2 f_equal. apply imap_ext. intros. simpl. do 2 f_equal. lia.
  - unfold dkeys in *. rewrite fmap_app, <-app_assoc. done.
Qed.
Lemma pending_order_eq l : NoDup l → pending_order l = imap (λ i k, (k, Z.of_nat i)) l.
Proof. intros Hn. apply (pending_order_acc l [] 0). done. Qed.
Lemma dkeys_pending_order l : NoDup l → dkeys (pending_order l) = l.
Proof.
  intros Hn. rewrite pending_order_eq by done. unfold dkeys. rewrite fmap_imap.
  rewrite (imap_ext _ (λ _ x, x)) by done. clear Hn. induction l as [|x l IH]; [done|]. simpl. by f_equal.
Qed.
Lemma pending_index l i k : NoDup l → l !! i = Some k → dget (pending_order l) k = Some (Z.of_nat i).
Proof.
  intros Hn Hi. apply dget_Some_2; [by rewrite dkeys_pending_order|]. rewrite pending_order_eq by done.
  apply list_elem_of_lookup. exists i. by rewrite list_lookup_imap, Hi.
Qed.

Section fair.
Variables (deployment_id : string) (recorded : list (string * string)) (budget : Z) (key : string * string).
Hypothesis Hdep : strip deployment_id ≠ EmptyString.
Hypothesis Hrec : NoDup recorded.
Hypothesis Hbudget : 1 ≤ budget.
Variables (pre post : list (string * string)).
Hypothesis Hsplit : recorded = pre ++ key :: post.
Abbreviation att d k := (attempted_at d (strip deployment_id) k).

(** The recorded intents that are before [key] in the queue *)
Definition before_key (d : autoscaler_db) (y : string * string) : bool :=
  (att d y <? att d key) || ((att d y =? att d key) && bool_decide (y ∈ pre)).
Definition ahead (d : autoscaler_db) : list (string * string) :=
  filter (λ y, before_key d y = true) recorded.

Lemma rotation_total d order x y : rotation_leb d (strip deployment_id) order x y = true ∨
  rotation_leb d (strip deployment_id) order y x = true.
Proof. unfold rotation_leb. lia. Qed.
Lemma rotation_trans d order x y z : rotation_leb d (strip deployment_id) order x y = true →
  rotation_leb d (strip deployment_id) order y z = true → rotation_leb d (strip deployment_id) order x z = true.
Proof. unfold rotation_leb. lia. Qed.

(** An eligible intent that sorts before [key] is before it in the queue. *)
Lemma sorts_before d pending y : pending `sublist_of` recorded → key ∈ pending → y ∈ pending → y ≠ key →
  rotation_leb d (strip deployment_id) (pending_order pending) y key = true → before_key d y = true.
Proof.
  intros Hsub Hk Hy Hne. assert (NoDup pending) as Hn by (by eapply sublist_NoDup).
  unfold rotation_leb, before_key. destruct (att d y <? att d key); [done|]. simpl.
  destruct (att d y =? att d key); [|done]. simpl.
  apply list_elem_of_lookup in Hk as [i Hi], Hy as [j Hj].
  rewrite (pending_index _ _ _ Hn Hi), (pending_index _ _ _ Hn Hj). simpl. intros Hij. apply bool_decide_eq_true.
  assert (j < i)%nat as Hlt by (assert (j ≠ i) by congruence; lia).
  rewrite Hsplit in Hsub. apply sublist_app_r in Hsub as (p1 & p2 & -> & H1 & H2).
  rewrite Hsplit in Hrec. apply NoDup_app in Hrec as (_ & Hd & [Hpost _]%NoDup_cons).
  apply sublist_cons_r in H2 as [H2|(p3 & -> & H2)].
  - apply list_elem_of_lookup_2, elem_of_app in Hi as [Hi|Hi].
    + destruct (Hd key); [by eapply elem_of_sublist|by left].
    + destruct Hpost. by eapply elem_of_sublist.
  - assert (i = length p1) as ->.
    { eapply NoDup_lookup; [exact Hn|exact Hi|]. by rewrite lookup_app_r, Nat.sub_diag by lia. }
    rewrite lookup_app_l in Hj by done. eapply elem_of_sublist; [by eapply list_elem_of_lookup_2|done].
Qed.

Lemma attempted_rotate d pending now picked d' y :
  rotate_pending_deletes deployment_id pending recorded budget now d = Ok (picked, d') → y ∈ recorded →
  att d' y = if bool_decide (y ∈ picked) then now else att d y.
Proof.
  unfold rotate_pending_deletes. intros (dep & [-> _]%required_Ok & E)%res_bind_Ok Hy. injection E as <- <-.
  unfold attempted_at. simpl. set (dp := strip deployment_id).
  assert (∀ l (m : gmap (string * string * string) Z), foldl (λ m k, <[(dp, k.1, k.2) := now]> m) m l !! (dp, y.1, y.2)
                 = if bool_decide (y ∈ l) then Some now else m !! (dp, y.1, y.2)) as Hf.
  { clear. induction l as [|k l IH]; intros m; simpl; [done|]. rewrite IH. destruct (decide (y = k)) as [->|Hne].
    - rewrite lookup_insert_eq. case_bool_decide; [by rewrite bool_decide_eq_true_2 by (by left)|].
      by rewrite bool_decide_eq_true_2 by (by left).
    - rewrite lookup_insert_ne by (destruct y, k; simpl; congruence).
      by rewrite (bool_decide_ext (y ∈ k :: l) (y ∈ l)) by set_solver. }
  rewrite Hf. case_bool_decide; [done|]. f_equal. apply option_eq. intros z. rewrite map_lookup_filter_Some. simpl.
  destruct y. naive_solver.
Qed.

(** A round that does not pick [key] moves [budget] of the intents before it behind it. *)
Lemma round_progress d pending now picked d' :
  rotate_pending_deletes deployment_id pending recorded budget now d = Ok (picked, d') →
  pending `sublist_of` recorded → key ∈ pending → att d key < now → key ∉ picked →
  att d' key = att d key ∧ (length (ahead d') + Z.to_nat budget ≤ length (ahead d))%nat.
Proof.
  intros E Hsub Hk Hnow Hnot.
  assert (∀ y, y ∈ recorded → att d' y = if bool_decide (y ∈ picked) then now else att d y) as Ha.
  { intros y. by eapply attempted_rotate. }
  assert (key ∈ recorded) as Hkr by (by eapply elem_of_sublist).
  assert (att d' key = att d key) as Hkey by (rewrite Ha by done; by rewrite bool_decide_eq_false_2).
  split; [done|].
  unfold rotate_pending_deletes in E. apply res_bind_Ok in E as (dep & [-> _]%required_Ok & E). injection E as <- _.
  set (p := sorted_by _ _) in *. set (b := Z.to_nat (Z.max 0 budget)) in *.
  assert (NoDup pending) as Hnp by (by eapply sublist_NoDup).
  assert (p ≡ₚ pending) as Hperm by (unfold p; rewrite sorted_by_perm; by rewrite dkeys_pending_order).
  assert (∀ y, y ∈ take b p → y ∈ recorded ∧ before_key d y = true) as Htake.
  { intros y Hy. assert (key ∈ drop b p) as Hd.
    { assert (key ∈ take b p ++ drop b p) as [|]%elem_of_app; [|done|done]. by rewrite take_drop, Hperm. }
    assert (y ∈ pending) as Hyp by (rewrite <-Hperm, <-(take_drop b p), elem_of_app; by left).
    split; [by eapply elem_of_sublist|]. eapply sorts_before; [exact Hsub|done|done|by intros ->|].
    eapply (StronglySorted_app_1_elem_of (λ x y, rotation_leb d (strip deployment_id) _ x y = true) (take b p) (drop b p));
      [|done|done]. rewrite take_drop. apply sorted_by_sorted; [apply rotation_total|apply rotation_trans]. }
  assert (length (take b p) = Z.to_nat budget) as <-.
  { rewrite length_take. assert (b < length p)%nat; [|unfold b in *; lia].
    destruct (decide (b < length p)%nat); [done|]. destruct Hnot. rewrite take_ge by lia. by rewrite Hperm. }
  rewrite Nat.add_comm, <-length_app. apply submseteq_length, NoDup_submseteq.
  - apply NoDup_app. split_and!.
    + eapply sublist_NoDup; [|apply sublist_take]. by rewrite Hperm.
    + intros y Hy [Hb _]%list_elem_of_filter. destruct (Htake _ Hy) as [Hr _]. revert Hb. unfold before_key.
      rewrite Hkey, (Ha y Hr), bool_decide_eq_true_2 by done. lia.
    + by apply NoDup_filter.
  - intros y [Hy|Hy]%elem_of_app; [apply list_elem_of_filter; split; by apply Htake|].
    apply list_elem_of_filter in Hy as [Hb Hr]. apply list_elem_of_filter. split; [|done]. revert Hb.
    unfold before_key. rewrite Hkey, (Ha y Hr). case_bool_decide as Hp; [|done]. lia.
Qed.

Lemma rounds_total rounds d : ∃ picks d', rotate_rounds deployment_id recorded budget rounds d = Ok (picks, d').
Proof.
  revert d. induction rounds as [|[pending now] rounds IH]; intros d; simpl; [eauto|].
  unfold rotate_pending_deletes. rewrite (proj2 (required_Ok _ _ _) (conj eq_refl Hdep)). simpl.
  edestruct IH as (picks & d' & ->). simpl. eauto.
Qed.
Lemma rotates_in_time rounds d :
  Forall (λ r, r.1 `sublist_of` recorded ∧ key ∈ r.1 ∧ att d key < r.2) rounds →
  (length (ahead d) < length rounds * Z.to_nat budget)%nat →
  ∃ picks d', rotate_rounds deployment_id recorded budget rounds d = Ok (picks, d') ∧ ∃ p, p ∈ picks ∧ key ∈ p.
Proof.
  revert d. induction rounds as [|[pending now] rounds IH]; intros d Hall Hlen; simpl in *; [lia|].
  apply Forall_cons in Hall as [(Hsub & Hk & Hnow) Hall]. simpl in *.
  destruct (rotate_pending_deletes deployment_id pending recorded budget now d) as [[picked d1]|e] eqn:E.
  2:{ unfold rotate_pending_deletes in E. by rewrite (proj2 (required_Ok _ _ _) (conj eq_refl Hdep)) in E. }
  simpl. destruct (decide (key ∈ picked)) as [Hp|Hp].
  - destruct (rounds_total rounds d1) as (picks & d2 & ->). simpl. exists (picked :: picks), d2.
    split; [done|]. exists picked. split; [by left|done].
  - destruct (round_progress _ _ _ _ _ E Hsub Hk Hnow Hp) as [Ek Hl].
    destruct (IH d1) as (picks & d2 & E2 & p & Hpi & Hin); [by rewrite Ek|lia|]. rewrite E2. simpl.
    exists (picked :: picks), d2. split; [done|]. exists p. split; [by right|done].
Qed.
End fair.

(** C29. Pending deletes are replayed fairly: whatever was attempted before, when the
    recorded intents stay the same and an intent is eligible in every round, it is
    picked within [length recorded / budget] rounds (rounded up), and no rotation
    fails.  The rounds may leave other intents out, and their times need only be after
    the intent's last attempt. *)
Theorem pending_deletes_fair deployment_id recorded budget key rounds d :
  strip deployment_id ≠ EmptyString → NoDup recorded → 1 ≤ budget → rounds ≠ [] →
  Forall (λ r, r.1 `sublist_of` recorded ∧ key ∈ r.1 ∧ attempted_at d (strip deployment_id) key < r.2) rounds →
  Z.of_nat (length recorded) ≤ Z.of_nat (length rounds) * budget →
  ∃ picks d', rotate_rounds deployment_id recorded budget rounds d = Ok (picks, d') ∧
    ∃ p, p ∈ picks ∧ key ∈ p.
Proof.
  intros Hdep Hrec Hb Hne Hall Hlen.
  assert (key ∈ recorded) as Hk.
  { destruct rounds as [|r rounds]; [done|]. apply Forall_cons in Hall as [(? & ? & _) _]. by eapply elem_of_sublist. }
  apply list_elem_of_split in Hk as (pre & post & Hsplit).
  eapply (rotates_in_time _ _ _ _ Hdep Hrec Hb pre post Hsplit); [exact Hall|].
  assert (length (ahead deployment_id recorded key pre d) < length recorded)%nat; [|nia].
  unfold ahead. rewrite Hsplit, filter_app, filter_cons, decide_False; [|unfold before_key].
  2:{ rewrite Z.ltb_irrefl, Z.eqb_refl. simpl. rewrite bool_decide_eq_true. rewrite Hsplit in Hrec.
      apply NoDup_app in Hrec as (_ & Hd & _). intros H. apply (Hd key H). by left. }
  rewrite !length_app. simpl. pose proof (length_filter (λ y, before_key deployment_id key pre d y = true) pre).
  pose proof (length_filter (λ y, before_key deployment_id key pre d y = true) post). lia.
Qed.
Lemma pending_deletes_fair_witness :
  ∃ picks d', rotate_rounds "prod" [("a", "1"); ("b", "2"); ("c", "3")] 2
      [([("a", "1"); ("b", "2"); ("c", "3")], 10); ([("b", "2"); ("c", "3")], 20)]
      (mkAutoscaler ∅ ∅ ∅ {[ ("prod", "c", "3") := 5 ]}) = Ok (picks, d') ∧
    ∃ p, p ∈ picks ∧ ("c", "3") ∈ p.
Proof.
  apply pending_deletes_fair; [by vm_compute|repeat constructor; set_solver|lia|done| |simpl; lia].
  repeat (apply Forall_cons; split; [split_and!; [simpl; repeat constructor|set_solver|by vm_compute]|]). apply Forall_nil_2.
Defined.
