(* ===== verification/Reconcile.v ===== *)
(** * Intents and readiness of the reconcile cycle (ucloud_sandboxes/reconcile.py)

    The create intents of a decision and their labels, the builder pool's decision,
    the proof that a drained worker is empty, and the ownership check of stops.
    [package_version] is the installed version's text; [fresh] the first ten digits of
    a new uuid. *)
From S2P Require Import Prelude PyFloat Json PyString Resources Bytes ScaleModels Routes Consolidation.
From S2P Require Import ScalePacking ScaleDown Autoscaler AutoscalerState.
From stdpp Require Import pretty.
From Stdlib Require Import Ascii.
Local Open Scope py_scope.
Local Open Scope Z_scope.

(** ** Host names (networking.py) *)

Definition HOSTNAME_MAX_LENGTH : nat := 63.
(** A character [HOSTNAME_RE] keeps *)
Definition hostname_char (c : ascii) : bool :=
  let n := nat_of_ascii c in
  ((97 <=? n) && (n <=? 122) || (48 <=? n) && (n <=? 57) || (n =? 45))%nat.
(** [re.sub("[not f]+", "-", s)]: every maximal run of other characters is one dash *)
Fixpoint sub_runs (f : ascii → bool) (in_run : bool) (s : string) : string :=
  match s with
  | EmptyString => EmptyString
  | String c s' => if f c then String c (sub_runs f false s')
                   else if in_run then sub_runs f true s' else String "-" (sub_runs f true s')
  end.
Definition not_dash (c : ascii) : bool := negb (bool_decide (c = "-"%char)).
Fixpoint lstrip_dash (s : string) : string :=
  match s with String c s' => if not_dash c then s else lstrip_dash s' | EmptyString => EmptyString end.
Fixpoint rstrip_dash (s : string) : string :=
  match s with
  | EmptyString => EmptyString
  | String c s' => let r := rstrip_dash s' in
                   if bool_decide (r = EmptyString) && negb (not_dash c) then EmptyString else String c r
  end.
Definition strip_dash (s : string) : string := lstrip_dash (rstrip_dash s).
Definition stable_hostname (seed prefix : string) : string :=
  let base := lower (strip seed) in
  let base := if nonempty prefix then prefix +:+ "-" +:+ base else base in
  let hostname := strip_dash (sub_runs not_dash false (sub_runs hostname_char false base)) in
  let hostname := str_or hostname (str_or prefix "sandbox-node") in
  let hostname := strip_dash (String.substring 0 HOSTNAME_MAX_LENGTH hostname) in
  str_or hostname "sandbox-node".

(** ** Create intents *)

(** providers/base.py *)
Record InstanceCreateIntent := mkIntent {
  ci_seed : string;
  ci_role : op_role;
  ci_name : string;
  ci_node_id : string;
  ci_node_url : string;
  ci_labels : dict string string
}.
Definition with_labels (i : InstanceCreateIntent) (labels : dict string string) : InstanceCreateIntent :=
  mkIntent (ci_seed i) (ci_role i) (ci_name i) (ci_node_id i) (ci_node_url i) labels.

(** deployment.py *)
Definition DEFAULT_INIT_VERSION : string := "3".
Definition NODE_LABEL : string := "ucloud-sandboxes/node".
Definition BUILDER_LABEL : string := "ucloud-sandboxes/builder".
Definition RECONCILE_LABEL : string := "ucloud-sandboxes/reconcile".
Definition RECONCILE_CYCLE_LABEL : string := "ucloud-sandboxes/reconcile-cycle".
Definition CREATE_INDEX_LABEL : string := "ucloud-sandboxes/create-index".
Definition AGENT_VERSION_LABEL : string := "ucloud-sandboxes/agent-version".
Definition INIT_VERSION_LABEL : string := "ucloud-sandboxes/init-version".

Definition with_provider_operation_label (intent : InstanceCreateIntent) (operation_id : string)
    (deployment_id : option string) : res InstanceCreateIntent :=
  let operation_id := strip operation_id in
  raise_if (negb (nonempty operation_id)) (ValueError "operation_id is required")
  (let labels := ci_labels intent in
   let differs label value := match dget labels label with
                              | Some v => nonempty v && negb (bool_decide (v = value)) | None => false end in
   raise_if (differs PROVIDER_OPERATION_LABEL operation_id)
     (ValueError "intent already has a different provider operation label")
   (let labels' := dset labels PROVIDER_OPERATION_LABEL operation_id in
    match deployment_id with
    | None => Ok (with_labels intent labels')
    | Some d =>
        let d := strip d in
        raise_if (negb (nonempty d)) (ValueError "deployment_id is required when supplied")
        (raise_if (differs DEPLOYMENT_LABEL d) (ValueError "intent already has a different deployment label")
           (Ok (with_labels intent (dset labels' DEPLOYMENT_LABEL d))))
    end)).

(** The seed, node and name prefixes of a role and its label *)
Definition role_prefixes (r : op_role) : string * string * string * string :=
  match r with
  | sandbox_role => (EmptyString, "sandbox-node", "ucloud-sandbox-node", NODE_LABEL)
  | builder_role => ("-builder", "sandbox-builder", "ucloud-sandbox-builder", BUILDER_LABEL)
  end.
Definition create_intent (deployment_id package_version cycle_seed : string) (role : op_role) (index : Z)
    : InstanceCreateIntent :=
  let '(seed_role, node_prefix, name_prefix, role_label) := role_prefixes role in
  let seed := cycle_seed +:+ seed_role +:+ "-" +:+ pretty index in
  let hostname := stable_hostname seed node_prefix in
  mkIntent seed role (stable_hostname seed name_prefix) hostname ("http://" +:+ hostname +:+ ":8090")
    [(role_label, "true"); (RECONCILE_LABEL, "true"); (RECONCILE_CYCLE_LABEL, cycle_seed);
     (CREATE_INDEX_LABEL, pretty index); (DEPLOYMENT_LABEL, deployment_id);
     (AGENT_VERSION_LABEL, package_version); (INIT_VERSION_LABEL, DEFAULT_INIT_VERSION)].
Definition build_create_intents (deployment_id package_version fresh : string) (d : ScaleDecision) (role : op_role)
    (seed_prefix : option string) : list InstanceCreateIntent :=
  if creates d <=? 0 then []
  else
    let cycle_seed := stable_hostname (str_or (default EmptyString seed_prefix) fresh) EmptyString in
    create_intent deployment_id package_version cycle_seed role <$> seqZ 1 (creates d).

(** ** The builder pool *)

Definition DEFAULT_MAX_ACTIVE_IMAGE_BUILDS : Z := 4.
(** A pool's own node: neither final nor lost *)
Definition pool_node (n : SandboxNode) : bool :=
  negb (is_final (job n)) && negb (is_lost (job n)) && negb (permanently_lost n).
Definition requested_builder_nodes (nodes : list SandboxNode) (pending_builds prepared_builders : Z) : Z :=
  let active := zsum ((λ n, match heartbeat n with Some h => Z.max 0 (active_image_builds h) | None => 0 end)
                        <$> filter (λ n, heartbeat_fresh n && pool_node n = true) nodes) in
  Z.max (ceil_div (active + Z.max 0 pending_builds) DEFAULT_MAX_ACTIVE_IMAGE_BUILDS) (Z.max 0 prepared_builders).

Definition BUILDER_UNREACHABLE_REASON : string := "unreachable empty builder node(s) exceeded the eviction lease".
Definition BUILDER_INCOMPATIBLE_REASON : string := "idle builder node(s) have incompatible agent version".
Definition BUILDER_IDLE_REASON : string := "idle builder node(s) exceed pending image build demand".
(** The unreachable and the incompatible builders this cycle stops *)
Definition builder_evictions (nodes : list SandboxNode) (p : ScalePolicy) (now : Z)
    : list SandboxNode * list SandboxNode :=
  let stop_budget := Z.max 0 (max_stop_per_cycle p) in
  let unreachable := take (Z.to_nat stop_budget) (filter (λ n, unreachable_node_stop_ready n p now = true) nodes) in
  (unreachable,
   take (Z.to_nat (Z.max 0 (stop_budget - Z.of_nat (length unreachable))))
     (incompatible_stop_candidates (filter (λ n, node_job_id n ∉ ids unreachable) nodes) now 0)).
Definition builder_counts (pending_builds prepared_builders : Z) : string :=
  "(" +:+ pretty pending_builds +:+ " pending build(s), " +:+ pretty prepared_builders +:+ " prepared builder(s))".
Definition builder_create_stage (p : ScalePolicy) (desired total ready provisioning max_builder_nodes pending prepared : Z)
    (st : scale_plan) : scale_plan :=
  if total <? desired then
    let count := Z.min (Z.min (desired - total) (Z.max 0 (max_builder_nodes - total))) (Z.max 0 (max_create_per_cycle p)) in
    if 0 <? count
    then let reason := "builder demand needs " +:+ pretty desired +:+ " builder node(s) "
                       +:+ builder_counts pending prepared in
         (st.1 ++ [mkAction "create" count [] reason], st.2 ++ [reason])
    else st
  else if (max_builder_nodes <=? total) && (ready + provisioning <? desired)
  then (st.1, st.2 ++ ["max_builder_nodes=" +:+ pretty max_builder_nodes +:+ " reached"])
  else (st.1, st.2 ++ ["builder pool meets capped node target=" +:+ pretty desired +:+ " "
                       +:+ builder_counts pending prepared]).
Definition builder_idle_stage (p : ScalePolicy) (ready : list SandboxNode) (now : Z) (st : scale_plan) : scale_plan :=
  let stop_budget := Z.max 0 (max_stop_per_cycle p - planned_stops st.1) in
  append_stop (take (Z.to_nat stop_budget)
                 (filter (λ n, is_idle n && past_idle_grace n (builder_scale_down_idle_seconds p) now = true) ready))
    BUILDER_IDLE_REASON st.
Definition evaluate_builder_scale (nodes : list SandboxNode) (pending_builds prepared_builders : Z) (p : ScalePolicy)
    (max_builder_nodes now : Z) : ScaleDecision :=
  let '(unreachable, incompatible) := builder_evictions nodes p now in
  let pool := filter (λ n, pool_node n = true) nodes in
  let ready := filter (λ n, is_schedulable n = true) pool in
  let provisioning := filter (λ n, is_provisioning n = true) pool in
  let total := Z.of_nat (length pool) in
  let max_builder_nodes := Z.max 0 max_builder_nodes in
  let pending := Z.max 0 pending_builds in
  let prepared := Z.max 0 prepared_builders in
  let requested := requested_builder_nodes nodes pending prepared in
  let desired := Z.min requested max_builder_nodes in
  let reasons := if max_builder_nodes <? requested
                 then ["builder demand requests " +:+ pretty requested +:+ " node(s), capped by max_builder_nodes="
                       +:+ pretty max_builder_nodes] else [] in
  let st := append_stop incompatible BUILDER_INCOMPATIBLE_REASON
              (append_stop unreachable BUILDER_UNREACHABLE_REASON ([], reasons)) in
  let st := if 0 <? desired
            then builder_create_stage p desired total (Z.of_nat (length ready)) (Z.of_nat (length provisioning))
                   max_builder_nodes pending prepared st
            else builder_idle_stage p ready now st in
  let reasons := if bool_decide (st.1 = []) && bool_decide (st.2 = [])
                 then ["builder pool matches demand and policy"] else st.2 in
  mkDecision st.1 (Z.of_nat (length ready)) (Z.of_nat (length provisioning)) total reasons 0
    rq_zero rq_zero 0 0 rq_zero rq_zero rq_zero rq_zero None false false 0 EmptyString false [].

(** ** Stopping *)

(** A fresh heartbeat of this drain proves the node empty. *)
Definition node_drain_ready (n : SandboxNode) (token : string) : bool :=
  let token := strip token in
  match heartbeat n with
  | None => false
  | Some h =>
      if negb (nonempty token) || negb (heartbeat_fresh n) then false
      else if negb (draining h) || admission_open h || negb (bool_decide (drain_token h = token))
              || negb (inventory_complete h) || negb (drain_activity_epoch h =? hb_activity_epoch h) then false
      else if negb (bool_decide (inventory h = [])) || negb (active_workloads h =? 0) then false
      else rq_eqb (used_resources h) rq_zero && rq_eqb (reserved_resources h) rq_zero
           && rq_eqb (build_reserved_resources h) rq_zero
  end.

Definition partition_safe_stop_job_ids (nodes : list SandboxNode) (requested : list string)
    (deployment_id ownership_label : string) : list string * list string :=
  if negb (nonempty deployment_id) then ([], requested)
  else
    let owned n := bool_decide (dget (pi_labels (job n)) DEPLOYMENT_LABEL = Some deployment_id)
                   && bool_decide (dget (pi_labels (job n)) ownership_label = Some "true") in
    let owned_job_ids := ids (filter (λ n, owned n = true) nodes) in
    (filter (λ j, j ∈ owned_job_ids) requested, filter (λ j, j ∉ owned_job_ids) requested).

(** ** Seeds of create intents *)

Lemma all_chars_app f a b : all_chars f (a +:+ b) = all_chars f a && all_chars f b.
Proof. induction a as [|c a IH]; simpl; [done|]. by rewrite IH, andb_assoc. Qed.
Lemma all_chars_imp f g s : (∀ c, f c = true → g c = true) → all_chars f s = true → all_chars g s = true.
Proof. intros Hfg. induction s; simpl; [done|]. rewrite !andb_true_iff. naive_solver. Qed.
Lemma sub_runs_chars f s b : f "-"%char = true → all_chars f (sub_runs f b s) = true.
Proof.
  intros Hd. revert b. induction s as [|c s IH]; intros b; simpl; [done|].
  destruct (f c) eqn:E; [simpl; by rewrite E, IH|]. destruct b; [done|]. simpl. by rewrite Hd, IH.
Qed.
Lemma sub_runs_keep f g s b : g "-"%char = true → all_chars g s = true → all_chars g (sub_runs f b s) = true.
Proof.
  intros Hd. revert b. induction s as [|c s IH]; intros b; simpl; [done|]. rewrite andb_true_iff. intros [Hc Hs].
  destruct (f c); [simpl; by rewrite Hc, IH|]. destruct b; [by apply IH|]. simpl. by rewrite Hd, IH.
Qed.
Lemma strip_dash_chars f s : all_chars f s = true → all_chars f (strip_dash s) = true.
Proof.
  intros Hs. unfold strip_dash.
  assert (all_chars f (rstrip_dash s) = true) as Hr.
  { induction s as [|c s IH]; simpl in *; [done|]. apply andb_true_iff in Hs as [Hc Hs].
    destruct (_ && _); [done|]. simpl. by rewrite Hc, IH. }
  revert Hr. generalize (rstrip_dash s). clear. induction s as [|c s IH]; simpl; [done|]. rewrite andb_true_iff.
  intros [Hc Hs]. destruct (not_dash c); [simpl; by rewrite Hc, Hs|by apply IH].
Qed.
Lemma substring_chars f n s : all_chars f s = true → all_chars f (String.substring 0 n s) = true.
Proof.
  revert n. induction s as [|c s IH]; intros [|n]; simpl; try done. rewrite !andb_true_iff. naive_solver.
Qed.
Lemma str_or_chars f a b : all_chars f a = true → all_chars f b = true → all_chars f (str_or a b) = true.
Proof. unfold str_or. by destruct (nonempty a). Qed.
Lemma stable_hostname_chars seed : all_chars hostname_char (stable_hostname seed EmptyString) = true.
Proof.
  unfold stable_hostname. simpl.
  repeat first [apply str_or_chars | apply strip_dash_chars | apply substring_chars | done].
  apply sub_runs_keep; [done|]. by apply sub_runs_chars.
Qed.
Lemma no_hash f s : f "#"%char = false → all_chars f s = true → rpartition "#" s = None.
Proof.
  intros Hf. induction s as [|c s IH]; simpl; [done|]. rewrite andb_true_iff. intros [Hc Hs].
  rewrite IH by done. rewrite bool_decide_eq_false_2; [done|congruence].
Qed.
Lemma pretty_Z_no_hash (z : Z) : 0 ≤ z → rpartition "#" (pretty z) = None.
Proof.
  intros Hz. assert (pretty z = pretty (Z.to_N z)) as ->; [by destruct z|].
  pose proof (decimal_pretty (Z.to_N z)) as Hd. unfold decimal in Hd. destruct (nonempty _); [|done].
  by eapply digits_no_char; [|exact Hd].
Qed.
(** A create's planning key carries no incarnation mark of its own. *)
Lemma create_base_key deployment version fresh d role prefix i :
  i ∈ build_create_intents deployment version fresh d role prefix →
  rpartition "#" (role_text role +:+ ":" +:+ ci_seed i) = None.
Proof.
  unfold build_create_intents. case_match; [by intros ?%elem_of_nil|].
  intros (z & -> & [Hz _]%elem_of_seqZ)%list_elem_of_fmap.
  assert (ci_seed (create_intent deployment version (stable_hostname (str_or (default EmptyString prefix) fresh) EmptyString) role z)
    = stable_hostname (str_or (default EmptyString prefix) fresh) EmptyString
      +:+ (role_prefixes role).1.1.1 +:+ "-" +:+ pretty z) as ->.
  { by destruct role. }
  apply rpartition_app_None; [by destruct role|]. apply rpartition_app_None; [done|].
  apply rpartition_app_None; [by eapply no_hash, stable_hostname_chars|].
  apply rpartition_app_None; [by destruct role|]. apply rpartition_app_None; [done|]. apply pretty_Z_no_hash. lia.
Qed.
