(* ===== verification/Provider.v ===== *)
(** * Provider contract (ucloud_sandboxes/providers/base.py)

    The proofs of destructive instance loss a provider declares, observes and stores,
    and the normalized result of a provider mutation. *)
From S2P Require Import Prelude PyFloat Json PyString.
Local Open Scope py_scope.
Local Open Scope Z_scope.

(** A tag, the fields its evidence must have, and the evidence observed (or, in a
    provider's declaration, the values it insists on) *)
Record DestructiveInstanceLoss := mkLoss {
  loss_reason : string;
  loss_evidence_kind : string;
  required_evidence_fields : list string;
  loss_evidence : list (string * json)
}.

(** A JSON scalar, floats finite *)
Definition json_scalar (v : json) : bool :=
  match v with
  | JNull | JBool _ | JInt _ | JStr _ => true
  | JFloat x => isfinite x
  | _ => false
  end.
(** The loop over the evidence pairs; [seen] are the keys so far *)
Fixpoint clean_evidence (seen : list string) (l : list (string * json)) : res (list (string * json)) :=
  match l with
  | [] => Ok []
  | (raw_key, value) :: l =>
      let key := strip raw_key in
      raise_if (negb (nonempty key) || bool_decide (key ∈ seen) || negb (json_scalar value))
        (ValueError "destructive instance loss evidence must be unique JSON scalars")
        (let! rest := clean_evidence (seen ++ [key]) l in Ok ((key, value) :: rest))
  end.
(** [__post_init__] *)
Definition loss_init (d : DestructiveInstanceLoss) : res DestructiveInstanceLoss :=
  let reason := strip (loss_reason d) in
  let evidence_kind := strip (loss_evidence_kind d) in
  let fields := strip <$> required_evidence_fields d in
  let! evidence := clean_evidence [] (loss_evidence d) in
  raise_if (negb (nonempty reason) || negb (nonempty evidence_kind) || bool_decide (fields = [])
            || negb (forallb nonempty fields) || negb (bool_decide (NoDup fields)))
    (ValueError "destructive instance loss tags cannot be empty")
    (Ok (mkLoss reason evidence_kind fields evidence)).

(** [dict(self.evidence)]: the keys are unique *)
Definition evidence_payload (d : DestructiveInstanceLoss) : dict string json := loss_evidence d.
(** A concrete observation: neither null nor blank text *)
Definition concrete (v : json) : bool :=
  match v with JNull => false | JStr s => nonempty (strip s) | _ => true end.
Definition has_complete_evidence (d : DestructiveInstanceLoss) : bool :=
  forallb (λ f, match dget (evidence_payload d) f with Some v => concrete v | None => false end)
    (required_evidence_fields d).
(** [type(a) is type(b)] *)
Definition same_type (a b : json) : bool :=
  match a, b with
  | JNull, JNull | JBool _, JBool _ | JInt _, JInt _ | JFloat _, JFloat _ | JStr _, JStr _
  | JList _, JList _ | JObj _, JObj _ => true
  | _, _ => false
  end.
Definition matches (self observed : DestructiveInstanceLoss) : bool :=
  if negb (bool_decide (loss_reason self = loss_reason observed))
     || negb (bool_decide (loss_evidence_kind self = loss_evidence_kind observed))
     || negb (bool_decide (required_evidence_fields self = required_evidence_fields observed))
     || negb (has_complete_evidence observed) then false
  else forallb (λ fe, match dget (evidence_payload observed) fe.1 with
                      | Some v => same_type v fe.2 && json_eqb v fe.2
                      | None => false
                      end) (loss_evidence self).
Definition observe_loss (self : DestructiveInstanceLoss) (evidence : dict string json)
    : option DestructiveInstanceLoss :=
  match loss_init (mkLoss (loss_reason self) (loss_evidence_kind self) (required_evidence_fields self)
                     ((λ f, (f, jget evidence f)) <$> required_evidence_fields self)) with
  | Ok observed => if matches self observed then Some observed else None
  | Raise _ => None
  end.
Definition from_operation_request (self : DestructiveInstanceLoss) (request : dict string json)
    : option DestructiveInstanceLoss :=
  match jget request "lossEvidence" with JObj nested => observe_loss self nested | _ => None end.
Definition operation_request_fields (self : DestructiveInstanceLoss) (provider_kind : string)
    : res (dict string json) :=
  raise_if (negb (has_complete_evidence self)) (ValueError "destructive instance loss evidence is incomplete")
    (Ok [("providerKind", JStr provider_kind); ("lossEvidenceKind", JStr (loss_evidence_kind self));
         ("lossEvidence", JObj (evidence_payload self))]).

Inductive mutation_status := mut_accepted | mut_rejected | mut_uncertain.
Record ProviderMutationResult := mkMutation {
  mut_status : mutation_status;
  mut_instance_ids : list string;
  mut_response : dict string json;
  mut_error : string
}.
Definition mutation_init (r : ProviderMutationResult) : res ProviderMutationResult :=
  match mut_status r with
  | mut_accepted => raise_if (bool_decide (mut_instance_ids r = []))
                      (ValueError "accepted provider mutation must identify an instance") (Ok r)
  | _ => Ok r
  end.

(** What the controller uses of a provider's declaration *)
Record ComputeProvider := mkProvider {
  cp_kind : string;
  destructive_instance_losses : list DestructiveInstanceLoss
}.
