(* ===== verification/ProviderJournal.v ===== *)
(** * Submitting provider operations (ucloud_sandboxes/cli.py)

    The controller's use of the journal: which stops carry a safety proof, replaying
    and submitting prepared operations, recovering from the provider's inventory, and
    planning the creates of a cycle.  A provider's answers are the argument [answer]:
    what it returned to a submission, or the error it raised. *)
From S2P Require Import Prelude PyFloat Json PyString Resources Bytes ScaleModels.
From S2P Require Import AutoscalerState Provider Reconcile.
From stdpp Require Import gmap strings pretty.
From Stdlib Require Import Ascii.
Local Open Scope py_scope.
Local Open Scope Z_scope.

(** ** Drain acknowledgements *)

Definition is_json_bool (v : json) (b : bool) : bool :=
  match v with JBool c => Bool.eqb b c | _ => false end.
(** [str(v or "").strip()]; the controller writes no float, list or object there, and
    one of them reads as no text. *)
Definition text_of (v : json) : string :=
  match v with
  | JStr s => strip s
  | JInt z => if z =? 0 then EmptyString else pretty z
  | JBool true => "True"
  | _ => EmptyString
  end.
Definition drain_response_acknowledges (response : dict string json) (token : string) (draining : bool) : bool :=
  match jget response "drain" with
  | JObj drain =>
      bool_decide (text_of (jget drain "token") = strip token)
      && is_json_bool (jget drain "draining") draining
      && is_json_bool (jget drain "admission_open") (negb draining)
  | _ => false
  end.

(** ** Proofs of safety *)

Definition stop_operation_is_destructive_node_loss (op : ProviderOperation) : bool :=
  bool_decide (op_kind_of op = stop) && is_json_bool (jget (op_request op) "destructiveNodeLoss") true.
Definition provider_destructive_loss_disposition (p : ComputeProvider) (op : ProviderOperation)
    : option DestructiveInstanceLoss :=
  if negb (stop_operation_is_destructive_node_loss op) then None
  else
    let request := op_request op in
    if negb (bool_decide (text_of (jget request "providerKind") = cp_kind p)) then None
    else
      let reason := text_of (jget request "lossReason") in
      let evidence_kind := text_of (jget request "lossEvidenceKind") in
      list_find (λ d, loss_reason d = reason ∧ loss_evidence_kind d = evidence_kind)
        (destructive_instance_losses p) ≫= λ id, Some id.2.
(** [type(v) is int and v >= 0] and [type(v) is int and v == 0] *)
Definition is_count (v : json) : bool := match v with JInt z => 0 <=? z | _ => false end.
Definition is_zero (v : json) : bool := match v with JInt z => z =? 0 | _ => false end.
Definition stop_operation_has_safety_proof (d : autoscaler_db) (p : ComputeProvider) (op : ProviderOperation) : bool :=
  let request := op_request op in
  match op_kind_of op, op_target_job_ids op with
  | create, _ => true
  | stop, [job_id] =>
      if stop_operation_is_destructive_node_loss op then
        match provider_destructive_loss_disposition p op with
        | Some disposition =>
            negb (is_none (from_operation_request disposition request)) && is_count (jget request "routeCount")
        | None => false
        end
      else if is_json_bool (jget request "unreachableStaleReady") true then
        nonempty (text_of (jget request "unreachableReference"))
        && is_zero (jget request "routeCount") && is_zero (jget request "lastKnownActiveSandboxes")
        && is_json_bool (jget request "lastHeartbeatSafeToStop") true
        && (is_json_bool (jget request "lastHeartbeatPresent") false
            || is_json_bool (jget request "directProbeFailed") true)
      else
        let token := text_of (jget request "drainToken") in
        if negb (nonempty token) || negb (is_json_bool (jget request "drainReady") true) then false
        else match get_drain_intent d (op_deployment_id op) job_id with
             | Some intent => bool_decide (di_state intent = drain_active) && bool_decide (di_token intent = token)
                              && bool_decide (di_role intent = role_text (op_role_of op))
             | None => false
             end
  | stop, _ => false
  end.

(** ** Submission *)

(** The journal and the operations the provider was asked to perform, in order *)
Record controller := mkController {
  ct_db : autoscaler_db;
  ct_calls : list ProviderOperation
}.

Section submission.
Variable provider : ComputeProvider.
(** The provider's answer to a call, after the earlier calls *)
Variable answer : list ProviderOperation → ProviderOperation → res ProviderMutationResult.
(** The times of the two transactions around a call *)
Variable clock : ProviderOperation → Z * Z.
(** [str(exc)] *)
Variable exn_text : exn → string.

(** The transaction that records what came of a submission *)
Definition record_answer (a : res ProviderMutationResult) (operation_id : string) (now_us : Z) (d : autoscaler_db)
    : res (ProviderOperation * autoscaler_db) :=
  match a with
  | Raise e => mark_operation_uncertain operation_id (exn_text e) now_us d
  | Ok o =>
      match mut_status o with
      | mut_rejected => mark_operation_failed operation_id
                          (str_or (mut_error o) "provider explicitly rejected the operation")
                          (Some (mut_response o)) now_us d
      | mut_accepted => mark_operation_accepted operation_id (mut_response o) (mut_instance_ids o) now_us d
      | mut_uncertain => mark_operation_uncertain operation_id
                           (str_or (mut_error o) "provider response did not prove whether the operation applied") now_us d
      end
  end.
Definition submit (source : outcome_source) (c : controller) (prepared : ProviderOperation)
    : res (ProviderOperationOutcome * controller) :=
  let! '(submitting, d1) := begin_provider_call (op_id prepared) (clock prepared).1 (ct_db c) in
  let a := answer (ct_calls c) submitting in
  let! '(operation, d2) := record_answer a (op_id submitting) (clock prepared).2 d1 in
  let! out := from_operation operation source None None None in
  Ok (out, mkController d2 (ct_calls c ++ [submitting])).

(** A prepared operation this call may submit *)
Definition submittable (d : autoscaler_db) (allowed_kinds : list op_kind) (allowed_stops : list string)
    (op : ProviderOperation) : bool :=
  bool_decide (op_kind_of op ∈ allowed_kinds)
  && (bool_decide (op_kind_of op ≠ stop)
      || (bool_decide (op_id op ∈ allowed_stops) && stop_operation_has_safety_proof d provider op)).
Definition submit_step (source : outcome_source) (allowed_kinds : list op_kind) (allowed_stops : list string)
    (acc : list ProviderOperationOutcome * controller) (op : ProviderOperation)
    : res (list ProviderOperationOutcome * controller) :=
  if submittable (ct_db acc.2) allowed_kinds allowed_stops op
  then let! r := submit source acc.2 op in Ok (acc.1 ++ [r.1], r.2)
  else Ok acc.
Definition submission_rank (op : ProviderOperation) : Z :=
  if stop_operation_is_destructive_node_loss op then 0 else 1.
Definition submission_order (d : autoscaler_db) : list ProviderOperation :=
  sorted_by (λ a b, submission_rank a <=? submission_rank b) (list_operations d None [op_prepared]).
Definition apply_prepared_provider_operations (source : outcome_source) (allowed_kinds : list op_kind)
    (allowed_stops : list string) (c : controller) : res (list ProviderOperationOutcome * controller) :=
  res_foldl (submit_step source allowed_kinds allowed_stops) ([], c) (submission_order (ct_db c)).

(** ** Recovery at the start of a cycle *)

Definition suppress_obsolete (now_us : Z) (acc : list ProviderOperationOutcome * autoscaler_db) (op : ProviderOperation)
    : res (list ProviderOperationOutcome * autoscaler_db) :=
  if stop_operation_is_destructive_node_loss op && negb (stop_operation_has_safety_proof acc.2 provider op)
  then
    let! '(suppressed, d) := suppress_prepared_operation (op_id op)
        "obsolete destructive stop authorization; automatic retry disabled" now_us acc.2 in
    let! out := from_operation suppressed journal None None None in
    Ok (acc.1 ++ [out], d)
  else Ok acc.
Record visibility_guard := mkGuard {
  vg_operation_id : string;
  vg_role : op_role;
  vg_missing_job_ids : list string
}.
Definition missing_job_ids (jobs : list ProviderInstance) (op : ProviderOperation) : list string :=
  sorted_by string_leb (from_keys (filter (λ j, j ∉ (instance_id <$> jobs)) (op_target_job_ids op))).
Definition visibility_guards (jobs : list ProviderInstance) (d : autoscaler_db) : list visibility_guard :=
  (λ op, mkGuard (op_id op) (op_role_of op) (missing_job_ids jobs op))
    <$> filter (λ op, missing_job_ids jobs op ≠ []) (list_operations d (Some create) [op_accepted]).
Definition reconcile_provider_operation_inventory (jobs : list ProviderInstance)
    (execution_authorized execute : bool) (now_us : Z) (c : controller)
    : res (list ProviderOperationOutcome * list visibility_guard * list op_role * controller) :=
  if negb execution_authorized then Ok ([], [], [], c)
  else
    let! '(recovered, d1) := reconcile_provider_inventory jobs now_us (ct_db c) in
    let! '(results, d2) := res_foldl (suppress_obsolete now_us) (recovered, d1)
                             (list_operations d1 (Some stop) [op_prepared]) in
    let! '(replayed, c') := apply_prepared_provider_operations prepared_replay (if execute then [create] else []) []
                              (mkController d2 (ct_calls c)) in
    let guards := visibility_guards jobs (ct_db c') in
    let blocked := (op_role_of <$> list_operations (ct_db c') (Some create) [op_uncertain; op_accepted])
                   ++ (out_role <$> filter (λ o, out_kind o = create ∧ out_state o = out_accepted) replayed)
                   ++ (vg_role <$> guards) in
    Ok (results ++ replayed, guards, from_keys blocked, c').
End submission.

(** ** Planning a create *)

Section planning.
Variable uuid5_hex : string → string.
(** [provider.render_create_request] *)
Variable render_create_request : list InstanceCreateIntent → res (dict string json).

Definition create_base (role : op_role) (intent : InstanceCreateIntent) : string :=
  role_text role +:+ ":" +:+ ci_seed intent.
(** One turn of the loop that journals a cycle's creates *)
Definition journal_create (deployment_id : string) (role : op_role) (intent : InstanceCreateIntent)
    (allocated_us prepared_us : Z) (d : autoscaler_db)
    : res (ProviderOperation * InstanceCreateIntent * autoscaler_db) :=
  let! '(intent_key, d1) := allocate_operation_intent_key deployment_id "create" (create_base role intent) allocated_us d in
  let! operation_id := stable_provider_operation_id uuid5_hex deployment_id "create" intent_key in
  let! labeled := with_provider_operation_label intent operation_id (Some deployment_id) in
  let! request := render_create_request [labeled] in
  let! '(operation, d2) := prepare_operation uuid5_hex intent_key "create" deployment_id request (role_text role) []
                             prepared_us d1 in
  Ok (operation, labeled, d2).
End planning.

(** ** One submission per create intent *)

Section once.
Variable uuid5_hex : string → string.
Variable render_create_request : list InstanceCreateIntent → res (dict string json).
Variable provider : ComputeProvider.
Variable answer : list ProviderOperation → ProviderOperation → res ProviderMutationResult.
Variable clock : ProviderOperation → Z * Z.
Variable exn_text : exn → string.

(** What the controller does to its journal and to the provider.  A process that dies
    between two transactions leaves the effect of the first: a reservation without its
    operation, a begun call without the call, a call without its record. *)
Inductive controller_step (c : controller) : controller → Prop :=
| cs_reserve dep version fresh decision role prefix intent now key d :
    intent ∈ build_create_intents dep version fresh decision role prefix →
    allocate_operation_intent_key dep "create" (create_base role intent) now (ct_db c) = Ok (key, d) →
    controller_step c (mkController d (ct_calls c))
| cs_create dep version fresh decision role prefix intent now now' op labeled d :
    intent ∈ build_create_intents dep version fresh decision role prefix →
    journal_create uuid5_hex render_create_request dep role intent now now' (ct_db c) = Ok (op, labeled, d) →
    controller_step c (mkController d (ct_calls c))
| cs_stop dep key request role targets now op d :
    prepare_operation uuid5_hex key "stop" dep request role targets now (ct_db c) = Ok (op, d) →
    controller_step c (mkController d (ct_calls c))
| cs_begin operation_id now op d :
    begin_provider_call operation_id now (ct_db c) = Ok (op, d) →
    controller_step c (mkController d (ct_calls c))
| cs_call operation_id now op d :
    begin_provider_call operation_id now (ct_db c) = Ok (op, d) →
    controller_step c (mkController d (ct_calls c ++ [op]))
| cs_record a operation_id now op d :
    record_answer exn_text a operation_id now (ct_db c) = Ok (op, d) →
    controller_step c (mkController d (ct_calls c))
| cs_apply source kinds stops outs c' :
    apply_prepared_provider_operations provider answer clock exn_text source kinds stops c = Ok (outs, c') →
    controller_step c c'
| cs_recover jobs authorized execute now outs guards blocked c' :
    reconcile_provider_operation_inventory provider answer clock exn_text jobs authorized execute now c
      = Ok (outs, guards, blocked, c') →
    controller_step c c'
| cs_compact keep : controller_step c (mkController (compact_terminal_history keep (ct_db c)).2 (ct_calls c))
| cs_drain dep job role fresh now i d :
    prepare_drain_intent dep job role fresh now (ct_db c) = Ok (i, d) → controller_step c (mkController d (ct_calls c))
| cs_cancel dep job now i d :
    begin_drain_cancellation dep job now (ct_db c) = Ok (i, d) → controller_step c (mkController d (ct_calls c))
| cs_retire dep job i d :
    retire_drain_intent dep job (ct_db c) = Ok (i, d) → controller_step c (mkController d (ct_calls c))
| cs_rotate dep pending recorded budget now picked d :
    rotate_pending_deletes dep pending recorded budget now (ct_db c) = Ok (picked, d) →
    controller_step c (mkController d (ct_calls c)).

Definition create_calls (calls : list ProviderOperation) : list (string * string) :=
  (λ op, (op_deployment_id op, op_intent_key op)) <$> filter (λ op, op_kind_of op = create) calls.
Definition controller_ok (c : controller) : Prop :=
  ∃ begun, journal_ok uuid5_hex (ct_db c) begun ∧ create_calls (ct_calls c) ⊆ begun ∧
    NoDup (create_calls (ct_calls c)).

Lemma create_calls_snoc calls op : create_calls (calls ++ [op]) =
  create_calls calls ++ (if bool_decide (op_kind_of op = create) then [(op_deployment_id op, op_intent_key op)] else []).
Proof.
  unfold create_calls. rewrite filter_app, fmap_app. f_equal. rewrite filter_cons, filter_nil.
  rewrite <-decide_bool_decide. by destruct (decide _).
Qed.
Lemma begin_call_ok c operation_id now op d :
  begin_provider_call operation_id now (ct_db c) = Ok (op, d) → controller_ok c →
  controller_ok (mkController d (ct_calls c ++ [op])).
Proof.
  unfold begin_provider_call. intros E (begun & J & Hsub & Hnd).
  pose proof E as (o & Ho & Hst & _ & Ekey & Ek & Ed & _)%transition_Ok. apply list_elem_of_singleton in Hst.
  eexists. split_and!; simpl; [eapply transition_ok; [exact E|set_solver|done|exact J]| |];
    rewrite create_calls_snoc; case_bool_decide as Hk; rewrite ?app_nil_r; try done.
  - set_solver.
  - apply NoDup_app. split_and!; [done| |apply NoDup_singleton]. intros x Hx ->%list_elem_of_singleton.
    rewrite Ekey, Ed in Hx. by eapply not_begun; [exact J|exact Ho|congruence|done|apply Hsub].
Qed.
Lemma controller_ok_mono c d calls : controller_ok (mkController d (calls ++ c)) → controller_ok (mkController d calls).
Proof.
  intros (begun & J & Hsub & Hnd). simpl in *.
  assert (create_calls (calls ++ c) = create_calls calls ++ create_calls c) as E
    by (unfold create_calls; by rewrite filter_app, fmap_app).
  rewrite E in Hsub, Hnd. exists begun. split_and!; simpl; [done|set_solver|].
  by apply NoDup_app in Hnd as (? & _).
Qed.
Lemma journal_step_ok c d : (∀ begun, journal_ok uuid5_hex (ct_db c) begun → journal_ok uuid5_hex d begun) →
  controller_ok c → controller_ok (mkController d (ct_calls c)).
Proof. intros Hd (begun & J & Hs). exists begun. auto. Qed.
Lemma record_answer_ok a operation_id now op d d' begun :
  record_answer exn_text a operation_id now d = Ok (op, d') →
  journal_ok uuid5_hex d begun → journal_ok uuid5_hex d' begun.
Proof.
  intros E J. assert (quiet uuid5_hex d d' begun) as [? _]; [|done].
  unfold record_answer, mark_operation_uncertain, mark_operation_failed, mark_operation_accepted in E.
  destruct a as [o|e]; [destruct (mut_status o)|]; (eapply transition_quiet; [exact E|set_solver|done|exact J]).
Qed.
Lemma submit_ok source c op out c' :
  submit answer clock exn_text source c op = Ok (out, c') → controller_ok c → controller_ok c'.
Proof.
  unfold submit. intros ([sub d1] & E1 & E)%res_bind_Ok Hc. apply res_bind_Ok in E as ([o d2] & E2 & E).
  apply res_bind_Ok in E as (out' & _ & [= <- <-]).
  apply (journal_step_ok (mkController d1 (ct_calls c ++ [sub]))); [|by eapply begin_call_ok].
  intros begun. by eapply record_answer_ok.
Qed.
Lemma apply_prepared_ok source kinds stops c outs c' :
  apply_prepared_provider_operations provider answer clock exn_text source kinds stops c = Ok (outs, c') →
  controller_ok c → controller_ok c'.
Proof.
  intros E Hc. refine (res_foldl_inv _ (λ a, controller_ok a.2) _ ([], c) (outs, c') _ Hc E).
  intros [rs a] op [rs' a'] _ Ha. unfold submit_step. destruct (submittable _ _ _ _ _); [|by intros [= <- <-]].
  intros ([o c1] & E1 & [= <- <-])%res_bind_Ok. by eapply submit_ok.
Qed.
Lemma suppress_obsolete_ok now acc op acc' begun :
  suppress_obsolete provider now acc op = Ok acc' →
  journal_ok uuid5_hex acc.2 begun → journal_ok uuid5_hex acc'.2 begun.
Proof.
  unfold suppress_obsolete. destruct (_ && _); [|by intros [= <-]].
  intros ([o d1] & E & E2)%res_bind_Ok J. apply res_bind_Ok in E2 as (out & _ & [= <-]). simpl.
  assert (quiet uuid5_hex acc.2 d1 begun) as [? _]; [|done].
  unfold suppress_prepared_operation in E. eapply transition_quiet; [exact E|set_solver|done|exact J].
Qed.
Lemma recover_ok jobs authorized execute now c outs guards blocked c' :
  reconcile_provider_operation_inventory provider answer clock exn_text jobs authorized execute now c
    = Ok (outs, guards, blocked, c') → controller_ok c → controller_ok c'.
Proof.
  unfold reconcile_provider_operation_inventory. destruct (negb authorized); [by intros [= <- <- <- <-]|].
  intros ([r1 d1] & E1 & E)%res_bind_Ok Hc. apply res_bind_Ok in E as ([r2 d2] & E2 & E).
  apply res_bind_Ok in E as ([r3 c3] & E3 & [= <- <- <- <-]). eapply apply_prepared_ok; [exact E3|].
  apply (journal_step_ok c); [|done]. intros begun J.
  refine (res_foldl_inv _ (λ a, journal_ok uuid5_hex a.2 begun) _ (r1, d1) (r2, d2) _ _ E2).
  - intros a op a' _ Ja Ea. by eapply suppress_obsolete_ok.
  - simpl. by eapply reconcile_quiet in E1 as [? _].
Qed.
Lemma create_step_ok dep role intent now now' op labeled d d' begun :
  journal_create uuid5_hex render_create_request dep role intent now now' d = Ok (op, labeled, d') →
  rpartition "#"%char (create_base role intent) = None → journal_ok uuid5_hex d begun → journal_ok uuid5_hex d' begun.
Proof.
  unfold journal_create. intros ([key d1] & E1 & E)%res_bind_Ok Hh J.
  apply res_bind_Ok in E as (id & _ & E). apply res_bind_Ok in E as (lab & _ & E).
  apply res_bind_Ok in E as (req & _ & E). apply res_bind_Ok in E as ([o d2] & E2 & [= _ _ <-]).
  destruct (allocate_ok _ _ _ _ _ _ _ _ E1 (split_base _ (rpartition_strip _ _ Hh)) J) as (J1 & Ho & Hk & _).
  eapply prepare_create_ok; [exact E2| |exact J1]. rewrite Hk. exact Ho.
Qed.
Lemma side_ok c d : provider_operations d = provider_operations (ct_db c) →
  operation_slots d = operation_slots (ct_db c) → controller_ok c → controller_ok (mkController d (ct_calls c)).
Proof. intros H1 H2. apply journal_step_ok. intros begun. by apply journal_ok_same. Qed.
Local Ltac drain_effect :=
  repeat match goal with
  | E : res_bind _ _ = Ok _ |- _ => apply res_bind_Ok in E as (? & _ & E)
  | E : raise_if _ _ _ = Ok _ |- _ => apply raise_if_Ok in E as [_ E]
  | E : match ?x with _ => _ end = Ok _ |- _ => destruct x
  end; simplify_eq; by apply side_ok.
Lemma controller_step_ok c c' : controller_step c c' → controller_ok c → controller_ok c'.
Proof.
  intros Hs Hc. destruct Hs as [dep v f de role pre i now key d Hi E|dep v f de role pre i now now' op l d Hi E
    |dep key req role tgt now op d E|id now op d E|id now op d E|a id now op d E|src kinds stops outs c' E
    |jobs au ex now outs gu bl c' E|keep|dep j r f now i d E|dep j now i d E|dep j i d E|dep p r b now pk d E].
  - apply (journal_step_ok c); [|done]. intros begun J.
    eapply allocate_ok; [exact E|by eapply split_base, rpartition_strip, create_base_key|exact J].
  - apply (journal_step_ok c); [|done]. intros begun J. eapply create_step_ok; [exact E|by eapply create_base_key|done].
  - apply (journal_step_ok c); [|done]. intros begun. by eapply prepare_stop_ok.
  - eapply controller_ok_mono, begin_call_ok; [exact E|done].
  - by eapply begin_call_ok.
  - apply (journal_step_ok c); [|done]. intros begun. by eapply record_answer_ok.
  - by eapply apply_prepared_ok.
  - by eapply recover_ok.
  - apply (journal_step_ok c); [|done]. intros begun. apply compact_ok.
  - unfold prepare_drain_intent in E. drain_effect.
  - unfold begin_drain_cancellation in E. drain_effect.
  - unfold retire_drain_intent in E. drain_effect.
  - unfold rotate_pending_deletes in E. drain_effect.
Qed.
End once.

(** ** What a submission pass does *)

Section pass.
Variable provider : ComputeProvider.
Variable answer : list ProviderOperation → ProviderOperation → res ProviderMutationResult.
Variable clock : ProviderOperation → Z * Z.
Variable exn_text : exn → string.

(** The operation as the provider is handed it *)
Definition submitted (op : ProviderOperation) : ProviderOperation :=
  mkOperation (op_id op) (op_intent_key op) (op_kind_of op) (op_deployment_id op) (op_role_of op) op_uncertain
    (op_request op) (op_response op) (op_target_job_ids op) (op_created_at_us op) (clock op).1 (op_last_error op).
(** What an operation's row becomes once it was handed over *)
Definition handed_over (op : ProviderOperation) (row : option ProviderOperation) : Prop :=
  ∃ op', row = Some op' ∧ op_state_of op' ∈ [op_accepted; op_failed; op_uncertain] ∧
    op_kind_of op' = op_kind_of op ∧ op_role_of op' = op_role_of op.

Lemma submit_total source c op : ids_ok (ct_db c) →
  provider_operations (ct_db c) !! op_id op = Some op → op_state_of op = op_prepared →
  ∃ out c', submit answer clock exn_text source c op = Ok (out, c') ∧ out_operation_id out = op_id op ∧
    ct_calls c' = ct_calls c ++ [submitted op] ∧ handed_over op (provider_operations (ct_db c') !! op_id op) ∧
    drain_intents (ct_db c') = drain_intents (ct_db c) ∧ ids_ok (ct_db c') ∧
    ∀ j, j ≠ op_id op → provider_operations (ct_db c') !! j = provider_operations (ct_db c) !! j.
Proof.
  intros Hid Hop Hst. unfold submit, begin_provider_call.
  destruct (transition_total op [op_prepared] op_uncertain None None None (clock op).1 (ct_db c) Hid Hop)
    as (s & d1 & E & Es & _ & Ek & _ & Er & Est & Hrows & Hdr & Hid1); [set_solver|].
  assert (s = submitted op) as Esub.
  { unfold transition_operation, operation_row in E. rewrite Hop in E. simpl in E. rewrite Hst in E. by injection E. }
  rewrite E. simpl.
  assert (∃ new resp tgt err, record_answer exn_text (answer (ct_calls c) s) (op_id s) (clock op).2 d1
    = transition_operation (op_id s) [op_uncertain] new resp tgt err (clock op).2 d1 ∧
    new ∈ [op_accepted; op_failed; op_uncertain]) as (new & resp & tgt & err & -> & Hnew).
  { unfold record_answer, mark_operation_uncertain, mark_operation_failed, mark_operation_accepted.
    destruct (answer _ s) as [o|e]; [destruct (mut_status o)|]; do 4 eexists; (split; [done|set_solver]). }
  destruct (transition_total s [op_uncertain] new resp tgt err (clock op).2 d1 Hid1)
    as (o & d2 & E2 & Eo & _ & Ek2 & _ & Er2 & Est2 & Hrows2 & Hdr2 & Hid2).
  { by rewrite Hrows, Es, lookup_insert_eq. }
  { set_solver. }
  rewrite E2. simpl. destruct (Hid2 (op_id o) o) as [_ Hne]; [by rewrite Hrows2, Eo, lookup_insert_eq|].
  destruct (from_operation_total o source None None None Hne) as (out & -> & Eout & _); [by rewrite Est2|]. simpl.
  do 2 eexists. split; [done|]. rewrite Eout. split_and!; simpl; try congruence.
  - exists o. rewrite Hrows2, Es, lookup_insert_eq. split_and!; congruence.
  - exact Hid2.
  - intros j Hj. rewrite Hrows2, Hrows, Es. by rewrite !lookup_insert_ne by congruence.
Qed.

Variables (source : outcome_source) (kinds : list op_kind) (stops : list string).

(** One turn of the loop, with the drain intents the proofs are read against *)
Definition submit_turn (dr : autoscaler_db) (a : list ProviderOperationOutcome * controller) (op : ProviderOperation)
    (a' : list ProviderOperationOutcome * controller) : Prop :=
  drain_intents (ct_db a.2) = drain_intents dr →
  drain_intents (ct_db a'.2) = drain_intents dr ∧
  if submittable provider dr kinds stops op
  then (∃ out, a'.1 = a.1 ++ [out] ∧ out_operation_id out = op_id op) ∧
       ct_calls a'.2 = ct_calls a.2 ++ [submitted op] ∧
       handed_over op (provider_operations (ct_db a'.2) !! op_id op) ∧
       ∀ j, j ≠ op_id op → provider_operations (ct_db a'.2) !! j = provider_operations (ct_db a.2) !! j
  else a' = a.
Lemma submittable_drains d d' op : drain_intents d = drain_intents d' →
  submittable provider d kinds stops op = submittable provider d' kinds stops op.
Proof. intros E. unfold submittable, stop_operation_has_safety_proof, get_drain_intent. by rewrite E. Qed.
Lemma submit_chain dr l a a' : chain (submit_turn dr) a l a' → drain_intents (ct_db a.2) = drain_intents dr →
  NoDup (op_id <$> l) →
  let sel := filter (λ op, submittable provider dr kinds stops op = true) l in
  drain_intents (ct_db a'.2) = drain_intents dr ∧ ct_calls a'.2 = ct_calls a.2 ++ (submitted <$> sel) ∧
  out_operation_id <$> a'.1 = (out_operation_id <$> a.1) ++ (op_id <$> sel) ∧
  (∀ op, op ∈ sel → handed_over op (provider_operations (ct_db a'.2) !! op_id op)) ∧
  ∀ j, j ∉ (op_id <$> sel) → provider_operations (ct_db a'.2) !! j = provider_operations (ct_db a.2) !! j.
Proof.
  revert a. induction l as [|op l IH]; intros a; csimpl.
  { intros -> Hd _. rewrite filter_nil, !app_nil_r. split_and!; [done..|set_solver|done]. }
  intros (a1 & Ht & Hc) Hd Hnd. apply NoDup_cons in Hnd as [Hni Hnd].
  destruct (Ht Hd) as [Hd1 Hs]. destruct (IH a1 Hc Hd1 Hnd) as (Hd2 & Hcalls & Houts & Hhand & Hfr).
  rewrite filter_cons. destruct (submittable provider dr kinds stops op); csimpl.
  - destruct Hs as ((out & Eo & Eid) & Ec & Hh & Hf). split_and!; [done| | | |].
    + by rewrite Hcalls, Ec, <-app_assoc.
    + by rewrite Houts, Eo, fmap_app, <-app_assoc, <-Eid.
    + intros o [->|Ho]%elem_of_cons; [|by apply Hhand]. rewrite Hfr; [done|].
      intros (o & Eo' & Ho)%list_elem_of_fmap. apply Hni. rewrite Eo'. apply list_elem_of_fmap_2.
      by apply list_elem_of_filter in Ho as [_ ?].
    + intros j Hj. rewrite Hfr, Hf; [done|set_solver|set_solver].
  - subst a1. split_and!; done.
Qed.
Lemma apply_prepared_spec c : ids_ok (ct_db c) →
  ∃ outs c', apply_prepared_provider_operations provider answer clock exn_text source kinds stops c = Ok (outs, c') ∧
  let sel := filter (λ op, submittable provider (ct_db c) kinds stops op = true) (submission_order (ct_db c)) in
  ct_calls c' = ct_calls c ++ (submitted <$> sel) ∧ out_operation_id <$> outs = op_id <$> sel ∧
  (∀ op, op ∈ sel → handed_over op (provider_operations (ct_db c') !! op_id op)) ∧
  (∀ j, j ∉ (op_id <$> sel) → provider_operations (ct_db c') !! j = provider_operations (ct_db c) !! j) ∧ ids_ok (ct_db c').
Proof.
  intros Hid. unfold apply_prepared_provider_operations.
  destruct (listed_rows (ct_db c) None [op_prepared] Hid) as [Hnd Hl].
  assert (NoDup (op_id <$> submission_order (ct_db c))) as Hnd' by (unfold submission_order; by rewrite sorted_by_perm).
  destruct (rows_loop (λ a : list ProviderOperationOutcome * controller, ct_db a.2)
    (submit_step provider answer clock exn_text source kinds stops) (submit_turn (ct_db c))
    (submission_order (ct_db c)) ([], c)) as (a' & E & Hc & Hid' & _); [|done| |done|].
  - intros a op Hop Hida Hrow. unfold submission_order in Hop. rewrite sorted_by_perm in Hop.
    assert (op_state_of op = op_prepared) as Hst by (apply elem_of_list_operations in Hop; set_solver).
    unfold submit_step, submit_turn. destruct (submittable provider (ct_db a.2) kinds stops op) eqn:Es.
    + destruct (submit_total source a.2 op Hida Hrow Hst) as (out & c1 & -> & Eo & Hcalls & Hh & Hdr & Hid1 & Hfr). simpl.
      eexists. split_and!; [done| |done|done]. simpl. intros Hd. rewrite <-(submittable_drains _ _ op Hd), Es.
      split_and!; [congruence|eauto|done|done|done].
    + exists a. split_and!; [done| |done|done]. intros Hd. by rewrite <-(submittable_drains _ _ op Hd), Es.
  - intros op Hop. apply Hl. unfold submission_order in Hop. by rewrite sorted_by_perm in Hop.
  - destruct a' as [outs c']. exists outs, c'. split; [done|].
    destruct (submit_chain (ct_db c) _ _ _ Hc eq_refl Hnd') as (_ & ? & ? & ? & ?). split_and!; done.
Qed.
End pass.

(** A prepared create is always submitted when creates are allowed. *)
Lemma no_prepared_left c' d provider i op :
  let sel := filter (λ op, submittable provider d [create] [] op = true) (submission_order d) in
  (∀ op, op ∈ sel → handed_over op (provider_operations (ct_db c') !! op_id op)) →
  (∀ j, j ∉ (op_id <$> sel) → provider_operations (ct_db c') !! j = provider_operations d !! j) →
  ids_ok (ct_db c') → provider_operations (ct_db c') !! i = Some op → op_kind_of op = create →
  op_state_of op = op_prepared → False.
Proof.
  intros sel Hhand Hfr Hid Hi Hk Hst. destruct (Hid _ _ Hi) as [-> _].
  destruct (decide (op_id op ∈ (op_id <$> sel))) as [(o & Eo & Ho)%list_elem_of_fmap|Hn].
  - destruct (Hhand o Ho) as (o' & E & Ho' & _). rewrite <-Eo, Hi in E. injection E as <-. rewrite Hst in Ho'. set_solver.
  - apply Hn. apply list_elem_of_fmap. exists op. split; [done|]. apply list_elem_of_filter. split.
    + unfold submittable. by rewrite Hk.
    + unfold submission_order. rewrite sorted_by_perm. apply elem_of_list_operations.
      split_and!; [exists (op_id op); by rewrite <-Hfr|by left|right; set_solver].
Qed.
Lemma suppress_own provider now op : op_state_of op = op_prepared → own_row (suppress_obsolete provider now) op.
Proof.
  intros Hst [rs d] Hid Hrow. simpl in *. unfold suppress_obsolete. destruct (_ && _); [|by exists (rs, d)].
  unfold suppress_prepared_operation. simpl.
  edestruct (transition_total op [op_prepared]) as (o & d' & E & Eo & _ & _ & _ & _ & Est & Hr & _ & Hid');
    [exact Hid|exact Hrow|set_solver|]. rewrite E. simpl. destruct (Hid' (op_id o) o) as [_ Hne].
  { by rewrite Hr, Eo, lookup_insert_eq. }
  destruct (from_operation_total o journal None None None Hne) as (out & -> & _); [rewrite Est; set_solver|]. simpl.
  eexists. split_and!; [done|done|done|]. intros j Hj. simpl. rewrite Hr. by rewrite lookup_insert_ne.
Qed.

Definition controller_start : controller := mkController empty_autoscaler [].

Lemma reachable_ok uuid5_hex render provider answer clock exn_text c :
  rtc (controller_step uuid5_hex render provider answer clock exn_text) controller_start c → controller_ok uuid5_hex c.
Proof.
  intros Hr. remember controller_start as c0 eqn:E0.
  assert (controller_ok uuid5_hex c0) as H0.
  { subst. exists []. split_and!; [apply empty_autoscaler_ok|done|apply NoDup_nil_2]. }
  clear E0. induction Hr as [c|c1 c2 c3 Hs _ IH]; [done|]. apply IH. by eapply controller_step_ok.
Qed.

(** C9. A create is submitted once: whatever the controller does - planning, crashing
    between two transactions, replaying, recovering from the inventory, forgetting old
    history - no two provider calls were made for the same create intent. *)
Theorem create_submitted_once uuid5_hex render provider answer clock exn_text c :
  rtc (controller_step uuid5_hex render provider answer clock exn_text) controller_start c →
  NoDup (create_calls (ct_calls c)).
Proof. intros Hr. by destruct (reachable_ok _ _ _ _ _ _ _ Hr) as (begun & _ & _ & ?). Qed.

(** C28. A submission pass of a reachable controller never fails, and submits exactly the
    prepared operations it may - destructive stops first, stops only where allowed and
    with a safety proof - each handed over once and none of them left prepared; every
    other row of the journal stays as it was. *)
Theorem submission_pass_exact uuid5_hex render provider answer clock exn_text source kinds stops c :
  rtc (controller_step uuid5_hex render provider answer clock exn_text) controller_start c →
  ∃ outs c', apply_prepared_provider_operations provider answer clock exn_text source kinds stops c = Ok (outs, c') ∧
  let sel := filter (λ op, submittable provider (ct_db c) kinds stops op = true) (submission_order (ct_db c)) in
  ct_calls c' = ct_calls c ++ (submitted clock <$> sel) ∧ out_operation_id <$> outs = op_id <$> sel ∧
  (∀ op, op ∈ sel → handed_over op (provider_operations (ct_db c') !! op_id op)) ∧
  ∀ j, j ∉ (op_id <$> sel) → provider_operations (ct_db c') !! j = provider_operations (ct_db c) !! j.
Proof.
  intros Hr. destruct (reachable_ok _ _ _ _ _ _ _ Hr) as (begun & J & _).
  destruct (apply_prepared_spec provider answer clock exn_text source kinds stops c) as (outs & c' & E & ? & ? & ? & ? & _).
  { by eapply journal_ids_ok. }
  exists outs, c'. split_and!; done.
Qed.

(** C27. A create that is not settled blocks its role: recovery at the start of a cycle
    never fails, and afterwards every create that is prepared, uncertain or accepted
    has its role among the blocked ones, so the cycle plans no further creates for it. *)
Theorem create_visibility_fence uuid5_hex render provider answer clock exn_text jobs now c :
  rtc (controller_step uuid5_hex render provider answer clock exn_text) controller_start c →
  ∃ outs guards blocked c',
    reconcile_provider_operation_inventory provider answer clock exn_text jobs true true now c
      = Ok (outs, guards, blocked, c') ∧
    ∀ i op, provider_operations (ct_db c') !! i = Some op → op_kind_of op = create →
      op_terminal (op_state_of op) = false → op_role_of op ∈ blocked.
Proof.
  intros Hr. destruct (reachable_ok _ _ _ _ _ _ _ Hr) as (begun & J & _). unfold reconcile_provider_operation_inventory.
  destruct (reconcile_total jobs now (ct_db c)) as (r1 & d1 & -> & Hid1); [by eapply journal_ids_ok|]. simpl.
  destruct (recovery_loop (suppress_obsolete provider now) (Some stop) [op_prepared] r1 d1) as ([r2 d2] & -> & Hid2);
    [|done|].
  { intros op Hop. apply suppress_own. apply elem_of_list_operations in Hop. set_solver. }
  simpl. destruct (apply_prepared_spec provider answer clock exn_text prepared_replay [create] [] (mkController d2 (ct_calls c)) Hid2)
    as (r3 & c3 & -> & Hcalls & _ & Hhand & Hfr & Hid3). simpl.
  do 4 eexists. split; [done|]. intros i op Hi Hk Ht. apply elem_of_from_keys, elem_of_app. left.
  apply list_elem_of_fmap. exists op. split; [done|]. apply elem_of_list_operations. split_and!; [by exists i|by rewrite Hk; right|right].
  destruct (op_state_of op) eqn:Est; try done; [exfalso|set_solver|set_solver].
  by eapply (no_prepared_left c3 d2).
Qed.

(** ** A concrete run: one create planned and submitted *)

Definition demo_uuid (s : string) : string := s.
Definition demo_render (_ : list InstanceCreateIntent) : res (dict string json) := Ok [("count", JInt 1)].
Definition demo_provider : ComputeProvider := mkProvider "ucloud" [].
Definition demo_answer (_ : list ProviderOperation) (_ : ProviderOperation) : res ProviderMutationResult :=
  Ok (mkMutation mut_accepted ["job-1"] [] EmptyString).
Definition demo_clock (_ : ProviderOperation) : Z * Z := (20, 30).
Definition demo_exn (_ : exn) : string := "error".
Definition demo_decision : ScaleDecision :=
  mkDecision [mkAction "create" 1 [] "demand"] 0 0 0 [] 0 rq_zero rq_zero 0 0 rq_zero rq_zero rq_zero rq_zero
    None false false 0 EmptyString false [].
Definition demo_intents : list InstanceCreateIntent :=
  build_create_intents "prod" "1.0" "abc" demo_decision sandbox_role None.
Definition demo_intent : InstanceCreateIntent :=
  default (mkIntent EmptyString sandbox_role EmptyString EmptyString EmptyString []) (head demo_intents).
Definition demo_journal : ProviderOperation * InstanceCreateIntent * autoscaler_db :=
  match journal_create demo_uuid demo_render "prod" sandbox_role demo_intent 5 10 empty_autoscaler with
  | Ok r => r
  | Raise _ => (mkOperation EmptyString EmptyString create EmptyString sandbox_role op_failed [] [] [] 0 0 EmptyString,
                demo_intent, empty_autoscaler)
  end.
Definition demo_planned : controller := mkController demo_journal.2 [].
Definition demo_applied : list ProviderOperationOutcome * controller :=
  match apply_prepared_provider_operations demo_provider demo_answer demo_clock demo_exn planned [create] []
          demo_planned with
  | Ok r => r
  | Raise _ => ([], demo_planned)
  end.

Lemma demo_planned_step :
  controller_step demo_uuid demo_render demo_provider demo_answer demo_clock demo_exn controller_start demo_planned.
Proof.
  apply (cs_create demo_uuid demo_render demo_provider demo_answer demo_clock demo_exn controller_start
    "prod" "1.0" "abc" demo_decision sandbox_role None demo_intent 5 10 demo_journal.1.1 demo_journal.1.2 demo_journal.2).
  - apply list_elem_of_In. left. vm_compute. reflexivity.
  - vm_compute. reflexivity.
Qed.
Lemma demo_applied_step :
  controller_step demo_uuid demo_render demo_provider demo_answer demo_clock demo_exn demo_planned demo_applied.2.
Proof.
  apply (cs_apply demo_uuid demo_render demo_provider demo_answer demo_clock demo_exn demo_planned planned [create] []
    demo_applied.1). vm_compute. reflexivity.
Qed.

Lemma create_submitted_once_witness :
  length (ct_calls demo_applied.2) = 1%nat ∧ NoDup (create_calls (ct_calls demo_applied.2)).
Proof.
  split; [vm_compute; reflexivity|].
  apply (create_submitted_once demo_uuid demo_render demo_provider demo_answer demo_clock demo_exn demo_applied.2).
  eapply rtc_l; [apply demo_planned_step|]. eapply rtc_l; [apply demo_applied_step|]. apply rtc_refl.
Defined.
Lemma submission_pass_exact_witness :
  length (submission_order (ct_db demo_planned)) = 1%nat ∧
  ∃ outs c', apply_prepared_provider_operations demo_provider demo_answer demo_clock demo_exn planned [create] []
    demo_planned = Ok (outs, c') ∧
  let sel := filter (λ op, submittable demo_provider (ct_db demo_planned) [create] [] op = true)
               (submission_order (ct_db demo_planned)) in
  ct_calls c' = ct_calls demo_planned ++ (submitted demo_clock <$> sel) ∧ out_operation_id <$> outs = op_id <$> sel ∧
  (∀ op, op ∈ sel → handed_over op (provider_operations (ct_db c') !! op_id op)) ∧
  ∀ j, j ∉ (op_id <$> sel) → provider_operations (ct_db c') !! j = provider_operations (ct_db demo_planned) !! j.
Proof.
  split; [vm_compute; reflexivity|].
  apply (submission_pass_exact demo_uuid demo_render demo_provider demo_answer demo_clock demo_exn).
  eapply rtc_l; [apply demo_planned_step|]. apply rtc_refl.
Defined.
Lemma create_visibility_fence_witness :
  ∃ outs guards blocked c',
    reconcile_provider_operation_inventory demo_provider demo_answer demo_clock demo_exn [] true true 40 demo_applied.2
      = Ok (outs, guards, blocked, c') ∧
    ∀ i op, provider_operations (ct_db c') !! i = Some op → op_kind_of op = create →
      op_terminal (op_state_of op) = false → op_role_of op ∈ blocked.
Proof.
  apply (create_visibility_fence demo_uuid demo_render demo_provider demo_answer demo_clock demo_exn).
  eapply rtc_l; [apply demo_planned_step|]. eapply rtc_l; [apply demo_applied_step|]. apply rtc_refl.
Defined.
