(* ===== verification/Reservations.v ===== *)
(** * Route reservations in a reconcile cycle (ucloud_sandboxes/cli.py)

    The routes a worker still owns, merged into the heartbeats and nodes a cycle plans
    with, the check that a stopped worker's routes can be detached, and the adjustments
    of demand for builds and lost sandboxes.  [package_version] is the version of the
    installed package. *)
From stdpp Require Import gmap strings.
From S2P Require Import Prelude PyFloat Json PyString Resources Bytes DiskClaims PlacementAccounting PlacementChoice Routes ScaleModels.
From S2P Require Import ScalePacking ScaleDown UsageHistory AutoscalerState Reconcile.
From Stdlib Require Import QArith.
Local Close Scope Q_scope.
Local Open Scope py_scope.
Local Open Scope Z_scope.

(** capabilities.py *)
Definition STORAGE_NATIVE_DETACH_CAPABILITY : string := "sandbox-detach-published-v1".

(** ** Routes by worker *)

Definition holds_worker (r : SandboxRoute) : bool :=
  negb (bool_decide (sr_worker_state r = "detached") && is_portable_parked_route r)
  && nonempty (strip (sr_job_id r)).
Definition file_route (m : dict string (list SandboxRoute)) (r : SandboxRoute) : dict string (list SandboxRoute) :=
  if holds_worker r
  then let job := strip (sr_job_id r) in dset m job (default [] (dget m job) ++ [r])
  else m.
Definition sandbox_route_reservations (routes : list SandboxRoute) : dict string (list SandboxRoute) :=
  prod_map id (sorted_by (λ a b, string_leb (sr_sandbox_id a) (sr_sandbox_id b))) <$> foldl file_route [] routes.

Definition routes_of (m : dict string (list SandboxRoute)) (job : string) : list SandboxRoute := default [] (dget m job).
(** The worker still holds the sandbox. *)
Definition undetached (r : SandboxRoute) : bool := negb (bool_decide (sr_worker_state r = "detached")).

(** [{item.sandbox_id: item for item in heartbeat.inventory}] *)
Definition inventory_by_id (h : NodeHeartbeat) : dict string SandboxInventoryEntry :=
  foldl (λ m i, dset m (inv_sandbox_id i) i) [] (inventory h).
Definition heartbeat_inventory_contains_route (inventory : dict string SandboxInventoryEntry) (r : SandboxRoute) : bool :=
  match dget inventory (sr_sandbox_id r) with
  | None => false
  | Some item =>
      ((sr_generation r <=? 0) && (inv_generation item <=? 0))
      || ((sr_generation r =? inv_generation item)
          && bool_decide (sr_create_operation_id r = inv_operation_id item)
          && bool_decide (sr_spec_hash r = inv_spec_hash item))
  end.

(** ** Heartbeats with their missing routes *)

(** [replace(heartbeat, used_resources=, reserved_resources=, active_sandboxes=)] *)
Definition with_usage (h : NodeHeartbeat) (used reserved : ResourceQuantity) (active : Z) : NodeHeartbeat :=
  mkHeartbeat (node_id h) (job_id h) (updated_at h) active (active_image_builds h) (active_sandbox_creates h)
    (idle_since h) (draining h) (node_url h) (agent_version h) (capabilities h) (total_resources h)
    (resources_known h) used (labels h) (runtime_metrics h) (received_at h) (node_epoch h)
    (retired_node_epochs h) (inventory h) (inventory_complete h) reserved (build_reserved_resources h)
    (admission_open h) (hb_activity_epoch h) (drain_token h) (drain_activity_epoch h).

Definition missing_routes (h : NodeHeartbeat) (routes : list SandboxRoute) : list SandboxRoute :=
  filter (λ r, undetached r = true ∧ heartbeat_inventory_contains_route (inventory_by_id h) r = false) routes.
(** Memory of the creates and wakes under way, by incarnation *)
Definition transitioning_memory (h : NodeHeartbeat) (routes : list SandboxRoute) : dict (string * Z * string * string) Z :=
  let in_transition s := bool_decide (s ∈ ["creating"; "waking"]) in
  let reported := foldl (λ m i,
      if in_transition (inv_state i)
      then dset m (inv_sandbox_id i, inv_generation i, inv_spec_hash i, inv_operation_id i) (memory_mb (inv_resources i))
      else m) [] (inventory h) in
  foldl (λ m r,
      if bool_decide (sr_worker_state r = "attached") && in_transition (sr_state r)
      then let identity := (sr_sandbox_id r, sr_generation r, sr_spec_hash r, sr_create_operation_id r) in
           dset m identity (Z.max (default 0 (dget m identity)) (memory_mb (sr_resources r)))
      else m) reported routes.
Definition reserve_routes (h : NodeHeartbeat) (routes : list SandboxRoute) : NodeHeartbeat :=
  let missing := missing_routes h routes in
  let missing_resources := foldl (λ a r, rq_add a (mkRQ (of_int 0) 0 (disk_mb (sr_resources r)))) rq_zero missing in
  let reserved := reserved_resources h in
  with_usage h (rq_add (used_resources h) missing_resources)
    (mkRQ (vcpu reserved) (Z.max (memory_mb reserved) (zsum (dvals (transitioning_memory h routes)))) (disk_mb reserved))
    (active_sandboxes h + Z.of_nat (length missing)).
Definition apply_route_reservations_to_heartbeats (heartbeats : dict string NodeHeartbeat)
    (routes_by_job : dict string (list SandboxRoute)) : dict string NodeHeartbeat :=
  (λ kv, (kv.1, reserve_routes kv.2 (routes_of routes_by_job kv.1))) <$> heartbeats.

(** ** Nodes *)

(** registry.py *)
Definition agent_version_compatible_of (package_version : string) (job : ProviderInstance) (h : option NodeHeartbeat) : bool :=
  let version := match h with Some h => agent_version h | None => EmptyString end in
  let version := if nonempty version then version else default EmptyString (dget (pi_labels job) AGENT_VERSION_LABEL) in
  agent_version_is_schedulable package_version version None.
Definition merge_job (package_version : string) (heartbeats : dict string NodeHeartbeat) (p : ScalePolicy) (now : Z)
    (j : ProviderInstance) : SandboxNode :=
  let h := dget heartbeats (instance_id j) in
  mkNode j h (match h with Some h => active_sandboxes h | None => 0 end)
    (match h with Some h => is_fresh h now (sp_heartbeat_ttl_seconds p) | None => false end)
    (agent_version_compatible_of package_version j h) false.
Definition merge_jobs_and_heartbeats (package_version : string) (jobs : list ProviderInstance)
    (heartbeats : dict string NodeHeartbeat) (p : ScalePolicy) (now : Z) : list SandboxNode :=
  merge_job package_version heartbeats p now <$> jobs.

Definition with_active (n : SandboxNode) (active : Z) : SandboxNode :=
  mkNode (job n) (heartbeat n) active (heartbeat_fresh n) (agent_version_compatible n) (permanently_lost n).
Definition with_lost (n : SandboxNode) : SandboxNode :=
  mkNode (job n) (heartbeat n) (sn_active_sandboxes n) (heartbeat_fresh n) (agent_version_compatible n) true.
(** A fresh, complete inventory of a worker that can detach what its routes hold *)
Definition can_detach (h : NodeHeartbeat) : bool :=
  inventory_complete h && has_capability (capabilities h) STORAGE_NATIVE_CAPABILITY
  && has_capability (capabilities h) STORAGE_NATIVE_DETACH_CAPABILITY.
Definition owns_releasable_inventory (n : SandboxNode) (routes : list SandboxRoute) : bool :=
  heartbeat_fresh n
  && match heartbeat n with
     | Some h => can_detach h
                 && forallb is_worker_detachable_parked_route (filter (λ r, undetached r = true) routes)
     | None => false
     end.
Definition apply_route_reservations_to_node (routes_by_job : dict string (list SandboxRoute)) (n : SandboxNode) : SandboxNode :=
  let routes := routes_of routes_by_job (node_job_id n) in
  with_active n (if owns_releasable_inventory n routes then sn_active_sandboxes n
                 else Z.max (sn_active_sandboxes n) (Z.of_nat (length routes))).
Definition apply_route_reservations_to_nodes (nodes : list SandboxNode) (routes_by_job : dict string (list SandboxRoute))
    : list SandboxNode := apply_route_reservations_to_node routes_by_job <$> nodes.

(** The nodes a cycle plans with, once the heartbeats of this cycle are settled and the
    destructively lost instances are known *)
Definition observed_nodes (package_version : string) (jobs : list ProviderInstance) (heartbeats : dict string NodeHeartbeat)
    (p : ScalePolicy) (now : Z) (routes_by_job : dict string (list SandboxRoute)) (destructive : list string)
    : list SandboxNode :=
  let nodes := merge_jobs_and_heartbeats package_version jobs
                 (apply_route_reservations_to_heartbeats heartbeats routes_by_job) p now in
  apply_route_reservations_to_nodes
    ((λ n, if bool_decide (node_job_id n ∈ destructive) then with_lost n else n) <$> nodes) routes_by_job.

Definition sandbox_pool_nodes (nodes : list SandboxNode) : list SandboxNode :=
  filter (λ n, dget (pi_labels (job n)) NODE_LABEL = Some "true") nodes.
Definition builder_pool_nodes (nodes : list SandboxNode) : list SandboxNode :=
  filter (λ n, dget (pi_labels (job n)) BUILDER_LABEL = Some "true") nodes.

(** ** Stops whose storage can be detached *)

Definition stop_has_detachable_storage (nodes : list SandboxNode) (routes_by_job : dict string (list SandboxRoute))
    (job : string) : bool :=
  let routes := filter (λ r, undetached r = true) (routes_of routes_by_job job) in
  if bool_decide (routes = []) then true
  else
    match dget (foldl (λ m n, dset m (node_job_id n) n) [] nodes) job with
    | Some n =>
        heartbeat_fresh n
        && match heartbeat n with
           | Some h =>
               can_detach h && forallb is_worker_detachable_parked_route routes
               && forallb (λ r, negb (bool_decide (sr_worker_state r = "attached"))
                                || heartbeat_inventory_contains_route (inventory_by_id h) r) routes
           | None => false
           end
    | None => false
    end.
Definition partition_storage_native_detachable_stop_job_ids (nodes : list SandboxNode) (requested : list string)
    (routes_by_job : dict string (list SandboxRoute)) : list string * list string :=
  (filter (λ j, stop_has_detachable_storage nodes routes_by_job j = true) (from_keys requested),
   filter (λ j, stop_has_detachable_storage nodes routes_by_job j = false) (from_keys requested)).

(** ** Demand of the cycle *)

Definition build_activity_sandbox_warm_resources (active_image_builds pending_image_builds : Z) (p : ScalePolicy)
    : ResourceQuantity :=
  if (Z.max 0 active_image_builds <=? 0) && (Z.max 0 pending_image_builds <=? 0) then rq_zero
  else
    let capacity := default_node_resources p in
    mkRQ (fmin (of_int 1) (vcpu capacity)) (Z.min 512 (memory_mb capacity)) (Z.min 1024 (disk_mb capacity)).
Definition desired_resources (d : SandboxDemand) : ResourceQuantity :=
  rq_add (dm_pending_resources d) (prepared_resources d).
(** [replace(demand, prepared_placement_requests=)] and the pending fields *)
Definition with_prepared (d : SandboxDemand) (prepared : list SandboxPlacementRequest) : SandboxDemand :=
  mkDemand (dm_pending_resources d) (suppressed_pending_resources d) (pending_count d) (suppressed_pending_count d)
    (oldest_pending_seconds d) (oldest_capacity_pending_seconds d) (placement_requests d) prepared.
Definition with_pending (d : SandboxDemand) (pending : ResourceQuantity) (count : Z)
    (requests : list SandboxPlacementRequest) : SandboxDemand :=
  mkDemand pending (suppressed_pending_resources d) count (suppressed_pending_count d)
    (oldest_pending_seconds d) (oldest_capacity_pending_seconds d) requests (prepared_placement_requests d).
Definition demand_with_build_warm_resources (d : SandboxDemand) (warm : ResourceQuantity) : SandboxDemand :=
  let desired := desired_resources d in
  let supplement := mkRQ (fmax (of_int 0) (fsub (vcpu warm) (vcpu desired)))
                      (Z.max 0 (memory_mb warm - memory_mb desired)) (Z.max 0 (disk_mb warm - disk_mb desired)) in
  if rq_eqb supplement rq_zero then d
  else with_prepared d (prepared_placement_requests d ++ [mkPR supplement 1 [] EmptyString]).
Definition replaceable (r : SandboxRoute) : bool :=
  match sandbox_owner_loss_disposition r with TERMINAL_REPLACE => true | _ => false end.
Definition replacement_request (r : SandboxRoute) : SandboxPlacementRequest :=
  mkPR (sr_resources r) 1 (if nonempty (sr_job_id r) then [sr_job_id r] else []) EmptyString.
Definition demand_with_lost_sandbox_replacement (d : SandboxDemand) (routes : list SandboxRoute) : SandboxDemand :=
  let lost := filter (λ r, replaceable r = true) routes in
  if bool_decide (lost = []) then d
  else with_pending d
         (rq_add (dm_pending_resources d) (foldl (λ a r, rq_add a (sr_resources r)) rq_zero lost))
         (pending_count d + Z.of_nat (length lost))
         (placement_requests d ++ (replacement_request <$> lost)).
(** What a worker charges a new sandbox's disk at create: its own word, or that of the
    deployment (initial grant and split backing) before there is a worker *)
Fixpoint charged_claim (heartbeats : list NodeHeartbeat) : option Z :=
  match heartbeats with
  | [] => None
  | h :: heartbeats =>
      match runtime_metrics h with
      | Some m => if 0 <? storage_workspace_grant_mb m
                  then Some (storage_workspace_grant_mb m + storage_memory_idle_claim_mb m)
                  else charged_claim heartbeats
      | None => charged_claim heartbeats
      end
  end.
Definition initial_disk_claim_mb (initial_grant_mb : Z) (split_memory_backing : bool) (heartbeats : list NodeHeartbeat) : Z :=
  match charged_claim heartbeats with
  | Some claim => claim
  | None => if (0 <? initial_grant_mb) && split_memory_backing then initial_grant_mb + IDLE_MEMORY_CLAIM_MB else 0
  end.
(** [str(route.spec.get("image") or "")] *)
Definition route_image (py_str : json → string) (r : SandboxRoute) : string :=
  match sr_spec r with
  | JObj spec => text_or_empty py_str (jget spec "image")
  | _ => EmptyString
  end.
Definition route_images (py_str : json → string) (routes_by_job : dict string (list SandboxRoute)) : gmap (string * Z) string :=
  foldl (λ m r, <[(sr_sandbox_id r, sr_generation r) := route_image py_str r]> m) ∅ (mjoin (dvals routes_by_job)).
Definition demand_forecast_from_usage (format_g : float → string) (py_str : json → string) (initial_grant_mb : Z)
    (split_memory_backing : bool) (history : UsageHistory) (d : SandboxDemand) (heartbeats : list NodeHeartbeat)
    (routes_by_job : dict string (list SandboxRoute)) (now : Z) : SandboxDemand * UsageHistory :=
  let history := record_inventory_usage format_g history heartbeats (route_images py_str routes_by_job) now in
  let history := prune history now in
  (demand_with_usage_forecast format_g d history (initial_disk_claim_mb initial_grant_mb split_memory_backing heartbeats) now,
   history).

(** ** Every route that holds a worker is seen *)

Lemma dget_fmap_snd {V W} (f : V → W) (m : dict string V) k :
  dget (prod_map id f <$> m) k = f <$> dget m k.
Proof.
  induction m as [|[k' v] m IH]; [done|]. csimpl. by case_decide.
Qed.
Lemma dget_fmap_key {V W} (f : string → V → W) (m : dict string V) k :
  dget ((λ kv, (kv.1, f kv.1 kv.2)) <$> m) k = f k <$> dget m k.
Proof.
  induction m as [|[k' v] m IH]; [done|]. csimpl. case_decide as E; [by subst|done].
Qed.
Lemma file_routes_spec routes m job r :
  r ∈ default [] (dget (foldl file_route m routes) job) ↔
  r ∈ default [] (dget m job) ∨ r ∈ routes ∧ holds_worker r = true ∧ strip (sr_job_id r) = job.
Proof.
  revert m. induction routes as [|r' routes IH]; intros m; simpl; [rewrite elem_of_nil; tauto|].
  rewrite IH, elem_of_cons. unfold file_route. destruct (holds_worker r') eqn:Eh.
  2:{ split; [intros [?|?]; tauto|]. intros [?|([->|?] & ? & ?)]; [by left|congruence|right; tauto]. }
  destruct (decide (strip (sr_job_id r') = job)) as [<-|Hne].
  - rewrite dget_dset_eq. simpl. rewrite elem_of_app, list_elem_of_singleton. split.
    + intros [[?| ->]|?]; tauto.
    + intros [?|([->|?] & ? & ?)]; tauto.
  - rewrite dget_dset_ne by done. split; [intros [?|?]; tauto|].
    intros [?|([->|?] & ? & ?)]; [by left|congruence|right; tauto].
Qed.
Lemma routes_of_reservations routes job r :
  r ∈ routes_of (sandbox_route_reservations routes) job ↔
  r ∈ routes ∧ holds_worker r = true ∧ strip (sr_job_id r) = job.
Proof.
  unfold routes_of, sandbox_route_reservations. rewrite dget_fmap_snd.
  pose proof (file_routes_spec routes [] job r) as Hs.
  destruct (dget (foldl file_route [] routes) job) as [l|]; simpl in *; [rewrite sorted_by_perm|]; rewrite Hs, elem_of_nil; tauto.
Qed.

(** ** Workers that hold nothing *)

Section observed.
Context (package_version : string) (jobs : list ProviderInstance) (heartbeats : dict string NodeHeartbeat)
  (p : ScalePolicy) (now : Z) (routes : list SandboxRoute) (destructive : list string).
Let observed := observed_nodes package_version jobs heartbeats p now (sandbox_route_reservations routes) destructive.

Lemma observed_job n : n ∈ observed → ∃ i, i ∈ jobs ∧ node_job_id n = instance_id i.
Proof.
  unfold observed, observed_nodes, apply_route_reservations_to_nodes, merge_jobs_and_heartbeats.
  intros (n1 & -> & (n0 & -> & (j & -> & Hj)%list_elem_of_fmap)%list_elem_of_fmap)%list_elem_of_fmap.
  exists j. split; [done|]. by case_bool_decide.
Qed.
(** An observed node carries its heartbeat with the missing routes added, and counts at
    least its reserved routes unless it can release them all. *)
Lemma observed_inv n : n ∈ observed →
  let held := routes_of (sandbox_route_reservations routes) (node_job_id n) in
  heartbeat n = (λ h, reserve_routes h held) <$> dget heartbeats (node_job_id n) ∧
  (owns_releasable_inventory n held = false → Z.of_nat (length held) ≤ sn_active_sandboxes n).
Proof.
  unfold observed, observed_nodes, apply_route_reservations_to_nodes, merge_jobs_and_heartbeats.
  intros (n1 & -> & (n0 & -> & (j & -> & _)%list_elem_of_fmap)%list_elem_of_fmap)%list_elem_of_fmap.
  set (n1 := if bool_decide _ then _ else _). set (m := merge_job _ _ _ _ j) in *.
  assert (node_job_id n1 = instance_id j ∧ heartbeat n1 = heartbeat m) as [Ej Eh] by (unfold n1; by case_bool_decide).
  assert (node_job_id (apply_route_reservations_to_node (sandbox_route_reservations routes) n1) = node_job_id n1) as -> by done.
  cbn zeta. split.
  - cbn [apply_route_reservations_to_node with_active heartbeat]. rewrite Eh, Ej. unfold m, merge_job. cbn [heartbeat].
    unfold apply_route_reservations_to_heartbeats.
    by rewrite (dget_fmap_key (λ k h, reserve_routes h (routes_of (sandbox_route_reservations routes) k))).
  - unfold apply_route_reservations_to_node. set (held := routes_of _ _).
    assert (owns_releasable_inventory (with_active n1 (if owns_releasable_inventory n1 held then sn_active_sandboxes n1
      else Z.max (sn_active_sandboxes n1) (Z.of_nat (length held)))) held = owns_releasable_inventory n1 held) as -> by done.
    intros E. cbn [with_active sn_active_sandboxes]. rewrite E. lia.
Qed.

Hypothesis Hwf : ∀ k h, dget heartbeats k = Some h → 0 ≤ active_sandboxes h.

(** A drain-ready worker holds no route that is not detached. *)
Lemma drained_holds_nothing n token r : n ∈ observed → node_drain_ready n token = true →
  r ∈ routes → strip (sr_job_id r) = node_job_id n → node_job_id n ≠ EmptyString → sr_worker_state r = "detached".
Proof.
  intros Hn Hr Hin Hj Hne. destruct (observed_inv n Hn) as [Hh _]. unfold node_drain_ready in Hr. rewrite Hh in Hr.
  destruct (dget heartbeats (node_job_id n)) as [h|] eqn:Eh; simpl in Hr; [|done].
  set (held := routes_of (sandbox_route_reservations routes) (node_job_id n)) in *.
  destruct (_ || _) in Hr; [done|]. destruct (_ || _) in Hr; [done|].
  destruct (negb (bool_decide (inventory h = [])) || negb (active_workloads (reserve_routes h held) =? 0)) eqn:Ei; [done|].
  apply orb_false_iff in Ei as [Hi%negb_false_iff%bool_decide_eq_true Ha%negb_false_iff%Z.eqb_eq].
  assert (missing_routes h held = []) as Hm.
  { apply nil_length_inv. pose proof (Hwf _ _ Eh). unfold active_workloads in Ha.
    assert (active_sandboxes (reserve_routes h held) = active_sandboxes h + Z.of_nat (length (missing_routes h held))) as Ea by done.
    rewrite Ea in Ha. destruct (_ || _) in Ha; simpl in Ha; lia. }
  destruct (decide (sr_worker_state r = "detached")) as [|Hw]; [done|exfalso].
  assert (r ∈ missing_routes h held) as Hx; [|rewrite Hm in Hx; by apply elem_of_nil in Hx].
  apply list_elem_of_filter. split; [split|].
  - unfold undetached. by rewrite bool_decide_eq_false_2.
  - unfold heartbeat_inventory_contains_route, inventory_by_id. by rewrite Hi.
  - apply routes_of_reservations. split_and!; [done| |done]. unfold holds_worker.
    rewrite bool_decide_eq_false_2 by done. simpl. rewrite Hj. unfold nonempty. by rewrite bool_decide_eq_false_2.
Qed.

(** An unreachable worker ready to be stopped has no reserved route at all. *)
Lemma unreachable_holds_nothing n p' now' : n ∈ observed → unreachable_node_stop_ready n p' now' = true →
  routes_of (sandbox_route_reservations routes) (node_job_id n) = [].
Proof.
  intros Hn Hr. destruct (observed_inv n Hn) as [_ Ha]. unfold unreachable_node_stop_ready in Hr.
  destruct (_ || negb (sn_active_sandboxes n =? 0)) eqn:Eb in Hr; [done|].
  apply orb_false_iff in Eb as [Eb Hz%negb_false_iff%Z.eqb_eq].
  apply nil_length_inv. cut (Z.of_nat (length (routes_of (sandbox_route_reservations routes) (node_job_id n))) ≤ sn_active_sandboxes n); [lia|].
  apply Ha. unfold owns_releasable_inventory.
  destruct (heartbeat_fresh n); [|done]. by rewrite !orb_true_r in Eb.
Qed.
End observed.
