(* ===== verification/ScaleCycle.v ===== *)
(** * Stopping workers in a reconcile cycle (ucloud_sandboxes/cli.py, [run_reconcile_cycle])

    From the decisions of a cycle to the stops it journals: which requested stops may
    go ahead, the durable drain handshake with each worker, and the operation journaled
    for each worker proven empty, unreachable or lost.  [post_drain] is the answer of a
    worker's drain endpoint to a request; [fresh] the uuid drawn for a new drain.  The
    gateway's detach requests change the gateway's state only and are not followed here. *)
From stdpp Require Import gmap strings.
From S2P Require Import Prelude PyFloat Json PyString Resources Bytes PyTime PlacementAccounting Routes ScaleModels.
From S2P Require Import ScalePacking ScaleDown Autoscaler AutoscalerState Reconcile Provider ProviderJournal Reservations.
Local Open Scope py_scope.
Local Open Scope Z_scope.

(** What a cycle observed *)
Record cycle_view := mkView {
  cv_deployment_id : string;
  (** [config.deployment_id or provider.scope_id] *)
  cv_operation_deployment_id : string;
  cv_nodes : list SandboxNode;
  cv_policy : ScalePolicy;
  cv_now : Z;
  cv_routes : dict string (list SandboxRoute);
  cv_losses : dict string DestructiveInstanceLoss;
  cv_latched : dict string (dict string json);
  cv_probe_failed : list string
}.
Definition cv_sandbox_nodes (v : cycle_view) : list SandboxNode := sandbox_pool_nodes (cv_nodes v).
Definition cv_builder_nodes (v : cycle_view) : list SandboxNode := builder_pool_nodes (cv_nodes v).
(** [{node.job_id: node for node in nodes}] *)
Definition nodes_by_job_id (nodes : list SandboxNode) : dict string SandboxNode :=
  foldl (λ m n, dset m (node_job_id n) n) [] nodes.
Definition quarantined_job_ids (v : cycle_view) : list string :=
  ids (filter (λ n, is_unavailable (job n) = true) (cv_nodes v)).

(** ** Counterfactual decisions *)

(** The provider call of a stop may have been made. *)
Definition provider_call_started (op : ProviderOperation) : bool :=
  bool_decide (op_state_of op ∈ [op_uncertain; op_accepted])
  || (bool_decide (op_state_of op = op_prepared)
      && (is_json_bool (jget (op_response op) "providerCallStarted") true
          || (op_created_at_us op <? op_updated_at_us op) || nonempty (op_last_error op))).
Definition irreversible_stop_job_ids (d : autoscaler_db) : list string :=
  mjoin (op_target_job_ids <$> filter (λ op, provider_call_started op = true) (list_operations d (Some stop) [])).
(** A node with a fresh heartbeat *)
Definition reachable_node (nodes : dict string SandboxNode) (job_id : string) : bool :=
  match dget nodes job_id with Some n => negb (is_none (heartbeat n)) && heartbeat_fresh n | None => false end.
Definition reopen_job_ids (v : cycle_view) (pending : list DrainIntent) (irreversible : list string) : list string :=
  di_job_id <$> filter (λ i, di_state i = drain_active ∧ (di_job_id i ∉ irreversible) ∧
                             reachable_node (nodes_by_job_id (cv_nodes v)) (di_job_id i) = true) pending.
(** [replace(heartbeat, draining=False, admission_open=True)] *)
Definition reopened (h : NodeHeartbeat) : NodeHeartbeat :=
  mkHeartbeat (node_id h) (job_id h) (updated_at h) (active_sandboxes h) (active_image_builds h)
    (active_sandbox_creates h) (idle_since h) false (node_url h) (agent_version h) (capabilities h)
    (total_resources h) (resources_known h) (used_resources h) (labels h) (runtime_metrics h) (received_at h)
    (node_epoch h) (retired_node_epochs h) (inventory h) (inventory_complete h) (reserved_resources h)
    (build_reserved_resources h) true (hb_activity_epoch h) (drain_token h) (drain_activity_epoch h).
Definition nodes_with_drain_admission_reopened (nodes : list SandboxNode) (job_ids : list string) : list SandboxNode :=
  (λ n, match heartbeat n with
        | Some h => if bool_decide (node_job_id n ∈ job_ids)
                    then mkNode (job n) (Some (reopened h)) (sn_active_sandboxes n) (heartbeat_fresh n)
                           (agent_version_compatible n) (permanently_lost n)
                    else n
        | None => n
        end) <$> nodes.
(** The decisions for both pools; with drains that could be canceled, those of the fleet
    with their admission reopened *)
Definition plan_decisions (format_g format_percent : float → string) (v : cycle_view) (demand : SandboxDemand)
    (signals : option LiveScaleSignals) (pending_builds prepared_builders max_builder_nodes : Z) (reopen : list string)
    : res (ScaleDecision * ScaleDecision) :=
  let decide sandbox builder :=
    (let! decision := evaluate_scale format_g format_percent sandbox demand (cv_policy v) (cv_now v) signals in
     Ok (decision, evaluate_builder_scale builder pending_builds prepared_builders (cv_policy v) max_builder_nodes (cv_now v))) in
  let! planned := decide (cv_sandbox_nodes v) (cv_builder_nodes v) in
  if bool_decide (reopen = []) then Ok planned
  else decide (nodes_with_drain_admission_reopened (cv_sandbox_nodes v) reopen)
         (nodes_with_drain_admission_reopened (cv_builder_nodes v) reopen).

(** ** The stops that may go ahead *)

Record stop_plan := mkStopPlan {
  sp_sandbox : list string;
  sp_builder : list string;
  sp_destructive : list string;
  sp_stops : list string
}.
Definition plan_stops (v : cycle_view) (decision builder_decision : ScaleDecision) (canceling : list string) : stop_plan :=
  let safe nodes requested label := (partition_safe_stop_job_ids nodes requested (cv_deployment_id v) label).1 in
  let lost nodes := ids (filter (λ n, is_final (job n) = false ∧ node_job_id n ∈ dkeys (cv_losses v)) nodes) in
  let detachable := (partition_storage_native_detachable_stop_job_ids (cv_sandbox_nodes v) (stops decision) (cv_routes v)).1 in
  let sandbox := safe (cv_sandbox_nodes v) detachable NODE_LABEL in
  let builder := safe (cv_builder_nodes v) (stops builder_decision) BUILDER_LABEL in
  let lost_sandbox := safe (cv_sandbox_nodes v) (lost (cv_sandbox_nodes v)) NODE_LABEL in
  let lost_builder := safe (cv_builder_nodes v) (lost (cv_builder_nodes v)) BUILDER_LABEL in
  let destructive := from_keys (lost_sandbox ++ lost_builder) in
  let sandbox := from_keys (sandbox ++ lost_sandbox) in
  let builder := from_keys (builder ++ lost_builder) in
  if bool_decide (canceling = []) then mkStopPlan sandbox builder destructive (from_keys (sandbox ++ builder))
  else
    let sandbox := filter (λ j, j ∉ canceling ∨ j ∈ destructive) sandbox in
    let builder := filter (λ j, j ∉ canceling ∨ j ∈ destructive) builder in
    mkStopPlan sandbox builder destructive (sandbox ++ builder).
Definition stop_nodes (v : cycle_view) : dict string SandboxNode :=
  nodes_by_job_id (cv_sandbox_nodes v ++ cv_builder_nodes v).
Definition unreachable_stop_job_ids (v : cycle_view) (plan : stop_plan) : list string :=
  filter (λ j, (j ∉ sp_destructive plan) ∧
    match dget (stop_nodes v) j with
    | Some n => unreachable_node_stop_ready n (cv_policy v) (cv_now v)
                && (is_none (heartbeat n) || bool_decide (j ∈ cv_probe_failed v))
    | None => false
    end = true) (sp_stops plan).

(** ** The drain handshake *)

Section drain.
Variable v : cycle_view.
(** The answer of a worker's drain endpoint: its URL, the token, and the direction *)
Variable post_drain : string → string → bool → res (dict string json).
Variable exn_text : exn → string.
(** The uuid of a new drain of a job *)
Variable fresh : string → string.
Variable now_us : Z.

Definition retire_jobs (jobs : list string) (d : autoscaler_db) : res autoscaler_db :=
  res_foldl (λ d j, let! r := retire_drain_intent (cv_operation_deployment_id v) j d in Ok r.2) d jobs.
(** Intents of instances that are gone are retired. *)
Definition retire_final (jobs : list ProviderInstance) (d : autoscaler_db) : res autoscaler_db :=
  let! pending := pending_drain_intents (cv_operation_deployment_id v) d in
  let final := instance_id <$> filter (λ j, is_final j = true ∧ instance_id j ≠ EmptyString) jobs in
  res_foldl (λ d i, let! r := retire_drain_intent (di_deployment_id i) (di_job_id i) d in Ok r.2) d
    (filter (λ i, di_job_id i ∈ final) pending).
Definition cancel_unneeded (plan : stop_plan) (irreversible : list string) (d : autoscaler_db) : res autoscaler_db :=
  let! pending := pending_drain_intents (cv_operation_deployment_id v) d in
  res_foldl (λ d i,
      if bool_decide (di_state i = drain_active) && negb (bool_decide (di_job_id i ∈ sp_stops plan))
         && negb (bool_decide (di_job_id i ∈ irreversible)) && reachable_node (nodes_by_job_id (cv_nodes v)) (di_job_id i)
      then let! r := begin_drain_cancellation (di_deployment_id i) (di_job_id i) now_us d in Ok r.2
      else Ok d) d pending.
Definition stop_role (plan : stop_plan) (job_id : string) : op_role :=
  if bool_decide (job_id ∈ sp_sandbox plan) then sandbox_role else builder_role.
Definition prepare_drains (plan : stop_plan) (unreachable : list string) (d : autoscaler_db) : res autoscaler_db :=
  res_foldl (λ d j,
      let! r := prepare_drain_intent (cv_operation_deployment_id v) j (role_text (stop_role plan j)) (fresh j) now_us d in
      Ok r.2) d
    (filter (λ j, (j ∉ unreachable) ∧ (j ∉ sp_destructive plan)) (sp_stops plan)).

(** One intent's exchange with its worker: the response and the error, if any *)
Definition exchange (unreachable : list string) (i : DrainIntent) : dict string json * string :=
  let n := dget (nodes_by_job_id (cv_nodes v)) (di_job_id i) in
  let url := match n ≫= heartbeat with Some h => strip (default EmptyString (node_url h)) | None => EmptyString end in
  let active := bool_decide (di_state i = drain_active) in
  if active && bool_decide (di_job_id i ∈ unreachable) then ([], "unreachable stale-node stop proof selected")
  else if active && bool_decide (di_job_id i ∈ quarantined_job_ids v)
  then ([], "guest continuity is unverified; drain cannot authorize termination")
  else if negb (nonempty url) then ([], "fresh node heartbeat has no node URL")
  else match post_drain url (di_token i) active with
       | Ok response => (response, EmptyString)
       | Raise e => ([], exn_text e)
       end.
Definition handshake (unreachable : list string) (acc : list string * autoscaler_db) (i : DrainIntent)
    : res (list string * autoscaler_db) :=
  let '(response, error) := exchange unreachable i in
  match di_state i with
  | drain_canceling =>
      if negb (nonempty error) && drain_response_acknowledges response (di_token i) false
      then let! r := retire_drain_intent (di_deployment_id i) (di_job_id i) acc.2 in Ok (acc.1, r.2)
      else Ok acc
  | drain_active =>
      let ready := negb (nonempty error)
                   && match dget (nodes_by_job_id (cv_nodes v)) (di_job_id i) with
                      | Some n => node_drain_ready n (di_token i)
                      | None => false
                      end in
      Ok (if ready then acc.1 ++ [di_job_id i] else acc.1, acc.2)
  end.
(** (drain-ready jobs, active intents, journal) *)
Definition drain_phase (plan : stop_plan) (unreachable irreversible : list string) (d : autoscaler_db)
    : res (list string * list DrainIntent * autoscaler_db) :=
  let! d := retire_jobs (sp_destructive plan) d in
  let! d := cancel_unneeded plan irreversible d in
  let! d := prepare_drains plan unreachable d in
  let! pending := pending_drain_intents (cv_operation_deployment_id v) d in
  let! '(ready, d) := res_foldl (handshake unreachable) ([], d) pending in
  let! pending := pending_drain_intents (cv_operation_deployment_id v) d in
  Ok (ready, filter (λ i, di_state i = drain_active) pending, d).
End drain.

(** ** Journaling the stops *)

Section journal_stops.
Variable uuid5_hex : string → string.
Variable v : cycle_view.
Variable provider : ComputeProvider.
Variables (plan : stop_plan) (unreachable : list string) (active : list DrainIntent).

Definition drain_intent_of (job_id : string) : option DrainIntent :=
  dget (foldl (λ m i, dset m (di_job_id i) i) [] active) job_id.
(** [d.update(e)] *)
Definition dict_update (d e : dict string json) : dict string json := foldl (λ d kv, dset d kv.1 kv.2) d e.
Definition stop_base (job_id : string) : dict string json :=
  [("type", JStr "bulk"); ("items", JList [JObj [("id", JStr job_id)]])].
Definition route_count (job_id : string) : Z := Z.of_nat (length (routes_of (cv_routes v) job_id)).
Definition no_node {A} (job_id : string) : res A := Raise (KeyError job_id).

Definition unreachable_request (job_id : string) : res (string * dict string json) :=
  match dget (stop_nodes v) job_id with
  | None => no_node job_id
  | Some n =>
      let reference := match unreachable_node_reference n with Some t => iso t | None => EmptyString end in
      let present := negb (is_none (heartbeat n)) in
      Ok (reference, dict_update (stop_base job_id)
            [("unreachableStaleReady", JBool true); ("unreachableReference", JStr reference);
             ("routeCount", JInt (route_count job_id)); ("lastKnownActiveSandboxes", JInt (sn_active_sandboxes n));
             ("lastHeartbeatSafeToStop", JBool true); ("lastHeartbeatPresent", JBool present);
             ("directProbeFailed", JBool present)])
  end.
Definition loss_request (job_id : string) : res (string * dict string json) :=
  match dget (stop_nodes v) job_id, dget (cv_losses v) job_id with
  | Some n, Some disposition =>
      match dget (cv_latched v) job_id with
      | Some latched => Ok (loss_reason disposition, latched)
      | None =>
          let! fields := operation_request_fields disposition (cp_kind provider) in
          Ok (loss_reason disposition, dict_update
                (dict_update (stop_base job_id)
                   [("destructiveNodeLoss", JBool true); ("lossReason", JStr (loss_reason disposition));
                    ("routeCount", JInt (route_count job_id));
                    ("lastKnownActiveSandboxes", JInt (sn_active_sandboxes n))]) fields)
      end
  | _, _ => no_node job_id
  end.
(** The role, the intent key and the request of a job's stop *)
Definition stop_operation (job_id : string) : res (string * string * dict string json) :=
  let role := role_text (stop_role plan job_id) in
  if bool_decide (job_id ∈ unreachable) then
    let! '(reference, request) := unreachable_request job_id in
    Ok (role, role +:+ ":" +:+ job_id +:+ ":unreachable-empty:" +:+ reference, request)
  else if bool_decide (job_id ∈ sp_destructive plan) then
    let! '(reason, request) := loss_request job_id in
    Ok (role, (if bool_decide (reason = "post_start_suspension")
               then role +:+ ":" +:+ job_id +:+ ":destructive-power-cycle"
               else role +:+ ":" +:+ job_id +:+ ":destructive-node-loss:" +:+ reason), request)
  else
    match drain_intent_of job_id with
    | None => Raise (AutoscalerStateError ("drain-ready job has no durable intent: " +:+ job_id))
    | Some i =>
        Ok (di_role i, di_role i +:+ ":" +:+ job_id +:+ ":" +:+ di_token i,
            dict_update (stop_base job_id) [("drainToken", JStr (di_token i)); ("drainReady", JBool true)])
    end.
Definition journal_stop (now_us : Z) (acc : list ProviderOperation * autoscaler_db) (job_id : string)
    : res (list ProviderOperation * autoscaler_db) :=
  let! '(role, key, request) := stop_operation job_id in
  let! '(op, d) := prepare_operation uuid5_hex key "stop" (cv_operation_deployment_id v) request role [job_id] now_us acc.2 in
  Ok (acc.1 ++ [op], d).
Definition journal_stops (now_us : Z) (ready : list string) (d : autoscaler_db)
    : res (list ProviderOperation * autoscaler_db) :=
  res_foldl (journal_stop now_us) ([], d) (from_keys (ready ++ unreachable ++ sp_destructive plan)).
End journal_stops.

(** The stop half of a cycle, from the decisions to the journaled stops *)
Section cycle.
Variable uuid5_hex : string → string.
Variable post_drain : string → string → bool → res (dict string json).
Variable exn_text : exn → string.
Variable fresh : string → string.

Definition stop_phase (v : cycle_view) (provider : ComputeProvider) (decision builder_decision : ScaleDecision)
    (canceling irreversible : list string) (now_us : Z) (d : autoscaler_db)
    : res (stop_plan * list ProviderOperation * autoscaler_db) :=
  let plan := plan_stops v decision builder_decision canceling in
  let unreachable := unreachable_stop_job_ids v plan in
  let! '(ready, active, d) := drain_phase v post_drain exn_text fresh now_us plan unreachable irreversible d in
  let! '(ops, d) := journal_stops uuid5_hex v provider plan unreachable active now_us ready d in
  Ok (plan, ops, d).
End cycle.

(** ** No stop strands a sandbox *)

Lemma nodes_by_job_id_inv nodes j n : dget (nodes_by_job_id nodes) j = Some n → n ∈ nodes ∧ node_job_id n = j.
Proof.
  unfold nodes_by_job_id.
  assert (∀ m, dget (foldl (λ m n, dset m (node_job_id n) n) m nodes) j = Some n →
    dget m j = Some n ∨ n ∈ nodes ∧ node_job_id n = j) as H; [|intros E; by destruct (H [] E)].
  induction nodes as [|n' nodes IH]; intros m; simpl; [by left|]. intros E. destruct (IH _ E) as [Hm|[? ?]].
  - destruct (decide (node_job_id n' = j)) as [Hj|Hj].
    + rewrite <-Hj, dget_dset_eq in Hm. injection Hm as <-. right. split; [by left|done].
    + rewrite dget_dset_ne in Hm by done. by left.
  - right. split; [by right|done].
Qed.
Lemma clean_one j k : k ∈ clean_job_ids [j] → k = strip j ∧ k ≠ EmptyString.
Proof.
  unfold clean_job_ids. rewrite elem_of_from_keys. csimpl. intros [Hn ->%list_elem_of_singleton]%list_elem_of_filter.
  split; [done|]. unfold nonempty in Hn. by rewrite negb_true_iff, bool_decide_eq_false in Hn.
Qed.
Lemma prepare_targets uuid5_hex key kind dep req role tgt now d op d' :
  prepare_operation uuid5_hex key kind dep req role tgt now d = Ok (op, d') → op_target_job_ids op = clean_job_ids tgt.
Proof.
  unfold prepare_operation. intros (? & _ & E)%res_bind_Ok. apply res_bind_Ok in E as (? & _ & E).
  apply res_bind_Ok in E as (? & _ & E). apply res_bind_Ok in E as (? & _ & E). destruct (_ !! _) as [o|].
  - destruct (_ || _) eqn:Hc in E; [done|]. injection E as <- _.
    apply orb_false_iff in Hc as [_ Hc]. by rewrite negb_false_iff, bool_decide_eq_true in Hc.
  - by injection E as <- _.
Qed.

Section strands.
Context (uuid5_hex : string → string) (post_drain : string → string → bool → res (dict string json)).
Context (exn_text : exn → string) (fresh : string → string) (v : cycle_view) (provider : ComputeProvider).

(** A drain-ready job's node proved itself empty. *)
Lemma drain_phase_ready now_us plan unreachable irreversible d ready active d' j :
  drain_phase v post_drain exn_text fresh now_us plan unreachable irreversible d = Ok (ready, active, d') → j ∈ ready →
  ∃ n token, n ∈ cv_nodes v ∧ node_job_id n = j ∧ node_drain_ready n token = true.
Proof.
  unfold drain_phase. intros (d1 & _ & E)%res_bind_Ok Hj. apply res_bind_Ok in E as (d2 & _ & E).
  apply res_bind_Ok in E as (d3 & _ & E). apply res_bind_Ok in E as (pending & _ & E).
  apply res_bind_Ok in E as ([ready' d4] & E & E'). apply res_bind_Ok in E' as (p2 & _ & [= <- <- <-]).
  revert j Hj. change ready' with (ready', d4).1.
  refine (res_foldl_inv _ (λ a : list string * autoscaler_db, ∀ j, j ∈ a.1 →
    ∃ n token, n ∈ cv_nodes v ∧ node_job_id n = j ∧ node_drain_ready n token = true) _ ([], d3) (ready', d4) _ _ E).
  - intros a i a' _ Ha Et. unfold handshake in Et. destruct (exchange _ _ _ _ i) as [response error].
    destruct (di_state i).
    + injection Et as <-. simpl. destruct (negb (nonempty error) && _) eqn:Er; [|done].
      intros j [Hj| ->%list_elem_of_singleton]%elem_of_app; [by apply Ha|].
      apply andb_true_iff in Er as [_ Er]. destruct (dget _ (di_job_id i)) as [n|] eqn:En; [|done].
      apply nodes_by_job_id_inv in En as [Hn <-]. eauto.
    + destruct (_ && _) in Et; [|by injection Et as <-]. apply res_bind_Ok in Et as (r & _ & [= <-]). done.
  - intros j Hj. by apply elem_of_nil in Hj.
Qed.
Lemma unreachable_stop_inv plan j : j ∈ unreachable_stop_job_ids v plan →
  ∃ n, n ∈ cv_nodes v ∧ node_job_id n = j ∧ unreachable_node_stop_ready n (cv_policy v) (cv_now v) = true.
Proof.
  unfold unreachable_stop_job_ids. intros [[_ Hn] _]%list_elem_of_filter.
  destruct (dget (stop_nodes v) j) as [n|] eqn:En; [|done]. apply andb_true_iff in Hn as [Hn _].
  apply nodes_by_job_id_inv in En as [Hin Hj]. exists n. split_and!; [|done|done].
  apply elem_of_app in Hin as [Hin|Hin]; by apply list_elem_of_filter in Hin as [_ ?].
Qed.
Lemma destructive_inv decision builder_decision canceling j :
  j ∈ sp_destructive (plan_stops v decision builder_decision canceling) → ∃ n, n ∈ cv_nodes v ∧ node_job_id n = j.
Proof.
  set (lost nodes := ids (filter (λ n, is_final (job n) = false ∧ node_job_id n ∈ dkeys (cv_losses v)) nodes)).
  assert (∀ nodes label, (∀ n, n ∈ nodes → n ∈ cv_nodes v) →
    j ∈ (partition_safe_stop_job_ids nodes (lost nodes) (cv_deployment_id v) label).1 →
    ∃ n, n ∈ cv_nodes v ∧ node_job_id n = j) as Hlost.
  { intros nodes label Hn. unfold partition_safe_stop_job_ids. destruct (negb _); simpl; [by intros ?%elem_of_nil|].
    intros [_ Hj]%list_elem_of_filter. unfold lost, ids in Hj. apply list_elem_of_fmap in Hj as (n & -> & Hj).
    apply list_elem_of_filter in Hj as [_ Hj]. eauto. }
  unfold plan_stops. fold lost. intros Hj.
  assert (j ∈ from_keys ((partition_safe_stop_job_ids (cv_sandbox_nodes v) (lost (cv_sandbox_nodes v)) (cv_deployment_id v) NODE_LABEL).1
    ++ (partition_safe_stop_job_ids (cv_builder_nodes v) (lost (cv_builder_nodes v)) (cv_deployment_id v) BUILDER_LABEL).1)) as Hj'
    by (by destruct (bool_decide (canceling = []))).
  apply elem_of_from_keys, elem_of_app in Hj' as [Hj'|Hj']; (eapply Hlost; [|exact Hj']);
    intros n Hn; by apply list_elem_of_filter in Hn as [_ ?].
Qed.
(** Each journaled operation is the stop of a job the phase selected. *)
Lemma journal_stops_targets plan unreachable active now_us ready d ops d' op :
  journal_stops uuid5_hex v provider plan unreachable active now_us ready d = Ok (ops, d') → op ∈ ops →
  ∃ j, j ∈ ready ++ unreachable ++ sp_destructive plan ∧ op_target_job_ids op = clean_job_ids [j].
Proof.
  unfold journal_stops. intros E. revert op. change ops with (ops, d').1.
  refine (res_foldl_inv _ (λ a : list ProviderOperation * autoscaler_db, ∀ op, op ∈ a.1 →
    ∃ j, j ∈ ready ++ unreachable ++ sp_destructive plan ∧ op_target_job_ids op = clean_job_ids [j]) _ ([], d) (ops, d') _ _ E).
  - intros a j a' Hj Ha Et. unfold journal_stop in Et. apply res_bind_Ok in Et as ([[role key] req] & _ & Et).
    apply res_bind_Ok in Et as ([o d1] & Ep & [= <-]). simpl.
    intros op [Hop| ->%list_elem_of_singleton]%elem_of_app; [by apply Ha|].
    exists j. split; [by rewrite elem_of_from_keys in Hj|]. by eapply prepare_targets.
  - intros op Hop. by apply elem_of_nil in Hop.
Qed.
End strands.

(** C10. No stop strands a sandbox.  The nodes of the cycle are the provider's jobs with
    their heartbeats and the routes of the snapshot merged in.  Whatever the decisions
    asked for, a job whose stop is journaled - unless it is lost for good - owns no
    route of the snapshot that is not detached: its sandboxes were moved away first. *)
Theorem no_stop_strands_sandbox uuid5_hex post_drain exn_text fresh v provider decision builder_decision canceling
    irreversible now_us d plan ops d' package_version jobs heartbeats routes destructive op j r :
  cv_nodes v = observed_nodes package_version jobs heartbeats (cv_policy v) (cv_now v)
                 (sandbox_route_reservations routes) destructive →
  (∀ k h, dget heartbeats k = Some h → 0 ≤ active_sandboxes h) →
  (∀ i, i ∈ jobs → strip (instance_id i) = instance_id i) →
  stop_phase uuid5_hex post_drain exn_text fresh v provider decision builder_decision canceling irreversible now_us d
    = Ok (plan, ops, d') →
  op ∈ ops → j ∈ op_target_job_ids op → j ∉ sp_destructive plan →
  r ∈ routes → strip (sr_job_id r) = j → sr_worker_state r = "detached".
Proof.
  intros Hv Hwf Hids E Hop Hj Hnd Hr Hrj. unfold stop_phase in E.
  apply res_bind_Ok in E as ([[ready active] d1] & Ed & E). apply res_bind_Ok in E as ([ops' d2] & Es & [= <- <- <-]).
  destruct (journal_stops_targets _ _ _ _ _ _ _ _ _ _ _ _ Es Hop) as (j0 & Hj0 & Ht). rewrite Ht in Hj.
  apply clean_one in Hj as [Ej Hne].
  assert (∀ n, n ∈ cv_nodes v → node_job_id n = j0 → j = j0) as Hsame.
  { intros n Hn Hnj. rewrite Hv in Hn. destruct (observed_job _ _ _ _ _ _ _ _ Hn) as (i & Hi & En).
    rewrite Ej, <-Hnj, En. by apply Hids. }
  apply elem_of_app in Hj0 as [Hj0|[Hj0|Hj0]%elem_of_app].
  - destruct (drain_phase_ready _ _ _ _ _ _ _ _ _ _ _ _ _ Ed Hj0) as (n & token & Hn & Hnj & Hready).
    rewrite (Hsame n Hn Hnj) in *. subst j0. rewrite Hv in Hn.
    eapply drained_holds_nothing; [exact Hwf|exact Hn|exact Hready|exact Hr|congruence|congruence].
  - destruct (unreachable_stop_inv _ _ _ Hj0) as (n & Hn & Hnj & Hready).
    rewrite (Hsame n Hn Hnj) in *. subst j0. rewrite Hv in Hn.
    pose proof (unreachable_holds_nothing _ _ _ _ _ _ _ _ _ _ Hn Hready) as Hnil.
    destruct (decide (sr_worker_state r = "detached")) as [|Hw]; [done|exfalso].
    assert (r ∈ routes_of (sandbox_route_reservations routes) (node_job_id n)) as Hx; [|rewrite Hnil in Hx; by apply elem_of_nil in Hx].
    apply routes_of_reservations. split_and!; [done| |congruence]. unfold holds_worker.
    rewrite bool_decide_eq_false_2 by done. unfold nonempty. rewrite bool_decide_eq_false_2; [done|congruence].
  - destruct (destructive_inv _ _ _ _ _ Hj0) as (n & Hn & Hnj). by rewrite (Hsame n Hn Hnj) in Hnd.
Qed.

(** ** Journaled stops carry their proof *)

(** Drain intents are filed under their deployment and job, as clean text. *)
Definition clean_text (s : string) : Prop := strip s = s ∧ s ≠ EmptyString.
Definition drains_ok (d : autoscaler_db) : Prop :=
  ∀ k i, drain_intents d !! k = Some i →
    k = (di_deployment_id i, di_job_id i) ∧ clean_text (di_token i) ∧ clean_text (di_role i) ∧ clean_text (di_job_id i).

Lemma required_clean label x y : required label x = Ok y → clean_text y.
Proof. intros [-> Hne]%required_Ok. split; [apply strip_idem|done]. Qed.
(** The intents stay well filed, and the operations are those of [d0]. *)
Definition drains_of (d0 d : autoscaler_db) : Prop := drains_ok d ∧ provider_operations d = provider_operations d0.
Lemma drains_insert d0 d k i : drains_of d0 d → k = (di_deployment_id i, di_job_id i) → clean_text (di_token i) →
  clean_text (di_role i) → clean_text (di_job_id i) → drains_of d0 (with_drains d (<[k := i]> (drain_intents d))).
Proof.
  intros [Hd Ho] Hk Ht Hr Hj. split; [|done]. intros k' i'. simpl.
  intros [[<- <-]|[_ Hi]]%lookup_insert_Some; [done|by apply Hd].
Qed.
Lemma retire_drains d0 dep j d r d' : retire_drain_intent dep j d = Ok (r, d') → drains_of d0 d → drains_of d0 d'.
Proof.
  unfold retire_drain_intent. intros (? & _ & E)%res_bind_Ok Hd. apply res_bind_Ok in E as (? & _ & E).
  destruct (_ !! _); injection E as _ <-; [|done]. split; [|apply Hd]. intros k i. simpl.
  intros [_ Hi]%lookup_delete_Some. by apply Hd.
Qed.
Lemma cancel_drains d0 dep j now d r d' : begin_drain_cancellation dep j now d = Ok (r, d') → drains_of d0 d → drains_of d0 d'.
Proof.
  unfold begin_drain_cancellation, drain_row. intros (dp & _ & E)%res_bind_Ok Hd. apply res_bind_Ok in E as (jb & _ & E).
  destruct (_ !! _) as [i|] eqn:Ei; [|done]. simpl in E. destruct (proj1 Hd _ _ Ei) as (Hk & Ht & Hr & Hj).
  destruct (di_state i); injection E as _ <-; [|done]. by apply drains_insert.
Qed.
Lemma prepare_drains_ok d0 dep j role fr now d r d' : prepare_drain_intent dep j role fr now d = Ok (r, d') →
  clean_text ("drain-" +:+ fr) → drains_of d0 d → drains_of d0 d'.
Proof.
  unfold prepare_drain_intent. intros (dp & _ & E)%res_bind_Ok Hf Hd. apply res_bind_Ok in E as (jb & Hjb%required_clean & E).
  apply res_bind_Ok in E as (rl & Hrl%required_clean & E). destruct (_ !! _) as [i|] eqn:Ei.
  - apply raise_if_Ok in E as [_ E]. apply raise_if_Ok in E as [_ E]. injection E as _ <-.
    destruct (proj1 Hd _ _ Ei) as (Hk & Ht & Hr & Hj). by apply drains_insert.
  - case_bool_decide; [done|]. injection E as _ <-. by apply drains_insert.
Qed.
Lemma pending_inv dep d pending i : pending_drain_intents dep d = Ok pending → drains_ok d → i ∈ pending →
  di_deployment_id i = strip dep ∧ drain_intents d !! (di_deployment_id i, di_job_id i) = Some i.
Proof.
  unfold pending_drain_intents. intros (dp & [-> _]%required_Ok & [= <-])%res_bind_Ok Hd.
  rewrite sorted_by_perm. intros [Hdep ([k i'] & -> & Hi%elem_of_map_to_list)%list_elem_of_fmap]%list_elem_of_filter.
  simpl in *. by destruct (Hd _ _ Hi) as (<- & _).
Qed.

Section proved.
Context (uuid5_hex : string → string) (post_drain : string → string → bool → res (dict string json)).
Context (exn_text : exn → string) (fresh : string → string) (v : cycle_view) (provider : ComputeProvider).
Hypothesis Hfresh : ∀ j, clean_text ("drain-" +:+ fresh j).

Lemma drain_phase_active now_us plan unreachable irreversible d ready active d' :
  drain_phase v post_drain exn_text fresh now_us plan unreachable irreversible d = Ok (ready, active, d') → drains_ok d →
  drains_of d d' ∧ ∀ i, i ∈ active → di_state i = drain_active ∧
    di_deployment_id i = strip (cv_operation_deployment_id v) ∧ drain_intents d' !! (di_deployment_id i, di_job_id i) = Some i.
Proof.
  unfold drain_phase. intros (d1 & E1 & E)%res_bind_Ok Hok.
  assert (drains_of d d) as H0 by done.
  assert (drains_of d d1) as H1.
  { refine (res_foldl_inv _ (drains_of d) _ d d1 _ H0 E1). intros a j a' _ Ha ([r a1] & Er & [= <-])%res_bind_Ok. by eapply retire_drains. }
  apply res_bind_Ok in E as (d2 & E2 & E). unfold cancel_unneeded in E2. apply res_bind_Ok in E2 as (p1 & _ & E2).
  assert (drains_of d d2) as H2.
  { refine (res_foldl_inv _ (drains_of d) _ d1 d2 _ H1 E2). intros a i a' _ Ha. destruct (_ && _); [|by intros [= <-]].
    intros ([r a1] & Er & [= <-])%res_bind_Ok. by eapply cancel_drains. }
  apply res_bind_Ok in E as (d3 & E3 & E).
  assert (drains_of d d3) as H3.
  { refine (res_foldl_inv _ (drains_of d) _ d2 d3 _ H2 E3). intros a j a' _ Ha ([r a1] & Er & [= <-])%res_bind_Ok.
    by eapply prepare_drains_ok. }
  apply res_bind_Ok in E as (p2 & _ & E). apply res_bind_Ok in E as ([rd d4] & E4 & E).
  assert (drains_of d d4) as H4.
  { refine (res_foldl_inv _ (λ a, drains_of d a.2) _ ([], d3) (rd, d4) _ H3 E4). intros a i a' _ Ha. unfold handshake.
    destruct (exchange _ _ _ _ i) as [rs er]. destruct (di_state i); [by intros [= <-]|].
    destruct (_ && _); [|by intros [= <-]]. intros ([r a1] & Er & [= <-])%res_bind_Ok. by eapply retire_drains. }
  apply res_bind_Ok in E as (p3 & E5 & [= <- <- <-]). split; [done|].
  intros i [Hs Hi]%list_elem_of_filter. split; [done|]. eapply pending_inv; [done|apply H4|done].
Qed.

(** An operation new to the journal is the one asked for; no drain intent changes. *)
Lemma prepare_new key kind dep req role tgt now d op d' k :
  prepare_operation uuid5_hex key kind dep req role tgt now d = Ok (op, d') → operation_kind kind = Ok k →
  drain_intents d' = drain_intents d ∧
  ((∃ i, provider_operations d !! i = Some op) ∧ d' = d ∨
   provider_operations d' = <[op_id op := op]> (provider_operations d) ∧ op_kind_of op = k ∧ op_request op = req ∧
   op_deployment_id op = strip dep ∧ op_target_job_ids op = clean_job_ids tgt ∧ provider_role role = Ok (op_role_of op)).
Proof.
  intros E Hk. pose proof (prepare_targets _ _ _ _ _ _ _ _ _ _ _ E) as Ht. revert E.
  unfold prepare_operation. intros (? & _ & E)%res_bind_Ok. rewrite Hk in E. simpl in E.
  apply res_bind_Ok in E as (dp & [-> _]%required_Ok & E). apply res_bind_Ok in E as (r & Hr & E).
  destruct (_ !! _) as [o|] eqn:Eo.
  - destruct (_ || _) in E; [done|]. injection E as <- <-. split; [done|]. left. eauto.
  - injection E as <- <-. rewrite update_slot_drains, update_slot_operations. split; [done|]. by right.
Qed.

(** Text that holds something stays non-blank when stripped. *)
Lemma iso_strip t : strip (iso t) ≠ EmptyString.
Proof.
  unfold iso, isoformat. rewrite app_assoc. set (a := iso_stamp _ ++ _).
  assert (String.string_of_list_ascii (a ++ UTC_SUFFIX)
    = String.string_of_list_ascii a +:+ String.string_of_list_ascii UTC_SUFFIX) as ->.
  { clearbody a. induction a as [|c a IH]; [done|].
    change (String c (String.string_of_list_ascii (a ++ UTC_SUFFIX))
      = String c (String.string_of_list_ascii a +:+ String.string_of_list_ascii UTC_SUFFIX)). by rewrite IH. }
  unfold strip. rewrite rstrip_app by done.
  generalize (String.string_of_list_ascii a). intros s. induction s as [|c s IH]; [done|]. simpl. by destruct (is_space c).
Qed.
Lemma clean_one_eq j : clean_text j → clean_job_ids [j] = [j].
Proof.
  intros [Hs Hne]. unfold clean_job_ids. csimpl. rewrite Hs, filter_cons, decide_True, filter_nil; [done|].
  unfold nonempty. by rewrite bool_decide_eq_false_2.
Qed.
Lemma provider_role_text role r : provider_role role = Ok r → role_text r = strip role.
Proof. unfold provider_role. repeat case_bool_decide; by intros [= <-]. Qed.

Variables (jobs : list ProviderInstance) (heartbeats : dict string NodeHeartbeat) (package_version : string)
  (routes : list SandboxRoute) (destructive : list string).
Hypothesis Hnodes : cv_nodes v = observed_nodes package_version jobs heartbeats (cv_policy v) (cv_now v)
                      (sandbox_route_reservations routes) destructive.
Hypothesis Hroutes : cv_routes v = sandbox_route_reservations routes.
Hypothesis Hids : ∀ i, i ∈ jobs → clean_text (instance_id i).

(** The fields of the two requests *)
Lemma unreachable_fields j reference count active present :
  let request := dict_update (stop_base j)
    [("unreachableStaleReady", JBool true); ("unreachableReference", JStr reference); ("routeCount", JInt count);
     ("lastKnownActiveSandboxes", JInt active); ("lastHeartbeatSafeToStop", JBool true);
     ("lastHeartbeatPresent", JBool present); ("directProbeFailed", JBool present)] in
  jget request "destructiveNodeLoss" = JNull ∧ jget request "unreachableStaleReady" = JBool true ∧
  jget request "unreachableReference" = JStr reference ∧ jget request "routeCount" = JInt count ∧
  jget request "lastKnownActiveSandboxes" = JInt active ∧ jget request "lastHeartbeatSafeToStop" = JBool true ∧
  jget request "lastHeartbeatPresent" = JBool present ∧ jget request "directProbeFailed" = JBool present.
Proof. vm_compute. repeat split. Qed.
Lemma drain_fields j token :
  let request := dict_update (stop_base j) [("drainToken", JStr token); ("drainReady", JBool true)] in
  jget request "destructiveNodeLoss" = JNull ∧ jget request "unreachableStaleReady" = JNull ∧
  jget request "drainToken" = JStr token ∧ jget request "drainReady" = JBool true.
Proof. vm_compute. repeat split. Qed.
Lemma unreachable_request_proved plan j d op :
  j ∈ unreachable_stop_job_ids v plan → op_kind_of op = stop → op_target_job_ids op = clean_job_ids [j] →
  match unreachable_request v j with Ok p => op_request op = p.2 | Raise _ => False end →
  stop_operation_has_safety_proof d provider op = true.
Proof.
  intros Hj Hk Ht Hreq. pose proof Hj as [[_ Hn] _]%list_elem_of_filter.
  unfold unreachable_request in Hreq. destruct (dget (stop_nodes v) j) as [n|] eqn:En; [|done].
  apply andb_true_iff in Hn as [Hr Hp]. apply nodes_by_job_id_inv in En as [Hin Hnj].
  assert (n ∈ cv_nodes v) as Hv by (apply elem_of_app in Hin as [Hin|Hin]; by apply list_elem_of_filter in Hin as [_ ?]).
  rewrite Hnodes in Hv. destruct (observed_job _ _ _ _ _ _ _ _ Hv) as (i & Hi & Ei).
  pose proof (unreachable_holds_nothing _ _ _ _ _ _ _ _ _ _ Hv Hr) as Hnil.
  unfold unreachable_node_stop_ready in Hr. destruct (_ || negb (sn_active_sandboxes n =? 0)) eqn:Eb in Hr; [done|].
  apply orb_false_iff in Eb as [Eb Hz%negb_false_iff%Z.eqb_eq]. apply orb_false_iff in Eb as [_ Href].
  destruct (unreachable_node_reference n) as [t|] eqn:Et; [|done].
  cbn [snd] in Hreq. unfold stop_operation_has_safety_proof. rewrite Hk, Ht, clean_one_eq.
  2:{ rewrite <-Hnj, Ei. by apply Hids. }
  unfold stop_operation_is_destructive_node_loss. rewrite Hk, Hreq.
  destruct (unreachable_fields j (iso t) (route_count v j) (sn_active_sandboxes n) (negb (is_none (heartbeat n))))
    as (-> & -> & -> & -> & -> & -> & -> & ->).
  unfold route_count. rewrite Hroutes, <-Hnj, Hnil, Hz. cbn [text_of is_json_bool is_zero length].
  unfold nonempty. rewrite (bool_decide_eq_false_2 (strip (iso t) = EmptyString)) by apply iso_strip.
  by destruct (heartbeat n).
Qed.
Lemma drain_request_proved d op i :
  drains_ok d → drain_intents d !! (di_deployment_id i, di_job_id i) = Some i → di_state i = drain_active →
  op_kind_of op = stop → op_target_job_ids op = clean_job_ids [di_job_id i] → op_deployment_id op = di_deployment_id i →
  provider_role (di_role i) = Ok (op_role_of op) →
  op_request op = dict_update (stop_base (di_job_id i)) [("drainToken", JStr (di_token i)); ("drainReady", JBool true)] →
  stop_operation_has_safety_proof d provider op = true.
Proof.
  intros Hd Hi Hs Hk Ht Hdep Hr Hreq. destruct (Hd _ _ Hi) as (_ & [Htok Htne] & [Hrole _] & Hjob).
  unfold stop_operation_has_safety_proof. rewrite Hk, Ht, clean_one_eq by done.
  unfold stop_operation_is_destructive_node_loss. rewrite Hk, Hreq.
  destruct (drain_fields (di_job_id i) (di_token i)) as (-> & -> & -> & ->). cbn [text_of is_json_bool]. rewrite Htok.
  unfold nonempty. rewrite (bool_decide_eq_false_2 (di_token i = EmptyString)) by done. cbn [negb orb]. unfold get_drain_intent.
  rewrite Hdep, Hi, (provider_role_text _ _ Hr), Hrole. rewrite !bool_decide_eq_true_2 by done. done.
Qed.

(** The intent a drain-ready job is stopped with *)
Lemma drain_intent_inv active j i : drain_intent_of active j = Some i → i ∈ active ∧ di_job_id i = j.
Proof.
  unfold drain_intent_of. assert (∀ m, dget (foldl (λ m i, dset m (di_job_id i) i) m active) j = Some i →
    dget m j = Some i ∨ i ∈ active ∧ di_job_id i = j) as H; [|intros E; by destruct (H [] E)].
  induction active as [|i' active IH]; intros m; simpl; [by left|]. intros E. destruct (IH _ E) as [Hm|[? ?]].
  - destruct (decide (di_job_id i' = j)) as [Hj|Hj].
    + rewrite <-Hj, dget_dset_eq in Hm. injection Hm as <-. right. split; [by left|done].
    + rewrite dget_dset_ne in Hm by done. by left.
  - right. split; [by right|done].
Qed.
Lemma stop_operation_proved plan active d d0 j role key request op :
  drains_ok d → (∀ i, i ∈ active → di_state i = drain_active ∧ di_deployment_id i = strip (cv_operation_deployment_id v) ∧
     drain_intents d !! (di_deployment_id i, di_job_id i) = Some i) →
  stop_operation v provider plan (unreachable_stop_job_ids v plan) active j = Ok (role, key, request) →
  j ∉ sp_destructive plan → drain_intents d0 = drain_intents d →
  op_kind_of op = stop → op_request op = request → op_deployment_id op = strip (cv_operation_deployment_id v) →
  op_target_job_ids op = clean_job_ids [j] → provider_role role = Ok (op_role_of op) →
  stop_operation_has_safety_proof d0 provider op = true.
Proof.
  intros Hd Ha Hs Hnd Hdr Hk Hreq Hdep Ht Hr. unfold stop_operation in Hs. case_bool_decide as Hu.
  - eapply unreachable_request_proved; [exact Hu|done|done|].
    apply res_bind_Ok in Hs as ([reference req] & Hs & [= _ _ <-]). by rewrite Hs.
  - rewrite bool_decide_eq_false_2 in Hs by done. destruct (drain_intent_of active j) as [i|] eqn:Ei; [|done].
    apply drain_intent_inv in Ei as [Hi <-]. destruct (Ha i Hi) as (Hst & Hid & Hrow). injection Hs as <- _ Hs.
    eapply (drain_request_proved d0 op i); rewrite ?Hdr; try done; [|congruence|by rewrite Hreq, <-Hs].
    intros k i'. rewrite Hdr. apply Hd.
Qed.
Lemma journal_stops_proved plan active now_us ready d ops d' op :
  drains_ok d → (∀ i, i ∈ active → di_state i = drain_active ∧ di_deployment_id i = strip (cv_operation_deployment_id v) ∧
     drain_intents d !! (di_deployment_id i, di_job_id i) = Some i) →
  journal_stops uuid5_hex v provider plan (unreachable_stop_job_ids v plan) active now_us ready d = Ok (ops, d') → op ∈ ops →
  (∃ i, provider_operations d !! i = Some op) ∨ (∃ j, j ∈ sp_destructive plan ∧ op_target_job_ids op = clean_job_ids [j]) ∨
  stop_operation_has_safety_proof d' provider op = true.
Proof.
  intros Hd Ha E Hop. unfold journal_stops in E.
  set (good d1 op := (∃ i, provider_operations d !! i = Some op) ∨
    (∃ j, j ∈ sp_destructive plan ∧ op_target_job_ids op = clean_job_ids [j]) ∨
    stop_operation_has_safety_proof d1 provider op = true).
  assert (drain_intents d' = drain_intents d ∧ (∀ i o, provider_operations d' !! i = Some o → good d o) ∧
    ∀ o, o ∈ ops → good d o) as (Hdr & _ & Hg).
  { refine (res_foldl_inv _ (λ a : list ProviderOperation * autoscaler_db, drain_intents a.2 = drain_intents d ∧
      (∀ i o, provider_operations a.2 !! i = Some o → good d o) ∧ ∀ o, o ∈ a.1 → good d o) _ ([], d) (ops, d') _ _ E).
    2:{ simpl. split_and!; [done|intros i o Hi; left; eauto|]. intros o Ho. by apply elem_of_nil in Ho. }
    intros [os a] j [os' a'] _ (Hdr & Hrows & Hos) Et. simpl in *. unfold journal_stop in Et.
    apply res_bind_Ok in Et as ([[role key] req] & Hs & Et). apply res_bind_Ok in Et as ([o d1] & Ep & [= <- <-]). simpl in *.
    destruct (prepare_new _ _ _ _ _ _ _ _ _ _ _ Ep eq_refl) as [Hd1 [[[i Hi] ->]|(Hr1 & Hk & Hreq & Hdep & Ht & Hrole)]].
    - split_and!; [done|done|]. intros o' [Ho'| ->%list_elem_of_singleton]%elem_of_app; [by apply Hos|by eapply Hrows].
    - assert (good d o) as Ho.
      { destruct (decide (j ∈ sp_destructive plan)) as [Hj|Hj]; [right; left; eauto|]. right. right.
        by eapply stop_operation_proved. }
      split_and!; [congruence| |].
      + intros i o'. rewrite Hr1. intros [[_ <-]|[_ Hi]]%lookup_insert_Some; [done|by eapply Hrows].
      + intros o' [Ho'| ->%list_elem_of_singleton]%elem_of_app; [by apply Hos|done]. }
  destruct (Hg op Hop) as [?|[?|Hp]]; [by left|by right; left|]. right. right. rewrite <-Hp.
  unfold stop_operation_has_safety_proof, get_drain_intent. by rewrite Hdr.
Qed.
End proved.

(** C26. What the cycle journals it may submit: an operation journaled for a worker that
    is not lost for good - unless it was in the journal before - carries a safety proof
    the submission accepts: the token of an active drain of that worker, or the record
    of an unreachable worker without routes or sandboxes. *)
Theorem journaled_stops_proved uuid5_hex post_drain exn_text fresh v provider decision builder_decision canceling
    irreversible now_us d plan ops d' package_version jobs heartbeats routes destructive op :
  (∀ j, clean_text ("drain-" +:+ fresh j)) →
  cv_nodes v = observed_nodes package_version jobs heartbeats (cv_policy v) (cv_now v)
                 (sandbox_route_reservations routes) destructive →
  cv_routes v = sandbox_route_reservations routes →
  (∀ i, i ∈ jobs → clean_text (instance_id i)) → drains_ok d →
  stop_phase uuid5_hex post_drain exn_text fresh v provider decision builder_decision canceling irreversible now_us d
    = Ok (plan, ops, d') →
  op ∈ ops → (∀ i, provider_operations d !! i ≠ Some op) →
  (∀ j, j ∈ sp_destructive plan → op_target_job_ids op ≠ clean_job_ids [j]) →
  stop_operation_has_safety_proof d' provider op = true.
Proof.
  intros Hf Hn Hr Hi Hd E Hop Hnew Hnd. unfold stop_phase in E.
  apply res_bind_Ok in E as ([[ready active] d1] & Ed & E). apply res_bind_Ok in E as ([ops' d2] & Es & [= <- <- <-]).
  destruct (drain_phase_active _ _ _ _ Hf _ _ _ _ _ _ _ _ Ed Hd) as [[Hd1 Ho1] Ha].
  destruct (journal_stops_proved _ _ _ _ _ _ _ _ Hn Hr Hi _ _ _ _ _ _ _ _ Hd1 Ha Es Hop) as [[i Ho]|[(j & Hj & Ht)|?]]; [| |done].
  - rewrite Ho1 in Ho. by destruct (Hnew i).
  - by destruct (Hnd j Hj).
Qed.

(** ** A concrete stop: a drained, empty worker *)

Definition demo_instance : ProviderInstance :=
  mkInstance "job-1" RUNNING None None None None None [(DEPLOYMENT_LABEL, "prod"); (NODE_LABEL, "true")].
Definition demo_empty_heartbeat : NodeHeartbeat :=
  mkHeartbeat "node-1" "job-1" 100 0 0 0 None true (Some "http://node-1:8090") "1.0" [] rq_zero true rq_zero [] None None
    "epoch" [] [] true rq_zero rq_zero false 7 "drain-x" 7.
Definition demo_moved : SandboxRoute :=
  mkRoute "sandbox-1" "node-1" "job-1" "http://node-1:8090" rq_zero JNull "parked" 1 "op" "hash" EmptyString EmptyString 0
    "detached" EmptyString EmptyString EmptyString EmptyString [] "t" "t".
Definition demo_heartbeats : dict string NodeHeartbeat := [("job-1", demo_empty_heartbeat)].
Definition demo_stop_policy : ScalePolicy := default_policy 0 2 false rq_zero.
Definition demo_view : cycle_view :=
  mkView "prod" "prod" (observed_nodes "1.0" [demo_instance] demo_heartbeats demo_stop_policy 200
                          (sandbox_route_reservations [demo_moved]) [])
    demo_stop_policy 200 (sandbox_route_reservations [demo_moved]) [] [] [].
Definition demo_stop_decision : ScaleDecision :=
  mkDecision [mkAction "stop" 1 ["job-1"] "idle"] 1 0 1 [] 0 rq_zero rq_zero 0 0 rq_zero rq_zero rq_zero rq_zero
    None false false 0 EmptyString false [].
Definition demo_no_decision : ScaleDecision :=
  mkDecision [] 0 0 0 [] 0 rq_zero rq_zero 0 0 rq_zero rq_zero rq_zero rq_zero None false false 0 EmptyString false [].
Definition demo_post (_ _ : string) (_ : bool) : res (dict string json) := Ok [].
Definition demo_fresh (_ : string) : string := "x".
Definition demo_stop_phase : stop_plan * list ProviderOperation * autoscaler_db :=
  match stop_phase demo_uuid demo_post demo_exn demo_fresh demo_view demo_provider demo_stop_decision demo_no_decision
          [] [] 300 empty_autoscaler with
  | Ok r => r
  | Raise _ => (mkStopPlan [] [] [] [], [], empty_autoscaler)
  end.
Definition demo_stop : ProviderOperation :=
  default (mkOperation EmptyString EmptyString create EmptyString sandbox_role op_failed [] [] [] 0 0 EmptyString)
    (head demo_stop_phase.1.2).
Lemma demo_stop_phase_ok : stop_phase demo_uuid demo_post demo_exn demo_fresh demo_view demo_provider demo_stop_decision
  demo_no_decision [] [] 300 empty_autoscaler = Ok (demo_stop_phase.1.1, demo_stop_phase.1.2, demo_stop_phase.2).
Proof. vm_compute. reflexivity. Qed.
Lemma demo_stop_in : demo_stop ∈ demo_stop_phase.1.2.
Proof. apply list_elem_of_In. vm_compute. by left. Qed.

Lemma no_stop_strands_sandbox_witness :
  op_target_job_ids demo_stop = ["job-1"] ∧ sr_worker_state demo_moved = "detached".
Proof.
  split; [vm_compute; reflexivity|].
  eapply (no_stop_strands_sandbox demo_uuid demo_post demo_exn demo_fresh demo_view demo_provider demo_stop_decision
    demo_no_decision [] [] 300 empty_autoscaler demo_stop_phase.1.1 demo_stop_phase.1.2 demo_stop_phase.2 "1.0"
    [demo_instance] demo_heartbeats [demo_moved] [] demo_stop "job-1" demo_moved).
  - reflexivity.
  - intros k h Hk%dget_Some_1. apply list_elem_of_singleton in Hk. injection Hk as _ ->. vm_compute. discriminate.
  - intros i ->%list_elem_of_singleton. vm_compute. reflexivity.
  - apply demo_stop_phase_ok.
  - apply demo_stop_in.
  - apply list_elem_of_In. vm_compute. by left.
  - assert (sp_destructive demo_stop_phase.1.1 = []) as -> by (by vm_compute). by intros ?%elem_of_nil.
  - by apply list_elem_of_singleton.
  - vm_compute. reflexivity.
Defined.
Lemma journaled_stops_proved_witness :
  op_kind_of demo_stop = stop ∧ stop_operation_has_safety_proof demo_stop_phase.2 demo_provider demo_stop = true.
Proof.
  split; [vm_compute; reflexivity|].
  eapply (journaled_stops_proved demo_uuid demo_post demo_exn demo_fresh demo_view demo_provider demo_stop_decision
    demo_no_decision [] [] 300 empty_autoscaler demo_stop_phase.1.1 demo_stop_phase.1.2 demo_stop_phase.2 "1.0"
    [demo_instance] demo_heartbeats [demo_moved] [] demo_stop).
  - intros j. split; [vm_compute; reflexivity|vm_compute; discriminate].
  - reflexivity.
  - reflexivity.
  - intros i ->%list_elem_of_singleton. split; [vm_compute; reflexivity|vm_compute; discriminate].
  - intros k i Hk. simpl in Hk. by rewrite lookup_empty in Hk.
  - apply demo_stop_phase_ok.
  - apply demo_stop_in.
  - intros i Hi. simpl in Hi. by rewrite lookup_empty in Hi.
  - assert (sp_destructive demo_stop_phase.1.1 = []) as -> by (by vm_compute). intros j []%elem_of_nil.
Defined.
