(* ===== verification/DurableBatch.v ===== *)
(** * The batched SQLite journal (ucloud_sandboxes/durable_batch.py)

    Writers queue for a turn; each runs its body between a savepoint and its
    release on one connection, and a flusher thread commits the batch for all of
    them.  A step is one critical section of [_condition]; SQLite, the body of a
    caller and the [validate]/[connect] callbacks are parameters, and a failure of
    any of them at any point, closing a connection included, is part of a step's
    [env].  The millisecond sums of [metrics] are not kept. *)
From Stdlib Require Import Ascii.
From stdpp Require Import gmap strings.
From S2P Require Import Prelude PyString.
Local Open Scope py_scope.
Local Open Scope Z_scope.

(** [statement.strip().rstrip(";").upper()] *)
Definition command_of (statement : string) : string := upper (rstrip_char ";"%char (strip statement)).

Definition BEGIN_COMMANDS : list string := ["BEGIN"; "BEGIN IMMEDIATE"; "BEGIN TRANSACTION"].
Definition REFUSED_COMMANDS : list string := ["COMMIT"; "END"; "ROLLBACK"; "SAVEPOINT"; "RELEASE"].

Section journal.
Context {D rows params : Type}.
(** [connection.execute] and [connection.executemany] on the data of a database *)
Context (sql : string → params → D → res (rows * D)).
Context (sql_many : string → list params → D → res (rows * D)).
Context (no_params : params).

(** ** [_Transaction] *)
Inductive call :=
| Execute (statement : string) (ps : params)
| ExecuteMany (statement : string) (ps : list params)
| Commit
| Rollback.

(** The body of a [with journal.transaction()] block: what it asks of its view,
    each answer deciding what it asks next. *)
Inductive script :=
| Return
| Throw (e : exn)
| Do (c : call) (k : res (option rows) → script).

(** A connection in a transaction: its data, and the data at the savepoint *)
Record conn := mkConn { cn_work : D; cn_saved : option D }.
Record view := mkTxView { tx_explicit : bool; tx_committed : bool }.

Definition rollback_to (c : conn) : conn :=
  mkConn (default (cn_work c) (cn_saved c)) (cn_saved c).

(** A statement that fails leaves the data as it was. *)
Definition run_sql (r : res (rows * D)) (v : view) (c : conn) : res (option rows) * view * conn :=
  match r with
  | Ok (out, d) => (Ok (Some out), v, mkConn d (cn_saved c))
  | Raise e => (Raise e, v, c)
  end.

Definition execute (statement : string) (ps : params) (v : view) (c : conn) :
    res (option rows) * view * conn :=
  let command := command_of statement in
  if bool_decide (command ∈ BEGIN_COMMANDS) then
    if tx_explicit v then (Raise (RuntimeError "nested journal transaction"), v, c)
    else run_sql (sql "SELECT 1 WHERE 0" no_params (cn_work c)) (mkTxView true (tx_committed v)) c
  else if existsb (λ p, String.prefix p command) REFUSED_COMMANDS then
    (Raise (ValueError "use journal commit()/rollback(), not transaction SQL"), v, c)
  else run_sql (sql statement ps (cn_work c)) v c.

Definition run_call (x : call) (v : view) (c : conn) : res (option rows) * view * conn :=
  match x with
  | Execute statement ps => execute statement ps v c
  | ExecuteMany statement ps => run_sql (sql_many statement ps (cn_work c)) v c
  | Commit => (Ok None, mkTxView (tx_explicit v) true, c)
  | Rollback => match sql "ROLLBACK TO operation" no_params (cn_work c) with
                | Ok _ => (Ok None, mkTxView true false, rollback_to c)
                | Raise e => (Raise e, v, c)
                end
  end.

Fixpoint run_script (s : script) (v : view) (c : conn) : option exn * view * conn :=
  match s with
  | Return => (None, v, c)
  | Throw e => (Some e, v, c)
  | Do x k => let '(answer, v, c) := run_call x v c in run_script (k answer) v c
  end.

(** ** The journal *)
Record Batch := mkBatch { bx_id : nat; bx_deadline : Z; bx_operations : Z }.

(** Where a call of [transaction] is: queued for its turn, waiting for its batch
    with the failure of its own body, or returned. *)
Inductive phase :=
| Queued
| Waiting (batch : nat) (failure : option exn)
| Returned (result : res unit).

(** A batch object is a number; [j_done] has the batches whose event is set, with
    their [error].  [j_thread] is whether [_thread] is set, and [j_alive] whether the
    flusher still runs.  A call of [transaction] is a ticket, in order of arrival. *)
Record journal := mkJournal {
  j_durable : D;
  j_connection : option conn;
  j_batch : option Batch;
  j_next : nat;
  j_done : gmap nat (option exn);
  j_thread : bool;
  j_alive : bool;
  j_writers : list Z;
  j_tickets : Z;
  j_calls : gmap Z script;
  j_phase : gmap Z phase;
  j_commits : Z;
  j_operations : Z;
  j_failed : Z
}.

Context (delay max_operations : Z).

Definition journal_init (d : D) : res journal :=
  raise_if ((delay <? 0) || (max_operations <? 1)) (ValueError "invalid journal batch window")
    (Ok (mkJournal d None None 0 ∅ false false [] 0 ∅ ∅ 0 0 0)).

(** What the outside answers in a step: two readings of the clock, and the failure
    of each call, if any.  A commit that fails may still have reached the disk. *)
Record env := mkEnv {
  e_now : Z; e_later : Z;
  e_validate : option exn; e_connect : option exn; e_begin : option exn;
  e_savepoint : option exn; e_rollback : option exn; e_undo : option exn; e_release : option exn; e_start : option exn;
  e_commit : option (exn * bool); e_validate_after : option exn; e_close : option exn
}.

Definition set_phase (t : Z) (p : phase) (j : journal) : journal :=
  mkJournal (j_durable j) (j_connection j) (j_batch j) (j_next j) (j_done j) (j_thread j) (j_alive j) (j_writers j)
    (j_tickets j) (j_calls j) (<[t := p]> (j_phase j)) (j_commits j) (j_operations j) (j_failed j).
Definition set_writers (ws : list Z) (j : journal) : journal :=
  mkJournal (j_durable j) (j_connection j) (j_batch j) (j_next j) (j_done j) (j_thread j) (j_alive j) ws
    (j_tickets j) (j_calls j) (j_phase j) (j_commits j) (j_operations j) (j_failed j).
Definition set_connection (c : option conn) (j : journal) : journal :=
  mkJournal (j_durable j) c (j_batch j) (j_next j) (j_done j) (j_thread j) (j_alive j) (j_writers j)
    (j_tickets j) (j_calls j) (j_phase j) (j_commits j) (j_operations j) (j_failed j).

(** [_abort], which finishes the batch also when closing the connection fails: a
    connection let go of rolls back what it had not committed. *)
Definition abort (b : Batch) (e : exn) (j : journal) : journal :=
  mkJournal (j_durable j) None None (j_next j) (<[bx_id b := Some e]> (j_done j)) (j_thread j) (j_alive j) (j_writers j)
    (j_tickets j) (j_calls j) (j_phase j) (j_commits j) (j_operations j) (j_failed j + 1).

(** [_abort] in the turn of [t], whose caller gets the failure of the close *)
Definition abort_turn (e : env) (t : Z) (b : Batch) (x : exn) (j : journal) : journal :=
  match e_close e with
  | Some y => set_phase t (Returned (Raise y)) (abort b x j)
  | None => abort b x j
  end.

(** The start of [transaction]: validate, then queue *)
Definition arrive (s : script) (v : option exn) (j : journal) : journal :=
  let t := j_tickets j in
  mkJournal (j_durable j) (j_connection j) (j_batch j) (j_next j) (j_done j) (j_thread j) (j_alive j)
    (match v with None => j_writers j ++ [t] | Some _ => j_writers j end)
    (t + 1) (<[t := s]> (j_calls j))
    (<[t := match v with None => Queued | Some e => Returned (Raise e) end]> (j_phase j))
    (j_commits j) (j_operations j) (j_failed j).

(** The body up to the release: the failure of the body, with the connection; or
    the error that aborts the batch.  A rollback that fails after a clean body is a
    failure like the body's own, and the rollback is tried once more. *)
Definition settle (e : env) (failure : option exn) (v : view) (c : conn) : res (option exn * conn) :=
  let failure := match failure with
                 | Some x => Some x
                 | None => if tx_explicit v && negb (tx_committed v) then e_rollback e else None
                 end in
  match failure, e_undo e with
  | Some _, Some y => Raise y
  | Some x, None => Ok (Some x, rollback_to c)
  | None, _ => Ok (None, if tx_explicit v && negb (tx_committed v) then rollback_to c else c)
  end.
Definition operation (e : env) (s : script) (c : conn) : res (option exn * conn) :=
  match e_savepoint e with
  | Some x => Raise x
  | None =>
      let '(failure, v, c) := run_script s (mkTxView false false) (mkConn (cn_work c) (Some (cn_work c))) in
      let! '(failure, c) := settle e failure v c in
      match e_release e with
      | Some x => Raise x
      | None => Ok (failure, mkConn (cn_work c) None)
      end
  end.

Definition closed (b : Batch) (now : Z) : bool := (max_operations <=? bx_operations b) || (bx_deadline b <=? now).

(** The batch a turn joins: the open one, or a new one it begins *)
Definition open_batch (e : env) (j : journal) : res (Batch * conn) :=
  match e_validate e with
  | Some x => Raise x
  | None =>
      match j_connection j, e_connect e with
      | None, Some x => Raise x
      | c, _ =>
          let c := default (mkConn (j_durable j) None) c in
          match j_batch j, e_begin e with
          | Some b, _ => Ok (b, c)
          | None, Some x => Raise x
          | None, None => Ok (mkBatch (j_next j) (e_later e + delay) 0, c)
          end
      end
  end.

(** The connection a failed turn leaves behind *)
Definition left_connection (e : env) (j : journal) : option conn :=
  match e_validate e, j_connection j, e_connect e with
  | None, None, None => Some (mkConn (j_durable j) None)
  | _, c, _ => c
  end.

(** The writer leaves the queue and waits for the batch; it may have [started] the
    flusher. *)
Definition join (t : Z) (rest : list Z) (failure : option exn) (c : conn) (b : Batch) (started : bool)
    (j : journal) : journal :=
  mkJournal (j_durable j) (Some c) (Some b) (match j_batch j with Some _ => j_next j | None => S (j_next j) end)
    (j_done j) (j_thread j || started) (j_alive j || started) rest (j_tickets j) (j_calls j) (<[t := Waiting (bx_id b) failure]> (j_phase j))
    (j_commits j) (j_operations j) (j_failed j).

(** The turn of the first queued writer; [None] while its batch is closed *)
Definition turn (e : env) (j : journal) : option journal :=
  match j_writers j with
  | [] => None
  | t :: rest =>
      match j_calls j !! t with
      | None => None
      | Some s =>
          if match j_batch j with Some b => closed b (e_now e) | None => false end then None
          else
            match open_batch e j with
            | Raise x => Some (set_connection (left_connection e j) (set_writers rest (set_phase t (Returned (Raise x)) j)))
            | Ok (b, c) =>
                match operation e s c with
                | Raise x => Some (abort_turn e t b x (join t rest None c b false j))
                | Ok (failure, c) =>
                    let n := bx_operations b + 1 in
                    let b := mkBatch (bx_id b) (if max_operations <=? n then 0 else bx_deadline b) n in
                    match (if j_thread j then None else e_start e) with
                    | Some x => Some (abort_turn e t b x (join t rest failure c b false j))
                    | None => Some (join t rest failure c b (negb (j_thread j)) j)
                    end
                end
            end
      end
  end.

(** One round of [_flush] on a batch past its deadline.  After a failure the thread
    ends; if closing the connection fails too, it ends with [_thread] still set. *)
Definition flush (e : env) (j : journal) : option journal :=
  match j_alive j, j_batch j, j_connection j with
  | true, Some b, Some c =>
      if e_now e <? bx_deadline b then None
      else
        let finished durable c error thread alive commits operations failed :=
          mkJournal durable c None (j_next j) (<[bx_id b := error]> (j_done j)) thread alive (j_writers j)
            (j_tickets j) (j_calls j) (j_phase j) commits operations failed in
        let thread := match e_close e with Some _ => j_thread j | None => false end in
        let fail durable x :=
          Some (finished durable None (Some x) thread false (j_commits j) (j_operations j) (j_failed j + 1)) in
        match e_validate e, e_commit e, e_validate_after e with
        | Some x, _, _ => fail (j_durable j) x
        | None, Some (x, reached), _ => fail (if reached : bool then cn_work c else j_durable j) x
        | None, None, Some x => fail (cn_work c) x
        | None, None, None =>
            Some (finished (cn_work c) (Some (mkConn (cn_work c) None)) None (j_thread j) true
                    (j_commits j + 1) (j_operations j + bx_operations b) (j_failed j))
        end
  | _, _, _ => None
  end.

(** [_flush] idle for a second: the connection closes and the thread ends; if the
    close fails, it ends with [_connection] and [_thread] still set. *)
Definition flush_idle (e : env) (j : journal) : option journal :=
  let ended c thread := Some (mkJournal (j_durable j) c None (j_next j) (j_done j) thread false (j_writers j)
    (j_tickets j) (j_calls j) (j_phase j) (j_commits j) (j_operations j) (j_failed j)) in
  match j_alive j, j_batch j with
  | true, None =>
      match j_connection j, e_close e with
      | Some c, Some _ => ended (Some c) (j_thread j)
      | _, _ => ended None false
      end
  | _, _ => None
  end.

Definition close (e : env) (j : journal) : journal :=
  match j_batch j, j_connection j, e_close e with None, Some _, None => set_connection None j | _, _, _ => j end.

(** The end of [transaction], once the batch is done *)
Definition resume (t : Z) (v : option exn) (j : journal) : option journal :=
  match j_phase j !! t with
  | Some (Waiting b failure) =>
      match j_done j !! b with
      | None => None
      | Some (Some x) => Some (set_phase t (Returned (Raise x)) j)
      | Some None =>
          Some (set_phase t (Returned (match v, failure with
                                       | Some x, _ | None, Some x => Raise x
                                       | None, None => Ok tt
                                       end)) j)
      end
  | _ => None
  end.

(** A step, where what the outside answers is in [T] for a turn, in [F] for the
    flusher *)
Inductive batch_step (T F : env → Prop) (j j' : journal) : Prop :=
| js_arrive s v : j' = arrive s v j → batch_step T F j j'
| js_turn e : T e → turn e j = Some j' → batch_step T F j j'
| js_flush e : F e → flush e j = Some j' → batch_step T F j j'
| js_idle e : F e → flush_idle e j = Some j' → batch_step T F j j'
| js_close e : j' = close e j → batch_step T F j j'
| js_resume t v : resume t v j = Some j' → batch_step T F j j'.

(** Anything may fail; closing a connection does not; an operation's savepoint, undo
    and release do not. *)
Definition anything (e : env) : Prop := True.
Definition closes (e : env) : Prop := e_close e = None.
Definition operates (e : env) : Prop := e_savepoint e = None ∧ e_undo e = None ∧ e_release e = None.

(** ** The contract: one transaction per call

    A body on a database of its own, all or nothing *)
Definition alone (s : script) (d : D) : D * option exn :=
  let '(failure, v, c) := run_script s (mkTxView false false) (mkConn d (Some d)) in
  (match failure with
   | Some _ => d
   | None => if tx_explicit v && negb (tx_committed v) then d else cn_work c
   end, failure).

(** Calls one after the other, with the failure of each body *)
Fixpoint serial (calls : gmap Z script) (log : list Z) (d : D) : D * list (Z * option exn) :=
  match log with
  | [] => (d, [])
  | t :: log =>
      let '(d, failure) := alone (default Return (calls !! t)) d in
      let '(d, outcomes) := serial calls log d in (d, (t, failure) :: outcomes)
  end.

Lemma run_call_saved x v c : cn_saved (run_call x v c).2 = cn_saved c.
Proof.
  destruct x; simpl; [|destruct (sql_many _ _ _) as [[]|]; done|done|by destruct (sql _ _ _)].
  unfold execute. destruct (bool_decide _); [destruct (tx_explicit v); [done|]|destruct (existsb _ _); [done|]].
  all: by destruct (sql _ _ _) as [[]|].
Qed.
Lemma run_script_saved s v c : cn_saved (run_script s v c).2 = cn_saved c.
Proof.
  revert v c. induction s as [| |x k IH]; intros v c; [done..|]. simpl.
  pose proof (run_call_saved x v c) as Hs. destruct (run_call x v c) as [[a v'] c']. by rewrite IH.
Qed.

(** A savepoint and its release give a body exactly the all-or-nothing semantics; a
    failed rollback is reported besides. *)
Lemma operation_alone e s c failure c' :
  operation e s c = Ok (failure, c') →
  ∃ f, alone s (cn_work c) = (cn_work c', f) ∧ (failure = None → f = None).
Proof.
  unfold operation, alone, settle. destruct (e_savepoint e); [done|].
  pose proof (run_script_saved s (mkTxView false false) (mkConn (cn_work c) (Some (cn_work c)))) as Hs.
  destruct (run_script _ _ _) as [[f v] c1]. simpl in Hs. unfold rollback_to. rewrite Hs.
  destruct f as [x|]; [|destruct (_ && _); [destruct (e_rollback e)|]]; simpl.
  all: destruct (e_undo e), (e_release e); simpl; intros; simplify_eq/=; eauto.
Qed.

Lemma serial_snoc calls log t d :
  serial calls (log ++ [t]) d =
  let '(d, out) := serial calls log d in
  let '(d, failure) := alone (default Return (calls !! t)) d in (d, out ++ [(t, failure)]).
Proof.
  revert d. induction log as [|u log IH]; intros d; simpl; [by destruct (alone _ d)|].
  destruct (alone _ d) as [d1 f1]. rewrite IH. destruct (serial calls log d1) as [d2 out].
  by destruct (alone _ d2).
Qed.
Lemma serial_app calls l1 l2 d :
  serial calls (l1 ++ l2) d =
  let '(d, out) := serial calls l1 d in let '(d, out') := serial calls l2 d in (d, out ++ out').
Proof.
  revert d. induction l1 as [|u l1 IH]; intros d; simpl; [by destruct (serial calls l2 d)|].
  destruct (alone _ d) as [d1 f1]. rewrite IH. destruct (serial calls l1 d1) as [d2 out].
  by destruct (serial calls l2 d2).
Qed.
Lemma serial_calls calls t s log d : t ∉ log → serial (<[t := s]> calls) log d = serial calls log d.
Proof.
  revert d. induction log as [|u log IH]; intros d Ht; simpl; [done|].
  rewrite lookup_insert_ne by set_solver. destruct (alone _ d) as [d1 f]. by rewrite IH by set_solver.
Qed.

(** A call is among the outcomes; its body failed there only if it is to report a
    failure. *)
Definition ran (out : list (Z * option exn)) (t : Z) (f : option exn) : Prop :=
  ∃ f', (t, f') ∈ out ∧ (f = None → f' = None).
Lemma ran_app out out' t f : ran out t f → ran (out ++ out') t f.
Proof. intros (f' & H & ?). exists f'. split; [apply elem_of_app; by left|done]. Qed.
Lemma ran_app_r out out' t f : ran out' t f → ran (out ++ out') t f.
Proof. intros (f' & H & ?). exists f'. split; [apply elem_of_app; by right|done]. Qed.

(** ** The invariant

    [log] is what is on disk; [P] is what is known of a writer that waits for the
    open batch. *)
Record log_core (d0 : D) (j : journal) (log : list Z) (P : Z → option exn → Prop) : Prop := {
  co_order : increasing (log ++ j_writers j);
  co_bound : Forall (λ t, t < j_tickets j) (log ++ j_writers j);
  co_durable : j_durable j = (serial (j_calls j) log d0).1;
  co_ids : ∀ b, j_batch j = Some b → (bx_id b < j_next j)%nat ∧ j_done j !! bx_id b = None;
  co_done : ∀ b, is_Some (j_done j !! b) → (b < j_next j)%nat;
  co_writers : ∀ t, t ∈ j_writers j ↔ j_phase j !! t = Some Queued;
  co_calls : ∀ t, t ∈ j_writers j → is_Some (j_calls j !! t);
  co_waiting : ∀ t b f, j_phase j !! t = Some (Waiting b f) →
    (j_done j !! b = Some None ∧ ran (serial (j_calls j) log d0).2 t f)
    ∨ (∃ e, j_done j !! b = Some (Some e))
    ∨ (∃ x, j_batch j = Some x ∧ bx_id x = b ∧ P t f);
  co_acked : ∀ t, j_phase j !! t = Some (Returned (Ok tt)) → (t, None) ∈ (serial (j_calls j) log d0).2
}.

(** The open batch: its flusher is alive, and its connection has what was on disk
    with the batch's calls on top. *)
Record pending_ok (j : journal) (log pend : list Z) : Prop := {
  po_order : increasing (log ++ pend ++ j_writers j);
  po_bound : Forall (λ t, t < j_tickets j) pend;
  po_open : match j_batch j with
            | Some _ => j_thread j = true ∧ ∃ c, j_connection j = Some c ∧
                        cn_work c = (serial (j_calls j) pend (j_durable j)).1
            | None => pend = [] ∧ ∀ c, j_connection j = Some c → cn_work c = j_durable j
            end
}.

Definition batch_journal_ok (d0 : D) (j : journal) : Prop :=
  ∃ log pend, log_core d0 j log (ran (serial (j_calls j) pend (j_durable j)).2) ∧ pending_ok j log pend.

Lemma increasing_app_l l1 l2 : increasing (l1 ++ l2) → increasing l1.
Proof.
  unfold increasing. induction l1 as [|x l1 IH]; simpl; [constructor|].
  inversion 1 as [|?? Hs Hf]; subst. apply Forall_app in Hf as [Hf _]. constructor; auto.
Qed.
Lemma increasing_drop l1 t l2 : increasing (l1 ++ t :: l2) → increasing (l1 ++ l2) ∧ (t ∉ l1) ∧ (t ∉ l2).
Proof.
  intros H. pose proof (increasing_NoDup _ H) as Hn. apply NoDup_app in Hn as (_ & H1 & H2).
  apply NoDup_cons in H2 as [H2 _]. split; [|set_solver].
  induction l1 as [|x l1 IH]; simpl in *; [by inversion H|].
  inversion H as [|?? Hs Hf]; subst. constructor; [apply IH; [done|set_solver]|].
  apply Forall_app in Hf as [Hf1 Hf2]. inversion Hf2; subst. by apply Forall_app.
Qed.

Lemma abort_ok d0 j log b x :
  log_core d0 j log (λ _ _, True) → j_batch j = Some b → batch_journal_ok d0 (abort b x j).
Proof.
  intros [H1 H2 H3 H4 H5 H6 H7 H8 H9] Hb. destruct (H4 b Hb) as [Hn Hd].
  exists log, []. split; [split|split]; simpl; try done.
  - intros b' [<- | [Hne H]]%lookup_insert_is_Some; [done|by apply H5].
  - intros t b' f Ht. destruct (H8 t b' f Ht) as [[Hd' Hl] | [[e He] | (y & Hy & <- & _)]].
    + left. rewrite lookup_insert_ne; [done|congruence].
    + right. left. rewrite lookup_insert_ne; [by eexists|congruence].
    + right. left. exists x. rewrite Hb in Hy. injection Hy as <-. by rewrite lookup_insert_eq.
Qed.

(** A waiting call returns. *)
Lemma return_ok d0 j log pend t b f r :
  log_core d0 j log (ran (serial (j_calls j) pend (j_durable j)).2) → pending_ok j log pend →
  j_phase j !! t = Some (Waiting b f) → (r = Ok tt → (t, None) ∈ (serial (j_calls j) log d0).2) →
  batch_journal_ok d0 (set_phase t (Returned r) j).
Proof.
  intros [H1 H2 H3 H4 H5 H6 H7 H8 H9] Hp Et Hr. exists log, pend. split; [split|by destruct Hp]; simpl; try done.
  - intros u. destruct (decide (u = t)) as [-> | Hu]; [rewrite lookup_insert_eq, H6; naive_solver|].
    by rewrite lookup_insert_ne by done.
  - intros u b' f'. destruct (decide (u = t)) as [-> | Hu]; [by rewrite lookup_insert_eq|].
    rewrite lookup_insert_ne by done. apply H8.
  - intros u. destruct (decide (u = t)) as [-> | Hu]; [rewrite lookup_insert_eq; intros [= ->]; auto|].
    rewrite lookup_insert_ne by done. apply H9.
Qed.
Lemma abort_turn_ok d0 j log e t b x n f :
  log_core d0 j log (λ _ _, True) → j_batch j = Some b → j_phase j !! t = Some (Waiting n f) →
  batch_journal_ok d0 (abort_turn e t b x j).
Proof.
  intros Hc Hb Ht. pose proof (abort_ok d0 j log b x Hc Hb) as Ha. unfold abort_turn. destruct (e_close e); [|done].
  destruct Ha as (l & p & Hl & Hp). by eapply return_ok.
Qed.

(** A step that leaves the tables of calls alone *)
Lemma arrive_ok d0 j s v : batch_journal_ok d0 j → batch_journal_ok d0 (arrive s v j).
Proof.
  intros (log & pend & [H1 H2 H3 H4 H5 H6 H7 H8 H9] & [P1 P2 P3]).
  set (t := j_tickets j). apply Forall_app in H2 as [Hlog Hws].
  assert (∀ l, Forall (λ u, u < t) l → t ∉ l) as Hfresh.
  { intros l Hl Ht. rewrite Forall_forall in Hl. specialize (Hl _ Ht). lia. }
  assert (∀ l, Forall (λ u, u < t) l → Forall (λ u, u < t + 1) l) as Hmore.
  { intros l Hl. eapply Forall_impl; [exact Hl|]. simpl. intros; lia. }
  exists log, pend. unfold arrive. fold t. split; [split|split]; simpl.
  all: try (rewrite !serial_calls by auto).
  all: try done.
  - destruct v; [done|]. rewrite app_assoc. apply increasing_snoc; [done|]. by apply Forall_app.
  - apply Forall_app; split; [auto|]. destruct v; [auto|]. apply Forall_app; split; [auto|]. repeat constructor; lia.
  - intros u. destruct (decide (u = t)) as [-> | Hu].
    + rewrite lookup_insert_eq. destruct v; [|set_solver]. split; [|done]. intros Ht. by destruct (Hfresh _ Hws).
    + rewrite lookup_insert_ne by done. rewrite <-H6. destruct v; set_solver.
  - intros u Hu. destruct (decide (u = t)) as [-> | Hne]; [by rewrite lookup_insert_eq|].
    rewrite lookup_insert_ne by done. apply H7. destruct v; set_solver.
  - intros u b f. destruct (decide (u = t)) as [-> | Hne]; [rewrite lookup_insert_eq; by destruct v|].
    rewrite lookup_insert_ne by done. intros Hu. destruct (H8 u b f Hu) as [? | [? | ?]]; auto.
  - intros u. destruct (decide (u = t)) as [-> | Hne]; [rewrite lookup_insert_eq; by destruct v|].
    rewrite lookup_insert_ne by done. apply H9.
  - destruct v; [done|]. rewrite !app_assoc. apply increasing_snoc; [by rewrite <-app_assoc|].
    by rewrite !Forall_app.
  - auto.
Qed.

(** The first queued writer leaves the queue. *)
Lemma dequeue_core d0 j log P t rest p :
  log_core d0 j log P → j_writers j = t :: rest → p ≠ Queued → p ≠ Returned (Ok tt) →
  (∀ b f, p = Waiting b f → ∃ x, j_batch j = Some x ∧ bx_id x = b ∧ P t f) →
  log_core d0 (set_writers rest (set_phase t p j)) log P.
Proof.
  intros [H1 H2 H3 H4 H5 H6 H7 H8 H9] Hw Hq Hr Hp. rewrite Hw in *.
  destruct (increasing_drop _ _ _ H1) as (Ho & Hl & Ht). split; simpl; try done.
  - apply Forall_app in H2 as [? H2]. inversion H2. by apply Forall_app.
  - intros u. destruct (decide (u = t)) as [-> | Hu]; [rewrite lookup_insert_eq; naive_solver|].
    rewrite lookup_insert_ne by done. rewrite <-H6. set_solver.
  - intros u Hu. apply H7. set_solver.
  - intros u b f. destruct (decide (u = t)) as [-> | Hu].
    + rewrite lookup_insert_eq. intros [= ->]. right; right. by apply Hp.
    + rewrite lookup_insert_ne by done. apply H8.
  - intros u. destruct (decide (u = t)) as [-> | Hu]; [rewrite lookup_insert_eq; naive_solver|].
    rewrite lookup_insert_ne by done. apply H9.
Qed.

(** The batch a turn joins is the open one, or a new one. *)
Definition joins (b : Batch) (j : journal) : Prop :=
  match j_batch j with Some x => bx_id x = bx_id b | None => bx_id b = j_next j end.

Lemma join_core d0 j log P Q t rest failure c b started :
  log_core d0 j log P → joins b j → j_writers j = t :: rest → Q t failure → (∀ u f, P u f → Q u f) →
  log_core d0 (join t rest failure c b started j) log Q.
Proof.
  intros [H1 H2 H3 H4 H5 H6 H7 H8 H9] Hb Hw HQ HPQ.
  assert (log_core d0 (mkJournal (j_durable j) (Some c) (Some b) (match j_batch j with Some _ => j_next j | None => S (j_next j) end)
     (j_done j) (j_thread j || started) (j_alive j || started) (j_writers j) (j_tickets j) (j_calls j) (j_phase j) (j_commits j) (j_operations j) (j_failed j)) log Q) as Hc.
  { split; simpl; try done.
    - intros b' [= <-]. red in Hb. destruct (j_batch j) as [x|] eqn:Ex; [rewrite <-Hb; by apply H4|].
      rewrite Hb. split; [lia|]. destruct (j_done j !! j_next j) eqn:E; [|done].
      assert (j_next j < j_next j)%nat; [apply H5; by eexists|lia].
    - intros b' Hb'. specialize (H5 _ Hb'). destruct (j_batch j); lia.
    - intros u b' f Hu. destruct (H8 u b' f Hu) as [? | [? | (x & Hx & <- & Hp)]]; [by left|by right; left|].
      right; right. exists b. red in Hb. rewrite Hx in Hb. auto. }
  apply (dequeue_core _ _ _ _ t rest (Waiting (bx_id b) failure)) in Hc; [exact Hc|done..|].
  intros b' f [= <- <-]. by exists b.
Qed.

Lemma open_batch_Ok d0 j log pend P e b c :
  log_core d0 j log P → pending_ok j log pend → open_batch e j = Ok (b, c) →
  joins b j ∧ cn_work c = (serial (j_calls j) pend (j_durable j)).1.
Proof.
  intros _ [_ _ Hp]. unfold open_batch, joins. destruct (e_validate e); [done|].
  destruct (j_batch j) as [x|].
  - destruct Hp as [_ (c' & -> & Hc)]. by intros [= <- <-].
  - destruct Hp as [-> Hc]. destruct (j_connection j) as [c'|]; [|destruct (e_connect e); [done|]].
    all: destruct (e_begin e); [done|]; intros [= <- <-]; simpl; auto.
Qed.

Lemma turn_refused d0 j log pend e t rest x :
  log_core d0 j log (ran (serial (j_calls j) pend (j_durable j)).2) → pending_ok j log pend →
  j_writers j = t :: rest → open_batch e j = Raise x →
  batch_journal_ok d0 (set_connection (left_connection e j) (set_writers rest (set_phase t (Returned (Raise x)) j))).
Proof.
  intros Hc [P1 P2 P3] Hw Hx. exists log, pend. split.
  - apply (dequeue_core _ _ _ _ t rest (Returned (Raise x))) in Hc; [|done..].
    destruct Hc. split; done.
  - rewrite Hw, app_assoc in P1. apply increasing_drop in P1 as (Ho & _).
    split; simpl; [by rewrite app_assoc|done|]. unfold left_connection. unfold open_batch in Hx.
    destruct (j_batch j) as [y|] eqn:Eb.
    + destruct P3 as [Ht (c & Hc' & Hs)]. rewrite Hc' in *. destruct (e_validate e); [by eauto|done].
    + destruct P3 as [-> Hcs]. split; [done|]. intros c Hcc.
      destruct (e_validate e); [by auto|]. destruct (j_connection j) as [c'|] eqn:Ecn; [by auto|].
      destruct (e_connect e); by simplify_eq/=.
Qed.

Lemma turn_ok d0 j e j' : batch_journal_ok d0 j → turn e j = Some j' → batch_journal_ok d0 j'.
Proof.
  intros (log & pend & Hc & Hp) Ht. unfold turn in Ht.
  destruct (j_writers j) as [|t rest] eqn:Hw; [done|]. destruct (j_calls j !! t) as [s|] eqn:Hs; [|done].
  destruct (match j_batch j with Some b => closed b (e_now e) | None => false end); [done|].
  destruct (open_batch e j) as [[b c]|x] eqn:Eo; [|injection Ht as <-; by eapply turn_refused].
  destruct (open_batch_Ok _ _ _ _ _ _ _ _ Hc Hp Eo) as [Hj Hwork].
  destruct (operation e s c) as [[failure c']|x] eqn:Eop.
  2:{ injection Ht as <-. eapply (abort_turn_ok _ _ log); [by eapply join_core|done|apply lookup_insert_eq]. }
  set (b' := mkBatch (bx_id b) _ _) in Ht.
  destruct (if j_thread j then None else e_start e) as [x|].
  { injection Ht as <-. eapply (abort_turn_ok _ _ log); [by eapply join_core|done|apply lookup_insert_eq]. }
  injection Ht as <-. apply operation_alone in Eop as (f & Ha & Hf).
  destruct Hp as [P1 P2 P3]. exists log, (pend ++ [t]).
  assert (serial (j_calls j) (pend ++ [t]) (j_durable j) =
    (cn_work c', (serial (j_calls j) pend (j_durable j)).2 ++ [(t, f)])) as Hser.
  { rewrite serial_snoc, Hs. simpl. destruct (serial _ pend _) as [d1 out]. simpl in *. by rewrite <-Hwork, Ha. }
  split.
  - eapply join_core; [exact Hc|done|done|..]; simpl; rewrite Hser; [apply ran_app_r; exists f; split; [by left|done]|].
    intros u g. apply ran_app.
  - split; simpl; [rewrite <-app_assoc; simpl; by rewrite <-Hw|..|by rewrite Hser, orb_negb_r; eauto].
    apply Forall_app; split; [done|]. apply Forall_singleton. pose proof (co_bound _ _ _ _ Hc) as Hbd.
    rewrite Hw, Forall_app in Hbd. destruct Hbd as [_ Hbd]. by inversion Hbd.
Qed.

(** A batch that reached the disk: its calls follow those already there. *)
Lemma committed_core d0 j log pend c b error thread alive n1 n2 n3 connection :
  log_core d0 j log (ran (serial (j_calls j) pend (j_durable j)).2) → pending_ok j log pend →
  j_batch j = Some b → j_connection j = Some c →
  (∀ c', connection = Some c' → cn_work c' = cn_work c) →
  batch_journal_ok d0 (mkJournal (cn_work c) connection None (j_next j) (<[bx_id b := error]> (j_done j)) thread alive (j_writers j)
            (j_tickets j) (j_calls j) (j_phase j) n1 n2 n3).
Proof.
  intros [H1 H2 H3 H4 H5 H6 H7 H8 H9] [P1 P2 P3] Hb Hcn Hconn. destruct (H4 b Hb) as [Hn Hd].
  rewrite Hb in P3. destruct P3 as [_ (c' & Hc' & Hw)]. rewrite Hcn in Hc'. injection Hc' as <-.
  assert (serial (j_calls j) (log ++ pend) d0 = (cn_work c, (serial (j_calls j) log d0).2 ++
    (serial (j_calls j) pend (j_durable j)).2)) as Hser.
  { rewrite serial_app. destruct (serial _ log d0) as [d1 o1]. simpl in *. subst d1.
    destruct (serial _ pend _) as [d2 o2]. by simpl in *; subst. }
  exists (log ++ pend), []. split; [split|split]; simpl; rewrite ?Hser; try done.
  - by rewrite <-app_assoc.
  - rewrite Forall_app in H2. rewrite !Forall_app. tauto.
  - intros b' [<- | [Hne H]]%lookup_insert_is_Some; [done|by apply H5].
  - intros t b' f Ht. destruct (H8 t b' f Ht) as [[Hd' Hl] | [[x He] | (y & Hy & <- & Hp)]].
    + left. rewrite lookup_insert_ne by congruence. split; [done|by apply ran_app].
    + right; left. rewrite lookup_insert_ne by congruence. by eexists.
    + rewrite Hb in Hy. injection Hy as <-. rewrite lookup_insert_eq. destruct error as [x|]; [right; left; by eexists|].
      left. split; [done|by apply ran_app_r].
  - intros t Ht. apply elem_of_app. left. by apply H9.
  - by rewrite <-app_assoc.
Qed.

Lemma flush_ok d0 j e j' : batch_journal_ok d0 j → flush e j = Some j' → batch_journal_ok d0 j'.
Proof.
  intros (log & pend & Hc & Hp) Hf. unfold flush in Hf.
  destruct (j_alive j); [|done]. destruct (j_batch j) as [b|] eqn:Eb; [|done].
  destruct (j_connection j) as [c|] eqn:Ec; [|done]. destruct (_ <? _); [done|].
  assert (∀ x th al, batch_journal_ok d0 (mkJournal (j_durable j) None None (j_next j) (<[bx_id b := Some x]> (j_done j)) th al
    (j_writers j) (j_tickets j) (j_calls j) (j_phase j) (j_commits j) (j_operations j) (j_failed j + 1))) as Hlost.
  { intros x th al. destruct (abort_ok d0 j log b x) as (l & p & Hc' & [? ? Hp']); [|done|].
    - destruct Hc; split; try done. naive_solver.
    - exists l, p. split; [by destruct Hc'|by split]. }
  destruct (e_validate e) as [x|]; [injection Hf as <-; apply Hlost|].
  destruct (e_commit e) as [[x []]|]; [injection Hf as <-; by eapply committed_core|injection Hf as <-; apply Hlost|].
  destruct (e_validate_after e) as [x|]; injection Hf as <-; eapply committed_core; try done.
  by intros ? [= <-].
Qed.

Lemma idle_ok d0 j e j' : batch_journal_ok d0 j → flush_idle e j = Some j' → batch_journal_ok d0 j'.
Proof.
  intros (log & pend & [] & [? ? Hp]) H. unfold flush_idle in H. destruct (j_alive j); [|done].
  destruct (j_batch j) eqn:Eb; [done|]. destruct Hp as [-> Hp].
  destruct (j_connection j) as [c|] eqn:Ec; [destruct (e_close e)|]; injection H as <-.
  all: exists log, []; split; [split|split]; simpl; try done; rewrite Eb in *; done.
Qed.
Lemma close_ok d0 j e : batch_journal_ok d0 j → batch_journal_ok d0 (close e j).
Proof.
  intros Hj. unfold close. destruct (j_batch j) eqn:Eb; [done|]. destruct (j_connection j) eqn:Ec; [|done].
  destruct (e_close e); [done|]. destruct Hj as (log & pend & [] & [? ? Hp]). rewrite Eb in Hp. destruct Hp as [-> _].
  exists log, []. split; [split|split]; simpl; try done. by rewrite Eb.
Qed.
Lemma resume_ok d0 j t v j' : batch_journal_ok d0 j → resume t v j = Some j' → batch_journal_ok d0 j'.
Proof.
  intros (log & pend & Hc & Hp) H. unfold resume in H. destruct (j_phase j !! t) as [[|b f|]|] eqn:Et; [done| |done..].
  destruct (j_done j !! b) as [o|] eqn:Ed; [|done].
  destruct o as [x|]; injection H as <-; (eapply return_ok; [done|done|done|]); [done|].
  intros Hr. destruct v, f; try done.
  destruct (co_waiting _ _ _ _ Hc t b None Et) as [[_ (f' & Hl & Hf)] | [[x Hx] | (y & Hy & <- & _)]]; [|congruence|].
  - by rewrite (Hf eq_refl) in Hl.
  - destruct (co_ids _ _ _ _ Hc y Hy). congruence.
Qed.
Lemma batch_step_ok T F d0 j j' : batch_journal_ok d0 j → batch_step T F j j' → batch_journal_ok d0 j'.
Proof.
  intros Hj [s v -> | e _ H | e _ H | e _ H | e -> | t v H];
    [by apply arrive_ok|by eapply turn_ok|by eapply flush_ok|by eapply idle_ok|by apply close_ok|by eapply resume_ok].
Qed.

Lemma journal_reach_ok T F d0 j0 j : journal_init d0 = Ok j0 → rtc (batch_step T F) j0 j → batch_journal_ok d0 j.
Proof.
  intros [_ [= <-]]%raise_if_Ok H.
  assert (batch_journal_ok d0 (mkJournal d0 None None 0 ∅ false false [] 0 ∅ ∅ 0 0 0)) as H0.
  { exists [], []. split; [split|split]; simpl; try done; try constructor; try set_solver.
    intros b [x Hx]. done. }
  revert H0. induction H; eauto using batch_step_ok.
Qed.

(** C20. The batched journal is a journal of one transaction per call: at any moment
    the database on disk is what the calls of some list leave, each run alone on
    the database of the one before it, all or nothing, in order of arrival and each
    at most once; a call of [transaction] that returned without an error is in the
    list, and its body did not fail there.  The callbacks, SQLite and the start of
    the thread may fail at any point, and a failed commit may or may not have
    reached the disk. *)
Theorem journal_acknowledges_durable d0 j0 j :
  journal_init d0 = Ok j0 → rtc (batch_step anything anything) j0 j →
  ∃ log, increasing log ∧ j_durable j = (serial (j_calls j) log d0).1 ∧
    ∀ t, j_phase j !! t = Some (Returned (Ok tt)) → (t, None) ∈ (serial (j_calls j) log d0).2.
Proof.
  intros Hi Hr. destruct (journal_reach_ok _ _ _ _ _ Hi Hr) as (log & pend & Hc & Hp). exists log.
  split; [|by destruct Hc]. pose proof (co_order _ _ _ _ Hc) as Ho. by apply increasing_app_l in Ho.
Qed.

(** ** The flusher *)

(** While its closes succeed, [_thread] is set exactly while the flusher runs. *)
Lemma flusher_set j0 j d0 : journal_init d0 = Ok j0 → rtc (batch_step anything closes) j0 j → j_alive j = j_thread j.
Proof.
  intros [_ [= <-]]%raise_if_Ok H. cut (j_alive (mkJournal d0 None None 0 ∅ false false [] 0 ∅ ∅ 0 0 0) =
    j_thread (mkJournal d0 None None 0 ∅ false false [] 0 ∅ ∅ 0 0 0)); [|done].
  induction H as [|j1 j2 j3 Hs _ IH]; [done|]. intros E. apply IH. clear IH.
  destruct Hs as [s v -> | e _ H | e He H | e He H | e -> | t v H]; simpl; [done| | | | |].
  - unfold turn, abort_turn in H. rewrite <-E in H. repeat case_match; simplify_eq/=; congruence.
  - red in He. unfold flush in H. rewrite He in H. repeat case_match; by simplify_eq/=.
  - red in He. unfold flush_idle in H. rewrite He in H. repeat case_match; by simplify_eq/=.
  - unfold close. by repeat case_match.
  - unfold resume in H. repeat case_match; by simplify_eq/=.
Qed.

Lemma flush_finishes j e b c :
  j_alive j = true → j_batch j = Some b → j_connection j = Some c → bx_deadline b ≤ e_now e →
  ∃ j', flush e j = Some j' ∧ j_phase j' = j_phase j ∧ is_Some (j_done j' !! bx_id b).
Proof.
  intros Ha Hb Hc Hd. unfold flush. rewrite Ha, Hb, Hc, (proj2 (Z.ltb_ge _ _) Hd).
  destruct (e_validate e), (e_commit e) as [[? []]|], (e_validate_after e).
  all: eexists; split; [done|]; simpl; split; [done|]; rewrite lookup_insert_eq; by eexists.
Qed.
Lemma resume_done t b f v j : j_phase j !! t = Some (Waiting b f) → is_Some (j_done j !! b) → is_Some (resume t v j).
Proof. intros Ht [[x|] Hx]; unfold resume; rewrite Ht, Hx; by eexists. Qed.

(** C31. As long as the flusher's own closes of the connection succeed, no writer of
    the journal waits for a batch that nobody will finish: one that has run its body
    and not returned can return now, or its batch is the open one, whose flusher
    thread is alive and will, once the batch's deadline has passed, finish it in one
    round whatever SQLite and [validate] answer in that round, the close included. *)
Theorem journal_strands_no_waiter d0 j0 j t b f e :
  journal_init d0 = Ok j0 → rtc (batch_step anything closes) j0 j → j_phase j !! t = Some (Waiting b f) →
  (∀ v, is_Some (resume t v j)) ∨
  ∃ x, j_batch j = Some x ∧ (bx_deadline x ≤ e_now e → ∃ j', flush e j = Some j' ∧ ∀ v, is_Some (resume t v j')).
Proof.
  intros Hi Hr Ht. destruct (journal_reach_ok _ _ _ _ _ Hi Hr) as (log & pend & Hc & Hp).
  destruct (co_waiting _ _ _ _ Hc t b f Ht) as [[Hd _] | [[x Hd] | (x & Hx & <- & _)]].
  1,2: left; intros v; eapply resume_done; [done|]; rewrite Hd; by eexists.
  right. exists x. split; [done|]. intros Hd. destruct Hp as [_ _ Hp]. rewrite Hx in Hp.
  destruct Hp as [Hth (c & Hcn & _)]. rewrite <-(flusher_set _ _ _ Hi Hr) in Hth.
  destruct (flush_finishes j e x c Hth Hx Hcn Hd) as (j' & Hf & Hph & Hdone). exists j'. split; [done|].
  intros v. eapply resume_done; [|exact Hdone]. by rewrite Hph.
Qed.

(** The flusher has died with [_thread] still set. *)
Definition flusher_lost (j : journal) : Prop := j_thread j = true ∧ j_alive j = false.

(** The call [t] waits for the open batch, and nobody flushes it. *)
Definition stranded (t : Z) (n : nat) (f : option exn) (j : journal) : Prop :=
  flusher_lost j ∧ j_phase j !! t = Some (Waiting n f) ∧ t ∉ j_writers j ∧ t < j_tickets j ∧
  j_done j !! n = None ∧ ∃ x, j_batch j = Some x ∧ bx_id x = n.

Lemma operation_operates e s c : operates e → ∃ failure c', operation e s c = Ok (failure, c').
Proof.
  intros (H1 & H2 & H3). unfold operation, settle. rewrite H1, H2, H3. destruct (run_script _ _ _) as [[f v] c1].
  destruct f as [x|]; [|destruct (_ && _); [destruct (e_rollback e)|]]; simpl; eauto.
Qed.
Lemma open_batch_id e j x b c : j_batch j = Some x → open_batch e j = Ok (b, c) → b = x.
Proof. unfold open_batch. intros ->. repeat case_match; by intros [= <-]. Qed.

Lemma stranded_turn t n f e j j' : operates e → stranded t n f j → turn e j = Some j' → stranded t n f j'.
Proof.
  intros He ([Hth Ha] & Ht & Hw & Hk & Hd & x & Hx & Hn) H. unfold turn in H.
  destruct (j_writers j) as [|u rest] eqn:Ew; [done|]. apply not_elem_of_cons in Hw as [Hne Hw].
  destruct (j_calls j !! u) as [s|]; [|done]. rewrite Hx in H. destruct (closed x (e_now e)); [done|].
  destruct (open_batch e j) as [[b c]|y] eqn:Eo.
  - apply (open_batch_id _ _ x) in Eo as ->; [|done]. destruct (operation_operates e s c He) as (g & c' & Hop).
    rewrite Hop, Hth in H. injection H as <-. unfold stranded, flusher_lost, join. simpl.
    rewrite Hth, Ha, lookup_insert_ne by done. split_and!; try done. eexists. split; [done|]. done.
  - injection H as <-. unfold stranded, flusher_lost. simpl. rewrite lookup_insert_ne by done. split_and!; try done. eauto.
Qed.
Lemma stranded_step t n f j j' : stranded t n f j → batch_step operates anything j j' → stranded t n f j'.
Proof.
  intros Hs [s v -> | e He H | e _ H | e _ H | e -> | u v H].
  - destruct Hs as (Hl & Ht & Hw & Hk & Hd & Hx). unfold stranded, flusher_lost. simpl.
    rewrite lookup_insert_ne by lia. split_and!; try done; [apply Hl|apply Hl| |lia].
    destruct v; [done|]. rewrite elem_of_app, list_elem_of_singleton. intros [?| ->]; [done|lia].
  - by eapply stranded_turn.
  - destruct Hs as [[_ Ha] _]. unfold flush in H. by rewrite Ha in H.
  - destruct Hs as [[_ Ha] _]. unfold flush_idle in H. by rewrite Ha in H.
  - destruct Hs as (Hl & Ht & Hw & Hk & Hd & x & Hx & Hn). unfold close. rewrite Hx. by repeat split; try done; [apply Hl..|eauto].
  - destruct Hs as (Hl & Ht & Hw & Hk & Hd & Hx). unfold resume in H.
    destruct (decide (u = t)) as [->|Hne]; [by rewrite Ht, Hd in H|].
    destruct (j_phase j !! u) as [[|b g|]|]; [done| |done..].
    destruct (j_done j !! b) as [[y|]|]; [| |done]; injection H as <-; unfold stranded, flusher_lost; simpl;
      rewrite lookup_insert_ne by done; split_and!; try done; apply Hl.
Qed.

(** C38. A failing close can cost the journal its flusher for good, and the next
    writers with it.  Once the flusher has died with [_thread] still set, a writer
    whose batch is open never returns, whatever runs afterwards, as long as no later
    operation of another writer fails in SQLite and aborts the batch: no thread is
    started in place of the dead one. *)
Theorem lost_flusher_strands t n f j j' :
  stranded t n f j → rtc (batch_step operates anything) j j' →
  j_phase j' !! t = Some (Waiting n f) ∧ (∀ v, resume t v j' = None) ∧ ∀ e, flush e j' = None ∧ flush_idle e j' = None.
Proof.
  intros Hs H. assert (stranded t n f j') as ([_ Ha] & Ht & _ & _ & Hd & _).
  { revert Hs. induction H; eauto using stranded_step. }
  split_and!; [done| |].
  - intros v. unfold resume. by rewrite Ht, Hd.
  - intros e. unfold flush, flush_idle. by rewrite Ha.
Qed.
End journal.

(** ** A run: three writers, one of which fails, share a commit *)

Definition demo_sql (statement : string) (n : Z) (d : list Z) : res (unit * list Z) :=
  if bool_decide (statement = "INSERT") then Ok (tt, d ++ [n]) else Raise (OSError statement).
Definition demo_many (statement : string) (ns : list Z) (d : list Z) : res (unit * list Z) := Ok (tt, d ++ ns).
Definition insert_row (n : Z) (rest : script) : @script unit Z := Do (Execute "INSERT" n) (λ _, rest).
Definition calm (now : Z) : env := mkEnv now now None None None None None None None None None None None.
Definition demo_scripts : list script :=
  [insert_row 1 Return;
   Do (Execute "begin immediate;" 0) (λ _, insert_row 2 (Throw (ValueError "no")));
   Do (Execute "BEGIN" 0) (λ _, insert_row 3 (Do Commit (λ _, Return)))].
Definition demo_start : @journal (list Z) unit Z := mkJournal [] None None 0 ∅ false false [] 0 ∅ ∅ 0 0 0.
Definition demo_arrived := foldl (λ j s, arrive s None j) demo_start demo_scripts.
Definition demo_turn (j : @journal (list Z) unit Z) := default j (turn demo_sql demo_many 0 10 3 (calm 0) j).
Definition demo_ran := demo_turn (demo_turn (demo_turn demo_arrived)).
Definition demo_flushed := default demo_ran (flush (calm 5) demo_ran).
Definition demo_returned := default demo_flushed (resume 2 None demo_flushed).

Abbreviation demo_step := (batch_step demo_sql demo_many 0 10 3 anything closes).

Lemma demo_turn_step j :
  bool_decide (is_Some (turn demo_sql demo_many 0 10 3 (calm 0) j)) = true → demo_step j (demo_turn j).
Proof. intros H. apply (js_turn _ _ _ _ _ _ _ _ _ (calm 0)); [done|]. unfold demo_turn. apply bool_decide_eq_true in H as [j' ->]. done. Qed.

Lemma demo_arrivals l j : rtc demo_step j (foldl (λ j s, arrive s None j) j l).
Proof.
  revert j. induction l as [|s l IH]; intros j; simpl; [apply rtc_refl|].
  eapply rtc_l; [by apply (js_arrive _ _ _ _ _ _ _ _ _ s None)|apply IH].
Qed.
Lemma demo_ran_reach : rtc demo_step demo_start demo_ran.
Proof.
  etrans; [apply (demo_arrivals demo_scripts)|]. fold demo_arrived. unfold demo_ran.
  do 3 (eapply rtc_l; [apply demo_turn_step; vm_compute; reflexivity|]). apply rtc_refl.
Qed.
Lemma demo_returned_reach : rtc demo_step demo_start demo_returned.
Proof.
  etrans; [apply demo_ran_reach|].
  eapply rtc_l; [apply (js_flush _ _ _ _ _ _ _ _ demo_flushed (calm 5)); [done|vm_compute; reflexivity]|].
  eapply rtc_l; [apply (js_resume _ _ _ _ _ _ _ _ demo_returned 2 None); vm_compute; reflexivity|]. apply rtc_refl.
Qed.

(** Every run is one where anything may fail. *)
Lemma demo_anything (j j' : @journal (list Z) unit Z) :
  rtc demo_step j j' → rtc (batch_step demo_sql demo_many 0 10 3 anything anything) j j'.
Proof.
  apply rtc_subrel. intros j1 j2 [s v H | e _ H | e _ H | e _ H | e H | t v H];
    [by eapply js_arrive|by eapply js_turn|by eapply js_flush|by eapply js_idle|by eapply js_close|by eapply js_resume].
Qed.

Lemma journal_acknowledges_durable_witness :
  j_durable demo_returned = [1; 3] ∧
  ∃ log, (2, None) ∈ (serial demo_sql demo_many 0 (j_calls demo_returned) log []).2.
Proof.
  split; [vm_compute; reflexivity|].
  destruct (journal_acknowledges_durable demo_sql demo_many 0 10 3 [] demo_start demo_returned
              ltac:(vm_compute; reflexivity) (demo_anything _ _ demo_returned_reach)) as (log & _ & _ & H).
  exists log. apply H. vm_compute. reflexivity.
Defined.

Lemma journal_strands_no_waiter_witness :
  (∀ v, is_Some (resume 1 v demo_ran)) ∨
  ∃ x, j_batch demo_ran = Some x ∧
    (bx_deadline x ≤ 5 → ∃ j', flush (calm 5) demo_ran = Some j' ∧ ∀ v, is_Some (resume 1 v j')).
Proof.
  apply (journal_strands_no_waiter demo_sql demo_many 0 10 3 [] demo_start demo_ran 1 0%nat (Some (ValueError "no")) (calm 5)).
  - vm_compute. reflexivity.
  - apply demo_ran_reach.
  - vm_compute. reflexivity.
Defined.

(** The flusher idles, closing its connection fails, and the next writer is stranded. *)
Definition demo_lost : @journal (list Z) unit Z :=
  default demo_returned (flush_idle (mkEnv 9 9 None None None None None None None None None None (Some (OSError "close"))) demo_returned).
Definition demo_stranded := demo_turn (arrive (insert_row 4 Return) None demo_lost).
Lemma lost_flusher_strands_witness :
  rtc (batch_step demo_sql demo_many 0 10 3 anything anything) demo_start demo_stranded ∧
  (∀ v, resume 3 v demo_stranded = None) ∧ ∀ e, flush e demo_stranded = None ∧ flush_idle e demo_stranded = None.
Proof.
  split.
  - etrans; [apply demo_anything, demo_returned_reach|].
    eapply rtc_l; [apply (js_idle _ _ _ _ _ _ _ _ demo_lost (mkEnv 9 9 None None None None None None None None None None (Some (OSError "close")))); [done|vm_compute; reflexivity]|].
    eapply rtc_l; [by apply (js_arrive _ _ _ _ _ _ _ _ _ (insert_row 4 Return) None)|].
    eapply rtc_l; [apply (js_turn _ _ _ _ _ _ _ _ demo_stranded (calm 0)); [done|vm_compute; reflexivity]|]. apply rtc_refl.
  - refine (proj2 (lost_flusher_strands demo_sql demo_many 0 10 3 3 1%nat None demo_stranded demo_stranded _ (rtc_refl _ _))).
    split; [split; vm_compute; reflexivity|]. split; [vm_compute; reflexivity|]. split; [vm_compute; set_solver|].
    split; [vm_compute; reflexivity|]. split; [vm_compute; reflexivity|].
    eexists. split; vm_compute; reflexivity.
Defined.
