(* ===== verification/WakePorts.v ===== *)
(** * What the gateway hands to wake placement (gateway/placement.py, worker_receipts.py,
    lifecycle_commit.py, control_plane.py)

    [routes_for_node] reads the occupants of one worker; [decode_wake_publication]
    reads the route a worker's publication answer describes.  The spec of a sandbox
    (sandbox.py) and its storage descriptor are parameters: a type of specs with what
    the codecs read of it, and the descriptor's parser and digest. *)
From S2P Require Import Prelude PyFloat Json PyString Resources Bytes.
From S2P Require Import PlacementAccounting Routes RouteStore RouteRecovery RouteMigrations RouteSafety WakeAdmission Reservations.
From stdpp Require Import gmap strings.
From Stdlib Require Import QArith.
Local Close Scope Q_scope.
Local Open Scope py_scope.
Local Open Scope Z_scope.

(** ** The occupants of a worker *)

(** The columns a node identity matches: [node_id = ? OR job_id = ? OR node_url IN (?, ?)] *)
Definition matches_identity (h : NodeHeartbeat) (node job url : string) : bool :=
  let cleaned := rstrip_slash (strip (node_url_text h)) in
  bool_decide (node = strip (node_id h)) || bool_decide (job = strip (job_id h))
  || bool_decide (url ∈ [cleaned; if nonempty cleaned then cleaned +:+ "/" else EmptyString]).

(** A route decoded before from an identical row is reused, so the memo does not show. *)
Definition sandbox_routes_matching_node_identity (d : db) (h : NodeHeartbeat) : res (list SandboxRoute) :=
  read_rows (select_sandboxes (λ r, matches_identity h (sr_node_id r) (sr_job_id r) (sr_node_url r)) d).
Definition incoming_migrations (d : db) (h : NodeHeartbeat) : list SandboxMigration :=
  sorted_by migration_leb
    (filter (λ m, active m = true ∧
       matches_identity h (mg_destination_node_id m) (mg_destination_job_id m) (mg_destination_node_url m) = true)
       (map_to_list (sandbox_migrations d)).*2).

(** The charge of one incoming migration *)
Definition incoming_reservation (py_str : json → string) (d : db) (h : NodeHeartbeat) (routes : list SandboxRoute)
    (m : SandboxMigration) : res (list PlacementRecord) :=
  let charge resources image := Reserved (mkReserved (mg_migration_id m) (mg_destination_node_id m)
    (mg_destination_job_id m) (mg_destination_node_url m) resources image) in
  if negb (route_targets_node (charge rq_zero EmptyString) h) then Ok []
  else
    let! source := match find_route (mg_sandbox_id m) (Route <$> routes) with
                   | Some r => Ok (Some r)
                   | None => get_sandbox_unlocked d (mg_sandbox_id m)
                   end in
    match source with
    | None => Ok []
    | Some r => Ok [charge (if bool_decide (mg_phase m ∈ ["routed"; "activated"]) then wake_demand r else sr_resources r)
                      (route_image py_str r)]
    end.
Definition routes_for_node (py_str : json → string) (d : db) (h : NodeHeartbeat) : res (list PlacementRecord) :=
  let! routes := sandbox_routes_matching_node_identity d h in
  let! reservations := res_map (incoming_reservation py_str d h routes) (incoming_migrations d h) in
  Ok ((Route <$> routes) ++ mjoin reservations).

(** Its routes are rows of the store. *)
Lemma read_rows_id rows out : read_rows rows = Ok out → out = rows.
Proof.
  unfold read_rows. enough (∀ acc,
    res_foldl (λ acc row, let! r := route_init row in Ok (acc ++ [r])) acc rows = Ok out → out = acc ++ rows) as H.
  { apply (H []). }
  induction rows as [|r rows IH]; intros acc H; simpl in H; [injection H as <-; by rewrite app_nil_r|].
  apply res_bind_Ok in H as (a & Ha & H). apply res_bind_Ok in Ha as (r' & [-> _]%route_init_Ok & [= <-]).
  apply IH in H as ->. by rewrite <-app_assoc.
Qed.
Lemma incoming_reserved py_str d h routes m l r : incoming_reservation py_str d h routes m = Ok l → Route r ∉ l.
Proof.
  unfold incoming_reservation. destruct (negb _); [intros [= <-]; by apply not_elem_of_nil|].
  intros ([s|] & _ & [= <-])%res_bind_Ok; [|by apply not_elem_of_nil]. rewrite list_elem_of_singleton. done.
Qed.
Lemma routes_for_node_rows py_str d h l r :
  routes_for_node py_str d h = Ok l → Route r ∈ l → ∃ k, sandboxes d !! k = Some r.
Proof.
  unfold routes_for_node. intros (routes & Hr%read_rows_id & H)%res_bind_Ok. apply res_bind_Ok in H as (rs & Hrs & [= <-]).
  intros [Hin|Hin]%elem_of_app.
  - apply list_elem_of_fmap in Hin as (r' & [= <-] & Hin). rewrite Hr in Hin. unfold select_sandboxes in Hin.
    rewrite sorted_by_perm, list_elem_of_filter in Hin. destruct Hin as [_ ([k r'] & -> & Hin)%list_elem_of_fmap].
    exists k. by apply elem_of_map_to_list.
  - apply list_elem_of_join in Hin as (l & Hl & Hin). apply res_map_Ok in Hrs.
    apply list_elem_of_lookup in Hin as [i Hi]. destruct (Forall2_lookup_r _ _ _ _ _ Hrs Hi) as (m & _ & Hm).
    by apply (incoming_reserved _ _ _ _ _ _ r) in Hm.
Qed.

(** ** Worker records *)

(** models.py [SandboxInventoryEntry.__post_init__] *)
Definition entry_init (i : SandboxInventoryEntry) : res SandboxInventoryEntry :=
  let values := [inv_storage_schema i; inv_snapshot_manifest_digest i; inv_snapshot_repository i; inv_snapshot_tag i] in
  let described := negb (bool_decide (length (inv_storage_snapshot i) = 0%nat)) in
  raise_if (negb (nonempty (inv_sandbox_id i))) (ValueError "sandbox inventory id is required")
  (raise_if (inv_generation i <? 1) (ValueError "sandbox inventory generation must be positive")
  (raise_if (negb (operation_id_ok (inv_operation_id i))) (ValueError "sandbox inventory operation_id is invalid")
  (raise_if (negb (is_hex64 (inv_spec_hash i))) (ValueError "sandbox inventory spec_hash is invalid")
  (raise_if (negb (nonempty (inv_state i))) (ValueError "sandbox inventory state is required")
  (raise_if (negb (is_valid (inv_resources i))) (ValueError "sandbox inventory resources are invalid")
  (raise_if (negb (Bool.eqb (existsb nonempty values) (forallb nonempty values)))
    (ValueError "sandbox inventory snapshot identity is incomplete")
  (raise_if (described && negb (forallb nonempty values))
    (ValueError "sandbox inventory snapshot descriptor has no identity")
  (raise_if (forallb nonempty values && negb described)
    (ValueError "sandbox inventory snapshot descriptor is required")
  (Ok i))))))))).

(** [except (TypeError, ValueError): return False] *)
Definition or_false (r : res bool) : res bool :=
  match r with Raise (TypeError _) | Raise (ValueError _) => Ok false | r => r end.

Section receipts.
Context {spec : Type} (from_dict : dict string json → res spec) (validate : spec → res unit) (spec_id : spec → string).
Context (requested_resources : spec → ResourceQuantity) (fingerprint : spec → string) (specs_match : spec → spec → bool).
Context (parse : dict string json → res descriptor) (sha256 : descriptor → string).
Context (py_str : json → string) (py_int : json → option Z).

Definition record_generation (record : dict string json) : option Z :=
  match py_int (jget record "generation") with
  | Some g => if 0 <? g then Some g else None
  | None => None
  end.

Definition inventory_from_record (record : dict string json) : res SandboxInventoryEntry :=
  match jget record "spec" with
  | JObj raw =>
      let! parsed := from_dict raw in
      let! _ := validate parsed in
      match record_generation record with
      | None => Raise (ValueError "sandbox record generation must be positive")
      | Some generation =>
          raise_if (negb (json_eqb (jget record "spec_hash") (JStr (fingerprint parsed))))
            (ValueError "sandbox record spec_hash does not match its spec")
          match jget record "state" with
          | JStr state =>
              raise_if (negb (nonempty (strip state))) (ValueError "sandbox record state is required")
              match jget record "operation_id" with
              | JStr operation_id =>
                  entry_init (mkInv (spec_id parsed) generation operation_id (fingerprint parsed) (strip state)
                    (requested_resources parsed) EmptyString EmptyString EmptyString EmptyString [] None None None)
              | _ => Raise (TypeError "expected string or bytes-like object")
              end
          | _ => Raise (ValueError "sandbox record state is required")
          end
      end
  | _ => Raise (ValueError "sandbox record is missing its spec")
  end.

(** [route_with_snapshot_payload] for an observation *)
Definition route_with_snapshot_payload (route : SandboxRoute) (payload : dict string json)
    (observation : SandboxInventoryEntry) : res SandboxRoute :=
  let text k := text_or_empty py_str (jget payload k) in
  let! snapshot := match jget payload "storage_snapshot" with
                   | JObj raw => parse raw
                   | _ => Raise (ValueError "storage-native migration has an invalid schema")
                   end in
  raise_if (negb (bool_decide (sha256 snapshot = text "snapshot_sha256")))
    (ValueError "worker snapshot digest does not match its descriptor")
  (let! item := entry_init (mkInv (inv_sandbox_id observation) (inv_generation observation)
     (inv_operation_id observation) (inv_spec_hash observation) (inv_state observation) (inv_resources observation)
     (text "storage_schema") (text "snapshot_manifest_digest") (text "snapshot_repository") (text "snapshot_tag")
     (ds_dict snapshot) (inv_storage_dependency observation) (inv_memory_observation observation)
     (inv_managed_process observation)) in
   route_with_inventory_snapshot parse route item).

(** The boot and activity a record confirms; the route's own without either key *)
Definition record_epoch (route : SandboxRoute) (record : dict string json) : res (string * Z) :=
  if bool_decide (is_Some (dget record "node_epoch")) || bool_decide (is_Some (dget record "activity_epoch")) then
    match jget record "node_epoch" with
    | JStr epoch =>
        raise_if (negb (nonempty (strip epoch))) (ValueError "sandbox confirmation requires a node epoch")
        (raise_if (nonempty (sr_node_epoch route) && negb (bool_decide (epoch = sr_node_epoch route)))
          (ValueError "sandbox confirmation belongs to another node boot")
         match jget record "activity_epoch" with
         | JInt activity =>
             raise_if (activity <? 0) (ValueError "sandbox confirmation requires a non-negative activity epoch")
               (Ok (epoch, activity))
         | _ => Raise (ValueError "sandbox confirmation requires a non-negative activity epoch")
         end)
    | _ => Raise (ValueError "sandbox confirmation requires a node epoch")
    end
  else Ok (sr_node_epoch route, sr_activity_epoch route).

Definition route_with_sandbox_record (route : SandboxRoute) (record : dict string json) : res SandboxRoute :=
  let! observation := inventory_from_record record in
  raise_if (negb (bool_decide (inv_sandbox_id observation = sr_sandbox_id route)))
    (ValueError "sandbox record id does not match its route")
  match item_route_state observation with
  | None => Raise (ValueError "sandbox record state is not routable")
  | Some route_state =>
      let! '(node_epoch, activity_epoch) := record_epoch route record in
      let! source := (if nonempty (text_or_empty py_str (jget record "storage_schema"))
                      then let! validated := route_with_snapshot_payload route record observation in Ok (Some validated)
                      else Ok (if bool_decide (route_state = "parked") then Some route else None)) in
      let kept {A} (f : SandboxRoute → A) (none : A) := match source with Some r => f r | None => none end in
      route_init (mkRoute (sr_sandbox_id route) (sr_node_id route) (sr_job_id route) (sr_node_url route)
        (inv_resources observation) (jget record "spec") route_state (inv_generation observation)
        (inv_operation_id observation) (inv_spec_hash observation) (sr_delete_operation_id route) node_epoch
        activity_epoch (sr_worker_state route) (kept sr_storage_schema EmptyString)
        (kept sr_snapshot_manifest_digest EmptyString) (kept sr_snapshot_repository EmptyString)
        (kept sr_snapshot_tag EmptyString) (kept sr_storage_snapshot []) (sr_created_at route) (sr_updated_at route))
  end.

Definition sandbox_record_matches_spec (record : dict string json) (requested : spec) : res bool :=
  match jget record "spec" with
  | JObj raw => or_false (let! existing := from_dict raw in Ok (specs_match existing requested))
  | _ => Ok false
  end.
Definition sandbox_record_matches_route (record : dict string json) (route : SandboxRoute) (requested : spec) : res bool :=
  let! same := sandbox_record_matches_spec record requested in
  if negb same then Ok false
  else or_false
    (let! confirmed := route_with_sandbox_record route record in
     Ok ((sr_generation confirmed =? sr_generation route)
         && bool_decide (sr_create_operation_id confirmed = sr_create_operation_id route)
         && bool_decide (sr_spec_hash confirmed = sr_spec_hash route)
         && bool_decide (sr_spec_hash route = fingerprint requested))).

(** [_decode_wake_publication]; the cache of parked jobs is left out. *)
Definition decode_wake_publication (route : SandboxRoute) (payload : dict string json) : res (option SandboxRoute) :=
  match jget payload "sandbox" with
  | JObj record =>
      if negb (json_eqb (jget record "state") (JStr "parked")) then Ok None
      else
        let! requested := match sr_spec route with
                          | JObj raw => from_dict raw
                          | _ => Raise (AttributeError "spec has no get")
                          end in
        let! same := sandbox_record_matches_route record route requested in
        if negb same then Ok None
        else let! observed := route_with_sandbox_record route record in Ok (Some observed)
  | _ => Ok None
  end.

(** A decoded publication is of the incarnation and owner it was decoded for, and
    carries the delete that one had. *)
Lemma decode_same route payload r :
  decode_wake_publication route payload = Ok (Some r) →
  same_owner r route = true ∧ sr_delete_operation_id r = sr_delete_operation_id route.
Proof.
  unfold decode_wake_publication. destruct (jget payload "sandbox") as [| | | | | |record]; try done.
  destruct (negb _); [done|]. intros (requested & _ & H)%res_bind_Ok. apply res_bind_Ok in H as (same & Hs & H).
  destruct same; simpl in H; [|done]. apply res_bind_Ok in H as (r' & Hr & [= ->]).
  unfold sandbox_record_matches_route in Hs. apply res_bind_Ok in Hs as ([|] & _ & Hs); simpl in Hs; [|done].
  rewrite Hr in Hs. simpl in Hs. injection Hs as Hs. rewrite !andb_true_iff, !bool_decide_eq_true, Z.eqb_eq in Hs.
  destruct Hs as [[[E1 E2] E3] _]. unfold route_with_sandbox_record in Hr.
  apply res_bind_Ok in Hr as (o & _ & Hr). apply raise_if_Ok in Hr as [_ Hr]. destruct (item_route_state o) as [st|]; [|done].
  apply res_bind_Ok in Hr as ([ne ae] & _ & Hr). apply res_bind_Ok in Hr as (src & _ & [-> _]%route_init_Ok).
  simpl in *. unfold same_owner, same_incarnation. simpl. by rewrite E1, E2, E3, Z.eqb_refl, !bool_decide_eq_true_2.
Qed.
End receipts.

(** The codecs of a gateway *)
Record codec := mkCodec {
  cd_spec : Type;
  cd_from_dict : dict string json → res cd_spec;
  cd_validate : cd_spec → res unit;
  cd_spec_id : cd_spec → string;
  cd_requested_resources : cd_spec → ResourceQuantity;
  cd_fingerprint : cd_spec → string;
  cd_specs_match : cd_spec → cd_spec → bool;
  cd_parse : dict string json → res descriptor;
  cd_sha256 : descriptor → string;
  cd_py_str : json → string;
  cd_py_int : json → option Z
}.
Definition decode_publication (c : codec) : SandboxRoute → dict string json → res (option SandboxRoute) :=
  decode_wake_publication (cd_from_dict c) (cd_validate c) (cd_spec_id c) (cd_requested_resources c) (cd_fingerprint c)
    (cd_specs_match c) (cd_parse c) (cd_sha256 c) (cd_py_str c) (cd_py_int c).
