(* ===== verification/WakePlacement.v ===== *)
(** * Wake placement (ucloud_sandboxes/wake_placement.py)

    [WakePlacement.place] decides where a parked sandbox wakes: on its owner, on
    another node through a migration, or not yet.  It runs beside every other
    writer of the routing store, so the program is a state monad over a world [W]:
    before each of its transactions the rest of the system runs ([interfere]), and
    [W] carries the schedule.  The ports the class is built with are fields of a
    record, arbitrary functions of the world; two are the gateway's own code and are
    modelled: [reserve_local], which joins a batch of local wakes, and the decoding of
    a publication.  The run logs its transactions, its port calls, the batch it waited
    for and the placement reservation; [atomic] is the single-gateway form,
    [with reservation(): operation()]. *)
From stdpp Require Import gmap strings.
From Stdlib Require Import QArith.
From S2P Require Import Prelude PyFloat Json PyString Resources Bytes PyTime.
From S2P Require Import PlacementAccounting PlacementChoice ScaleModels Routes RouteStore Demands RouteRecovery RouteMigrations RouteSafety RouteAuthority WakeAdmission WakePorts.
Local Close Scope Q_scope.
Local Open Scope py_scope.
Local Open Scope Z_scope.

Record WakePlaced := mkPlaced { wp_route : SandboxRoute; wp_owner_changed : bool }.
Record WakeUnavailable := mkUnavailable {
  un_message : string;
  un_error_code : string;
  un_retry_after : Z;
  un_pending_resources : option ResourceQuantity;
  un_migration : option SandboxMigration;
  un_missing_sandbox_id : string
}.
Definition unavailable (message : string) : WakeUnavailable :=
  mkUnavailable message EmptyString 5 None None EmptyString.

(** How a method ends: a value, one of the module's three control exceptions, or
    any other exception *)
Inductive outcome (A : Type) :=
| Done (a : A)
| Stopped (u : WakeUnavailable)
| PublicationRequired (route : SandboxRoute) (pending : ResourceQuantity)
| RefreshRequired (route : SandboxRoute)
| Failed (e : exn).
Arguments Done {A} _.
Arguments Stopped {A} _.
Arguments PublicationRequired {A} _ _.
Arguments RefreshRequired {A} _.
Arguments Failed {A} _.

Inductive port_name :=
| Owner | Occupants | Destination | ReserveLocal | FinishDetach | AdvanceMigration
| RefreshCapacity | Publish | DecodePublication | ObserveConsolidation.
#[export] Instance port_name_eq_dec : EqDecision port_name.
Proof. solve_decision. Defined.

(** What the run does: a transaction with the store before and after it; a port call;
    a batch it waited for, with the stores the batch read its owners' placements in and
    the store before and after its commit; taking and giving back the reservation *)
Inductive event :=
| Committed (d d' : db)
| Called (p : port_name)
| Batched (views : list db) (d d' : db)
| Acquired
| Released.

Section placement.
Context {W : Type}.
Context (store : W → db) (commit : db → W → W) (interfere : W → W) (clock : W → Z) (uuid4_hex : W → string).
(** The batch a local wake joins: the callers ahead of it and behind it, what the
    fleet store answers, and the moment the placement of an owner is read *)
Context (batch_ahead batch_behind : W → list SandboxRoute).
Context (read_owner : W → string → res (option NodeHeartbeat)) (read_at : W → NodeHeartbeat → W).
Context (codecs : codec).
Context (julianday : string → option Q).
Context (can_admit : NodeHeartbeat → list PlacementRecord → ResourceQuantity → bool).
Context (heartbeat_ttl_seconds : Z) (consolidation_enabled : bool).

Record WakePlacementPorts := mkPorts {
  reservation : W → res unit * W;
  owner : string → W → res (option NodeHeartbeat) * W;
  occupants : NodeHeartbeat → W → res (list PlacementRecord) * W;
  destination : SandboxRoute → option NodeHeartbeat → W → res (option NodeHeartbeat) * W;
  finish_detach : SandboxRoute → W → res (option SandboxRoute * string) * W;
  advance_migration : SandboxMigration → W → res SandboxMigration * W;
  refresh_capacity : SandboxRoute → W → res unit * W;
  publish_snapshot : SandboxRoute → W → res (option (dict string json)) * W;
  observe_consolidation : SandboxRoute → option SandboxMigration → W → res unit * W
}.
Context (ports : WakePlacementPorts).

(** ** The monad *)
Definition M (A : Type) : Type := W → outcome A * W * list event.

Definition ret {A} (a : A) : M A := λ w, (Done a, w, []).
Definition stop {A} (o : outcome A) : M A := λ w, (o, w, []).
Definition bind {A B} (m : M A) (k : A → M B) : M B := λ w,
  let '(o, w, tr) := m w in
  match o with
  | Done a => let '(o, w, tr') := k a w in (o, w, tr ++ tr')
  | Stopped u => (Stopped u, w, tr)
  | PublicationRequired r q => (PublicationRequired r q, w, tr)
  | RefreshRequired r => (RefreshRequired r, w, tr)
  | Failed e => (Failed e, w, tr)
  end.
(** [try: m except ...]: [h] sees how [m] ended *)
Definition handle {A B} (m : M A) (h : outcome A → M B) : M B := λ w,
  let '(o, w, tr) := m w in let '(o, w, tr') := h o w in (o, w, tr ++ tr').

(** A reading of the world: the clock, a fresh identifier *)
Definition at_world {A} (f : W → M A) : M A := λ w, f w w.

(** A transaction of the routing store *)
Definition tx {A} (t : db → Z → res (A * db)) : M A := λ w,
  let w := interfere w in
  match t (store w) (clock w) with
  | Ok (a, d) => (Done a, commit d w, [Committed (store w) d])
  | Raise e => (Failed e, w, [])
  end.
Definition port_call {A} (name : port_name) (p : W → res A * W) : M A := λ w,
  let '(r, w') := p w in
  (match r with Ok a => Done a | Raise e => Failed e end, w', [Called name]).
Definition atomic {A} (operation : M A) : M A := λ w,
  let '(r, w) := reservation ports w in
  match r with
  | Ok _ => let '(o, w, tr) := operation w in (o, w, Acquired :: tr ++ [Released])
  | Raise e => (Failed e, w, [])
  end.

Notation "x ← m ; k" := (bind m (λ x, k)) (at level 20, m at level 100, k at level 200, only parsing).
Notation "m ;; k" := (bind m (λ _, k)) (at level 100, k at level 200, right associativity, only parsing).

(** ** The methods *)
Definition changed {A} : M A := stop (Stopped (unavailable "sandbox route changed during wake admission")).

Definition get_sandbox_readonly (id : string) : M (option SandboxRoute) :=
  tx (λ d _, let! r := get_sandbox_unlocked d id in Ok (r, d)).

Definition current (requested : SandboxRoute) : M SandboxRoute :=
  found ← get_sandbox_readonly (sr_sandbox_id requested);
  match found with
  | None => stop (Stopped (mkUnavailable "sandbox route not found" EmptyString 5 None None (sr_sandbox_id requested)))
  | Some current =>
      if negb (same_incarnation current requested) || nonempty (sr_delete_operation_id current)
      then changed else ret current
  end.

(** [WakeAdmission.reserve_current]: commit a separately planned wake, or join a
    competing one; two transactions *)
Definition reserve_current (route : SandboxRoute) : M (option SandboxRoute) :=
  waking ← tx (λ d now, reserve_sandbox_wake d route (wake_pending_demand_id (sr_sandbox_id route)) (iso now));
  match waking with
  | Some w => ret (Some w)
  | None =>
      found ← get_sandbox_readonly (sr_sandbox_id route);
      ret match found with
          | Some c => if negb (nonempty (sr_delete_operation_id c)) && same_incarnation c route
                         && bool_decide (state_or_unknown (sr_state c) ∈ ["waking"; "running"])
                      then Some c else None
          | None => None
          end
  end.
Definition mark_route_waking (route : SandboxRoute) : M SandboxRoute :=
  waking ← reserve_current route;
  match waking with None => changed | Some w => ret w end.

(** [_reserve_local_wake]: the caller waits while the batcher's thread takes the
    reservation, gathers the waiting callers, decides the batch and commits it.  The
    other writers run before it reads and before it commits. *)
Definition reserve_local (route : SandboxRoute) : M (option SandboxRoute) := λ w,
  let '(r, w) := reservation ports w in
  match r with
  | Raise e => (Failed e, w, [Called ReserveLocal])
  | Ok _ =>
      let w := interfere w in
      let ahead := batch_ahead w in
      let view h := store (read_at w h) in
      match decide_batch (read_owner w) (λ h, routes_for_node (cd_py_str codecs) (view h) h) can_admit
              heartbeat_ttl_seconds consolidation_enabled (store w) (ahead ++ route :: batch_behind w) (clock w) with
      | Raise e => (Failed e, w, [Called ReserveLocal])
      | Ok st =>
          let views := omap (λ jv, view ∘ vw_owner <$> jv.2) (bt_views st) in
          let w := interfere w in
          match commit_batch (store w) st (iso (clock w)) with
          | Raise e => (Failed e, w, [Called ReserveLocal])
          | Ok (decisions, d) =>
              (Done (default None (decisions !! length ahead)), commit d w,
               [Called ReserveLocal; Batched views (store w) d])
          end
      end
  end.

Definition demand (route : SandboxRoute) (reason : string) : M ResourceQuantity :=
  tx (λ d now,
    let! '(_, dm, d) := upsert_pending_with_demand julianday d (wake_pending_demand_id (sr_sandbox_id route))
      (sr_resources route) now 0 EmptyString EmptyString reason in
    Ok (dm_pending_resources dm, d)).

(** [sandbox_migrations(active_only=True, sandbox_id=...)], ordered by creation *)
Definition active_migrations (sandbox_id : string) (d : db) : list SandboxMigration :=
  sorted_by migration_leb
    (filter (λ m, active m = true ∧ mg_sandbox_id m = sandbox_id) (map_to_list (sandbox_migrations d)).*2).

Definition no_destination (message : string) (pending : ResourceQuantity) : WakeUnavailable :=
  mkUnavailable message "wake_destination_unavailable" 1 (Some pending) None EmptyString.

(** What [plan] settles: a route already waking or running, or a migration *)
Inductive planned := Route_ (r : SandboxRoute) | Migration_ (m : SandboxMigration).

(** An attached park that has not been published: what it waits for *)
Definition unpublished (route : SandboxRoute) (owner : option NodeHeartbeat) : M planned :=
  if match owner with
     | Some o => match runtime_metrics o with Some m => 0 <? storage_error_volumes m | None => false end
     | None => false
     end
  then
    demand route "wake_storage_recovery_required";;
    stop (Stopped (mkUnavailable "source node storage requires recovery before this sandbox can wake"
                     "storage_recovery_required" 5 None None EmptyString))
  else
    elsewhere ← port_call Destination (destination ports route None);
    match elsewhere with
    | None =>
        pending ← demand route "wake_destination_unavailable";
        stop (Stopped (no_destination "waiting for local or destination wake capacity" pending))
    | Some _ =>
        pending ← demand route "wake_snapshot_publication_pending";
        stop (PublicationRequired route pending)
    end.

(** The migration of a park that cannot wake in place *)
Definition relocate (route : SandboxRoute) (consolidation : option NodeHeartbeat) : M planned :=
  chosen ← match consolidation with
           | Some d => ret (Some d)
           | None => port_call Destination (destination ports route None)
           end;
  match chosen with
  | None =>
      pending ← demand route "wake_destination_unavailable";
      stop (Stopped (no_destination "parked sandbox has no node with active CPU, memory, and disk capacity" pending))
  | Some chosen =>
      at_world (λ w,
        m ← tx (λ d now, begin_sandbox_migration d route
                  ((match consolidation with Some _ => "consolidate-wake-" | None => "wake-" end) +:+ uuid4_hex w)
                  (node_id chosen) (job_id chosen) (node_url_text chosen) (iso now));
        ret (Migration_ m))
  end.

Definition plan (requested : SandboxRoute) (refresh_if_blocked : bool) : M planned :=
  route ← current requested;
  if bool_decide (sr_state route ∈ ["waking"; "running"]) then ret (Route_ route)
  else if negb (bool_decide (sr_state route = "parked")) then changed
  else
    owner ← port_call Owner (owner ports (sr_job_id route));
    occupied ← match owner with Some o => port_call Occupants (occupants ports o) | None => ret [] end;
    migrations ← tx (λ d _, Ok (active_migrations (sr_sandbox_id route) d, d));
    at_world (λ w,
    let local_can_wake :=
      bool_decide (sr_worker_state route = "attached")
      && match owner with
         | Some o => owner_ready heartbeat_ttl_seconds (clock w) o && can_admit o occupied (wake_demand route)
         | None => false
         end in
    if negb local_can_wake && bool_decide (sr_worker_state route = "attached") && refresh_if_blocked
     then stop (RefreshRequired route)
     else
       consolidation ← (if local_can_wake && bool_decide (migrations = []) && consolidation_enabled
                        then port_call Destination (destination ports route owner) else ret None);
       if local_can_wake && bool_decide (migrations = []) && negb (bool_decide (is_Some consolidation))
       then waking ← mark_route_waking route; ret (Route_ waking)
       else if bool_decide (sr_worker_state route = "attached") && negb (is_portable_parked_route route)
       then unpublished route owner
       else match migrations with m :: _ => ret (Migration_ m) | [] => relocate route consolidation end).

Definition is_consolidation (m : SandboxMigration) : bool := String.prefix "consolidate-wake-" (mg_migration_id m).

(** After the plan: the migration is the destination claim. *)
Definition follow (route : SandboxRoute) (p : planned) : M SandboxRoute :=
  match p with
  | Route_ r => ret r
  | Migration_ m =>
      (if is_consolidation m then port_call ObserveConsolidation (observe_consolidation ports route (Some m)) else ret tt);;
      tx (λ d _, Ok (tt, clear_pending d (wake_pending_demand_id (sr_sandbox_id route))));;
      m ← port_call AdvanceMigration (advance_migration ports m);
      if negb (bool_decide (mg_phase m = "complete")) then
        stop (Stopped (mkUnavailable (str_or (mg_error m) "parked sandbox relocation is incomplete") EmptyString 5
                         None (Some m) EmptyString))
      else
        (if is_consolidation m then port_call ObserveConsolidation (observe_consolidation ports route None) else ret tt);;
        now ← current route;
        mark_route_waking now
  end.

(** A park in the middle of a detach is detached first. *)
Definition settle_detach (route : SandboxRoute) : M SandboxRoute :=
  if negb (bool_decide (sr_worker_state route = "detaching")) then ret route
  else
    route ← current route;
    answer ← port_call FinishDetach (finish_detach ports route);
    match answer with
    | (None, message) => stop (Stopped (unavailable (str_or message "worker detach is incomplete")))
    | (Some detached, _) => if same_incarnation detached route then ret detached else changed
    end.

Definition reserve (requested : SandboxRoute) (refresh_if_blocked : bool) : M SandboxRoute :=
  local ← (if bool_decide (sr_worker_state requested = "attached")
           then reserve_local requested else ret None);
  match local with
  | Some r => ret r
  | None =>
      route ← settle_detach requested;
      p ← atomic (plan route refresh_if_blocked);
      follow route p
  end.

(** [accept_publication] *)
Definition snapshot_fields (r : SandboxRoute) :=
  (sr_storage_schema r, sr_snapshot_manifest_digest r, sr_snapshot_repository r, sr_snapshot_tag r).

Definition portable (o : option SandboxRoute) : bool :=
  match o with Some r => is_portable_parked_route r | None => false end.

Definition accept (route : SandboxRoute) (payload : dict string json) : M (option SandboxRoute) :=
  found ← get_sandbox_readonly (sr_sandbox_id route);
  match found with
  | None => ret None
  | Some current =>
      if negb (bool_decide (sr_state current = "parked")) || nonempty (sr_delete_operation_id current)
         || negb (same_owner current route) || negb (bool_decide (sr_worker_state current = sr_worker_state route))
      then ret None
      else
        decoded ← port_call DecodePublication (λ w, (decode_publication codecs current payload, w));
        match decoded with
        | None => ret None
        | Some observed =>
            if negb (is_portable_parked_route observed)
               || (nonempty (sr_node_epoch current) && negb (bool_decide (sr_node_epoch observed = sr_node_epoch current)))
               || (sr_activity_epoch observed <? sr_activity_epoch current)
            then ret None
            else
              accepted ← tx (λ d now, upsert_sandbox d observed true (iso now));
              if negb (is_portable_parked_route accepted) || negb (same_owner accepted observed)
                 || negb (bool_decide (sr_node_epoch accepted = sr_node_epoch observed))
                 || negb (sr_activity_epoch accepted =? sr_activity_epoch observed)
                 || negb (bool_decide (snapshot_fields accepted = snapshot_fields observed))
              then ret None else ret (Some accepted)
        end
  end.
Definition accept_publication (route : SandboxRoute) (payload : dict string json) : M (option SandboxRoute) :=
  decoded ← port_call DecodePublication (λ w, (decode_publication codecs route payload, w));
  if negb (portable decoded) then ret None else atomic (accept route payload).

(** [_placed] *)
Definition placed (before after : SandboxRoute) : WakePlaced :=
  mkPlaced after (negb (bool_decide ((sr_node_id before, sr_job_id before, sr_node_url before)
                                     = (sr_node_id after, sr_job_id after, sr_node_url after)))).

Definition place_answer : Type := WakePlaced + WakeUnavailable.

(** The body of [except WakeSnapshotPublicationRequired]: one publication, then one
    more reservation *)
Definition publish_and_reserve (parked pending : SandboxRoute) : M (option WakePlaced) :=
  payload ← port_call Publish (publish_snapshot ports pending);
  match payload with
  | None => ret None
  | Some payload =>
      published ← accept_publication pending payload;
      match published with
      | None => ret None
      | Some p => after ← reserve p false; ret (Some (placed parked after))
      end
  end.

Definition publication_pending (pending : ResourceQuantity) : place_answer :=
  inr (mkUnavailable "parked snapshot publication is still in progress" "snapshot_publication_pending" 1
         (Some pending) None EmptyString).

Definition reraise {A B} (o : outcome A) (k : A → M B) : M B :=
  match o with
  | Done a => k a
  | Stopped u => stop (Stopped u)
  | PublicationRequired r q => stop (PublicationRequired r q)
  | RefreshRequired r => stop (RefreshRequired r)
  | Failed e => stop (Failed e)
  end.

Definition place_parked (parked : SandboxRoute) : M place_answer :=
  let attempt :=
    handle (reserve parked true)
      (λ o, match o with
            | RefreshRequired blocked =>
                port_call RefreshCapacity (refresh_capacity ports blocked);;
                reserve blocked false
            | o => reraise o ret
            end) in
  handle attempt
    (λ o, match o with
          | PublicationRequired route pending =>
              handle (publish_and_reserve parked route)
                (λ o, match o with
                      | Done (Some p) => ret (inl p)
                      | Done None => ret (publication_pending pending)
                      | PublicationRequired _ newer => ret (publication_pending newer)
                      | Failed (OSError _) | Failed (ValueError _) => ret (publication_pending pending)
                      | o => reraise o (λ _, ret (publication_pending pending))
                      end)
          | o => reraise o (λ after, ret (inl (placed parked after)))
          end).

Definition place (requested : SandboxRoute) : M place_answer :=
  handle (parked ← current requested;
          if negb (bool_decide (sr_state parked = "parked")) then ret (inl (mkPlaced parked false))
          else place_parked parked)
    (λ o, match o with Stopped u => ret (inr u) | o => reraise o ret end).

(** ** Reasoning about runs: [wp m Q tr] is the claim that [m], run after the
    events [tr], ends with an outcome and a history in [Q]. *)
Definition wp {A} (m : M A) (Q : outcome A → list event → Prop) (tr : list event) : Prop :=
  ∀ w, Q (m w).1.1 (tr ++ (m w).2).

Lemma wp_mono {A} (m : M A) (Q Q' : outcome A → list event → Prop) tr :
  wp m Q tr → (∀ o tr', Q o tr' → Q' o tr') → wp m Q' tr.
Proof. intros H HQ w. apply HQ, H. Qed.
Lemma wp_ret {A} (a : A) (Q : outcome A → list event → Prop) tr : Q (Done a) tr → wp (ret a) Q tr.
Proof. intros H w. simpl. by rewrite app_nil_r. Qed.
Lemma wp_stop {A} (o : outcome A) (Q : outcome A → list event → Prop) tr : Q o tr → wp (stop o) Q tr.
Proof. intros H w. simpl. by rewrite app_nil_r. Qed.
Lemma wp_handle {A B} (m : M A) (h : outcome A → M B) (Q : outcome B → list event → Prop) tr :
  wp m (λ o tr, wp (h o) Q tr) tr → wp (handle m h) Q tr.
Proof.
  intros H w. specialize (H w). unfold handle. destruct (m w) as [[o w1] tr1]. specialize (H w1). simpl in H.
  destruct (h o w1) as [[o2 w2] tr2]. simpl in *. by rewrite app_assoc.
Qed.
Lemma wp_bind {A B} (m : M A) (k : A → M B) (Q : outcome B → list event → Prop) tr :
  wp m (λ o tr, match o with
                | Done a => wp (k a) Q tr
                | Stopped u => Q (Stopped u) tr
                | PublicationRequired r q => Q (PublicationRequired r q) tr
                | RefreshRequired r => Q (RefreshRequired r) tr
                | Failed e => Q (Failed e) tr
                end) tr → wp (bind m k) Q tr.
Proof.
  intros H w. specialize (H w). unfold bind. destruct (m w) as [[o w1] tr1]. simpl in H.
  destruct o as [a| | | |]; simpl; [|done..]. specialize (H w1). destruct (k a w1) as [[o2 w2] tr2].
  simpl in *. by rewrite app_assoc.
Qed.
Lemma wp_tx {A} (t : db → Z → res (A * db)) (Q : outcome A → list event → Prop) tr :
  (∀ d now, match t d now with Ok (a, d') => Q (Done a) (tr ++ [Committed d d']) | Raise e => Q (Failed e) tr end) →
  wp (tx t) Q tr.
Proof.
  intros H w. unfold tx. specialize (H (store (interfere w)) (clock (interfere w))).
  destruct (t _ _) as [[a d]|e]; simpl; [done|by rewrite app_nil_r].
Qed.
Lemma wp_call {A} name (p : W → res A * W) (Q : outcome A → list event → Prop) tr :
  (∀ w, Q (match (p w).1 with Ok a => Done a | Raise e => Failed e end)
          (tr ++ [Called name])) →
  wp (port_call name p) Q tr.
Proof. intros H w. specialize (H w). unfold port_call. by destruct (p w) as [r w']. Qed.
Lemma wp_atomic {A} (m : M A) (Q : outcome A → list event → Prop) tr :
  (∀ e, Q (Failed e) tr) → wp m (λ o tr, Q o (tr ++ [Released])) (tr ++ [Acquired]) → wp (atomic m) Q tr.
Proof.
  intros Hf H w. unfold atomic. destruct (reservation ports w) as [[]] eqn:E; simpl; [|by rewrite app_nil_r].
  specialize (H w0). destruct (m w0) as [[o w1] tr1]. simpl in *.
  by rewrite <-!app_assoc in H.
Qed.

(** ** The placement reservation

    [lock_after held tr]: whether the reservation is held after [tr]; [None] if it
    is taken twice, released without being held, or held over a call that reaches
    a worker or waits for another thread's reservation. *)
Definition leaves_gateway (p : port_name) : bool :=
  bool_decide (p ∈ [ReserveLocal; FinishDetach; AdvanceMigration; RefreshCapacity; Publish]).
Fixpoint lock_after (held : bool) (tr : list event) : option bool :=
  match tr with
  | [] => Some held
  | Acquired :: tr => if held then None else lock_after true tr
  | Released :: tr => if held then lock_after false tr else None
  | Called p :: tr => if held && leaves_gateway p then None else lock_after held tr
  | Batched _ _ _ :: tr => if held then None else lock_after held tr
  | Committed _ _ :: tr => lock_after held tr
  end.

Lemma lock_after_app held tr1 tr2 : lock_after held (tr1 ++ tr2) = lock_after held tr1 ≫= λ h, lock_after h tr2.
Proof.
  revert held. induction tr1 as [|[| p| | |] tr1 IH]; intros held; simpl; [done|by rewrite IH|..].
  - destruct (held && _); [done|by rewrite IH].
  - destruct held; [done|by rewrite IH].
  - destruct held; [done|by rewrite IH].
  - destruct held; [by rewrite IH|done].
Qed.

Definition keeps (h : bool) {A} (m : M A) : Prop := ∀ w, lock_after h (m w).2 = Some h.

Lemma keeps_ret h A (a : A) : keeps h (ret a).
Proof. done. Qed.
Lemma keeps_stop h A (o : outcome A) : keeps h (stop o).
Proof. done. Qed.
Lemma keeps_tx h A (t : db → Z → res (A * db)) : keeps h (tx t).
Proof. intros w. unfold tx. by destruct (t _ _) as [[]|]. Qed.
Lemma keeps_call h A name (p : W → res A * W) : h && leaves_gateway name = false → keeps h (port_call name p).
Proof. intros Hn w. unfold port_call. destruct (p w). simpl. by rewrite Hn. Qed.
Lemma keeps_bind h A B (m : M A) (k : A → M B) : keeps h m → (∀ a, keeps h (k a)) → keeps h (bind m k).
Proof.
  intros Hm Hk w. specialize (Hm w). unfold bind. destruct (m w) as [[[a| | | |] w1] tr1]; [|done..]. simpl in Hm.
  specialize (Hk a w1). destruct (k a w1) as [[o w2] tr2]. simpl in *. by rewrite lock_after_app, Hm.
Qed.
Lemma keeps_handle h A B (m : M A) (k : outcome A → M B) : keeps h m → (∀ o, keeps h (k o)) → keeps h (handle m k).
Proof.
  intros Hm Hk w. specialize (Hm w). unfold handle. destruct (m w) as [[o w1] tr1]. simpl in Hm.
  specialize (Hk o w1). destruct (k o w1) as [[o2 w2] tr2]. simpl in *. by rewrite lock_after_app, Hm.
Qed.
Lemma keeps_atomic A (m : M A) : keeps true m → keeps false (atomic m).
Proof.
  intros Hm w. unfold atomic. destruct (reservation ports w) as [[] w1]; [|done].
  specialize (Hm w1). destruct (m w1) as [[o w2] tr]. simpl in *. by rewrite lock_after_app, Hm.
Qed.
Lemma keeps_at h A (f : W → M A) : (∀ w, keeps h (f w)) → keeps h (at_world f).
Proof. intros H w. apply H. Qed.

Ltac keeps_step :=
  match goal with
  | |- ∀ _, _ => intro
  | |- keeps _ (ret _) => apply keeps_ret
  | |- keeps _ (stop _) => apply keeps_stop
  | |- keeps _ (tx _) => apply keeps_tx
  | |- keeps true (port_call _ _) => apply keeps_call; reflexivity
  | |- keeps false (port_call _ _) => apply keeps_call; reflexivity
  | |- keeps ?h (port_call _ _) => apply keeps_call; destruct h; reflexivity
  | |- keeps _ (bind _ _) => apply keeps_bind
  | |- keeps _ (handle _ _) => apply keeps_handle
  | |- keeps _ (atomic _) => apply keeps_atomic
  | |- keeps _ (at_world _) => apply keeps_at
  | |- keeps _ (match ?x with _ => _ end) => destruct x
  end.
Ltac keeps_auto := repeat keeps_step.

Lemma keeps_current h r : keeps h (current r).
Proof. unfold current, get_sandbox_readonly, changed. keeps_auto. Qed.
Lemma keeps_mark h r : keeps h (mark_route_waking r).
Proof. unfold mark_route_waking, reserve_current, get_sandbox_readonly, changed. keeps_auto. Qed.
Lemma keeps_local r : keeps false (reserve_local r).
Proof.
  intros w. unfold reserve_local. destruct (reservation ports w) as [[] w1]; [|done].
  destruct (decide_batch _ _ _ _ _ _ _ _); [|done]. by destruct (commit_batch _ _ _) as [[]|].
Qed.
Lemma keeps_demand h r x : keeps h (demand r x).
Proof. apply keeps_tx. Qed.
Lemma keeps_unpublished h r o : keeps h (unpublished r o).
Proof. unfold unpublished. keeps_auto; apply keeps_demand. Qed.
Lemma keeps_relocate h r c : keeps h (relocate r c).
Proof. unfold relocate. keeps_auto; apply keeps_demand. Qed.
Lemma keeps_plan h r b : keeps h (plan r b).
Proof.
  unfold plan. apply keeps_bind; [apply keeps_current|]. unfold changed.
  keeps_auto; auto using keeps_mark, keeps_unpublished, keeps_relocate.
Qed.
Lemma keeps_follow r p : keeps false (follow r p).
Proof. unfold follow. keeps_auto; auto using keeps_current, keeps_mark. Qed.
Lemma keeps_reserve r b : keeps false (reserve r b).
Proof.
  unfold reserve, settle_detach, changed. keeps_auto; auto using keeps_current, keeps_local, keeps_plan, keeps_follow.
Qed.
Lemma keeps_accept_publication r payload : keeps false (accept_publication r payload).
Proof. unfold accept_publication, accept, get_sandbox_readonly. keeps_auto. Qed.

(** C30. Whatever the ports answer and whatever runs beside it, [place] never holds
    the placement reservation over a call that reaches a worker, drives a migration
    or waits for another reservation; it takes the reservation only while it does
    not hold it, and has released it when it returns or raises. *)
Theorem place_never_locks_over_rpc requested w :
  lock_after false (place requested w).2 = Some false.
Proof.
  revert w. unfold place, place_parked, publish_and_reserve, reraise. apply keeps_handle.
  - keeps_auto; auto using keeps_current, keeps_reserve, keeps_accept_publication.
  - keeps_auto.
Qed.

(** ** The incarnation *)
Definition identity (r : SandboxRoute) := (sr_sandbox_id r, sr_generation r, sr_create_operation_id r, sr_spec_hash r).

Lemma same_incarnation_iff a b : same_incarnation a b = true ↔ identity a = identity b.
Proof.
  unfold same_incarnation, identity. rewrite !andb_true_iff, !bool_decide_eq_true, Z.eqb_eq.
  split; [intros [[[-> ->] ->] ->]; done|by intros [= -> -> -> ->]].
Qed.
Lemma same_owner_identity a b : same_owner a b = true → identity a = identity b.
Proof. unfold same_owner. rewrite !andb_true_iff. intros [[[H _] _] _]. by apply same_incarnation_iff. Qed.
Lemma same_route_identity a b : same_sandbox_route_incarnation a b = true → identity a = identity b.
Proof.
  unfold same_sandbox_route_incarnation, identity. rewrite !andb_true_iff, !bool_decide_eq_true, Z.eqb_eq.
  by intros [[[[[[-> ->] ->] ->] _] _] _].
Qed.

(** [r] is the row of a sandbox in a store: the incarnation asked for, with no
    delete recorded *)
Definition live_row (requested r : SandboxRoute) (d : db) : Prop :=
  sandboxes d !! sr_sandbox_id requested = Some r ∧ identity r = identity requested ∧
  nonempty (sr_delete_operation_id r) = false.
(** A store the run was in contact with at an event *)
Definition contact (e : event) (P : db → Prop) : Prop :=
  match e with
  | Committed _ d => P d
  | Batched views _ d => P d ∨ Exists P views
  | Called _ | Acquired | Released => False
  end.
(** [P] holds of a store at the last event of the run, giving back the reservation
    apart *)
Definition last_seen (tr : list event) (P : db → Prop) : Prop :=
  ∃ tr0 e rest, tr = tr0 ++ e :: rest ∧ Forall (λ x, x = Released) rest ∧ contact e P.

Lemma last_seen_released tr P : last_seen tr P → last_seen (tr ++ [Released]) P.
Proof.
  intros (tr0 & e & rest & -> & Hr & HP). exists tr0, e, (rest ++ [Released]). rewrite <-app_assoc. split; [done|].
  split; [|done]. apply Forall_app_2; [done|by constructor].
Qed.
Lemma last_seen_event tr e (P : db → Prop) : contact e P → last_seen (tr ++ [e]) P.
Proof. intros HP. exists tr, e, []. auto. Qed.
Lemma last_seen_batch tr c e (P : db → Prop) : contact e P → last_seen (tr ++ [c; e]) P.
Proof. rewrite cons_middle, app_assoc. apply last_seen_event. Qed.
Lemma last_seen_mono tr (P Q : db → Prop) : last_seen tr P → (∀ d, P d → Q d) → last_seen tr Q.
Proof.
  intros (tr0 & e & rest & -> & Hr & HP) H. exists tr0, e, rest. split_and!; [done|done|].
  destruct e; simpl in *; [auto|done| |done|done]. destruct HP as [?|HE]; [auto|right]. by eapply Exists_impl.
Qed.

(** A route that may be dispatched: the live row of the incarnation asked for, waking
    or running, as the store had it when the run last looked *)
Definition awake (r : SandboxRoute) : Prop := state_or_unknown (sr_state r) ∈ ["waking"; "running"].
Definition dispatchable (requested r : SandboxRoute) (tr : list event) : Prop :=
  last_seen tr (live_row requested r) ∧ awake r.

(** A commit that leaves the rows of every other sandbox alone *)
Definition ev_local (requested : SandboxRoute) (e : event) : Prop :=
  match e with Committed d d' => local (sr_sandbox_id requested) d d' | _ => True end.

(** How a method for [requested] may end: with a value in [P], or with a control
    exception that carries the same incarnation; its commits are local *)
Definition safe {A} (requested : SandboxRoute) (P : A → list event → Prop) (o : outcome A) (tr : list event) : Prop :=
  Forall (ev_local requested) tr ∧
  match o with
  | Done a => P a tr
  | PublicationRequired r _ | RefreshRequired r => identity r = identity requested
  | Stopped _ | Failed _ => True
  end.

Lemma safe_local {A} requested (P : A → list event → Prop) o tr : safe requested P o tr → Forall (ev_local requested) tr.
Proof. by intros []. Qed.
Lemma local_snoc requested tr e : Forall (ev_local requested) tr → ev_local requested e → Forall (ev_local requested) (tr ++ [e]).
Proof. intros. by apply Forall_app_2; [|apply Forall_singleton]. Qed.
Lemma local_same requested d d' : sandboxes d' = sandboxes d → ev_local requested (Committed d d').
Proof. intros E j _. by rewrite E. Qed.

(** The rules for [safe] *)
Lemma safe_bind {A B} requested (m : M A) (k : A → M B) P Q tr :
  wp m (safe requested P) tr →
  (∀ a tr, Forall (ev_local requested) tr → P a tr → wp (k a) (safe requested Q) tr) →
  wp (bind m k) (safe requested Q) tr.
Proof.
  intros Hm Hk. apply wp_bind. eapply wp_mono; [exact Hm|]. intros [a| | | |] tr' [Hl H]; [by apply Hk|done..].
Qed.
Lemma safe_tx {A} requested (t : db → Z → res (A * db)) (P : A → list event → Prop) tr :
  Forall (ev_local requested) tr →
  (∀ d now a d', t d now = Ok (a, d') →
     local (sr_sandbox_id requested) d d' ∧ P a (tr ++ [Committed d d'])) →
  wp (tx t) (safe requested P) tr.
Proof.
  intros Hl H. apply wp_tx. intros d now. destruct (t d now) as [[a d']|e] eqn:E; [|done].
  destruct (H _ _ _ _ E). split; [by apply local_snoc|done].
Qed.
Lemma safe_call {A} requested name (p : W → res A * W) (P : A → list event → Prop) tr :
  Forall (ev_local requested) tr →
  (∀ w a w', p w = (Ok a, w') → P a (tr ++ [Called name])) →
  wp (port_call name p) (safe requested P) tr.
Proof.
  intros Hl H. apply wp_call. intros w. split; [by apply local_snoc|].
  destruct (p w) as [[a|e] w'] eqn:E; simpl; [by eapply H|done].
Qed.
Lemma safe_ret {A} requested (a : A) (P : A → list event → Prop) tr :
  Forall (ev_local requested) tr → P a tr → wp (ret a) (safe requested P) tr.
Proof. intros. by apply wp_ret. Qed.
Lemma safe_stopped {A} requested u (P : A → list event → Prop) tr :
  Forall (ev_local requested) tr → wp (stop (Stopped u)) (safe requested P) tr.
Proof. intros. by apply wp_stop. Qed.
Lemma safe_mono {A} requested (m : M A) (P P' : A → list event → Prop) tr :
  wp m (safe requested P) tr → (∀ a tr', P a tr' → P' a tr') → wp m (safe requested P') tr.
Proof. intros H HP. eapply wp_mono; [exact H|]. intros [] tr' [Hl Ho]; split; auto. Qed.
Lemma safe_atomic {A} requested (m : M A) (P : A → list event → Prop) tr :
  Forall (ev_local requested) tr →
  wp m (safe requested (λ a tr, P a (tr ++ [Released]))) (tr ++ [Acquired]) →
  wp (atomic m) (safe requested P) tr.
Proof.
  intros Hl H. apply wp_atomic; [by split|]. eapply wp_mono; [exact H|].
  intros o tr' [Hl' Ho]. split; [by apply local_snoc|]. by destruct o.
Qed.
Lemma safe_at {A} requested (f : W → M A) (P : A → list event → Prop) tr :
  (∀ w, wp (f w) (safe requested P) tr) → wp (at_world f) (safe requested P) tr.
Proof. intros H w. apply H. Qed.

(** The transactions *)
Lemma get_Some d id r : get_sandbox_unlocked d id = Ok (Some r) → sandboxes d !! id = Some r.
Proof.
  unfold get_sandbox_unlocked. destruct (sandboxes d !! id) as [row|]; [|done].
  intros (r' & [-> _]%route_init_Ok & [= <-])%res_bind_Ok. done.
Qed.
Lemma identity_id a b : identity a = identity b → sr_sandbox_id a = sr_sandbox_id b.
Proof. by intros [= ->]. Qed.

Lemma readonly_safe requested id tr :
  Forall (ev_local requested) tr →
  wp (get_sandbox_readonly id)
    (safe requested (λ o tr, ∀ r, o = Some r → last_seen tr (λ d, sandboxes d !! id = Some r))) tr.
Proof.
  intros Hl. apply safe_tx; [done|]. intros d now a d' (o & Ho & [= -> <-])%res_bind_Ok.
  split; [done|]. intros r ->. apply last_seen_event. by apply get_Some.
Qed.

Lemma current_safe requested r tr :
  Forall (ev_local requested) tr → identity r = identity requested →
  wp (current r) (safe requested (λ c tr, last_seen tr (live_row requested c))) tr.
Proof.
  intros Hl Hr. eapply safe_bind; [by apply readonly_safe|]. simpl. intros [c|] tr' Hl' Hc; [|by apply safe_stopped].
  destruct (same_incarnation c r) eqn:Es; simpl; [|by apply safe_stopped].
  destruct (nonempty _) eqn:Ed; [by apply safe_stopped|]. apply safe_ret; [done|].
  eapply last_seen_mono; [by apply Hc|]. intros d Hd. apply same_incarnation_iff in Es.
  split_and!; [|congruence|done]. by rewrite <-(identity_id _ _ Hr).
Qed.

Lemma live_identity requested r tr : last_seen tr (live_row requested r) → identity r = identity requested.
Proof.
  intros (tr0 & e & rest & _ & _ & He). destruct e; simpl in He; [by destruct He as (_ & ? & _)|done| |done|done].
  destruct He as [He|(x & _ & He)%Exists_exists]; by destruct He as (_ & ? & _).
Qed.

Lemma awake_state r : sr_state r ∈ ["waking"; "running"] → awake r.
Proof. unfold awake. set_unfold. intros [-> | [-> | []]]; vm_compute; eauto. Qed.
Lemma state_awake r : bool_decide (state_or_unknown (sr_state r) ∈ ["waking"; "running"]) = true → awake r.
Proof. by rewrite bool_decide_eq_true. Qed.

(** Committing a wake: it touches that row only, and leaves it waking. *)
Lemma reserve_sandbox_wake_spec d r pid now o d' :
  reserve_sandbox_wake d r pid now = Ok (o, d') →
  local (sr_sandbox_id r) d d' ∧
  ∀ w, o = Some w → sandboxes d' !! sr_sandbox_id r = Some w ∧ sr_state w = "waking" ∧
    nonempty (sr_delete_operation_id w) = false ∧ identity w = identity r.
Proof.
  unfold reserve_sandbox_wake, reserve_sandbox_wakes. intros ([result d1] & H & Ho)%res_bind_Ok.
  destruct (dget result (sr_sandbox_id r)) as [x|] eqn:E; [|done]. injection Ho as -> ->. split.
  - intros j Hj. eapply (reserve_wakes_other now [(r, pid)]) in H as [-> _]; [done|]. by apply not_elem_of_cons; split; [|apply not_elem_of_nil].
  - intros w ->. eapply (reserve_wakes_live now [(r, pid)]) in H as (q & Hq & H1 & H2 & H3 & H4 & H5);
      [|by apply NoDup_singleton|done|exact E].
    apply list_elem_of_singleton in Hq as ->. simpl in *. apply same_incarnation_iff in H5. done.
Qed.

Lemma reserve_current_safe requested r tr :
  Forall (ev_local requested) tr → identity r = identity requested →
  wp (reserve_current r) (safe requested (λ o tr, ∀ w, o = Some w → dispatchable requested w tr)) tr.
Proof.
  intros Hl Hr. eapply (safe_bind _ _ _ (λ o tr, ∀ w, o = Some w → dispatchable requested w tr)).
  - apply safe_tx; [done|]. intros d now o d' [Hloc Ho]%reserve_sandbox_wake_spec.
    rewrite (identity_id _ _ Hr) in *. split; [done|]. intros w ->.
    destruct (Ho w eq_refl) as (H1 & H2 & H3 & H4). split; [|apply awake_state; rewrite H2; by left].
    apply last_seen_event. split_and!; [done|congruence|done].
  - intros [w|] tr1 Hl1 Hw; [apply safe_ret; [done|]; intros x [= <-]; auto|].
    eapply safe_bind; [by apply readonly_safe|]. simpl. intros [c|] tr2 Hl2 Hc; [|by apply safe_ret].
    apply safe_ret; [done|]. intros w. destruct (_ && _) eqn:E; [|done]. intros [= <-].
    rewrite !andb_true_iff in E. destruct E as [[E1 E2%same_incarnation_iff] E3%state_awake].
    split; [|done]. eapply last_seen_mono; [by apply Hc|]. intros d Hd. rewrite (identity_id _ _ Hr) in Hd.
    split_and!; [done|congruence|]. by destruct (nonempty _).
Qed.

Lemma mark_safe requested r tr :
  Forall (ev_local requested) tr → identity r = identity requested →
  wp (mark_route_waking r) (safe requested (dispatchable requested)) tr.
Proof.
  intros Hl Hr. eapply safe_bind; [by apply reserve_current_safe|].
  intros [w|] tr' Hl' Hw; [by apply safe_ret; auto|by apply safe_stopped].
Qed.

Lemma demand_safe requested r reason tr :
  Forall (ev_local requested) tr → wp (demand r reason) (safe requested (λ _ _, True)) tr.
Proof.
  intros Hl. apply safe_tx; [done|]. intros d now a d' ([[st dm] d1] & H & [= _ <-])%res_bind_Ok. split; [|done].
  unfold upsert_pending_with_demand, pending_demand, prune_expired, upsert_pending_unlocked in H.
  repeat match goal with
         | H : res_bind _ _ = Ok _ |- _ => apply res_bind_Ok in H as (? & ? & ?)
         | x : _ * _ |- _ => destruct x
         end.
  by simplify_eq.
Qed.

Lemma unpublished_safe requested r o P tr :
  Forall (ev_local requested) tr → identity r = identity requested → wp (unpublished r o) (safe requested P) tr.
Proof.
  intros Hl Hr. unfold unpublished. destruct (match o with Some _ => _ | None => _ end).
  { eapply safe_bind; [by apply demand_safe|]. intros. by apply safe_stopped. }
  eapply (safe_bind _ _ _ (λ _ _, True)); [by apply safe_call|]. intros [x|] tr' Hl' _.
  all: eapply safe_bind; [by apply demand_safe|]; intros; by apply wp_stop.
Qed.

Lemma begin_migration_rows d r i n j u now m d' :
  begin_sandbox_migration d r i n j u now = Ok (m, d') → sandboxes d' = sandboxes d.
Proof.
  unfold begin_sandbox_migration. intros [_ H]%raise_if_Ok. destruct (_ !! _); [by simplify_eq|].
  apply raise_if_Ok in H as [_ H]. bind_inv H. destruct x; [|done]. apply raise_if_Ok in H as [_ H].
  bind_inv H. apply raise_if_Ok in Hx0 as [_ Hx0]. by simplify_eq.
Qed.

Lemma relocate_safe requested r c (P : planned → list event → Prop) tr :
  Forall (ev_local requested) tr → (∀ m tr, P (Migration_ m) tr) → wp (relocate r c) (safe requested P) tr.
Proof.
  intros Hl HP. unfold relocate. eapply (safe_bind _ _ _ (λ _ _, True)).
  { destruct c; [by apply safe_ret|by apply safe_call]. }
  intros [x|] tr' Hl' _.
  - apply safe_at. intros w. eapply (safe_bind _ _ _ (λ _ _, True)); [|intros; by apply safe_ret].
    apply safe_tx; [done|]. intros d now m d' H%begin_migration_rows. split; [|done]. intros j _. by rewrite H.
  - eapply safe_bind; [by apply demand_safe|]. intros. by apply safe_stopped.
Qed.

(** What a plan settles: a route that may be dispatched, or a migration *)
Definition plan_ok (requested : SandboxRoute) (p : planned) (tr : list event) : Prop :=
  match p with Route_ r => dispatchable requested r tr | Migration_ _ => True end.

Lemma plan_safe requested r b tr :
  Forall (ev_local requested) tr → identity r = identity requested →
  wp (plan r b) (safe requested (plan_ok requested)) tr.
Proof.
  intros Hl Hr. unfold plan. eapply safe_bind; [by apply current_safe|]. intros c tr1 Hl1 Hc.
  pose proof (live_identity _ _ _ Hc) as Hi.
  case_bool_decide as Ha; [apply safe_ret; [done|split; [done|by apply awake_state]]|].
  destruct (negb _); [by apply safe_stopped|].
  eapply (safe_bind _ _ _ (λ _ _, True)); [by apply safe_call|]. intros o tr2 Hl2 _.
  eapply (safe_bind _ _ _ (λ _ _, True)); [destruct o; [by apply safe_call|by apply safe_ret]|]. intros occ tr3 Hl3 _.
  eapply (safe_bind _ _ _ (λ _ _, True)); [apply safe_tx; [done|]; intros; by simplify_eq|]. intros ms tr4 Hl4 _.
  apply safe_at. intros w. set (can := _ && _). destruct (_ && b); [by apply wp_stop|].
  eapply (safe_bind _ _ _ (λ _ _, True)); [destruct (_ && _); [by apply safe_call|by apply safe_ret]|].
  intros cs tr5 Hl5 _. destruct (_ && _); [|destruct (_ && _); [by apply unpublished_safe|]].
  - eapply safe_bind; [by apply mark_safe|]. intros. by apply safe_ret.
  - destruct ms; [by apply relocate_safe|by apply safe_ret].
Qed.

Lemma follow_safe requested r p tr :
  Forall (ev_local requested) tr → identity r = identity requested → plan_ok requested p tr →
  wp (follow r p) (safe requested (dispatchable requested)) tr.
Proof.
  intros Hl Hr Hp. unfold follow. destruct p as [w|m]; [by apply safe_ret|].
  eapply (safe_bind _ _ _ (λ _ _, True)); [destruct (is_consolidation m); [by apply safe_call|by apply safe_ret]|].
  intros _ tr1 Hl1 _. eapply (safe_bind _ _ _ (λ _ _, True)); [apply safe_tx; [done|]; intros; by simplify_eq|].
  intros _ tr2 Hl2 _. eapply (safe_bind _ _ _ (λ _ _, True)); [by apply safe_call|]. intros m' tr3 Hl3 _.
  destruct (negb _); [by apply safe_stopped|].
  eapply (safe_bind _ _ _ (λ _ _, True)); [destruct (is_consolidation m'); [by apply safe_call|by apply safe_ret]|].
  intros _ tr4 Hl4 _. eapply safe_bind; [by apply current_safe|]. intros c tr5 Hl5 Hc%live_identity. by apply mark_safe.
Qed.

Lemma settle_detach_safe requested r tr :
  Forall (ev_local requested) tr → identity r = identity requested →
  wp (settle_detach r) (safe requested (λ c _, identity c = identity requested)) tr.
Proof.
  intros Hl Hr. unfold settle_detach. destruct (negb _); [by apply safe_ret|].
  eapply safe_bind; [by apply current_safe|]. intros c tr1 Hl1 Hc%live_identity.
  eapply (safe_bind _ _ _ (λ _ _, True)); [by apply safe_call|]. intros [[x|] msg] tr2 Hl2 _; [|by apply safe_stopped].
  destruct (same_incarnation x c) eqn:E; [|by apply safe_stopped]. apply same_incarnation_iff in E.
  apply safe_ret; [done|congruence].
Qed.

(** ** The batch

    What is assumed of the rest of the system: a row is filed under its id, the
    primary key of its table; and the callers that wait for the same batch with the
    same sandbox id ask for the same incarnation of it. *)
Section batch.
Context (requested : SandboxRoute).
Hypothesis primary_key : ∀ w k r, sandboxes (store w) !! k = Some r → sr_sandbox_id r = k.
Hypothesis one_incarnation : ∀ w q, q ∈ batch_ahead w ++ batch_behind w →
  sr_sandbox_id q = sr_sandbox_id requested → identity q = identity requested.

Lemma reserve_local_safe r tr :
  Forall (ev_local requested) tr → identity r = identity requested →
  wp (reserve_local r) (safe requested (λ o tr, ∀ x, o = Some x → dispatchable requested x tr)) tr.
Proof.
  intros Hl Hr w. assert (Forall (ev_local requested) (tr ++ [Called ReserveLocal])) as Hl1 by by apply local_snoc.
  unfold reserve_local. destruct (reservation ports w) as [[] w1]; [|by split]. set (w2 := interfere w1).
  destruct (decide_batch _ _ _ _ _ _ _ _) as [st|] eqn:Hd; [|by split]. set (w3 := interfere w2).
  destruct (commit_batch _ _ _) as [[ds d']|] eqn:Hc; [|by split]. simpl. split.
  { apply Forall_app_2; [done|]. by repeat constructor. }
  intros x Hx. destruct (ds !! length (batch_ahead w2)) as [o|] eqn:Eo; [|done]. simpl in Hx. subst o.
  pose proof (list_lookup_middle (batch_ahead w2) (batch_behind w2) r _ eq_refl) as Hq.
  destruct (batch_answer _ _ _ _ _ _ _ _ _ _ _ _ _ _ _ _ Hd Hc Hq Eo) as [Hdel [(H1 & H2 & k & Hk & Hkr & Hs)|(Ho & Hst & v & pl & Hv & Hp & Hin)]].
  - split; [|apply awake_state; rewrite H2; by left]. apply last_seen_batch. left.
    apply same_incarnation_iff in Hs. rewrite (identity_id _ _ Hr) in *. split_and!; [done| |done]. rewrite Hs.
    apply elem_of_app in Hk as [Hk|Hk]; [eapply one_incarnation; [apply elem_of_app; by left|done]|].
    apply elem_of_cons in Hk as [->|Hk]; [done|]. eapply one_incarnation; [apply elem_of_app; by right|done].
  - split; [|apply awake_state; set_solver]. apply last_seen_batch. right.
    destruct (routes_for_node_rows _ _ _ _ _ Hp Hin) as [k Hk]. pose proof (primary_key _ _ _ Hk) as <-.
    apply same_owner_identity in Ho. apply Exists_exists. exists (store (read_at w2 (vw_owner v))). split.
    + apply list_elem_of_omap. exists (sr_job_id r, Some v). split; [by apply dget_Some_1|done].
    + rewrite (identity_id _ _ Ho) in Hk. rewrite (identity_id _ _ Hr) in Hk. split_and!; [done|congruence|done].
Qed.

Lemma reserve_safe r b tr :
  Forall (ev_local requested) tr → identity r = identity requested →
  wp (reserve r b) (safe requested (dispatchable requested)) tr.
Proof.
  intros Hl Hr. unfold reserve.
  eapply (safe_bind _ _ _ (λ o tr, ∀ x, o = Some x → dispatchable requested x tr)).
  { case_bool_decide; [by apply reserve_local_safe|by apply safe_ret]. }
  intros [x|] tr1 Hl1 Hx; [by apply safe_ret; auto|].
  eapply safe_bind; [by apply settle_detach_safe|]. intros c tr2 Hl2 Hc.
  eapply (safe_bind _ _ _ (plan_ok requested)).
  - apply safe_atomic; [done|]. eapply safe_mono; [apply plan_safe; [by apply local_snoc|done]|].
    intros [y|m] tr' Hp; [|done]. destruct Hp. split; [by apply last_seen_released|done].
  - intros p tr3 Hl3 Hp. by apply follow_safe.
Qed.

Lemma upsert_local d r adoption now x d' : upsert_sandbox d r adoption now = Ok (x, d') → local (sr_sandbox_id r) d d'.
Proof.
  unfold upsert_sandbox. intros H. bind_inv H. destruct x0 as [e|]; [destruct (negb _); [by simplify_eq|]|].
  all: bind_inv H; apply route_init_Ok in Hx0 as [-> _]; simplify_eq; intros j Hj.
  all: match goal with |- context [write_sandbox ?x ?y] => exact (write_local x y j Hj) end.
Qed.

Lemma accept_publication_safe r payload tr :
  Forall (ev_local requested) tr → identity r = identity requested →
  wp (accept_publication r payload)
    (safe requested (λ o _, ∀ x, o = Some x → identity x = identity requested)) tr.
Proof.
  intros Hl Hr. unfold accept_publication. eapply (safe_bind _ _ _ (λ _ _, True)); [by apply safe_call|].
  intros o tr1 Hl1 _. destruct (negb _); [by apply safe_ret|].
  apply safe_atomic; [done|]. assert (Forall (ev_local requested) (tr1 ++ [Acquired])) as Hl1' by by apply local_snoc.
  eapply safe_bind; [by apply readonly_safe|]. intros [c|] tr2 Hl2 _; [|by apply safe_ret].
  destruct (_ || _ || negb (same_owner c r) || _) eqn:Hg; [by apply safe_ret|].
  rewrite !orb_false_iff, !negb_false_iff in Hg. destruct Hg as [[[_ _] Ho%same_owner_identity] _].
  eapply (safe_bind _ _ _ (λ o _, ∀ x, o = Some x → identity x = identity requested)).
  { apply safe_call; [done|]. intros w x w' Hw y ->. injection Hw as Hw _.
    apply decode_same in Hw as [Hw%same_owner_identity _]. congruence. }
  intros [ob|] tr3 Hl3 Hob; [|by apply safe_ret]. specialize (Hob _ eq_refl). destruct (_ || _); [by apply safe_ret|].
  eapply (safe_bind _ _ _ (λ _ _, True)).
  { apply safe_tx; [done|]. intros d now x d' H%upsert_local. by rewrite (identity_id _ _ Hob) in H. }
  intros x tr4 Hl4 _. destruct (_ || _ || _ || _ || _) eqn:Hx; [by apply safe_ret|].
  rewrite !orb_false_iff, !negb_false_iff in Hx. destruct Hx as [[[[_ Hs%same_owner_identity] _] _] _].
  apply safe_ret; [done|]. intros y [= <-]. congruence.
Qed.

Lemma publish_safe parked r tr :
  Forall (ev_local requested) tr → identity r = identity requested →
  wp (publish_and_reserve parked r)
    (safe requested (λ o tr, ∀ p, o = Some p → dispatchable requested (wp_route p) tr)) tr.
Proof.
  intros Hl Hr. unfold publish_and_reserve. eapply (safe_bind _ _ _ (λ _ _, True)); [by apply safe_call|].
  intros [payload|] tr1 Hl1 _; [|by apply safe_ret].
  eapply safe_bind; [by apply accept_publication_safe|]. intros [x|] tr2 Hl2 Hx; [|by apply safe_ret].
  eapply safe_bind; [apply reserve_safe; auto|]. intros after tr3 Hl3 Ha. apply safe_ret; [done|]. by intros p [= <-].
Qed.

Lemma safe_handle {A B} (m : M A) (h : outcome A → M B) P Q tr :
  wp m (safe requested P) tr →
  (∀ o tr, safe requested P o tr → wp (h o) (safe requested Q) tr) →
  wp (handle m h) (safe requested Q) tr.
Proof. intros Hm Hh. apply wp_handle. eapply wp_mono; [exact Hm|]. intros o tr' Ho. by apply Hh. Qed.

(** A placement of the requested sandbox: a route that may be dispatched, or one
    that was not parked to begin with *)
Definition answer_ok (a : place_answer) (tr : list event) : Prop :=
  match a with
  | inl p => last_seen tr (live_row requested (wp_route p)) ∧ sr_state (wp_route p) ≠ "parked" ∧
             (awake (wp_route p) ∨ wp_owner_changed p = false)
  | inr _ => True
  end.

Lemma dispatchable_answer p tr : dispatchable requested (wp_route p) tr → answer_ok (inl p) tr.
Proof.
  intros [Hs Ha]. split_and!; [done| |by left]. intros E. unfold awake in Ha. rewrite E in Ha.
  vm_compute in Ha. set_unfold in Ha. naive_solver.
Qed.

Lemma place_parked_safe parked tr :
  Forall (ev_local requested) tr → identity parked = identity requested →
  wp (place_parked parked) (safe requested answer_ok) tr.
Proof.
  intros Hl Hp. unfold place_parked. eapply (safe_handle _ _ (dispatchable requested)).
  - eapply safe_handle; [by apply reserve_safe|]. intros [a|u|r q|r|e] tr' [Hl' Ho]; simpl; try by apply wp_stop.
    eapply (safe_bind _ _ _ (λ _ _, True)); [by apply safe_call|]. intros _ tr2 Hl2 _. by apply reserve_safe.
  - intros [a|u|r q|r|e] tr' [Hl' Ho]; simpl; try by apply wp_stop.
    + apply safe_ret; [done|]. by apply dispatchable_answer.
    + eapply safe_handle; [by apply publish_safe|]. intros [[p|]|u|r' q'|r'|e] tr2 [Hl2 Ho2]; simpl.
      * apply safe_ret; [done|]. apply dispatchable_answer. auto.
      * by apply safe_ret.
      * by apply safe_stopped.
      * by apply safe_ret.
      * by apply wp_stop.
      * destruct e; first [by apply safe_ret | by apply wp_stop].
Qed.

End batch.
End placement.

(** ** A placement: the store is the world, nobody interferes, and the batch is the
    caller's own wake. *)
Definition demo_ports : @WakePlacementPorts db :=
  mkPorts (λ d, (Ok tt, d)) (λ _ d, (Ok (Some demo_owner), d)) (λ _ d, (Ok [], d)) (λ _ _ d, (Ok None, d))
    (λ r d, (Ok (Some r, EmptyString), d)) (λ m d, (Ok m, d)) (λ _ d, (Ok tt, d))
    (λ _ d, (Ok None, d)) (λ _ _ d, (Ok tt, d)).
Definition demo_codec : codec :=
  mkCodec unit (λ _, Ok tt) (λ _, Ok tt) (λ _, "s") (λ _, rq_zero) (λ _, demo_hash) (λ _ _, true) demo_parse
    (λ _, EmptyString) demo_str (λ _, None).
Definition demo_filed (d : db) : db :=
  if bool_decide (map_Forall (λ k r, sr_sandbox_id r = k) (sandboxes d)) then d else empty_db.
Abbreviation demo_place :=
  (place demo_filed (λ d _, d) (λ d, d) (λ _, 1000) (λ _, "u") (λ _, []) (λ _, []) (λ _ _, Ok (Some demo_owner))
    (λ d _, d) demo_codec demo_julianday (λ _ _ _, true) 60 false demo_ports (row_of db_parked "s")).

