(* ===== verification/CommitPolicy.v ===== *)
(** * Committing a sandbox: the residue policy and the secret scan
    (ucloud_sandboxes/commit_policy.py)

    [CommitPolicy] with its validation and [rule], and the scan for live
    credentials as a member body streams past.  Text is its UTF-8 encoding; SHA-256
    is a parameter. *)
From stdpp Require Import gmap strings pretty.
From Stdlib Require Import Ascii.
From S2P Require Import Prelude Json PyString Bytes.
Local Open Scope py_scope.
Local Open Scope Z_scope.

Definition COMMIT_MAX_BYTES : Z := 8 * 1024 ^ 3.
Definition MAX_MEMBERS : Z := 1000000.
Definition MAX_PATH_BYTES : Z := 4096.
Definition MAX_RULES : Z := 256.
Definition MAX_POLICY_BYTES : Z := 64 * 1024.
Definition MAX_SECRET_DIGESTS : Z := 4096.
Definition POLICY_SCHEMA : string := "ucloud-commit-policy-v1".
Definition ESCAPES : list string := ["dev"; "proc"; "run/ucloud"; "sys"].
Definition MOUNT_POINTS : list string := ["dev"; "proc"; "sys"].
Definition HOST_WRITTEN : list string :=
  [".ucloud-init"; ".ucloud-job-init"; ".ucloud-managed"; "etc/hostname"; "etc/hosts"; "etc/resolv.conf"].
Definition VOLATILE : list string := ["run"; "tmp"].
Definition BUILD_RESIDUE : list string := ["root/.cache/pip"; "root/.cache/uv"; "root/.npm/_cacache"].
Definition APT_ARCHIVES : string := "var/cache/apt/archives/".

Definition slen (s : string) : Z := Z.of_nat (String.length s).

(** ** Paths *)

(** [_guest_path]: a clean absolute guest path, returned relative *)
Definition unclean_part (part : string) : bool := bool_decide (part ∈ [EmptyString; "."; ".."]).
Definition guest_path (pattern : bool) (value : string) : res string :=
  raise_if (negb (String.prefix "/" value) || has_char zero value || (MAX_PATH_BYTES <? slen value))
    (ValueError "commit paths must be clean absolute guest paths")
  (let rest := sdrop 1 value in
   let body := if pattern && ends_with "*" value then stake (String.length rest - 1) rest else rest in
   raise_if ((negb (bool_decide (value = "/")) || pattern) && existsb unclean_part (split_char "/" body))
     (ValueError "commit paths must be clean absolute guest paths")
   (Ok rest)).

(** [_under] *)
Definition under (path prefix : string) : bool :=
  negb (nonempty prefix) || bool_decide (path = prefix) || String.prefix (prefix +:+ "/") path.

(** [sorted(set(raw))] *)
Definition sorted_set (l : list string) : list string := sorted_by string_leb (from_keys l).
(** [_rules]: a member that is no string is refused with its path *)
Definition guest_path_of (pattern : bool) (x : json) : res string :=
  match x with
  | JStr s => let! _ := guest_path pattern s in Ok s
  | _ => Raise (ValueError "commit paths must be clean absolute guest paths")
  end.
Definition rules (pattern : bool) (raw : list json) : res (list string) :=
  raise_if (MAX_RULES <? Z.of_nat (length raw)) (ValueError "commit path rules must be a bounded list")
  (let! l := res_map (guest_path_of pattern) raw in Ok (sorted_set l)).

(** ** The policy *)
Record CommitPolicy := mkPolicy {
  include_paths : list string;
  exclude : list string;
  cp_identity : list string;
  max_bytes : Z;
  keep_build_residue : bool
}.

(** [len(canonical(...))]: the length of the compact ASCII JSON text.  A character
    outside ASCII is escaped as one [\uXXXX] for each UTF-16 unit. *)
Definition char_len (c : ascii) : Z :=
  let n := Z.of_nat (nat_of_ascii c) in
  if bool_decide (n ∈ [8; 9; 10; 12; 13; 34; 92]) then 2
  else if n <? 32 then 6
  else if n <? 127 then 1
  else if n =? 127 then 6
  else if n <? 192 then 0
  else if n <? 240 then 6 else 12.
Fixpoint text_len (s : string) : Z :=
  match s with EmptyString => 0 | String c s => char_len c + text_len s end.
Definition quoted_len (s : string) : Z := 2 + text_len s.
Definition list_len (l : list string) : Z :=
  2 + zsum (quoted_len <$> l) + Z.max 0 (Z.of_nat (length l) - 1).
Definition int_len (z : Z) : Z := slen (pretty z).
(** The members of [to_dict] with their keys, colons and separators *)
Definition policy_len (p : CommitPolicy) : Z :=
  2 + (quoted_len "schema" + 1 + quoted_len POLICY_SCHEMA)
  + (1 + quoted_len "include_paths" + 1 + list_len (include_paths p))
  + (1 + quoted_len "exclude" + 1 + list_len (exclude p))
  + (1 + quoted_len "identity" + 1 + list_len (cp_identity p))
  + (1 + quoted_len "max_bytes" + 1 + int_len (max_bytes p))
  + (if keep_build_residue p then 1 + quoted_len "keep_build_residue" + 1 + 4 else 0).

Definition rule_field (pattern : bool) (name : string) (values : list json) : res (list string) :=
  let! r := rules pattern values in
  raise_if (negb (json_eqb (JList (JStr <$> r)) (JList values)))
    (ValueError ("commit policy " +:+ name +:+ " must be sorted unique guest paths")) (Ok r).

(** [__post_init__] *)
Definition policy_checked (include exclude_ identity : list json) (bytes : json) (keep : bool) : res CommitPolicy :=
  let! i := rule_field false "include_paths" include in
  let! e := rule_field false "exclude" exclude_ in
  let! d := rule_field true "identity" identity in
  match bytes with
  | JInt b =>
      raise_if (negb ((0 <? b) && (b <=? 2 ^ 40)))
        (ValueError "commit max_bytes must be a positive bounded integer")
      (let p := mkPolicy i e d b keep in
       raise_if (MAX_POLICY_BYTES <? policy_len p) (ValueError "commit policy rules exceed their byte bound") (Ok p))
  | _ => Raise (ValueError "commit max_bytes must be a positive bounded integer")
  end.
Definition commit_policy_init (p : CommitPolicy) : res CommitPolicy :=
  policy_checked (JStr <$> include_paths p) (JStr <$> exclude p) (JStr <$> cp_identity p) (JInt (max_bytes p))
    (keep_build_residue p).

(** [CommitPolicy.of] *)
Definition policy_of (include exclude_ identity : list json) (bytes : json) (keep : bool) : res CommitPolicy :=
  let! i := rules false include in
  let! e := rules false exclude_ in
  let! d := rules true identity in
  policy_checked (JStr <$> i) (JStr <$> e) (JStr <$> d) bytes keep.

Definition policy_to_dict (p : CommitPolicy) : dict string json :=
  [("schema", JStr POLICY_SCHEMA); ("include_paths", JList (JStr <$> include_paths p));
   ("exclude", JList (JStr <$> exclude p)); ("identity", JList (JStr <$> cp_identity p));
   ("max_bytes", JInt (max_bytes p))]
  ++ (if keep_build_residue p then [("keep_build_residue", JBool true)] else []).

Definition POLICY_FIELDS : list string := ["schema"; "include_paths"; "exclude"; "identity"; "max_bytes"].
Definition policy_from_dict (j : json) : res CommitPolicy :=
  match j with
  | JObj raw =>
      let keep := bool_decide ("keep_build_residue" ∈ dkeys raw) in
      raise_if (negb (has_exact_keys (dpop raw "keep_build_residue") POLICY_FIELDS)
                || negb (json_eqb (jget raw "schema") (JStr POLICY_SCHEMA))
                || keep && negb (json_eqb (jget raw "keep_build_residue") (JBool true)))
        (ValueError "invalid commit policy")
      match jget raw "include_paths", jget raw "exclude", jget raw "identity" with
      | JList i, JList e, JList d => policy_checked i e d (jget raw "max_bytes") keep
      | _, _, _ => Raise (ValueError "invalid commit policy")
      end
  | _ => Raise (ValueError "invalid commit policy")
  end.

(** A stored policy reads back as itself, under the checks of its constructor. *)
Lemma policy_reads_back p : policy_from_dict (JObj (policy_to_dict p)) = commit_policy_init p.
Proof. by destruct p as [i e d b []]. Qed.

(** [rule]: the rule that drops a path, [None] to keep it *)
Inductive kind := KDir | KOpaque | KWhiteout | KSymlink | KLink | KFile | KFifo.
#[export] Instance kind_eq_dec : EqDecision kind.
Proof. solve_decision. Defined.
Inductive drop_rule := Host_written | Identity | Volatile | Build_residue | Caller.
#[export] Instance drop_rule_eq_dec : EqDecision drop_rule.
Proof. solve_decision. Defined.

Definition identity_match (path rule : string) : bool :=
  if ends_with "*" rule then String.prefix (stake (String.length rule - 2) (sdrop 1 rule)) path
  else under path (sdrop 1 rule).
Definition is_build_residue (path : string) : bool :=
  existsb (under path) BUILD_RESIDUE
  || String.prefix APT_ARCHIVES path && ends_with ".deb" path
     && negb (has_char "/" (sdrop (String.length APT_ARCHIVES) path)).

Definition rule (p : CommitPolicy) (path : string) (k : kind) : res (option drop_rule) :=
  if existsb (under path) ESCAPES then
    if bool_decide (k ∈ [KDir; KOpaque]) && bool_decide (path ∈ MOUNT_POINTS) then Ok (Some Volatile)
    else Raise (CommitRefused "commit_residue_forbidden" "path lies at or below a sandbox mount")
  else if existsb (under path) HOST_WRITTEN then Ok (Some Host_written)
  else if existsb (identity_match path) (cp_identity p) then Ok (Some Identity)
  else if existsb (under path) VOLATILE then Ok (Some Volatile)
  else if negb (keep_build_residue p) && is_build_residue path then Ok (Some Build_residue)
  else if existsb (λ r, under path (sdrop 1 r)) (exclude p) then Ok (Some Caller)
  else if negb (bool_decide (include_paths p = [])) && negb (existsb (λ r, under path (sdrop 1 r)) (include_paths p)) then
    if bool_decide (k = KDir) && existsb (λ r, under (sdrop 1 r) path) (include_paths p) then Ok None
    else Ok (Some Caller)
  else Ok None.

(** ** The scan for live credentials *)
Definition TOKEN_CLASSES : list (string * nat) := [("relay-registration", 32%nat)].
Definition token_lengths : list nat := TOKEN_CLASSES.*2.
(** [lengths[0] + 1] *)
Definition carry : nat := S (foldr Nat.max 0%nat token_lengths).
Definition is_hex (c : ascii) : bool := bool_decide (c ∈ hex_digits).

(** The maximal lowercase-hex runs, [run] being the one that is open: what the
    pattern's lookarounds leave for a match of a class length *)
Fixpoint hex_runs (run : list ascii) (data : list ascii) : list (list ascii) :=
  match data with
  | [] => [run]
  | c :: data => if is_hex c then hex_runs (run ++ [c]) data else run :: hex_runs [] data
  end.

Section scan.
Context (sha256_hex : list ascii → string) (digests : list string).

Definition live_token (run : list ascii) : bool :=
  bool_decide (length run ∈ token_lengths) && bool_decide (sha256_hex run ∈ digests).
Definition leaks (data : list ascii) : bool := existsb live_token (hex_runs [] data).
(** [_Tokens.check] *)
Definition check (data : list ascii) : res unit :=
  raise_if (leaks data) (CommitRefused "commit_secret_residue" "a live credential is in the committed upper") (Ok tt).

(** [data.rstrip(_HEX)] *)
Fixpoint rstrip_hex (data : list ascii) : list ascii :=
  match data with
  | [] => []
  | c :: data => match rstrip_hex data with [] => if is_hex c then [] else [c] | r => c :: r end
  end.
(** [l[-n:]] *)
Definition last_n (n : nat) (l : list ascii) : list ascii := drop (length l - n) l.

(** [_ScannedBody.read] of a chunk, with the tail before and after it *)
Definition scan_read (tail chunk : list ascii) : res (list ascii) :=
  let data := tail ++ chunk in
  let cut := length (rstrip_hex data) in
  let! _ := check (take cut data) in
  Ok (last_n carry (drop cut data)).
(** The copy of a body: the reads, then [finish] *)
Definition scan_body (chunks : list (list ascii)) : res unit :=
  let! tail := res_foldl scan_read [] chunks in check tail.

(** *** The chunked scan is the scan of the whole body *)
Lemma hex_runs_break run l c r :
  is_hex c = false → hex_runs run (l ++ c :: r) = hex_runs run l ++ hex_runs [] r.
Proof.
  intros Hc. revert run. induction l as [|a l IH]; intros run; simpl; [by rewrite Hc|].
  destruct (is_hex a); [apply IH|]. simpl. by rewrite IH.
Qed.
Lemma hex_runs_hex run l : forallb is_hex l = true → hex_runs run l = [run ++ l].
Proof.
  revert run. induction l as [|a l IH]; intros run; simpl; [by rewrite app_nil_r|].
  intros [-> H]%andb_true_iff. rewrite IH by done. by rewrite <-app_assoc.
Qed.
Lemma live_nil : live_token [] = false.
Proof. done. Qed.

(** A body up to its last break, and the run that is open at its end *)
Lemma rstrip_split data :
  take (length (rstrip_hex data)) data = rstrip_hex data ∧
  forallb is_hex (drop (length (rstrip_hex data)) data) = true ∧
  (rstrip_hex data = [] ∨ ∃ l c, rstrip_hex data = l ++ [c] ∧ is_hex c = false).
Proof.
  induction data as [|a data (IH1 & IH2 & IH3)]; simpl; [split_and!; [done|done|by left]|].
  destruct (rstrip_hex data) as [|b r] eqn:E.
  - simpl in IH2. rewrite drop_0 in IH2. destruct (is_hex a) eqn:Ea; simpl.
    + rewrite Ea. split_and!; [done|by rewrite IH2|by left].
    + rewrite take_0, drop_0. split_and!; [done|done|right]. by exists [], a.
  - simpl in *. split_and!; [by f_equal|done|right].
    destruct IH3 as [? | (l & c & -> & Hc)]; [done|]. by exists (a :: l), c.
Qed.
Lemma leaks_split data :
  leaks data = leaks (take (length (rstrip_hex data)) data) || live_token (drop (length (rstrip_hex data)) data).
Proof.
  destruct (rstrip_split data) as (H1 & H2 & H3). rewrite H1.
  rewrite <-(take_drop (length (rstrip_hex data)) data) at 1. rewrite H1. unfold leaks.
  set (r := drop _ data) in *. destruct H3 as [-> | (l & c & -> & Hc)].
  - simpl. rewrite hex_runs_hex by done. simpl. by rewrite orb_false_r.
  - rewrite <-app_assoc. simpl. rewrite !hex_runs_break by done. rewrite (hex_runs_hex [] r) by done.
    rewrite !existsb_app. simpl. by rewrite !orb_false_r.
Qed.

(** The tail stands for the run that is open: itself, or the end of a run too long
    to be a token. *)
Definition stands (tail run : list ascii) : Prop :=
  forallb is_hex run = true ∧ (tail = run ∧ (length run ≤ carry)%nat ∨ length tail = carry ∧ (carry < length run)%nat ∧ ∃ l, run = l ++ tail).

Lemma too_long run : (carry ≤ length run)%nat → live_token run = false.
Proof.
  intros H. unfold live_token. rewrite (bool_decide_eq_false_2 (length run ∈ token_lengths)); [done|].
  unfold carry, token_lengths in *. simpl in *. rewrite list_elem_of_singleton. lia.
Qed.
Lemma stands_last run : forallb is_hex run = true → stands (last_n carry run) run.
Proof.
  intros H. split; [done|]. unfold last_n. destruct (decide (length run ≤ carry)%nat) as [Hle | Hgt].
  - left. by replace (length run - carry)%nat with 0%nat by lia.
  - right. rewrite length_drop. split_and!; [lia..|]. exists (take (length run - carry) run). by rewrite take_drop.
Qed.
Lemma stands_live tail run : stands tail run → live_token tail = live_token run.
Proof. intros [_ [[-> _] | (H1 & H2 & _)]]; [done|]. rewrite !too_long; [done|lia|lia]. Qed.
Lemma forallb_app_r (l r : list ascii) : forallb is_hex (l ++ r) = true → forallb is_hex r = true.
Proof. rewrite forallb_app, andb_true_iff. tauto. Qed.

(** Reading a chunk after the tail finds what reading it after the whole run does,
    and leaves a tail that stands for the run that is then open. *)
Lemma rstrip_app_break l c r :
  is_hex c = false → rstrip_hex (l ++ c :: r) = l ++ c :: rstrip_hex r.
Proof.
  intros Hc. induction l as [|a l IH]; simpl; [rewrite Hc; by destruct (rstrip_hex r)|]. rewrite IH. by destruct l.
Qed.
Lemma rstrip_all_hex l : forallb is_hex l = true → rstrip_hex l = [].
Proof. induction l as [|a l IH]; simpl; [done|]. intros [-> H]%andb_true_iff. by rewrite IH. Qed.

(** The first break of a chunk, if any *)
Lemma first_break l : forallb is_hex l = true ∨ ∃ l1 c l2, l = l1 ++ c :: l2 ∧ forallb is_hex l1 = true ∧ is_hex c = false.
Proof.
  induction l as [|a l IH]; [by left|]. destruct (is_hex a) eqn:Ea; [|right; by exists [], a, l].
  destruct IH as [IH | (l1 & c & l2 & -> & H1 & Hc)]; [left; simpl; by rewrite Ea|].
  right. exists (a :: l1), c, l2. simpl. by rewrite Ea.
Qed.

Lemma scan_read_stands tail run chunk :
  stands tail run →
  leaks (take (length (rstrip_hex (tail ++ chunk))) (tail ++ chunk)) =
    leaks (take (length (rstrip_hex (run ++ chunk))) (run ++ chunk)) ∧
  stands (last_n carry (drop (length (rstrip_hex (tail ++ chunk))) (tail ++ chunk)))
    (drop (length (rstrip_hex (run ++ chunk))) (run ++ chunk)).
Proof.
  intros Hs. assert (forallb is_hex tail = true) as Ht.
  { destruct Hs as [Hr [[-> _] | (_ & _ & l & ->)]]; [done|by eapply forallb_app_r]. }
  destruct (first_break chunk) as [Hc | (l1 & c & l2 & -> & H1 & Hc)].
  - destruct Hs as [Hr Hs]. rewrite !rstrip_all_hex by (rewrite forallb_app; by rewrite ?Ht, ?Hr, Hc).
    split; [done|]. simpl. rewrite !drop_0. destruct Hs as [[-> _] | (Hl & Hg & l & ->)].
    + apply stands_last. rewrite forallb_app. by rewrite Hr, Hc.
    + split; [by rewrite forallb_app, Hr, Hc|]. right. unfold last_n. rewrite length_drop, !length_app in *.
      split_and!; [lia|lia|]. exists (l ++ take (length tail + length chunk - carry) (tail ++ chunk)).
      by rewrite <-!app_assoc, take_drop.
  - rewrite !app_assoc, !rstrip_app_break by done. rewrite !length_app. simpl.
    assert (∀ x, take (length x + S (length (rstrip_hex l2))) (x ++ c :: l2) = x ++ c :: take (length (rstrip_hex l2)) l2 ∧
      drop (length x + S (length (rstrip_hex l2))) (x ++ c :: l2) = drop (length (rstrip_hex l2)) l2) as Hx.
    { intros x. rewrite take_app_add, drop_app_add. done. }
    rewrite <-!length_app. destruct (Hx (tail ++ l1)) as [-> ->], (Hx (run ++ l1)) as [-> ->].
    split; [|apply stands_last, rstrip_split].
    unfold leaks. rewrite !hex_runs_break, !existsb_app by done. f_equal.
    destruct Hs as [Hr Hs]. rewrite !hex_runs_hex by (rewrite forallb_app; by rewrite ?Ht, ?Hr, H1). simpl. f_equal.
    destruct Hs as [[-> _] | (Hl & Hg & _)]; [done|]. rewrite !too_long by (rewrite length_app; lia). done.
Qed.

Lemma scan_reads_spec chunks tail run :
  stands tail run →
  match res_foldl scan_read tail chunks with
  | Ok tail' => leaks (run ++ concat chunks) = live_token tail' ∧ forallb is_hex tail' = true
  | Raise e => leaks (run ++ concat chunks) = true ∧
               e = CommitRefused "commit_secret_residue" "a live credential is in the committed upper"
  end.
Proof.
  revert tail run. induction chunks as [|chunk chunks IH]; intros tail run Hs; simpl.
  { rewrite app_nil_r. rewrite (stands_live _ _ Hs). destruct Hs as [Hr Hs]. unfold leaks. rewrite hex_runs_hex by done.
    simpl. split; [by rewrite orb_false_r|]. destruct Hs as [[-> _] | (_ & _ & l & ->)]; [done|by eapply forallb_app_r]. }
  destruct (scan_read_stands tail run chunk Hs) as [Hl Ht]. rewrite app_assoc.
  set (data := run ++ chunk) in *. destruct (rstrip_split data) as (H1 & H2 & H3).
  assert (leaks (data ++ concat chunks) = leaks (take (length (rstrip_hex data)) data)
          || leaks (drop (length (rstrip_hex data)) data ++ concat chunks)) as Hsplit.
  { rewrite <-(take_drop (length (rstrip_hex data)) data) at 1. rewrite <-app_assoc, H1. unfold leaks.
    destruct H3 as [-> | (l & c & -> & Hc)]; [done|]. rewrite <-app_assoc. simpl.
    rewrite !hex_runs_break by done. rewrite !existsb_app. simpl. by rewrite !orb_false_r. }
  rewrite Hsplit. destruct (scan_read tail chunk) as [t|e] eqn:E; unfold scan_read, check in E; rewrite Hl in E.
  - destruct (leaks (take _ data)); [done|]. injection E as <-. by apply IH.
  - destruct (leaks (take _ data)); [|done]. simpl in E. by injection E as <-.
Qed.

Lemma scan_body_check chunks : scan_body chunks = check (concat chunks).
Proof.
  pose proof (scan_reads_spec chunks [] [] (stands_last [] eq_refl)) as H. unfold scan_body. simpl in H.
  destruct (res_foldl scan_read [] chunks) as [tail|e]; simpl.
  - destruct H as [H Hx]. unfold check. rewrite H. unfold leaks. rewrite hex_runs_hex by done. simpl. by rewrite orb_false_r.
  - destruct H as [H ->]. unfold check. by rewrite H.
Qed.

(** C32. Scanning a body for live credentials does not depend on how it is read:
    however the body is cut into chunks, the streaming scan refuses it exactly when
    some maximal lowercase-hex run of the whole body has the length of a credential
    class and the digest of a live credential; it never fails in another way. *)
Theorem scan_any_chunks chunks :
  scan_body chunks = check (concat chunks).
Proof. apply scan_body_check. Qed.

(** Texts joined by a byte that is no hex digit leak what one of them leaks. *)
Lemma leaks_app l c r : is_hex c = false → leaks (l ++ c :: r) = leaks l || leaks r.
Proof. intros Hc. unfold leaks. by rewrite hex_runs_break, existsb_app by done. Qed.
Lemma check_Ok data : check data = Ok tt ↔ leaks data = false.
Proof. unfold check. destruct (leaks data); done. Qed.
End scan.
