(* ===== verification/CommitFilter.v ===== *)
(** * Committing a sandbox: the filtered layer (ucloud_sandboxes/commit_policy.py)

    [filter_upper]: the members of the exported upper are classified against the
    policy and written as an OCI layer in path order.  An archive is its list of
    members, as [tarfile] yields them; what [tarfile] writes for an entry is a
    parameter, and so are SHA-256 and the deadline callback's absence of failure.
    Error details are shortened to their fixed part. *)
From stdpp Require Import gmap strings sorting.
From Stdlib Require Import Ascii QArith.
From S2P Require Import Prelude Json PyString Bytes CommitPolicy.
Local Close Scope Q_scope.
Local Open Scope py_scope.
Local Open Scope Z_scope.

Definition WHITEOUT : string := ".wh.".
Definition OPAQUE : string := ".wh..wh..opq".
Definition OPAQUE_XATTR : string := "trusted.overlay.opaque".
Definition forbidden {A} (detail : string) : res A := Raise (CommitRefused "commit_residue_forbidden" detail).
Definition too_large {A} (detail : string) : res A := Raise (CommitRefused "commit_too_large" detail).

(** [tarfile.TarInfo] of a member, with its body *)
Inductive tar_type := TReg | TLnk | TSym | TChr | TBlk | TDir | TFifo | TOther.
#[export] Instance tar_type_eq_dec : EqDecision tar_type.
Proof. solve_decision. Defined.
Record member := mkMember {
  m_name : string;
  m_type : tar_type;
  m_linkname : string;
  m_body : list ascii;
  m_mode : Z; m_uid : Z; m_gid : Z;
  m_mtime : Q;
  m_devmajor : Z; m_devminor : Z;
  m_pax : dict string string
}.
Definition m_size (m : member) : Z := Z.of_nat (length (m_body m)).

(** ** Member paths *)

(** The strict UTF-8 decoder accepts the bytes. *)
Definition byte_in (lo hi : Z) (c : ascii) : bool :=
  let n := Z.of_nat (nat_of_ascii c) in (lo <=? n) && (n <=? hi).
Fixpoint utf8_valid (s : string) : bool :=
  match s with
  | EmptyString => true
  | String a r =>
      if byte_in 0 127 a then utf8_valid r
      else match r with
           | EmptyString => false
           | String b r =>
               if byte_in 194 223 a then byte_in 128 191 b && utf8_valid r
               else match r with
                    | EmptyString => false
                    | String c r =>
                        let second := if byte_in 224 224 a then byte_in 160 191 b
                                      else if byte_in 237 237 a then byte_in 128 159 b else byte_in 128 191 b in
                        if byte_in 224 239 a then second && byte_in 128 191 c && utf8_valid r
                        else match r with
                             | EmptyString => false
                             | String d r =>
                                 let second := if byte_in 240 240 a then byte_in 144 191 b
                                               else if byte_in 244 244 a then byte_in 128 143 b else byte_in 128 191 b in
                                 byte_in 240 244 a && second && byte_in 128 191 c && byte_in 128 191 d && utf8_valid r
                             end
                    end
           end
  end.

(** [while name.startswith("./"): name = name[2:]] *)
Fixpoint strip_dot_slash (s : string) : string :=
  match s with
  | String a (String b r) => if bool_decide (a = "."%char) && bool_decide (b = "/"%char) then strip_dot_slash r else s
  | _ => s
  end.

Definition member_path (name : string) : res string :=
  if has_char zero name then forbidden "NUL in a member path"
  else if negb (utf8_valid name) then forbidden "member path is not UTF-8"
  else if (MAX_PATH_BYTES <? slen name) || String.prefix "/" name then forbidden "member path is absolute or too long"
  else
    let name := rstrip_slash (strip_dot_slash name) in
    if bool_decide (name ∈ [EmptyString; "."]) then Ok EmptyString
    else if existsb unclean_part (split_char "/" name) then forbidden "member path is not clean"
    else Ok name.

(** [parent, _, base = path.rpartition("/")] *)
Definition parent_base (path : string) : string * string :=
  default (EmptyString, path) (rpartition "/"%char path).

(** ** [_parse] *)
Definition XATTR : string := "SCHILY.xattr.".
Definition parse_header (m : member) (acc : bool * dict string string) (kv : string * string) :
    res (bool * dict string string) :=
  let '(opaque, xattrs) := acc in
  let '(key, value) := kv in
  if String.prefix "LIBARCHIVE.xattr." key then forbidden "unsupported xattr encoding"
  else if negb (String.prefix XATTR key) then Ok acc
  else
    let name := sdrop (String.length XATTR) key in
    if bool_decide (name = OPAQUE_XATTR) && bool_decide (m_type m = TDir) && bool_decide (value = "y")
    then Ok (true, xattrs)
    else if String.prefix "trusted." name then forbidden "a member carries a trusted xattr"
    else if bool_decide (name = "security.capability") || String.prefix "user." name
    then Ok (opaque, dset xattrs key value)
    else Ok acc.

Record parsed := mkParsed { pa_path : string; pa_kind : kind; pa_opaque : bool; pa_xattrs : dict string string }.

Definition parse (m : member) : res parsed :=
  let! path := member_path (m_name m) in
  let '(parent, base) := parent_base path in
  let! '(opaque, xattrs) := res_foldl (parse_header m) (false, []) (m_pax m) in
  if bool_decide (m_type m = TChr) && (m_devmajor m =? 0) && (m_devminor m =? 0) && nonempty path
  then Ok (mkParsed path KWhiteout false [])
  else if bool_decide (m_type m ∈ [TChr; TBlk]) then forbidden "a member is a device node"
  else if bool_decide (base = OPAQUE) || String.prefix WHITEOUT base then
    let target := sdrop (String.length WHITEOUT) base in
    if negb (bool_decide (m_type m = TReg)) || negb (nonempty path)
       || negb (bool_decide (base = OPAQUE)) && (negb (nonempty target) || String.prefix WHITEOUT target)
    then forbidden "a member is a malformed whiteout"
    else if bool_decide (base = OPAQUE) then Ok (mkParsed parent KOpaque false [])
    else Ok (mkParsed ((if nonempty parent then parent +:+ "/" else EmptyString) +:+ target) KWhiteout false [])
  else
    match m_type m with
    | TDir => Ok (mkParsed path KDir opaque xattrs)
    | t =>
        if negb (nonempty path) then forbidden "the upper root is not a directory"
        else match t with
             | TSym => if negb (has_char zero (m_linkname m)) && (slen (m_linkname m) <? MAX_PATH_BYTES)
                       then Ok (mkParsed path KSymlink false xattrs)
                       else forbidden "a member has an unsupported type"
             | TLnk => Ok (mkParsed path KLink false [])
             | TReg => Ok (mkParsed path KFile false xattrs)
             | TFifo => Ok (mkParsed path KFifo false xattrs)
             | _ => forbidden "a member has an unsupported type"
             end
    end.

(** ** Output names and order *)
Definition output_name (path : string) (k : kind) : string :=
  let '(parent, base) := parent_base path in
  match k with
  | KOpaque => (if nonempty path then path +:+ "/" else EmptyString) +:+ OPAQUE
  | KWhiteout => (if nonempty parent then parent +:+ "/" else EmptyString) +:+ WHITEOUT +:+ base
  | _ => if nonempty path then path else "."
  end.

Definition output_order (name : string) : list string :=
  if bool_decide (name = ".") then [] else split_char "/" name.
(** The order of tuples of strings *)
Fixpoint tuple_leb (a b : list string) : bool :=
  match a, b with
  | [], _ => true
  | _ :: _, [] => false
  | x :: a, y :: b => if bool_decide (x = y) then tuple_leb a b else string_leb x y
  end.
Definition name_leb (x y : string) : bool := tuple_leb (output_order x) (output_order y).

(** ** [_classify] *)
Definition entry : Type := member * kind * dict string string.
Record class_state := mkClass {
  cl_entries : dict string entry;
  cl_drops : dict drop_rule Z;
  cl_links : dict string (list string);
  cl_seen : dict string bool;
  cl_ancestors : list string;
  cl_whiteouts : list string
}.

(** [[below[:index] for index in range(len(below)) if below[index] == "/"]] *)
Fixpoint parents_from (before below : string) : list string :=
  match below with
  | EmptyString => []
  | String c r =>
      let before' := before +:+ String c EmptyString in
      if bool_decide (c = "/"%char) then before :: parents_from before' r else parents_from before' r
  end.
Definition parents (below : string) : list string := parents_from EmptyString below.

Section filter.
Context (policy : CommitPolicy).

(** One logical entry of a member *)
Definition classify_item (m : member) (xattrs : dict string string) (st : class_state) (item : string * kind) :
    res class_state :=
  let '(logical, k) := item in
  let name := output_name logical k in
  if bool_decide (k = KOpaque) && bool_decide (is_Some (dget (cl_entries st) name)) then Ok st
  else
    let! r := rule policy logical k in
    match r with
    | Some r => Ok (mkClass (cl_entries st) (dset (cl_drops st) r (default 0 (dget (cl_drops st) r) + 1)) (cl_links st)
                      (cl_seen st) (cl_ancestors st) (cl_whiteouts st))
    | None =>
        let! links :=
          (if bool_decide (k = KLink) then
             let! target := member_path (m_linkname m) in
             Ok (dset (cl_links st) target (default [] (dget (cl_links st) target) ++ [logical]))
           else Ok (cl_links st)) in
        Ok (mkClass (dset (cl_entries st) name (m, k, xattrs)) (cl_drops st) links
              (cl_seen st) (cl_ancestors st) (cl_whiteouts st))
    end.

(** A hard link to a whiteout device is a whiteout too. *)
Definition settle_kind (st : class_state) (m : member) (k : kind) : res kind :=
  if bool_decide (k = KLink) then
    let! target := member_path (m_linkname m) in
    Ok (if bool_decide (target ∈ cl_whiteouts st) then KWhiteout else KLink)
  else Ok k.

Definition conflicts (st : class_state) (path : string) (k : kind) : bool :=
  let below := if bool_decide (k = KOpaque) then output_name path k else path in
  existsb (λ p, bool_decide (dget (cl_seen st) p = Some false)) (parents below)
  || negb (bool_decide (k = KOpaque))
     && (bool_decide (is_Some (dget (cl_seen st) path)) || negb (bool_decide (k = KDir)) && bool_decide (path ∈ cl_ancestors st)).

(** What a member records about paths *)
Definition record_paths (st : class_state) (m : member) (path : string) (k : kind) : class_state :=
  let below := if bool_decide (k = KOpaque) then output_name path k else path in
  mkClass (cl_entries st) (cl_drops st) (cl_links st)
    (if bool_decide (k = KOpaque) then cl_seen st else dset (cl_seen st) path (bool_decide (k = KDir)))
    (cl_ancestors st ++ parents below)
    (if bool_decide (k = KWhiteout) && bool_decide (m_type m = TChr) then path :: cl_whiteouts st else cl_whiteouts st).

Definition classify_member (st : class_state) (m : member) : res class_state :=
  let! p := parse m in
  let! k := settle_kind st m (pa_kind p) in
  if conflicts st (pa_path p) k then forbidden "a member is duplicated or below a non-directory"
  else
    res_foldl (classify_item m (pa_xattrs p)) (record_paths st m (pa_path p) k)
      ((pa_path p, k) :: (if pa_opaque p then [(pa_path p, KOpaque)] else [])).

Definition empty_class : class_state := mkClass [] [] [] [] [] [].
Definition classify (archive : list member) : res class_state :=
  if MAX_MEMBERS <? Z.of_nat (length archive) then
    let! _ := res_foldl classify_member empty_class (take (Z.to_nat MAX_MEMBERS) archive) in
    too_large "the upper has too many members"
  else res_foldl classify_member empty_class archive.

(** ** [filter_upper] *)

(** The entries that share an inode with a regular file: each of them with the file
    and the first of them in output order *)
Definition link_group (entries : dict string entry) (data_of : dict string (string * string))
    (tn : string * list string) : res (dict string (string * string)) :=
  let '(target, names) := tn in
  match dget entries target with
  | Some (_, KFile, _) =>
      let names := sorted_by name_leb (target :: names) in
      Ok (foldl (λ d n, dset d n (target, default target (head names))) data_of names)
  | _ => forbidden "a member links to a dropped or absent target"
  end.

(** What [_write] hands to [tarfile] *)
Record tar_info := mkInfo {
  o_name : string; o_type : tar_type;
  o_mode : Z; o_uid : Z; o_gid : Z; o_mtime : Z;
  o_pax : dict string string; o_linkname : string; o_body : list ascii
}.
Definition out_type (k : kind) : tar_type :=
  match k with KDir => TDir | KSymlink => TSym | KFifo => TFifo | _ => TReg end.
(** [int(member.mtime)] *)
Definition whole_seconds (q : Q) : Z := Z.quot (Qnum q) (Z.pos (Qden q)).
Definition pair_leb (x y : string * string) : bool :=
  if bool_decide (x.1 = y.1) then string_leb x.2 y.2 else string_leb x.1 y.1.

(** The entry of one name; [first] is the name that carries the data. *)
Definition render (name : string) (first : string) (e : entry) : tar_info :=
  let '(m, k, xattrs) := e in
  if bool_decide (k ∈ [KWhiteout; KOpaque]) then mkInfo name TReg 420 0 0 0 [] EmptyString []
  else
    let info t link body :=
      mkInfo name t (Z.land (m_mode m) 4095) (m_uid m) (m_gid m) (whole_seconds (m_mtime m))
        (sorted_by pair_leb xattrs) link body in
    match k with
    | KSymlink => info TSym (m_linkname m) []
    | KFile => if bool_decide (first = name) then info TReg EmptyString (m_body m) else info TLnk first []
    | k => info (out_type k) EmptyString []
    end.
(** [entries[name]], a link taking its regular member's metadata; [KeyError] if absent *)
Definition resolve (entries : dict string entry) (data_of : dict string (string * string)) (name : string) :
    res tar_info :=
  match dget entries name with
  | None => Raise (KeyError name)
  | Some e =>
      let '(target, first) := default (name, name) (dget data_of name) in
      if bool_decide (e.1.2 = KLink) then
        match dget entries target with Some e => Ok (render name first e) | None => Raise (KeyError target) end
      else Ok (render name first e)
  end.

Section output.
Context (sha256_hex : list ascii → string).
(** What [tarfile] writes for an entry, and at the end *)
Context (entry_bytes : tar_info → list ascii) (end_bytes : list ascii → list ascii).
Context (secret_digests : list string).

(** The text of an entry that is scanned: name, link name and extended attributes *)
Definition entry_text (name : string) (e : entry) : list ascii :=
  let '(m, _, xattrs) := e in
  String.list_ascii_of_string (String.concat (String zero EmptyString)
    (name :: m_linkname m :: dkeys xattrs ++ dvals xattrs)).

(** The reads of [tarfile]'s copy loop *)
Fixpoint blocks (fuel : nat) (n : Z) (body : list ascii) : list (list ascii) :=
  match fuel with
  | O => [body]
  | S fuel => if Z.of_nat (length body) <=? n then [body]
              else take (Z.to_nat n) body :: blocks fuel n (drop (Z.to_nat n) body)
  end.
Definition COPY_BUFSIZE : Z := 2 ^ 20.

Definition write_entry (entries : dict string entry) (data_of : dict string (string * string))
    (acc : list tar_info * list ascii) (name : string) : res (list tar_info * list ascii) :=
  let '(infos, written) := acc in
  let! info := resolve entries data_of name in
  let! _ := (if bool_decide (secret_digests = []) then Ok tt
             else scan_body sha256_hex secret_digests (blocks (length (o_body info)) COPY_BUFSIZE (o_body info))) in
  let written := written ++ entry_bytes info in
  if max_bytes policy <? Z.of_nat (length written) then too_large "the filtered upper exceeds max_bytes"
  else Ok (infos ++ [info], written).

Definition rule_name (r : drop_rule) : string :=
  match r with
  | Host_written => "host_written" | Identity => "identity" | Volatile => "volatile"
  | Build_residue => "build_residue" | Caller => "caller"
  end.

Record FilterResult := mkFilterResult { fr_diff_id : string; fr_size : Z; fr_members : Z; fr_drops : dict drop_rule Z }.

Definition check_texts (entries : dict string entry) : res unit :=
  if bool_decide (secret_digests = []) then Ok tt
  else res_foldl (λ _ ne, check sha256_hex secret_digests (entry_text ne.1 ne.2)) tt entries.

(** The layer with its result *)
Definition filter_upper (archive : list member) : res (list tar_info * FilterResult) :=
  let! st := classify archive in
  let entries := cl_entries st in
  let! _ := check_texts entries in
  let! data_of := res_foldl (link_group entries) [] (cl_links st) in
  if max_bytes policy <? zsum ((λ e, if bool_decide (e.1.2 = KFile) then m_size e.1.1 else 0) <$> dvals entries)
  then too_large "the filtered upper exceeds max_bytes"
  else
    let! '(infos, written) := res_foldl (write_entry entries data_of) ([], []) (sorted_by name_leb (dkeys entries)) in
    let layer := written ++ end_bytes written in
    Ok (infos, mkFilterResult ("sha256:" +:+ sha256_hex layer) (Z.of_nat (length layer))
                 (Z.of_nat (length entries))
                 (sorted_by (λ x y, string_leb (rule_name x.1) (rule_name y.1)) (cl_drops st))).
End output.
End filter.

(** ** What names and paths are *)
Definition hidden (k : kind) : bool := bool_decide (k ∈ [KWhiteout; KOpaque]).
Definition base_of (name : string) : string := (parent_base name).2.

Lemma slash_app a b : (a +:+ "/") +:+ b = a +:+ String "/"%char b.
Proof. induction a as [|c a IH]; [done|]. exact (f_equal (String c) IH). Qed.
Lemma base_of_under a b : rpartition "/"%char b = None → base_of ((a +:+ "/") +:+ b) = b.
Proof. intros Hb. unfold base_of, parent_base. by rewrite slash_app, rpartition_at. Qed.
Lemma base_of_top b : rpartition "/"%char b = None → base_of b = b.
Proof. intros Hb. unfold base_of, parent_base. by rewrite Hb. Qed.
Lemma parent_base_no_slash path : rpartition "/"%char (parent_base path).2 = None.
Proof.
  unfold parent_base. destruct (rpartition "/"%char path) as [[a b]|] eqn:E; [|done].
  by apply rpartition_Some in E as [_ ?].
Qed.
Lemma whiteout_no_slash b : rpartition "/"%char b = None → rpartition "/"%char (WHITEOUT +:+ b) = None.
Proof. intros Hb. by apply rpartition_app_None. Qed.

(** The name of a whiteout or an opaque marker starts with [.wh.]; that of any other
    member does not. *)
Lemma hidden_name path k : hidden k = true → String.prefix WHITEOUT (base_of (output_name path k)) = true.
Proof.
  intros [Hk | [Hk | []%elem_of_nil]%elem_of_cons]%bool_decide_eq_true%elem_of_cons; subst k; unfold output_name.
  - pose proof (parent_base_no_slash path) as Hb. destruct (parent_base path) as [a b]. simpl in *.
    destruct (nonempty a); [rewrite base_of_under by by apply whiteout_no_slash|].
    all: try (change (EmptyString +:+ ?x) with x); rewrite ?base_of_top by (by apply whiteout_no_slash); by destruct b.
  - destruct (parent_base path). destruct (nonempty path); [by rewrite base_of_under|done].
Qed.
Lemma member_path_not_dot name path : member_path name = Ok path → path ≠ ".".
Proof.
  unfold member_path. repeat (destruct (_ : bool); [done|]). case_bool_decide as H; [by intros [= <-]|].
  destruct (existsb _ _); [done|]. intros [= <-]. set_solver.
Qed.

Definition parse_ok (p : parsed) : Prop :=
  (hidden (pa_kind p) = false →
     pa_path p ≠ "." ∧ String.prefix WHITEOUT (base_of (pa_path p)) = false ∧
     (pa_path p = EmptyString → pa_kind p = KDir)) ∧
  (pa_opaque p = true → pa_kind p = KDir).

Lemma parse_spec m p : parse m = Ok p → parse_ok p ∧ (pa_kind p = KLink ↔ m_type m = TLnk).
Proof.
  unfold parse. intros (path & Hp%member_path_not_dot & H)%res_bind_Ok.
  destruct (parent_base path) as [parent base] eqn:Eb. apply res_bind_Ok in H as ([op xs] & _ & H).
  assert (base_of path = base) as Hbase by (unfold base_of; by rewrite Eb).
  destruct (bool_decide (m_type m = TChr)) eqn:Et.
  { apply bool_decide_eq_true in Et. rewrite Et in *. simpl in H.
    destruct ((m_devmajor m =? 0) && _ && _); [injection H as <-; by split_and!|done]. }
  simpl in H. destruct (bool_decide (m_type m ∈ _)); [done|].
  destruct (bool_decide (base = OPAQUE) || String.prefix WHITEOUT base) eqn:Ew.
  - destruct (bool_decide (m_type m = TReg)) eqn:Er; [|done]. apply bool_decide_eq_true in Er. rewrite Er.
    simpl in H. destruct (negb _ || _); [done|]. destruct (bool_decide (base = OPAQUE)); injection H as <-; by split_and!.
  - apply orb_false_iff in Ew as [_ Ew]. rewrite <-Hbase in Ew. clear Et.
    assert (nonempty path = true → path ≠ EmptyString) as Hne by (intros E ->; done).
    destruct (m_type m) eqn:Em; simpl in H; try done.
    all: try (injection H as <-; by split_and!).
    all: destruct (nonempty path) eqn:En; [|done]; simpl in H; try done.
    all: try (injection H as <-; split; [split; [intros _; split_and!; auto; by intros ?%Hne|done]|done]).
    destruct (_ && _); [|done]. injection H as <-. split; [split; [intros _; split_and!; auto; by intros ?%Hne|done]|done].
Qed.

(** Two entries of the same name look the same in the layer: they are hidden, or
    come from the same path. *)
Lemma output_name_inj p1 k1 p2 k2 :
  output_name p1 k1 = output_name p2 k2 →
  (hidden k1 = false → p1 ≠ "." ∧ String.prefix WHITEOUT (base_of p1) = false) →
  (hidden k2 = false → p2 ≠ "." ∧ String.prefix WHITEOUT (base_of p2) = false) →
  (hidden k1 = true ∧ hidden k2 = true) ∨ (hidden k1 = false ∧ hidden k2 = false ∧ p1 = p2).
Proof.
  intros E H1 H2.
  assert (∀ p k, hidden k = false → p ≠ "." ∧ String.prefix WHITEOUT (base_of p) = false →
    output_name p k = (if nonempty p then p else ".") ∧ String.prefix WHITEOUT (base_of (output_name p k)) = false) as Hv.
  { intros p k Hk [Hd Hb]. assert (output_name p k = if nonempty p then p else ".") as ->.
    { unfold output_name. destruct (parent_base p). by destruct k. }
    split; [done|]. destruct (nonempty p) eqn:En; [done|]. by vm_compute. }
  destruct (hidden k1) eqn:E1, (hidden k2) eqn:E2; [by left|..|right].
  - destruct (Hv p2 k2 E2 (H2 eq_refl)) as [_ Hb]. by rewrite <-E, hidden_name in Hb.
  - destruct (Hv p1 k1 E1 (H1 eq_refl)) as [_ Hb]. by rewrite E, hidden_name in Hb.
  - destruct (Hv p1 k1 E1 (H1 eq_refl)) as [Ha _], (Hv p2 k2 E2 (H2 eq_refl)) as [Hb _]. rewrite Ha, Hb in E.
    destruct H1 as [H1 _], H2 as [H2 _]; [done..|]. split_and!; [done..|].
    unfold nonempty in E. repeat case_bool_decide; simpl in E; congruence.
Qed.

(** ** What classification leaves *)

(** A logical entry of a member *)
Record citem := mkItem { it_member : member; it_xattrs : dict string string; it_path : string; it_kind : kind }.
Definition it_name (i : citem) : string := output_name (it_path i) (it_kind i).
Definition it_entry (i : citem) : entry := (it_member i, it_kind i, it_xattrs i).
(** What the layer shows of an entry: nothing but the name of a hidden one *)
Definition shown (e : entry) : option entry := if hidden e.1.2 then None else Some e.
Definition consistent (il : list citem) : Prop :=
  ∀ i j, i ∈ il → j ∈ il → it_name i = it_name j → shown (it_entry i) = shown (it_entry j).

Section facts.
Context (policy : CommitPolicy).

Definition kept (i : citem) : bool := bool_decide (rule policy (it_path i) (it_kind i) = Ok None).
Definition kept_link (target : string) (i : citem) : bool :=
  bool_decide (it_kind i = KLink) && kept i && bool_decide (member_path (m_linkname (it_member i)) = Ok target).

Record item_inv (il : list citem) (st : class_state) : Prop := {
  ii_from : ∀ name v, dget (cl_entries st) name = Some v → ∃ i, i ∈ il ∧ kept i = true ∧ name = it_name i ∧ v = it_entry i;
  ii_all : ∀ i, i ∈ il → kept i = true → ∃ v, dget (cl_entries st) (it_name i) = Some v ∧ shown v = shown (it_entry i);
  ii_nodup : NoDup (dkeys (cl_entries st));
  ii_links : ∀ t, default [] (dget (cl_links st) t) = it_path <$> filter (λ i, kept_link t i = true) il;
  ii_links_ne : ∀ t ns, dget (cl_links st) t = Some ns → ns ≠ [];
  ii_links_nodup : NoDup (dkeys (cl_links st))
}.

Lemma item_inv_more il st i :
  item_inv il st → kept i = false ∨ (it_kind i ≠ KLink ∧ ∃ v, dget (cl_entries st) (it_name i) = Some v ∧ shown v = shown (it_entry i)) →
  item_inv (il ++ [i]) st.
Proof.
  intros [H1 H2 H3 H4 H5 H6] Hi. split; try done.
  - intros n v Hv. destruct (H1 _ _ Hv) as (j & Hj & ?). exists j. split; [set_solver|done].
  - intros j [Hj | ->%list_elem_of_singleton]%elem_of_app Hk; [by apply H2|]. destruct Hi as [? | [_ ?]]; [congruence|done].
  - intros t. rewrite filter_app, fmap_app, H4. rewrite (filter_cons_False _ i []), app_nil_r; [done|].
    unfold kept_link. destruct Hi as [-> | [Hk _]]; [by rewrite andb_false_r|]. by rewrite bool_decide_eq_false_2.
Qed.

Lemma classify_item_inv il m xs path k st st' :
  item_inv il st → consistent (il ++ [mkItem m xs path k]) → classify_item policy m xs st (path, k) = Ok st' →
  item_inv (il ++ [mkItem m xs path k]) st' ∧
  cl_seen st' = cl_seen st ∧ cl_ancestors st' = cl_ancestors st ∧ cl_whiteouts st' = cl_whiteouts st.
Proof.
  intros Hi Hc H. set (i := mkItem m xs path k) in *. unfold classify_item in H.
  assert (∀ v, dget (cl_entries st) (it_name i) = Some v → shown v = shown (it_entry i)) as Hold.
  { intros v Hv. destruct (ii_from _ _ Hi _ _ Hv) as (j & Hj & _ & Hn & ->). apply Hc; [set_solver..|done]. }
  destruct (_ && _) eqn:Eo.
  { apply andb_true_iff in Eo as [->%bool_decide_eq_true [v Hv]%bool_decide_eq_true]. simplify_eq.
    split; [|done]. apply item_inv_more; [done|]. right. split; [done|]. exists v. auto. }
  clear Eo. apply res_bind_Ok in H as (r & Hr & H). destruct r as [r|].
  { simplify_eq. split; [|done]. destruct (item_inv_more _ _ i Hi) as []; [|by split].
    left. unfold kept. simpl. rewrite Hr. done. }
  assert (kept i = true) as Hk by (unfold kept; simpl; by rewrite Hr).
  apply res_bind_Ok in H as (links & Hl & [= <-]). split; [|done].
  destruct Hi as [H1 H2 H3 H4 H5 H6].
  assert ((∀ t, default [] (dget links t) = it_path <$> filter (λ i, kept_link t i = true) (il ++ [i])) ∧
    (∀ t ns, dget links t = Some ns → ns ≠ []) ∧ NoDup (dkeys links)) as (Ha & Hb & Hd).
  { case_bool_decide as Hkl.
    - apply res_bind_Ok in Hl as (t & Ht & [= <-]). split_and!.
      + intros t'. rewrite filter_app, fmap_app, <-H4. destruct (decide (t = t')) as [<- | Hne].
        * rewrite dget_dset_eq. rewrite filter_cons_True; [done|]. unfold kept_link. rewrite Hk. simpl. rewrite Ht.
          by rewrite !bool_decide_eq_true_2.
        * rewrite dget_dset_ne by done. rewrite filter_cons_False; [by rewrite app_nil_r|].
          unfold kept_link. simpl. rewrite Ht. rewrite (bool_decide_eq_false_2 (Ok t = Ok t')) by congruence.
          by rewrite andb_false_r.
      + intros t' ns. destruct (decide (t = t')) as [<- | Hne]; [rewrite dget_dset_eq|rewrite dget_dset_ne by done; apply H5].
        intros [= <-]. by destruct (default [] _).
      + by apply NoDup_dset.
    - simplify_eq. split_and!; [|done..]. intros t. rewrite filter_app, fmap_app, H4.
      rewrite (filter_cons_False _ i []), app_nil_r; [done|]. unfold kept_link. simpl. by rewrite bool_decide_eq_false_2. }
  split; simpl; try done.
  - intros n v. destruct (decide (it_name i = n)) as [<- | Hne].
    + change (output_name path k) with (it_name i). rewrite dget_dset_eq. intros [= <-]. exists i. split; [set_solver|done].
    + rewrite dget_dset_ne by done. intros Hv. destruct (H1 _ _ Hv) as (j & Hj & ?). exists j. split; [set_solver|done].
  - intros j Hj Hkj. change (output_name path k) with (it_name i). destruct (decide (it_name i = it_name j)) as [E | Hne].
    + rewrite <-E, dget_dset_eq. eexists; split; [done|]. change (m, k, xs) with (it_entry i).
      apply Hc; [set_solver|done|done].
    + rewrite dget_dset_ne by done. apply elem_of_app in Hj as [Hj | ->%list_elem_of_singleton]; [by apply H2|done].
  - by apply NoDup_dset.
Qed.

(** Members with their parse and the kind they were given *)
Definition plogged : Type := member * parsed * kind.
Definition items_of (x : plogged) : list citem :=
  let '(m, p, k) := x in
  mkItem m (pa_xattrs p) (pa_path p) k :: (if pa_opaque p then [mkItem m (pa_xattrs p) (pa_path p) KOpaque] else []).
Definition items (plog : list plogged) : list citem := concat (items_of <$> plog).
Definition solid (x : plogged) : bool := negb (bool_decide (x.2 = KOpaque)).
Definition solid_paths (plog : list plogged) : list string := (λ x : plogged, pa_path x.1.2) <$> filter (λ x : plogged, solid x = true) plog.
Definition device (x : plogged) : Prop := m_type x.1.1 = TChr ∧ x.2 = KWhiteout.
Definition plogged_ok (x : plogged) : Prop :=
  parse x.1.1 = Ok x.1.2 ∧ (x.2 = pa_kind x.1.2 ∨ pa_kind x.1.2 = KLink ∧ x.2 = KWhiteout).

Record class_inv (plog : list plogged) (st : class_state) : Prop := {
  ci_parse : Forall plogged_ok plog;
  ci_nodup : NoDup (solid_paths plog);
  ci_seen : ∀ path, is_Some (dget (cl_seen st) path) ↔ path ∈ solid_paths plog;
  ci_devices : ∀ path, path ∈ cl_whiteouts st ↔ ∃ x : plogged, x ∈ plog ∧ device x ∧ pa_path x.1.2 = path;
  ci_links : ∀ x : plogged, x ∈ plog → pa_kind x.1.2 = KLink → ∃ t, member_path (m_linkname x.1.1) = Ok t ∧
    (x.2 = KWhiteout → t ∈ cl_whiteouts st);
  ci_items : item_inv (items plog) st
}.

Lemma items_app l1 l2 : items (l1 ++ l2) = items l1 ++ items l2.
Proof. unfold items. by rewrite fmap_app, concat_app. Qed.
Lemma elem_of_items i plog : i ∈ items plog ↔ ∃ x, x ∈ plog ∧ i ∈ items_of x.
Proof.
  unfold items. rewrite list_elem_of_In, in_concat. split.
  - intros (l & (x & -> & Hx)%list_elem_of_In%list_elem_of_fmap & Hi%list_elem_of_In). eauto.
  - intros (x & Hx & Hi). exists (items_of x). rewrite <-!list_elem_of_In. split; [|done]. apply list_elem_of_fmap. eauto.
Qed.
Lemma items_shown x i : plogged_ok x → i ∈ items_of x → hidden (it_kind i) = false →
  i = mkItem x.1.1 (pa_xattrs x.1.2) (pa_path x.1.2) x.2 ∧ solid x = true ∧
  it_path i ≠ "." ∧ String.prefix WHITEOUT (base_of (it_path i)) = false.
Proof.
  destruct x as [[m p] k]. intros [Hp Hk] Hi Hh. simpl in *.
  destruct (parse_spec _ _ Hp) as [[Hs _] _].
  assert (i = mkItem m (pa_xattrs p) (pa_path p) k) as ->.
  { apply elem_of_cons in Hi as [-> | Hi]; [done|]. destruct (pa_opaque p); [|by apply elem_of_nil in Hi].
    apply list_elem_of_singleton in Hi as ->. done. }
  simpl in *. destruct Hk as [-> | [_ ->]]; [|done]. destruct (Hs Hh) as (? & ? & _).
  split_and!; [done| |done|done]. unfold solid. simpl. by destruct (pa_kind p).
Qed.
Lemma plog_consistent plog : Forall plogged_ok plog → NoDup (solid_paths plog) → consistent (items plog).
Proof.
  intros Hp Hn i j (x & Hx & Hi)%elem_of_items (y & Hy & Hj)%elem_of_items E.
  rewrite Forall_forall in Hp. pose proof (Hp _ Hx) as Hpx. pose proof (Hp _ Hy) as Hpy.
  destruct (output_name_inj _ _ _ _ E) as [[H1 H2] | (H1 & H2 & H3)].
  - intros Hh. by destruct (items_shown x i Hpx Hi Hh) as (_ & _ & ?).
  - intros Hh. by destruct (items_shown y j Hpy Hj Hh) as (_ & _ & ?).
  - unfold shown. simpl. by rewrite H1, H2.
  - destruct (items_shown x i Hpx Hi H1) as (-> & Sx & _), (items_shown y j Hpy Hj H2) as (-> & Sy & _). simpl in *.
    assert (x = y) as ->; [|done]. eapply (NoDup_fmap_eq (λ x : plogged, pa_path x.1.2)); [exact Hn| | |done].
    all: by apply list_elem_of_filter.
Qed.

Lemma consistent_sub il il' : consistent il' → (∀ i, i ∈ il → i ∈ il') → consistent il.
Proof. intros H Hs i j Hi Hj. apply H; auto. Qed.
Lemma classify_items_inv m xs its il st st' :
  item_inv il st → consistent (il ++ ((λ pk, mkItem m xs pk.1 pk.2) <$> its)) →
  res_foldl (classify_item policy m xs) st its = Ok st' →
  item_inv (il ++ ((λ pk, mkItem m xs pk.1 pk.2) <$> its)) st' ∧
  cl_seen st' = cl_seen st ∧ cl_ancestors st' = cl_ancestors st ∧ cl_whiteouts st' = cl_whiteouts st.
Proof.
  revert il st. induction its as [|[path k] its IH]; intros il st Hi Hc H; simpl in H.
  { simplify_eq. simpl. by rewrite app_nil_r. }
  apply res_bind_Ok in H as (st1 & H1 & H). csimpl in *. rewrite cons_middle, app_assoc in *.
  apply (classify_item_inv il) in H1 as (Hi1 & E1 & E2 & E3); [|done|eapply consistent_sub; [exact Hc|set_solver]].
  destruct (IH _ _ Hi1 Hc H) as (? & ? & ? & ?). split; [done|]. split_and!; congruence.
Qed.

Lemma classify_member_inv plog st m st' :
  class_inv plog st → classify_member policy st m = Ok st' → ∃ x : plogged, x.1.1 = m ∧ class_inv (plog ++ [x]) st'.
Proof.
  intros [Hp Hn Hs Hd Hl Hi] H. unfold classify_member in H. apply res_bind_Ok in H as (p & Hparse & H).
  apply res_bind_Ok in H as (k & Hk & H). destruct (conflicts _ _ _) eqn:Ec; [done|]. unfold conflicts in Ec.
  apply orb_false_iff in Ec as [_ Ec]. set (x := (m, p, k) : plogged). exists x. split; [done|].
  assert (plogged_ok x ∧ (pa_kind p = KLink → ∃ t, member_path (m_linkname m) = Ok t ∧ (k = KWhiteout → t ∈ cl_whiteouts st))) as [Hx Hlx].
  { unfold settle_kind in Hk. unfold plogged_ok, x. simpl. destruct (bool_decide (pa_kind p = KLink)) eqn:El.
    - apply bool_decide_eq_true in El. apply res_bind_Ok in Hk as (t & Ht & [= <-]). rewrite El.
      destruct (decide (t ∈ cl_whiteouts st)) as [Hw | Hw].
      + rewrite bool_decide_eq_true_2 by done. split; [split; [done|by right]|]. intros _. exists t. done.
      + rewrite bool_decide_eq_false_2 by done. split; [split; [done|by left]|]. intros _. exists t. done.
    - apply bool_decide_eq_false in El. injection Hk as <-. split; [split; [done|by left]|]. intros E. done. }
  assert (Forall plogged_ok (plog ++ [x])) as Hp' by (apply Forall_app; split; [done|by apply Forall_singleton]).
  assert (solid x = true → pa_path p ∉ solid_paths plog) as Hfresh.
  { unfold solid. simpl. intros E. rewrite E in Ec. simpl in Ec. apply orb_false_iff in Ec as [Ec _].
    apply bool_decide_eq_false in Ec. by rewrite <-Hs. }
  assert (solid_paths (plog ++ [x]) = solid_paths plog ++ (if solid x then [pa_path p] else [])) as Esp.
  { unfold solid_paths. rewrite filter_app, fmap_app. f_equal. destruct (solid x) eqn:E.
    - by rewrite filter_cons_True.
    - rewrite filter_cons_False; [done|]. by rewrite E. }
  assert (NoDup (solid_paths (plog ++ [x]))) as Hn'.
  { rewrite Esp. destruct (solid x) eqn:E; [|by rewrite app_nil_r]. apply NoDup_app. split; [done|].
    split; [|apply NoDup_singleton]. intros y Hy ->%list_elem_of_singleton. by apply Hfresh. }
  pose proof (plog_consistent _ Hp' Hn') as Hcons. rewrite items_app in Hcons.
  assert (items [x] = (λ pk, mkItem m (pa_xattrs p) pk.1 pk.2) <$>
    ((pa_path p, k) :: (if pa_opaque p then [(pa_path p, KOpaque)] else []))) as Eit.
  { unfold items. simpl. destruct (pa_opaque p); done. }
  rewrite Eit in Hcons. eapply (classify_items_inv _ _ _ (items plog)) in H as (Hi' & E1 & E2 & E3); [|by destruct Hi|exact Hcons].
  split; [done|done|..].
  - intros path. rewrite E1, Esp. simpl. unfold solid. simpl. destruct (bool_decide (k = KOpaque)); simpl; [by rewrite app_nil_r|].
    rewrite elem_of_app, list_elem_of_singleton, <-Hs. destruct (decide (pa_path p = path)) as [<- | Hne].
    + rewrite dget_dset_eq. split; [by right|by eexists].
    + rewrite dget_dset_ne by done. split; [by left|]. intros [? | ->]; done.
  - intros path. rewrite E3. unfold record_paths. cbn [cl_whiteouts]. setoid_rewrite elem_of_app. setoid_rewrite list_elem_of_singleton.
    assert (bool_decide (k = KWhiteout) && bool_decide (m_type m = TChr) = true ↔ device x) as Hdev.
    { unfold device. simpl. rewrite andb_true_iff, !bool_decide_eq_true. tauto. }
    destruct (bool_decide (k = KWhiteout) && bool_decide (m_type m = TChr)) eqn:Ed.
    + rewrite elem_of_cons, Hd. split; [intros [-> | (y & ? & ?)]; [exists x|exists y]; naive_solver|].
      intros (y & [Hy | ->] & ? & <-); [right; by exists y|by left].
    + rewrite Hd. split; [intros (y & ? & ?); exists y; tauto|]. intros (y & [Hy | ->] & Hdy & <-); [by exists y|].
      apply Hdev in Hdy. congruence.
  - assert (∀ t, t ∈ cl_whiteouts st → t ∈ cl_whiteouts st') as Hmono.
    { intros t Ht. rewrite E3. unfold record_paths. cbn [cl_whiteouts].
      destruct (bool_decide (k = KWhiteout) && _); [by right|done]. }
    intros y [Hy | ->%list_elem_of_singleton]%elem_of_app Hky.
    + destruct (Hl y Hy Hky) as (t & ? & ?). exists t. auto.
    + destruct (Hlx Hky) as (t & ? & ?). exists t. auto.
  - by rewrite items_app, Eit.
Qed.

Lemma classify_inv archive st :
  classify policy archive = Ok st → ∃ plog, (λ x, x.1.1) <$> plog = archive ∧ class_inv plog st.
Proof.
  unfold classify. destruct (_ <? _); [by intros (? & _ & ?)%res_bind_Ok|].
  assert (∀ archive plog st0 st, class_inv plog st0 → res_foldl (classify_member policy) st0 archive = Ok st →
    ∃ plog', (λ x : plogged, x.1.1) <$> plog' = ((λ x : plogged, x.1.1) <$> plog) ++ archive ∧ class_inv plog' st) as Hgo.
  { clear. induction archive as [|m archive IH]; intros plog st0 st Hi H; simpl in H.
    { simplify_eq. exists plog. by rewrite app_nil_r. }
    apply res_bind_Ok in H as (st1 & H1 & H). destruct (classify_member_inv _ _ _ _ Hi H1) as (x & <- & Hi1).
    destruct (IH _ _ _ Hi1 H) as (plog' & E & Hi'). exists plog'. split; [|done].
    rewrite E, fmap_app, <-app_assoc. done. }
  intros H. destruct (Hgo archive [] empty_class st) as (plog & E & Hi); [|done|by exists plog].
  split; [constructor|constructor|..].
  - intros path. split; [by intros [? ?]|intros []%elem_of_nil].
  - intros path. split; [intros []%elem_of_nil|intros (x & []%elem_of_nil & _)].
  - intros x []%elem_of_nil.
  - split; try done; [intros i []%elem_of_nil|constructor..].
Qed.
End facts.

(** ** The order of names *)
Lemma tuple_leb_total a b : tuple_leb a b = true ∨ tuple_leb b a = true.
Proof.
  revert b. induction a as [|x a IH]; intros [|y b]; simpl; auto.
  destruct (decide (x = y)) as [-> | Hne]; [rewrite bool_decide_eq_true_2 by done; apply IH|].
  rewrite !bool_decide_eq_false_2 by done. apply string_leb_total.
Qed.
Lemma tuple_leb_trans a b c : tuple_leb a b = true → tuple_leb b c = true → tuple_leb a c = true.
Proof.
  revert b c. induction a as [|x a IH]; intros [|y b] [|z c]; simpl; try done.
  destruct (decide (x = y)) as [-> | H1]; [rewrite bool_decide_eq_true_2 by done|rewrite (bool_decide_eq_false_2 (x = y)) by done].
  - destruct (decide (y = z)) as [-> | H2]; [rewrite bool_decide_eq_true_2 by done; apply IH|].
    by rewrite bool_decide_eq_false_2 by done.
  - destruct (decide (y = z)) as [-> | H2]; [rewrite bool_decide_eq_true_2 by done; by rewrite bool_decide_eq_false_2 by done|].
    rewrite (bool_decide_eq_false_2 (y = z)) by done. intros Ha Hb. pose proof (string_leb_trans _ _ _ Ha Hb).
    rewrite bool_decide_eq_false_2; [done|]. intros ->. by apply H1, string_leb_antisym.
Qed.
Lemma tuple_leb_antisym a b : tuple_leb a b = true → tuple_leb b a = true → a = b.
Proof.
  revert b. induction a as [|x a IH]; intros [|y b]; simpl; try done.
  destruct (decide (x = y)) as [-> | Hne]; [rewrite !bool_decide_eq_true_2 by done; intros; f_equal; auto|].
  rewrite !bool_decide_eq_false_2 by done. intros. by destruct Hne; apply string_leb_antisym.
Qed.
Lemma split_char_cons c s : split_char c s ≠ [].
Proof. destruct s as [|a s]; simpl; [done|]. case_bool_decide; [done|]. by destruct (split_char c s). Qed.
Lemma split_char_inj c s t : split_char c s = split_char c t → s = t.
Proof.
  revert t. induction s as [|a s IH]; intros [|b t]; simpl; try done.
  - case_bool_decide; [intros [= H']; by destruct (split_char_cons c t)|by destruct (split_char c t)].
  - case_bool_decide; [intros [= H']; by destruct (split_char_cons c s)|by destruct (split_char c s)].
  - pose proof (split_char_cons c s) as Hs. pose proof (split_char_cons c t) as Ht.
    destruct (bool_decide (a = c)) eqn:Ea, (bool_decide (b = c)) eqn:Eb.
    + apply bool_decide_eq_true in Ea, Eb. subst. intros [= H]. f_equal. by apply IH.
    + by destruct (split_char c t).
    + by destruct (split_char c s).
    + destruct (split_char c s) as [|p1 r1] eqn:E1, (split_char c t) as [|p2 r2] eqn:E2; try done.
      intros [= -> -> ->]. f_equal. apply IH. congruence.
Qed.
Lemma name_leb_antisym x y : name_leb x y = true → name_leb y x = true → x = y.
Proof.
  unfold name_leb, output_order. intros H1 H2. pose proof (tuple_leb_antisym _ _ H1 H2) as E.
  repeat case_bool_decide; subst; try done; [by destruct (split_char_cons "/" y)|by destruct (split_char_cons "/" x)|].
  by eapply split_char_inj.
Qed.
Lemma name_leb_total x y : name_leb x y = true ∨ name_leb y x = true.
Proof. apply tuple_leb_total. Qed.
Lemma name_leb_trans x y z : name_leb x y = true → name_leb y z = true → name_leb x z = true.
Proof. apply tuple_leb_trans. Qed.
(** Sorting forgets the order. *)
Lemma sorted_names_perm l k : l ≡ₚ k → sorted_by name_leb l = sorted_by name_leb k.
Proof.
  intros H. apply (StronglySorted_unique_strong (λ x y, name_leb x y = true)).
  - intros x y _ _ H1 H2. by apply name_leb_antisym.
  - apply sorted_by_sorted; [apply name_leb_total|apply name_leb_trans].
  - apply sorted_by_sorted; [apply name_leb_total|apply name_leb_trans].
  - by rewrite !sorted_by_perm.
Qed.

(** ** Inodes with several names *)
Definition group_val (t : string) (ns : list string) : string * string :=
  (t, default t (head (sorted_by name_leb (t :: ns)))).
Lemma dget_dset_all {V} (l : list string) (v : V) d n :
  dget (foldl (λ d n, dset d n v) d l) n = if bool_decide (n ∈ l) then Some v else dget d n.
Proof.
  revert d. induction l as [|x l IH]; intros d; [done|]. cbn [foldl]. rewrite IH. destruct (decide (n ∈ l)) as [Hl | Hl].
  { rewrite (bool_decide_eq_true_2 (n ∈ l)) by done. rewrite bool_decide_eq_true_2; [done|by right]. }
  rewrite (bool_decide_eq_false_2 (n ∈ l)) by done. destruct (decide (x = n)) as [-> | Hne].
  - rewrite dget_dset_eq, bool_decide_eq_true_2; [done|by left].
  - rewrite dget_dset_ne by done. rewrite bool_decide_eq_false_2; [done|set_solver].
Qed.
Lemma link_group_Ok entries d t ns d' :
  link_group entries d (t, ns) = Ok d' →
  (∃ m x, dget entries t = Some (m, KFile, x)) ∧
  ∀ n, dget d' n = if bool_decide (n ∈ t :: ns) then Some (group_val t ns) else dget d n.
Proof.
  unfold link_group. destruct (dget entries t) as [[[m []] x]|]; try done. intros [= <-]. split; [by exists m, x|].
  intros n. assert (n ∈ sorted_by name_leb (t :: ns) ↔ n ∈ t :: ns) as E by (by rewrite (sorted_by_perm name_leb (t :: ns))).
  rewrite dget_dset_all. unfold group_val. by rewrite (bool_decide_ext _ _ E).
Qed.
Lemma link_groups_Ok entries links d0 d :
  res_foldl (link_group entries) d0 links = Ok d →
  (∀ t ns, (t, ns) ∈ links → ∃ m x, dget entries t = Some (m, KFile, x)) ∧
  (∀ n, (∀ t ns, (t, ns) ∈ links → n ∉ t :: ns) → dget d n = dget d0 n) ∧
  (∀ n v, (∃ t ns, (t, ns) ∈ links ∧ n ∈ t :: ns) → (∀ t ns, (t, ns) ∈ links → n ∈ t :: ns → group_val t ns = v) →
     dget d n = Some v).
Proof.
  revert d0. induction links as [|[t ns] links IH]; intros d0 H; simpl in H.
  { simplify_eq. split_and!; [set_solver|done|set_solver]. }
  apply res_bind_Ok in H as (d1 & [Hf H1]%link_group_Ok & H). destruct (IH _ H) as (I1 & I2 & I3). split_and!.
  - intros t' ns' [[= -> ->] | Hin]%elem_of_cons; [done|by eapply I1].
  - intros n Hn. rewrite I2, H1; [|set_solver]. rewrite bool_decide_eq_false_2; [done|]. apply Hn. by left.
  - intros n v Hex Hv. destruct (existsb (λ tn, bool_decide (n ∈ tn.1 :: tn.2)) links) eqn:E.
    + apply existsb_exists in E as ([t' ns'] & Hin%list_elem_of_In & Hm%bool_decide_eq_true).
      apply I3; [by exists t', ns'|]. intros t2 ns2 Hin2. apply Hv. by right.
    + assert (∀ t' ns', (t', ns') ∈ links → n ∉ t' :: ns') as Hno.
      { intros t' ns' Hin Hm. apply not_true_iff_false in E. apply E, existsb_exists. exists (t', ns').
        split; [by apply list_elem_of_In|by apply bool_decide_eq_true]. }
      rewrite I2 by done. rewrite H1. destruct Hex as (t' & ns' & [[= -> ->] | Hin]%elem_of_cons & Hm); [|by destruct (Hno _ _ Hin)].
      rewrite bool_decide_eq_true_2 by done. f_equal. apply Hv; [by left|done].
Qed.

Section layer.
Context (policy : CommitPolicy).

(** A name shares an inode with at most one regular file. *)
Section groups.
Context (plog : list plogged) (st : class_state) (Hinv : class_inv policy plog st).

Lemma link_item t ns n :
  dget (cl_links st) t = Some ns → n ∈ ns →
  ∃ x, x ∈ plog ∧ x.2 = KLink ∧ pa_path x.1.2 = n ∧ member_path (m_linkname x.1.1) = Ok t ∧
    kept policy (mkItem x.1.1 (pa_xattrs x.1.2) n KLink) = true ∧ n ≠ EmptyString.
Proof using Hinv.
  intros Ht Hn. pose proof (ii_links _ _ _ (ci_items _ _ _ Hinv) t) as E. rewrite Ht in E. simpl in E.
  rewrite E in Hn. apply list_elem_of_fmap in Hn as (i & -> & [Hk Hi]%list_elem_of_filter).
  unfold kept_link in Hk. rewrite !andb_true_iff, !bool_decide_eq_true in Hk. destruct Hk as [[Hk1 Hk2] Hk3].
  apply elem_of_items in Hi as (x & Hx & Hi). pose proof (ci_parse _ _ _ Hinv) as Hp. rewrite Forall_forall in Hp.
  destruct (items_shown x i (Hp _ Hx) Hi) as (-> & _); [by rewrite Hk1|]. simpl in *. exists x.
  destruct (Hp _ Hx) as [Hparse Hkind]. destruct (parse_spec _ _ Hparse) as [[Hs _] _].
  assert (pa_kind x.1.2 = KLink) as Ek by (destruct Hkind as [E' | [E' _]]; congruence).
  split_and!; try done; [by rewrite Hk1 in Hk2|]. intros E0. destruct (Hs ltac:(by rewrite Ek)) as (_ & _ & H). specialize (H E0). congruence.
Qed.
Lemma file_item t m xs :
  dget (cl_entries st) t = Some (m, KFile, xs) → ∃ x, x ∈ plog ∧ x.2 = KFile ∧ pa_path x.1.2 = t.
Proof using Hinv.
  intros Ht. destruct (ii_from _ _ _ (ci_items _ _ _ Hinv) _ _ Ht) as (i & Hi & _ & -> & [= -> Hk ->]).
  apply elem_of_items in Hi as (x & Hx & Hi). pose proof (ci_parse _ _ _ Hinv) as Hp. rewrite Forall_forall in Hp.
  destruct (items_shown x i (Hp _ Hx) Hi) as (-> & _); [by rewrite <-Hk|]. simpl in *. exists x. split_and!; [done..|].
  destruct (Hp _ Hx) as [Hparse Hkind]. destruct (parse_spec _ _ Hparse) as [[Hs _] _].
  assert (pa_kind x.1.2 = KFile) as Ek by (destruct Hkind as [E' | [_ E']]; congruence).
  destruct (Hs ltac:(by rewrite Ek)) as (_ & _ & Hne). unfold it_name, output_name. simpl. rewrite <-Hk.
  destruct (parent_base _). unfold nonempty. case_bool_decide as E0; [|done]. specialize (Hne E0). congruence.
Qed.
Lemma solid_same x y :
  x ∈ plog → y ∈ plog → x.2 ≠ KOpaque → y.2 ≠ KOpaque → pa_path x.1.2 = pa_path y.1.2 → x = y.
Proof using Hinv.
  intros Hx Hy Kx Ky E. eapply (NoDup_fmap_eq (λ x : plogged, pa_path x.1.2)); [exact (ci_nodup _ _ _ Hinv)| | |exact E].
  all: apply list_elem_of_filter; (split; [|done]); unfold solid; by rewrite bool_decide_eq_false_2.
Qed.

Lemma group_unique t ns t' ns' n m xs m' xs' :
  dget (cl_links st) t = Some ns → dget (cl_links st) t' = Some ns' →
  dget (cl_entries st) t = Some (m, KFile, xs) → dget (cl_entries st) t' = Some (m', KFile, xs') →
  n ∈ t :: ns → n ∈ t' :: ns' → t = t'.
Proof using Hinv.
  intros H1 H2 F1 F2 [-> | Hn]%elem_of_cons [E | Hn']%elem_of_cons; [done|..].
  - destruct (file_item _ _ _ F1) as (x & Hx & Kx & Px), (link_item _ _ _ H2 Hn') as (y & Hy & Ky & Py & _).
    assert (x = y) as ->; [|congruence]. apply solid_same; congruence.
  - subst. destruct (file_item _ _ _ F2) as (x & Hx & Kx & Px), (link_item _ _ _ H1 Hn) as (y & Hy & Ky & Py & _).
    assert (x = y) as ->; [|congruence]. apply solid_same; congruence.
  - destruct (link_item _ _ _ H1 Hn) as (x & Hx & Kx & Px & Tx & _), (link_item _ _ _ H2 Hn') as (y & Hy & Ky & Py & Ty & _).
    assert (x = y) as ->; [|congruence]. apply solid_same; congruence.
Qed.

(** What the inode table says of a name *)
Lemma data_of_spec data_of :
  res_foldl (link_group (cl_entries st)) [] (cl_links st) = Ok data_of →
  (∀ t ns n, dget (cl_links st) t = Some ns → n ∈ t :: ns → dget data_of n = Some (group_val t ns)) ∧
  (∀ n, (∀ t ns, dget (cl_links st) t = Some ns → n ∉ t :: ns) → dget data_of n = None) ∧
  (∀ t ns, dget (cl_links st) t = Some ns → ∃ m x, dget (cl_entries st) t = Some (m, KFile, x)).
Proof using Hinv.
  intros (Hf & Hnone & Hsome)%link_groups_Ok.
  assert (∀ t ns, (t, ns) ∈ cl_links st ↔ dget (cl_links st) t = Some ns) as Hd.
  { intros t ns. split; [apply dget_Some_2, (ii_links_nodup _ _ _ (ci_items _ _ _ Hinv))|apply dget_Some_1]. }
  setoid_rewrite <-Hd. split_and!.
  - intros t ns n Hin Hn. apply Hsome; [by exists t, ns|]. intros t' ns' Hin' Hn'.
    destruct (Hf _ _ Hin) as (m & x & E), (Hf _ _ Hin') as (m' & x' & E').
    apply Hd in Hin, Hin'. assert (t = t') as -> by (by eapply group_unique). congruence.
  - intros n Hn. by rewrite Hnone.
  - intros t ns Hin. by eapply Hf.
Qed.
End groups.

(** ** Two orders of one upper *)
Section orders.
Context (plog1 plog2 : list plogged) (st1 st2 : class_state).
Context (Hinv1 : class_inv policy plog1 st1) (Hinv2 : class_inv policy plog2 st2).
Context (Hperm : ((λ x : plogged, x.1.1) <$> plog1) ≡ₚ ((λ x : plogged, x.1.1) <$> plog2)).
Context (Hfiles : ∀ t ns, dget (cl_links st2) t = Some ns → ∃ m x, dget (cl_entries st2) t = Some (m, KFile, x)).

Lemma other_run x : x ∈ plog1 → ∃ y, y ∈ plog2 ∧ y.1 = x.1.
Proof using Hinv1 Hinv2 Hperm.
  intros Hx. assert (x.1.1 ∈ (λ x : plogged, x.1.1) <$> plog2) as Hin.
  { rewrite <-Hperm. by apply (list_elem_of_fmap_2 (λ x : plogged, x.1.1)). }
  apply list_elem_of_fmap in Hin as (y & E & Hy). exists y. split; [done|].
  pose proof (proj1 (Forall_forall _ _) (ci_parse _ _ _ Hinv1) _ Hx) as [P1 _].
  pose proof (proj1 (Forall_forall _ _) (ci_parse _ _ _ Hinv2) _ Hy) as [P2 _].
  destruct x as [[m p] k], y as [[m' p'] k']. simpl in *. congruence.
Qed.

(** A link to a whiteout device is not written as a link. *)
Lemma device_not_linked y t :
  y ∈ plog2 → y.2 = KLink → member_path (m_linkname y.1.1) = Ok t → t ∈ cl_whiteouts st1 →
  kept policy (mkItem y.1.1 (pa_xattrs y.1.2) (pa_path y.1.2) KLink) = false.
Proof using Hinv1 Hinv2 Hperm Hfiles.
  intros Hy Ky Ht Hw. destruct (kept policy _) eqn:Hk; [exfalso|done].
  assert (pa_path y.1.2 ∈ default [] (dget (cl_links st2) t)) as Hin.
  { rewrite (ii_links _ _ _ (ci_items _ _ _ Hinv2)). apply list_elem_of_fmap. eexists; split; [|apply list_elem_of_filter; split].
    2: unfold kept_link; rewrite Hk; simpl; by rewrite !bool_decide_eq_true_2. 1: done.
    apply elem_of_items. exists y. split; [done|]. destruct y as [[m p] k]. simpl in *. subst. by left. }
  destruct (dget (cl_links st2) t) as [ns|] eqn:El; [|by apply elem_of_nil in Hin].
  destruct (Hfiles _ _ El) as (m & xs & Hf). destruct (file_item plog2 st2 Hinv2 _ _ _ Hf) as (z & Hz & Kz & Pz).
  apply (ci_devices _ _ _ Hinv1) in Hw as (d & Hd & [Td Kd] & Pd).
  destruct (other_run d Hd) as (d' & Hd' & Ed). pose proof (proj1 (Forall_forall _ _) (ci_parse _ _ _ Hinv2) _ Hd') as Hp.
  pose proof (proj1 (Forall_forall _ _) (ci_parse _ _ _ Hinv1) _ Hd) as Hpd.
  assert (d'.2 = KWhiteout) as Kd'.
  { destruct Hp as [Pp Kp], Hpd as [_ Kpd]. destruct (parse_spec _ _ Pp) as [_ [HL _]]. rewrite Ed in *.
    assert (pa_kind d.1.2 ≠ KLink) by (intros E; specialize (HL E); congruence). intuition congruence. }
  assert (z = d') as ->; [|congruence]. apply (solid_same plog2 st2 Hinv2); congruence.
Qed.
End orders.

(** Links and whiteouts are dropped by the same rules. *)
Lemma rule_link path : rule policy path KLink = rule policy path KWhiteout.
Proof. done. Qed.

(** A state of an accepted run *)
Definition accepted (plog : list plogged) (st : class_state) : Prop :=
  class_inv policy plog st ∧ ∀ t ns, dget (cl_links st) t = Some ns → ∃ m x, dget (cl_entries st) t = Some (m, KFile, x).
Definition same_upper (plog1 plog2 : list plogged) : Prop :=
  ((λ x : plogged, x.1.1) <$> plog1) ≡ₚ ((λ x : plogged, x.1.1) <$> plog2).
#[local] Instance same_upper_sym : Symmetric same_upper.
Proof. unfold same_upper. by intros x y ->. Qed.

Lemma kept_other plog1 plog2 st1 st2 i :
  accepted plog1 st1 → accepted plog2 st2 → same_upper plog1 plog2 →
  i ∈ items plog1 → kept policy i = true → i ∈ items plog2.
Proof.
  intros [I1 F1] [I2 F2] Hp (x & Hx & Hi)%elem_of_items Hk. apply elem_of_items.
  destruct (other_run plog1 plog2 st1 st2 I1 I2 Hp x Hx) as (y & Hy & E).
  assert (y = x ∨ pa_kind x.1.2 = KLink ∧ (x.2 = KWhiteout ∧ y.2 = KLink ∨ x.2 = KLink ∧ y.2 = KWhiteout)) as [-> | [Kp Kxy]].
  { pose proof (proj1 (Forall_forall _ _) (ci_parse _ _ _ I1) _ Hx) as [_ K1].
    pose proof (proj1 (Forall_forall _ _) (ci_parse _ _ _ I2) _ Hy) as [_ K2].
    destruct x as [[m p] k], y as [[m' p'] k']. simpl in *. simplify_eq. destruct K1 as [-> | [? ->]], K2 as [-> | [? ->]]; auto. }
  { eauto. }
  exfalso. destruct (ci_links _ _ _ I1 _ Hx Kp) as (t & Ht & Hw1).
  destruct (ci_links _ _ _ I2 _ Hy ltac:(by rewrite E)) as (t' & Ht' & Hw2). rewrite E, Ht in Ht'. injection Ht' as <-.
  pose proof (proj1 (Forall_forall _ _) (ci_parse _ _ _ I1) _ Hx) as [Pp _].
  destruct (parse_spec _ _ Pp) as [[_ Ho] _].
  assert (i = mkItem x.1.1 (pa_xattrs x.1.2) (pa_path x.1.2) x.2) as ->.
  { destruct x as [[m p] k]. simpl in *. apply elem_of_cons in Hi as [-> | Hi]; [done|].
    destruct (pa_opaque p); [rewrite Ho in Kp by done; done|by apply elem_of_nil in Hi]. }
  destruct Kxy as [[Kx Ky] | [Kx Ky]].
  - assert (kept policy (mkItem y.1.1 (pa_xattrs y.1.2) (pa_path y.1.2) KLink) = false) as Hn.
    { apply (device_not_linked plog1 plog2 st1 st2 I1 I2 Hp F2 y t); [done..|by rewrite E|by apply Hw1]. }
    rewrite E in Hn. unfold kept in Hk, Hn. simpl in *. rewrite Kx, <-rule_link in Hk. congruence.
  - assert (kept policy (mkItem x.1.1 (pa_xattrs x.1.2) (pa_path x.1.2) KLink) = false) as Hn.
    { apply (device_not_linked plog2 plog1 st2 st1 I2 I1 (symmetry Hp) F1 x t); [done..|by apply Hw2]. }
    rewrite Kx in Hk. congruence.
Qed.

(** The names that link to a file are distinct paths. *)
Lemma links_sublist t plog :
  Forall plogged_ok plog → (it_path <$> filter (λ i, kept_link policy t i = true) (items plog)) `sublist_of` solid_paths plog.
Proof.
  induction 1 as [|x plog Hx _ IH]; [done|]. unfold items. cbn [fmap list_fmap concat]. rewrite filter_app, fmap_app.
  change (concat (items_of <$> plog)) with (items plog).
  assert (solid_paths (x :: plog) = (if solid x then [pa_path x.1.2] else []) ++ solid_paths plog) as ->.
  { unfold solid_paths. rewrite filter_cons. destruct (solid x); [by rewrite decide_True|by rewrite decide_False]. }
  apply sublist_app; [|done]. destruct x as [[m p] k]. unfold items_of.
  assert (∀ l : list citem, Forall (λ i, it_kind i = KOpaque) l → filter (λ i, kept_link policy t i = true) l = []) as Hno.
  { induction 1 as [|i l Hi _ IHl]; [done|]. rewrite filter_cons_False; [done|]. unfold kept_link. by rewrite Hi. }
  rewrite filter_cons. destruct (decide _) as [Hk | Hk].
  - rewrite Hno by (destruct (pa_opaque p); repeat constructor). unfold kept_link in Hk. simpl in Hk.
    assert (k = KLink) as -> by (case_bool_decide; [done|by simpl in Hk]). done.
  - rewrite Hno by (destruct (pa_opaque p); repeat constructor). apply sublist_nil_l.
Qed.

Section agree.
Context (plog1 plog2 : list plogged) (st1 st2 : class_state).
Context (Hacc1 : accepted plog1 st1) (Hacc2 : accepted plog2 st2) (Hsame : same_upper plog1 plog2).

Lemma entries_agree n : shown <$> dget (cl_entries st1) n = shown <$> dget (cl_entries st2) n.
Proof using Hacc1 Hacc2 Hsame.
  destruct (dget (cl_entries st1) n) as [v|] eqn:E1.
  - destruct (ii_from _ _ _ (ci_items _ _ _ (proj1 Hacc1)) _ _ E1) as (i & Hi & Hk & -> & ->).
    destruct (ii_all _ _ _ (ci_items _ _ _ (proj1 Hacc2)) i (kept_other _ _ _ _ _ Hacc1 Hacc2 Hsame Hi Hk) Hk) as (v & -> & Hv).
    simpl. by rewrite Hv.
  - destruct (dget (cl_entries st2) n) as [v|] eqn:E2; [exfalso|done].
    destruct (ii_from _ _ _ (ci_items _ _ _ (proj1 Hacc2)) _ _ E2) as (i & Hi & Hk & -> & ->).
    destruct (ii_all _ _ _ (ci_items _ _ _ (proj1 Hacc1)) i (kept_other _ _ _ _ _ Hacc2 Hacc1 (symmetry Hsame) Hi Hk) Hk) as (v & Ev & _).
    congruence.
Qed.
Lemma keys_agree : dkeys (cl_entries st1) ≡ₚ dkeys (cl_entries st2).
Proof using Hacc1 Hacc2 Hsame.
  apply NoDup_Permutation; [apply (ii_nodup _ _ _ (ci_items _ _ _ (proj1 Hacc1)))|apply (ii_nodup _ _ _ (ci_items _ _ _ (proj1 Hacc2)))|].
  intros n. pose proof (entries_agree n) as E. pose proof (dget_None (cl_entries st1) n) as N1.
  pose proof (dget_None (cl_entries st2) n) as N2.
  destruct (dget (cl_entries st1) n), (dget (cl_entries st2) n), (decide (n ∈ dkeys (cl_entries st1))), (decide (n ∈ dkeys (cl_entries st2)));
    simpl in E; naive_solver.
Qed.
Lemma names_agree t : default [] (dget (cl_links st1) t) ≡ₚ default [] (dget (cl_links st2) t).
Proof using Hacc1 Hacc2 Hsame.
  destruct Hacc1 as [I1 _], Hacc2 as [I2 _].
  rewrite (ii_links _ _ _ (ci_items _ _ _ I1)), (ii_links _ _ _ (ci_items _ _ _ I2)). apply NoDup_Permutation.
  - eapply sublist_NoDup; [apply (ci_nodup _ _ _ I1)|apply links_sublist, (ci_parse _ _ _ I1)].
  - eapply sublist_NoDup; [apply (ci_nodup _ _ _ I2)|apply links_sublist, (ci_parse _ _ _ I2)].
  - assert (∀ i, kept_link policy t i = true → kept policy i = true) as Hk.
    { intros i. unfold kept_link. by intros [[_ ?]%andb_true_iff _]%andb_true_iff. }
    intros n. rewrite !list_elem_of_fmap. setoid_rewrite list_elem_of_filter.
    split; intros (i & -> & Hi & Hin); exists i; (split_and!; [done..|]).
    + exact (kept_other _ _ _ _ _ Hacc1 Hacc2 Hsame Hin (Hk _ Hi)).
    + exact (kept_other _ _ _ _ _ Hacc2 Hacc1 (symmetry Hsame) Hin (Hk _ Hi)).
Qed.
Lemma data_agree data1 data2 :
  res_foldl (link_group (cl_entries st1)) [] (cl_links st1) = Ok data1 →
  res_foldl (link_group (cl_entries st2)) [] (cl_links st2) = Ok data2 →
  ∀ n, dget data1 n = dget data2 n.
Proof using Hacc1 Hacc2 Hsame.
  destruct Hacc1 as [I1 _], Hacc2 as [I2 _].
  intros (S1 & N1 & _)%(data_of_spec plog1 st1 I1) (S2 & N2 & _)%(data_of_spec plog2 st2 I2) n.
  destruct (decide (Exists (λ tn : string * list string, n ∈ tn.1 :: tn.2) (cl_links st1))) as [Hex | Hex].
  - apply Exists_exists in Hex as ([t ns] & Hin & Hn). simpl in Hn.
    assert (dget (cl_links st1) t = Some ns) as E1 by (by apply dget_Some_2; [apply (ii_links_nodup _ _ _ (ci_items _ _ _ I1))|]).
    pose proof (names_agree t) as Hp. pose proof (ii_links_ne _ _ _ (ci_items _ _ _ I1) _ _ E1) as Hne. rewrite E1 in Hp. simpl in Hp.
    destruct (dget (cl_links st2) t) as [ns'|] eqn:E2; simpl in Hp; [|by apply Permutation_nil_r in Hp].
    rewrite (S1 _ _ _ E1 Hn), (S2 t ns' n E2) by (by rewrite <-Hp). unfold group_val. by rewrite (sorted_names_perm (t :: ns) (t :: ns')) by (by rewrite Hp).
  - rewrite N1; [rewrite N2; [done|]|].
    + intros t ns' E2 Hn. pose proof (names_agree t) as Hp. pose proof (ii_links_ne _ _ _ (ci_items _ _ _ I2) _ _ E2) as Hne.
      rewrite E2 in Hp. simpl in Hp. destruct (dget (cl_links st1) t) as [ns|] eqn:E1; simpl in Hp; [|by apply Permutation_nil_l in Hp].
      apply Hex, Exists_exists. exists (t, ns). split; [by apply dget_Some_1|]. simpl. by rewrite Hp.
    + intros t ns E1 Hn. apply Hex, Exists_exists. exists (t, ns). split; [by apply dget_Some_1|done].
Qed.
End agree.

Lemma render_shown n f e e' : shown e = shown e' → render n f e = render n f e'.
Proof.
  destruct e as [[m k] x], e' as [[m' k'] x']. unfold shown, render, hidden. simpl.
  destruct (bool_decide (k ∈ _)), (bool_decide (k' ∈ _)); intros; by simplify_eq.
Qed.
Lemma resolve_shown e1 e2 d1 d2 n :
  (∀ n, shown <$> dget e1 n = shown <$> dget e2 n) → (∀ n, dget d1 n = dget d2 n) → resolve e1 d1 n = resolve e2 d2 n.
Proof.
  intros He Hd. unfold resolve. rewrite Hd. pose proof (He n) as Hn.
  destruct (dget e1 n) as [v1|], (dget e2 n) as [v2|]; try done. injection Hn as Hn.
  destruct (default _ _) as [t f]. assert (bool_decide (v1.1.2 = KLink) = bool_decide (v2.1.2 = KLink)) as ->.
  { unfold shown in Hn. destruct v1 as [[? []] ?], v2 as [[? []] ?]; simpl in Hn; by simplify_eq. }
  case_bool_decide; [|by rewrite (render_shown _ _ _ _ Hn)]. specialize (He t).
  destruct (dget e1 t) as [v1'|], (dget e2 t) as [v2'|]; try done. injection He as He. by rewrite (render_shown _ _ _ _ He).
Qed.
End layer.

(** ** The layer *)
Section layers.
Context (policy : CommitPolicy) (sha256_hex : list ascii → string).
Context (entry_bytes : tar_info → list ascii) (end_bytes : list ascii → list ascii) (secret_digests : list string).
Let filtered := filter_upper policy sha256_hex entry_bytes end_bytes secret_digests.
Let write := write_entry policy sha256_hex entry_bytes secret_digests.

Lemma res_foldl_ext {A B} (f g : A → B → res A) a l : (∀ a x, f a x = g a x) → res_foldl f a l = res_foldl g a l.
Proof. intros H. revert a. induction l as [|x l IH]; intros a; simpl; [done|]. rewrite H. by destruct (g a x); simpl. Qed.

(** What an accepted run went through *)
Lemma filter_run archive infos r :
  filtered archive = Ok (infos, r) →
  ∃ plog st data_of written,
    (λ x : plogged, x.1.1) <$> plog = archive ∧ accepted policy plog st ∧
    check_texts sha256_hex secret_digests (cl_entries st) = Ok tt ∧
    res_foldl (link_group (cl_entries st)) [] (cl_links st) = Ok data_of ∧
    zsum ((λ e, if bool_decide (e.1.2 = KFile) then m_size e.1.1 else 0) <$> dvals (cl_entries st)) ≤ max_bytes policy ∧
    res_foldl (write (cl_entries st) data_of) ([], []) (sorted_by name_leb (dkeys (cl_entries st))) = Ok (infos, written) ∧
    fr_diff_id r = "sha256:" +:+ sha256_hex (written ++ end_bytes written) ∧
    fr_size r = Z.of_nat (length (written ++ end_bytes written)) ∧
    fr_members r = Z.of_nat (length (dkeys (cl_entries st))).
Proof.
  unfold filtered, filter_upper. intros (st & Hst & H)%res_bind_Ok. apply res_bind_Ok in H as ([] & Ht & H).
  apply res_bind_Ok in H as (data_of & Hd & H). destruct (max_bytes policy <? _) eqn:Es; [done|]. apply Z.ltb_ge in Es.
  apply res_bind_Ok in H as ([infos' written] & Hw & H). injection H as -> <-.
  destruct (classify_inv _ _ _ Hst) as (plog & Hp & Hi). exists plog, st, data_of, written.
  split_and!; try done; [split; [done|by destruct (data_of_spec policy plog st Hi _ Hd) as (_ & _ & ?)]|].
  simpl. unfold dkeys. by rewrite length_map.
Qed.

Definition secret_free (data : list ascii) : Prop := leaks sha256_hex secret_digests data = false.
Definition text_free (s : string) : Prop := secret_free (String.list_ascii_of_string s).

Lemma blocks_concat fuel n body : concat (blocks fuel n body) = body.
Proof.
  revert body. induction fuel as [|fuel IH]; intros body; simpl; [apply app_nil_r|].
  destruct (_ <=? n); simpl; [apply app_nil_r|]. by rewrite IH, take_drop.
Qed.
Lemma list_ascii_app a b :
  String.list_ascii_of_string (a +:+ b) = String.list_ascii_of_string a ++ String.list_ascii_of_string b.
Proof. induction a as [|c a IH]; [done|]. exact (f_equal (cons c) IH). Qed.
Lemma concat_free l x :
  secret_free (String.list_ascii_of_string (String.concat (String zero EmptyString) l)) → x ∈ l → text_free x.
Proof.
  unfold text_free, secret_free. induction l as [|y [|z l] IH]; [by intros _ []%elem_of_nil|..].
  - by intros H ->%list_elem_of_singleton.
  - change (String.concat _ (y :: z :: l)) with
      (y +:+ (String zero EmptyString +:+ String.concat (String zero EmptyString) (z :: l))).
    rewrite list_ascii_app. change (String.list_ascii_of_string (String zero EmptyString +:+ ?r)) with (zero :: String.list_ascii_of_string r).
    rewrite leaks_app by done. intros [H1 H2]%orb_false_iff [-> | Hx]%elem_of_cons; auto.
Qed.
Lemma texts_free entries n m k xs :
  secret_digests ≠ [] → check_texts sha256_hex secret_digests entries = Ok tt → (n, (m, k, xs)) ∈ entries →
  text_free n ∧ text_free (m_linkname m) ∧ ∀ x, x ∈ dkeys xs ++ dvals xs → text_free x.
Proof.
  intros Hd. unfold check_texts. rewrite bool_decide_eq_false_2 by done. intros H Hin.
  assert (∀ l, res_foldl (λ _ ne, check sha256_hex secret_digests (entry_text ne.1 ne.2)) tt l = Ok tt →
    ∀ ne, ne ∈ l → secret_free (entry_text ne.1 ne.2)) as Hgo.
  { clear. induction l as [|ne l IH]; [by intros _ ne []%elem_of_nil|]. simpl. intros ([] & H1%check_Ok & H2)%res_bind_Ok.
    intros ne' [-> | Hin]%elem_of_cons; [done|by apply IH]. }
  assert (∀ x, x ∈ n :: m_linkname m :: dkeys xs ++ dvals xs → text_free x) as Hf.
  { intros x. exact (concat_free _ x (Hgo _ H _ Hin)). }
  split_and!; [..|intros x Hx]; apply Hf; [by left|by right; left|by right; right].
Qed.

(** What is written: the entries of the names, each scanned *)
Lemma write_Ok entries data_of names infos0 infos written :
  res_foldl (write entries data_of) (infos0, concat (entry_bytes <$> infos0)) names = Ok (infos, written) →
  Z.of_nat (length (concat (entry_bytes <$> infos0))) ≤ max_bytes policy →
  ∃ new, infos = infos0 ++ new ∧ Forall2 (λ n i, resolve entries data_of n = Ok i) names new ∧
    written = concat (entry_bytes <$> infos) ∧ Z.of_nat (length written) ≤ max_bytes policy ∧
    (secret_digests ≠ [] → Forall (λ i, secret_free (o_body i)) new).
Proof.
  revert infos0. induction names as [|n names IH]; intros infos0; simpl.
  { intros [= <- <-] Hm. exists []. rewrite app_nil_r. split_and!; [done|constructor|done|done|constructor]. }
  intros ([infos1 w1] & H1 & H)%res_bind_Ok _. unfold write, write_entry in H1.
  apply res_bind_Ok in H1 as (info & Hi & H1). apply res_bind_Ok in H1 as ([] & Hs & H1).
  destruct (max_bytes policy <? _) eqn:Em; [done|]. apply Z.ltb_ge in Em. injection H1 as <- <-.
  assert (concat (entry_bytes <$> infos0) ++ entry_bytes info = concat (entry_bytes <$> (infos0 ++ [info]))) as Ec.
  { rewrite fmap_app, concat_app. simpl. by rewrite app_nil_r. }
  rewrite Ec in *. destruct (IH _ H Em) as (new & -> & Hf & -> & Hl & Hsf). exists (info :: new).
  rewrite <-app_assoc. split_and!; [done|by constructor|by rewrite <-app_assoc in *|by rewrite <-app_assoc in *|].
  intros Hd. constructor; [|auto]. rewrite bool_decide_eq_false_2 in Hs by done.
  by rewrite scan_body_check, blocks_concat, check_Ok in Hs.
Qed.
(** The first name of an inode carries its data. *)
Lemma first_entry plog st data_of n t f :
  accepted policy plog st → res_foldl (link_group (cl_entries st)) [] (cl_links st) = Ok data_of →
  dget data_of n = Some (t, f) →
  is_Some (dget (cl_entries st) f) ∧ ∃ info, resolve (cl_entries st) data_of f = Ok info ∧ o_type info = TReg.
Proof.
  intros [Hi _] Hd Hn. destruct (data_of_spec policy plog st Hi _ Hd) as (S1 & N1 & F1).
  destruct (decide (Exists (λ tn : string * list string, n ∈ tn.1 :: tn.2) (cl_links st))) as [Hex | Hex].
  2: { rewrite N1 in Hn; [done|]. intros t' ns E Hin. apply Hex, Exists_exists. exists (t', ns). split; [by apply dget_Some_1|done]. }
  apply Exists_exists in Hex as ([t' ns] & Hin & Hn'). simpl in Hn'.
  assert (dget (cl_links st) t' = Some ns) as El by (by apply dget_Some_2; [apply (ii_links_nodup _ _ _ (ci_items _ _ _ Hi))|]).
  rewrite (S1 _ _ _ El Hn') in Hn. assert (group_val t' ns = (t, f)) as Hg by congruence. clear Hn.
  assert (t' = t) as -> by exact (f_equal fst Hg). assert (f ∈ t :: ns) as Hf.
  { apply (f_equal snd) in Hg. unfold group_val, snd in Hg. pose proof (sorted_by_perm name_leb (t :: ns)) as Hp. rewrite <-Hp.
    destruct (sorted_by name_leb (t :: ns)) as [|y l]; [by apply Permutation_nil_l in Hp|]. subst f. by left. }
  pose proof (S1 _ _ _ El Hf) as Edf. rewrite Hg in Edf.
  destruct (F1 _ _ El) as (m & xs & Et). unfold resolve. rewrite Edf. simpl.
  assert (∀ info, render f f (m, KFile, xs) = info → o_type info = TReg) as Hr.
  { intros info <-. simpl. by rewrite bool_decide_eq_true_2. }
  apply elem_of_cons in Hf as [-> | Hf]; [rewrite Et; eauto|].
  destruct (link_item policy plog st Hi _ _ _ El Hf) as (x & Hx & Kx & Px & Tx & Kk & Hne).
  set (i := mkItem x.1.1 (pa_xattrs x.1.2) f KLink) in *.
  assert (i ∈ items plog) as Hit.
  { apply elem_of_items. exists x. split; [done|]. destruct x as [[m' p] k]. simpl in *. subst. by left. }
  destruct (ii_all _ _ _ (ci_items _ _ _ Hi) i Hit Kk) as (v & Ev & Hv).
  assert (it_name i = f) as En.
  { unfold it_name, output_name. simpl. destruct (parent_base f). unfold nonempty. by rewrite bool_decide_eq_false_2. }
  rewrite En in Ev. rewrite Ev. assert (v.1.2 = KLink) as Kv.
  { unfold shown in Hv. simpl in Hv. destruct (hidden v.1.2); [done|]. by injection Hv as ->. }
  rewrite bool_decide_eq_true_2, Et by done. eauto.
Qed.

Lemma resolve_Ok entries data_of n info :
  resolve entries data_of n = Ok info →
  is_Some (dget entries n) ∧ ∃ n' e f, dget entries n' = Some e ∧ info = render n f e ∧
    (f = n ∨ ∃ t, dget data_of n = Some (t, f)).
Proof.
  unfold resolve. destruct (dget entries n) as [e|] eqn:En; [|done].
  destruct (dget data_of n) as [[t f]|] eqn:Ed; simpl.
  - case_bool_decide; [destruct (dget entries t) as [e'|] eqn:Et; [|done]|]; intros [= <-]; split; try done.
    + exists t, e', f. eauto.
    + exists n, e, f. eauto.
  - case_bool_decide; [rewrite En|]; intros [= <-]; split; try done; exists n, e, n; eauto.
Qed.

(** What an entry shows of its member *)
Lemma render_parts n f m k xs :
  let info := render n f (m, k, xs) in
  o_name info = n ∧ o_linkname info ∈ [EmptyString; m_linkname m; f] ∧
  (∀ kv, kv ∈ o_pax info → kv ∈ xs) ∧ (o_type info = TLnk → o_linkname info = f ∧ f ≠ n).
Proof.
  unfold render. destruct (bool_decide (k ∈ _)); simpl; [split_and!; [done|by left|by intros ? ?%elem_of_nil|done]|].
  assert (∀ kv, kv ∈ sorted_by pair_leb xs → kv ∈ xs) as Hs by (intros kv; by rewrite sorted_by_perm).
  destruct k; simpl; try case_bool_decide; simpl; split_and!; done || set_solver.
Qed.
Lemma resolve_name entries data_of n info : resolve entries data_of n = Ok info → o_name info = n.
Proof.
  intros (_ & n' & [[m k] xs] & f & _ & -> & _)%resolve_Ok. by destruct (render_parts n f m k xs) as [-> _].
Qed.

(** What the drop rules leave *)
Definition clear_of (path : string) : Prop :=
  (∀ prefix, prefix ∈ ESCAPES ++ HOST_WRITTEN ++ VOLATILE → under path prefix = false) ∧
  (∀ id, id ∈ cp_identity policy → identity_match path id = false) ∧
  (∀ root, root ∈ exclude policy → under path (sdrop 1 root) = false).
Lemma existsb_clear {A} (f : A → bool) l x : existsb f l = false → x ∈ l → f x = false.
Proof. induction l as [|y l IH]; simpl; [by intros _ []%elem_of_nil|]. intros [? ?]%orb_false_iff [-> | ?]%elem_of_cons; auto. Qed.
Lemma rule_clear path k : rule policy path k = Ok None → clear_of path.
Proof.
  unfold rule. destruct (existsb (under path) ESCAPES) eqn:E1; [by destruct (_ && _)|].
  destruct (existsb (under path) HOST_WRITTEN) eqn:E2; [done|]. destruct (existsb (identity_match path) _) eqn:E3; [done|].
  destruct (existsb (under path) VOLATILE) eqn:E4; [done|]. destruct (negb _ && is_build_residue path); [done|].
  destruct (existsb _ (exclude policy)) eqn:E5; [done|]. intros _. split_and!.
  - intros prefix [H | [H | H]%elem_of_app]%elem_of_app;
      [apply (existsb_clear _ _ _ E1 H)|apply (existsb_clear _ _ _ E2 H)|apply (existsb_clear _ _ _ E4 H)].
  - intros id. by apply existsb_clear.
  - intros root H. by apply (existsb_clear _ _ _ E5).
Qed.

(** Every name of the layer is that of a kept member. *)
Lemma entry_source plog st n :
  class_inv policy plog st → is_Some (dget (cl_entries st) n) →
  ∃ m p k, m ∈ (λ x : plogged, x.1.1) <$> plog ∧ parse m = Ok p ∧ rule policy (pa_path p) k = Ok None ∧
    clear_of (pa_path p) ∧ n = output_name (pa_path p) k.
Proof.
  intros Hi [e He]. destruct (ii_from _ _ _ (ci_items _ _ _ Hi) _ _ He) as (i & Hii & Hk & -> & _).
  apply elem_of_items in Hii as (x & Hx & Hix). exists x.1.1, x.1.2, (it_kind i). apply bool_decide_eq_true in Hk.
  assert (it_path i = pa_path x.1.2) as <-.
  { destruct x as [[? p] ?]. simpl in *. destruct (pa_opaque p); set_solver. }
  split_and!; [by apply (list_elem_of_fmap_2 (λ x : plogged, x.1.1))| |done|by eapply rule_clear|done].
  by apply (proj1 (Forall_forall _ _) (ci_parse _ _ _ Hi) _ Hx).
Qed.

(** C22. An accepted layer holds only what the policy keeps, and no live credential.
    Every entry is named for a member that no drop rule matches: its path is not at
    or below a sandbox mount, a host-written or volatile path or an excluded root, and
    names no identity file.  When credentials
    are live, neither a body nor a name, link target or extended attribute of the
    layer holds one.  Every hard link of the layer points to a regular entry of the
    layer that carries the data.  The bytes of the entries are within the policy's
    limit. *)
Theorem filter_layer_clean archive infos r :
  filter_upper policy sha256_hex entry_bytes end_bytes secret_digests archive = Ok (infos, r) →
  (∀ info, info ∈ infos →
     (∃ m p k, m ∈ archive ∧ parse m = Ok p ∧ rule policy (pa_path p) k = Ok None ∧ clear_of (pa_path p) ∧
        o_name info = output_name (pa_path p) k) ∧
     (secret_digests ≠ [] →
        secret_free (o_body info) ∧ text_free (o_name info) ∧ text_free (o_linkname info) ∧
        ∀ kv, kv ∈ o_pax info → text_free kv.1 ∧ text_free kv.2) ∧
     (o_type info = TLnk → ∃ first, first ∈ infos ∧ o_name first = o_linkname info ∧ o_type first = TReg)) ∧
  Z.of_nat (length (concat (entry_bytes <$> infos))) ≤ max_bytes policy.
Proof.
  intros (plog & st & d & w & <- & Hacc & Ht & Hd & Hm & Hw & _)%filter_run. pose proof Hacc as [Hi _].
  assert (0 ≤ max_bytes policy) as H0.
  { etrans; [|exact Hm]. apply zsum_nonneg, Forall_fmap, Forall_true. intros e. simpl. unfold m_size. case_bool_decide; lia. }
  destruct (write_Ok (cl_entries st) d _ [] infos w Hw H0) as (new & -> & Hf & -> & Hl & Hs). split; [|done].
  assert (∀ n info, resolve (cl_entries st) d n = Ok info → is_Some (dget (cl_entries st) n) → info ∈ [] ++ new) as Hout.
  { intros n info Hr [e He]. assert (n ∈ sorted_by name_leb (dkeys (cl_entries st))) as Hn.
    { rewrite sorted_by_perm. destruct (decide (n ∈ dkeys (cl_entries st))) as [|Hn%dget_None]; [done|congruence]. }
    apply list_elem_of_lookup in Hn as [j Hj]. destruct (Forall2_lookup_l _ _ _ _ _ Hf Hj) as (info' & Hj' & Hr').
    assert (info = info') as -> by congruence. by eapply list_elem_of_lookup_2. }
  intros info Hin. apply list_elem_of_lookup in Hin as [j Hj]. destruct (Forall2_lookup_r _ _ _ _ _ Hf Hj) as (n & _ & Hr).
  destruct (resolve_Ok _ _ _ _ Hr) as ([e He] & n' & [[m k] xs] & f & He' & -> & Hff).
  destruct (render_parts n f m k xs) as (-> & Hlink & Hpax & Hhard).
  assert (is_Some (dget (cl_entries st) f)) as [ef Hef].
  { destruct Hff as [-> | [t Hdt]]; [by exists e|by destruct (first_entry _ _ _ _ _ _ Hacc Hd Hdt)]. }
  split_and!.
  - by apply (entry_source plog st).
  - intros Hne. pose proof (λ n e, texts_free _ n e.1.1 e.1.2 e.2 Hne Ht) as Hfree.
    assert (∀ n e, dget (cl_entries st) n = Some e → (n, (e.1.1, e.1.2, e.2)) ∈ cl_entries st) as Hin.
    { intros ? [[? ?] ?]. apply dget_Some_1. }
    destruct (Hfree _ _ (Hin _ _ He)) as (Fn & _), (Hfree _ _ (Hin _ _ Hef)) as (Ff & _).
    destruct (Hfree _ _ (Hin _ _ He')) as (_ & Fl & Fx). split_and!; [|done| |].
    2: { rewrite !elem_of_cons in Hlink. destruct Hlink as [-> | [-> | [-> | []%elem_of_nil]]]; done. }
    + by eapply (proj1 (Forall_lookup _ _) (Hs Hne)).
    + intros kv Hkv%Hpax. split; apply Fx, elem_of_app; [left|right]; by apply list_elem_of_fmap_2.
  - intros Hty. destruct (Hhard Hty) as [-> Hfn]. destruct Hff as [-> | [t Hdt]]; [done|].
    destruct (first_entry _ _ _ _ _ _ Hacc Hd Hdt) as (Hsf & info & Hri & Hti). exists info.
    split_and!; [by eapply Hout|by eapply resolve_name|done].
Qed.

(** C23. One upper yields one layer whatever the order of its members: if two archives
    hold the same members in different orders and both are accepted, their layers
    have the same entries, and so the same diff ID, size and member count. *)
Theorem filter_order_independent archive1 archive2 infos1 infos2 r1 r2 :
  archive1 ≡ₚ archive2 →
  filter_upper policy sha256_hex entry_bytes end_bytes secret_digests archive1 = Ok (infos1, r1) →
  filter_upper policy sha256_hex entry_bytes end_bytes secret_digests archive2 = Ok (infos2, r2) →
  infos1 = infos2 ∧ fr_diff_id r1 = fr_diff_id r2 ∧ fr_size r1 = fr_size r2 ∧ fr_members r1 = fr_members r2.
Proof.
  intros Hp (plog1 & st1 & d1 & w1 & P1 & A1 & _ & L1 & _ & W1 & D1 & S1 & M1)%filter_run
    (plog2 & st2 & d2 & w2 & P2 & A2 & _ & L2 & _ & W2 & D2 & S2 & M2)%filter_run.
  assert (same_upper plog1 plog2) as Hs by (unfold same_upper; by rewrite P1, P2).
  pose proof (keys_agree policy _ _ _ _ A1 A2 Hs) as Hk. rewrite (sorted_names_perm _ _ Hk) in W1.
  assert (∀ acc n, write (cl_entries st1) d1 acc n = write (cl_entries st2) d2 acc n) as Hw.
  { intros [infos w] n. unfold write, write_entry. rewrite (resolve_shown (cl_entries st1) (cl_entries st2) d1 d2); [done|..].
    - exact (entries_agree policy _ _ _ _ A1 A2 Hs).
    - exact (data_agree policy _ _ _ _ A1 A2 Hs _ _ L1 L2). }
  rewrite (res_foldl_ext _ _ _ _ Hw), W2 in W1. injection W1 as -> ->.
  split_and!; [done|congruence..|]. rewrite M1, M2. by rewrite Hk.
Qed.
End layers.

(** ** A layer *)
Definition demo_member (name : string) (t : tar_type) (link body : string) : member :=
  mkMember name t link (String.list_ascii_of_string body) 420 0 0 (7 # 2)%Q 0 0 [].
Definition demo_upper : list member :=
  [ demo_member "./work" TDir EmptyString EmptyString;
    demo_member "./work/z" TReg EmptyString "data";
    demo_member "./work/a" TLnk "./work/z" EmptyString;
    demo_member "./work/gone" TChr EmptyString EmptyString;
    demo_member "./work/also" TLnk "./work/gone" EmptyString;
    demo_member "./tmp/x" TReg EmptyString "scratch" ].
Definition demo_policy : CommitPolicy := mkPolicy [] [] [] COMMIT_MAX_BYTES false.
Definition demo_hash (l : list ascii) : string := String.string_of_list_ascii (take 8 l).
Definition demo_bytes (i : tar_info) : list ascii := String.list_ascii_of_string (o_name i) ++ o_body i.
Definition demo_filter : list member → res (list tar_info * FilterResult) :=
  filter_upper demo_policy demo_hash demo_bytes (λ _, [zero]) ["00000000"].
Definition demo_layer : list tar_info * FilterResult := 
  match demo_filter demo_upper with Ok l => l | Raise _ => ([], mkFilterResult EmptyString 0 0 []) end.

Lemma filter_layer_clean_witness :
  demo_filter demo_upper = Ok demo_layer ∧ o_name <$> demo_layer.1 = ["work"; "work/.wh.also"; "work/.wh.gone"; "work/a"; "work/z"] ∧
  (∀ info, info ∈ demo_layer.1 → o_type info = TLnk →
     ∃ first, first ∈ demo_layer.1 ∧ o_name first = o_linkname info ∧ o_type first = TReg).
Proof.
  assert (demo_filter demo_upper = Ok demo_layer) as H by (vm_compute; reflexivity).
  split; [exact H|]. split; [vm_compute; reflexivity|]. intros info Hin.
  exact (proj2 (proj2 (proj1 (filter_layer_clean demo_policy demo_hash demo_bytes (λ _, [zero]) ["00000000"]
    demo_upper demo_layer.1 demo_layer.2 H) info Hin))).
Defined.
Definition demo_reordered : list member :=
  demo_member "./tmp/x" TReg EmptyString "scratch" :: take 5 demo_upper.
Lemma filter_order_independent_witness :
  ∃ infos r, demo_filter demo_reordered = Ok (infos, r) ∧ demo_layer.1 = infos ∧ fr_diff_id demo_layer.2 = fr_diff_id r.
Proof.
  assert (demo_filter demo_upper = Ok demo_layer) as H1 by (vm_compute; reflexivity).
  assert (demo_filter demo_reordered = Ok demo_layer) as H2 by (vm_compute; reflexivity).
  assert (demo_upper ≡ₚ demo_reordered) as Hp 
    by exact (Permutation_sym (Permutation_cons_append (take 5 demo_upper) (demo_member "./tmp/x" TReg EmptyString "scratch"))).
  exists demo_layer.1, demo_layer.2. split; [exact H2|].
  destruct (filter_order_independent demo_policy demo_hash demo_bytes (λ _, [zero]) ["00000000"]
    demo_upper demo_reordered demo_layer.1 demo_layer.1 demo_layer.2 demo_layer.2 Hp H1 H2) as (E1 & E2 & _).
  exact (conj E1 E2).
Defined.
